(* ===== verification/_CoqProject ===== *)
-Q . S2P
Prelude.v
Errors.v
Logging.v
Events.v
Wheel.v
WheelSpec.v
WheelEquiv.v
Futures.v
FuturesSpec.v
Core.v
Driver.v
DriverSpec.v
TimeRegistry.v
TimeSpec.v
TimeWitness.v
Worker.v
WorkerSpec.v
Build.v
BlockOn.v
BlockOnSpec.v
BlockOnTime.v
FlowWitness.v
Scheduler.v
RuntimeWitness.v
Oneshot.v
Mpsc.v
MpscSpec.v
Blocking.v
BlockingSpec.v
BlockingFlow.v
PoolLife.v
JoinSelect.v
SyncWitness.v
BufferIO.v
BufferIOSpec.v
IOWitness.v
Epoll.v
EpollRace.v
Uring.v
UringSpec.v
RegistryWitness.v
Net.v
Format.v
Files.v
Tcp.v
TcpSpec.v
TcpFlow.v
BlockOnTcp.v
BlockOnAccept.v
TcpUring.v
BlockOnUring.v
NetWitness.v
Http.v
HttpSpec.v
HttpRequest.v
HttpSession.v
TcpSocket.v
TcpSocketSpec.v
Accept.v
Apps.v
Mains.v
FileOps.v
FileOpsSpec.v
Lifecycle.v
AppWitness.v
