(* ===== verification/Prelude.v ===== *)
(** * xyco: a verification of the coroutine runtime

    xyco is a C++ library of stackless coroutines: lazy futures, a runtime of
    worker threads that resume them, and registries that turn timers, blocking
    calls and kernel events into wake-ups.  This development models its operations
    as Rocq functions and step relations and proves what they guarantee.  Paths
    below are relative to [include/xyco] (interfaces, [.ccm]) and [src]
    (implementations, [.cc]) of the repository, the example to its root.

    ** The program and the files that model it

    A task is a coroutine with a [Future].  A worker takes handles from a queue
    and resumes them.  A future that cannot make progress binds itself to an
    [Event], gives the event to a registry through the driver and suspends.
    Between two rounds of the queue a worker asks the driver to select the ready
    events of its registries; [wake] puts their futures back in the queue.

    - [Prelude] (this file): names of heap objects, the state-and-exception monad
      [M] with the outcomes [Done], [Thrown] and [Undef] (undefined behaviour),
      integers of a fixed width, lists, reachability, tactics.
    - [Errors]: [utils/error], [utils/panic], the [TRY] macros, error numbers.
    - [Events]: [runtime/registry.ccm], the extras of every kind of event, the
      class [Registry] of the four virtual functions and [RegistryLaws], what the
      driver relies on.  [Wheel], the blocking registry, epoll and io_uring
      are its instances.
    - [Wheel], [WheelSpec]: [time/wheel], the hierarchical timing wheel;
      [WheelEquiv]: the list of timers it refines, which falls behind the clock as the
      wheel does.
    - [Futures], [FuturesSpec]: [runtime/future], with futures and coroutine
      frames in an explicit heap, so that moves, destruction and null or dangling
      pointers are visible.
    - [Core]: [runtime/core], the queues and [wake]; the record [World] is a
      runtime with the memory it shares.
    - [Driver], [DriverSpec]: [runtime/driver], [global_registry.ccm],
      [thread_local_registry.ccm], against the interface [RegistryLaws].
    - [TimeRegistry], [TimeSpec]: [time/registry], [time/clock], [time/sleep.ccm].
    - [Worker], [WorkerSpec]: the run loop of [runtime/core.cc], [block_on] and
      the builder of [runtime/runtime].  [Build]: the builder with the threads it
      starts and the registries it installs.  [BlockOn], [BlockOnSpec]: [block_on] of
      a coroutine of any [Future<T>] that awaits a future object, through its three
      coroutines; [BlockOnTime], [BlockOnTcp], [BlockOnAccept] and [BlockOnUring]: a
      sleep, a read and an accept over epoll, a read over io_uring.
    - [Scheduler]: the queue shared by the threads ([Module Queue]) and the start
      barrier ([Module Barrier]) as step relations, one step per critical section.
    - [Oneshot]; [Mpsc], [MpscSpec]: [sync/oneshot.ccm], [sync/mpsc.ccm].
    - [Blocking], [BlockingSpec]: [task/registry], [task/blocking_task.ccm].
      [BlockingFlow]: a task through future, registry, pool thread and queue;
      [PoolLife]: the pool with its clients, its threads and its destructor as a step
      relation.
    - [JoinSelect]: [task/join.ccm], [task/select.ccm], [time/timeout.ccm].
    - [BufferIO], [BufferIOSpec]: [io/buffer_reader.ccm], [io/read.ccm],
      [io/write.ccm].
    - [Epoll]; [Uring], [UringSpec]: [io/epoll/registry], [io/io_uring/registry].
      [EpollRace]: the epoll registry shared by threads, one step per critical
      section and system call.
    - [Net]: [net/socket]; the ownership of descriptors.
    - [Files]: [fs/file_common.ccm] and [OpenOptions::open] of [fs/epoll/file.cc].
      [FileOps], [FileOpsSpec]: the other operations on files of both back ends and
      [fs/utils.cc], over a file system that is a parameter (class [FileSystem]).
    - [Tcp], [TcpSpec]: the futures of [net/epoll/listener]; [TcpFlow]: a read
      through future, driver, registry and queue; [TcpUring]: the futures of
      [net/io_uring/listener] and the transfers of [fs/io_uring/file.ccm].
    - [TcpSocket], [TcpSocketSpec]: [TcpSocket], [TcpStream::connect],
      [TcpListener::bind] of both back ends: the calls they make and what becomes of
      the descriptors.
    - [Accept]: [TcpListener::accept] of both back ends, the loop of a server that
      accepts connections and the way of a connection through its coroutines.
    - [Http], [HttpSpec], [HttpRequest], [HttpSession]: the HTTP server of
      [examples/http_server.cc], over any stream and file.  [Apps]: the coroutines of
      [src/main.cc] and the server's start.  [Mains]: the two [main] functions.
    - [Lifecycle]: the construction and destruction of a runtime with its threads
      ([Module Lifecycle]) and [runtime/runtime_ctx], the thread-local context
      ([Module Context]).
    - [Format]: the texts of events, extras, sockets and files, with the date of a timer;
      [Logging]: [utils/logging], as calls of spdlog.
    - [TimeWitness], [FlowWitness], [RuntimeWitness], [SyncWitness], [IOWitness],
      [RegistryWitness], [NetWitness], [AppWitness]: the theorems at concrete
      inputs, which shows that their hypotheses can hold.

    ** What the theorems show

    - Timers.  [expire] walks whole milliseconds and drops the rest of the time that has
      passed: the wheel has a time of its own, behind the clock by what was dropped
      ([lag_after]).  At any readings of the clock it hands out only events that are due
      by the clock and all that are due by its own time ([wheel_equals_timer_list],
      [sleep_wakes_when_due]); when polls are whole milliseconds apart these agree, and
      it is a plain list of timers.  It is never a millisecond early under any clock
      ([time_select_never_early]); insertion is correct on every branch
      ([insert_event_correct]); what the three clocks read ([clock_readings]).  Its limits
      are theorems too: [expire_out_of_range], [submillisecond_polls_stall].
    - The driver and the queue.  What the registries select is queued in the order of
      selection; no event is lost or woken twice ([poll_wakes_selected],
      [wake_appends_in_order]); under every interleaving
      the queue is first in, first out and makes progress ([queue_is_fifo],
      [queue_makes_progress]); the start barrier and its holes
      ([barrier_waits_for_all], [barrier_holes]).
    - Futures.  Results, exceptions and cancellation reach the awaiter
      ([result_reaches_awaiter], [poll_wrapper_outcome], [cancel_marks_chain]) and
      no heap reachable without assigning over a future that holds a coroutine lets a
      promise dereference a dead future ([promises_never_dangle]); such an assignment does
      ([move_assign_strands_coroutine]).
    - The runtime.  The builder gives every worker an instance of every registry
      ([build_gives_registries]); [block_on] returns the result ([block_on_returns]),
      for a sleep when the wheel finds it due ([block_on_sleep_on_time]), for a read or an
      accept when the kernel reports it ([block_on_read_returns],
      [block_on_accept_returns], [block_on_uring_read_returns]);
      the resume loop terminates for work that shrinks ([resume_queue_terminates]), and only a
      suspension ends the loop ([run_in_place_needs_suspend]).  The destructor waits
      for the workers and returns ([destructor_waits_for_workers],
      [shutdown_terminates]); a thread acts on its own runtime only
      ([context_is_isolated]).
    - Channels and combinators.  The mpsc channel refines a bounded queue under
      every interleaving ([mpsc_is_bounded_fifo]), the oneshot channel delivers
      once, [join] waits for all, [select] for the first, [timeout] reports
      correctly; the races that lose wake-ups are exhibited as runs.
    - Blocking tasks.  A task that suspends is run once by a pool thread and its
      future returns the result ([blocking_task_end_to_end]); under every interleaving
      the pool runs every task it was given ([pool_runs_every_task]), one after another
      ([blocking_tasks_are_serialized]); its destructor can miss a worker and hang
      ([pool_destructor_hangs]).
    - Registries.  Epoll and io_uring hand out exactly what the kernel reports and
      submit exactly what was asked; cancellation over io_uring is shown to submit
      an unprepared entry and to make a late completion undefined.  Calls of several
      threads never make a selection miss an event ([epoll_select_always_finds]),
      except across a [deregister] ([epoll_deregister_race]).
    - Streams.  [read_to_end] and [write_all] transfer every byte once and
      terminate; a TCP read that suspends is armed, is queued when the kernel reports
      it and then returns what was read ([tcp_read_end_to_end]); what happens when a
      waiting future is destroyed ([dropped_read_report_undefined],
      [second_accept_never_resumed]); a read over io_uring returns the kernel's result;
      options of [open] become the right flags.
    - Descriptors.  Every open descriptor has one owner; [connect] and [bind] leak
      none on any branch ([stream_connect_never_leaks],
      [listener_bind_never_leaks]), nor does a server that accepts any number of
      connections and hands each from one coroutine to the next ([server_leaks_nothing]).
    - Text.  What a printed event shows of its extra ([printed_event_shows]); the logger is
      configured once ([logging_configures_once]).
    - Files.  Over epoll, what is written is read back ([file_roundtrip]); the attributes are
      those [statx] reports ([file_attributes]); over io_uring, where every transfer is
      at offset 0, [read_to_end] never returns ([uring_read_to_end_spins]).
    - Programs.  A session of the HTTP server receives the request that was sent
      ([http_receives_request]), when its body does not come with its head, and answers
      with the file or an error ([http_session_answers]); the servers start listening or run into undefined
      behaviour ([server_startup]); the client ends ([client_terminates]); both [main]
      functions build their runtime and start their coroutines ([programs_start]).

    ** Conventions, bounds and fuel

    Pointers are names in explicit stores; a null or dangling dereference, a
    dereferenced [end()] and an unchecked [*expected] are [Undef].  What comes
    from outside (clock readings, results of system calls, what a coroutine does
    when it is resumed, liburing, [inet_pton]) is a parameter or an environment
    argument; its assumed behaviour is in the classes [UringLaws], [Readable],
    [Writable], [RegularFile] and [RingFile] and in the hypotheses of the theorems.  The system clock ticks in
    microseconds, as in libc++; time points are integers without bound, as nothing comes
    near the 64 bits of [std::chrono], while the [int] of [expire] wraps.  Loops that are not structural take fuel: the run
    loop's fuel is enough when it is the cost of the queue
    ([resume_queue_terminates]), [cancel]'s when it is the length of the chain, a
    read's when it is the number of bytes left and one more, the HTTP server's when it
    is the length of the answer and two more; the nested resumptions of [block_on] need
    a depth of six; a run of the pool has at most as many steps as its measure
    ([pool_work]); running out of fuel has an outcome of its own ([false], [None] or
    [Undef]), which no result shares.  What the kernel or another thread decides at each
    poll (ready or not, error or not) is a list with one entry per poll.

    ** What is not modelled

    spdlog itself, the module interfaces, the re-exports of [utils/libc.ccm] and
    [utils/overload.ccm], the benchmarks, the dates of years that do not have four digits,
    memory ordering below the level of critical sections (the races named above are at
    that level), and copies of coroutine handles that user code keeps.  [io_uring_submit]
    is taken to accept what it is given, and readers of the buffered streams not to fail:
    the code dereferences an error.  A blocking task is
    the call it wraps where [fs] and [net] use one; its way through the pool is in
    [BlockingFlow] and [PoolLife].  The worker threads that [main] starts are those of
    [Scheduler] and [Lifecycle].  [std::min_element] over the queue lengths that other
    threads change is any choice of a queue. *)
From stdpp Require Import base gmap list sets strings relations sorting.
From Stdlib Require Import ZArith Lia.

#[global] Set Default Goal Selector "!".

Declare Scope xyco_scope.
Delimit Scope xyco_scope with xyco.
Open Scope xyco_scope.

(** ** Identifiers of heap objects

    Pointers of the C++ program are names of objects in explicit stores:
    [fid] for a [FutureBase *], [hid] for a coroutine handle, [eid] for the
    [Event] a [shared_ptr] points to, [tid] for a [std::thread::id].  A
    nullable pointer is an [option]. *)
Abbreviation fid := nat (only parsing).
Abbreviation hid := nat (only parsing).
Abbreviation eid := nat (only parsing).
Abbreviation tid := nat (only parsing).

(** ** Outcomes of a call and the state-and-exception monad *)

(** The C++ exceptions the sources throw or let through. *)
Inductive exn : Type :=
| CancelException
| OutOfRange
| RuntimeError
| BadOptionalAccess
| LengthError
| FilesystemError
| UserExn (code : nat).

#[global] Instance exn_eq_dec : EqDecision exn.
Proof. solve_decision. Defined.

(** A call returns, throws, or has undefined behaviour (a null or dangling
    pointer is dereferenced, [*it] at [end()], ...). *)
Inductive outcome (A : Type) : Type :=
| Done (a : A)
| Thrown (e : exn)
| Undef.
Arguments Done {A} a.
Arguments Thrown {A} e.
Arguments Undef {A}.

#[global] Instance outcome_eq_dec {A} `{EqDecision A} : EqDecision (outcome A).
Proof. solve_decision. Defined.

Definition M (S A : Type) : Type := S -> outcome A * S.

Definition ret {S A} (a : A) : M S A := fun s => (Done a, s).
Definition throw {S A} (e : exn) : M S A := fun s => (Thrown e, s).
Definition undef {S A} : M S A := fun s => (Undef, s).
Definition bind {S A B} (m : M S A) (k : A -> M S B) : M S B :=
  fun s => match m s with
           | (Done a, s') => k a s'
           | (Thrown e, s') => (Thrown e, s')
           | (Undef, s') => (Undef, s')
           end.
Definition get {S} : M S S := fun s => (Done s, s).
Definition put {S} (s' : S) : M S unit := fun _ => (Done tt, s').
Definition modify {S} (f : S -> S) : M S unit := fun s => (Done tt, f s).

(** Dereferencing a nullable pointer. *)
Definition deref {S A} (o : option A) : M S A :=
  match o with Some a => ret a | None => undef end.

(** [array::at] and [vector::at]. *)
Definition at_ {S A} (l : list A) (i : nat) : M S A :=
  match l !! i with Some a => ret a | None => throw OutOfRange end.

Notation "'let!' x ':=' m 'in' k" := (bind m (fun x => k))
  (at level 10, x name, m at level 100, k at level 200) : xyco_scope.
Notation "'let!' ( x , y ) ':=' m 'in' k" :=
  (bind m (fun p => match p with (x, y) => k end))
  (at level 10, x name, y name, m at level 100, k at level 200) : xyco_scope.
Notation "m1 ;;; m2" := (bind m1 (fun _ => m2))
  (at level 199, right associativity) : xyco_scope.

Fixpoint mfor {S A} (f : A -> M S unit) (l : list A) : M S unit :=
  match l with
  | [] => ret tt
  | x :: l' => f x ;;; mfor f l'
  end.

(** Runs [m] on a component of the state. *)
Definition zoom {S T A} (prj : S -> T) (upd : T -> S -> S) (m : M T A) : M S A :=
  fun s => let '(r, t) := m (prj s) in (r, upd t s).

(** The equations of the monad, as rewriting rules. *)
Lemma bind_done {S A B} (m : M S A) (k : A -> M S B) s a s' :
  m s = (Done a, s') -> bind m k s = k a s'.
Proof. unfold bind. by intros ->. Qed.

Lemma bind_thrown {S A B} (m : M S A) (k : A -> M S B) s e s' :
  m s = (Thrown e, s') -> bind m k s = (Thrown e, s').
Proof. unfold bind. by intros ->. Qed.

Lemma bind_undef {S A B} (m : M S A) (k : A -> M S B) s s' :
  m s = (Undef, s') -> bind m k s = (Undef, s').
Proof. unfold bind. by intros ->. Qed.

Lemma bind_inv_done {S A B} (m : M S A) (k : A -> M S B) s b s' :
  bind m k s = (Done b, s') ->
  exists a s1, m s = (Done a, s1) /\ k a s1 = (Done b, s').
Proof.
  unfold bind. destruct (m s) as [[a|e|] s1]; intros; simplify_eq; eauto.
Qed.

Lemma mfor_app {S A} (f : A -> M S unit) l1 l2 s :
  mfor f (l1 ++ l2) s = bind (mfor f l1) (fun _ => mfor f l2) s.
Proof.
  revert s. induction l1 as [|x l1 IH]; intros s; [done|].
  cbn. unfold bind at 1 3. unfold bind.
  destruct (f x s) as [[[]|e|] s1]; [|done|done].
  rewrite IH. unfold bind. done.
Qed.

(** ** Machine integers *)

(** Conversion to an unsigned or a two's complement type of width [w]. *)
Definition wrap_u (w : Z) (z : Z) : Z := (z mod 2 ^ w)%Z.
Definition wrap_s (w : Z) (z : Z) : Z :=
  ((z + 2 ^ (w - 1)) mod 2 ^ w - 2 ^ (w - 1))%Z.

Abbreviation to_uint8 := (wrap_u 8).
Abbreviation to_uint16 := (wrap_u 16).
Abbreviation to_uint32 := (wrap_u 32).
Abbreviation to_int32 := (wrap_s 32).

Lemma wrap_u_range w z : (0 <= w)%Z -> (0 <= wrap_u w z < 2 ^ w)%Z.
Proof. intros. unfold wrap_u. apply Z.mod_pos_bound. lia. Qed.

Lemma wrap_u_id w z : (0 <= z < 2 ^ w)%Z -> wrap_u w z = z.
Proof. intros. unfold wrap_u. by apply Z.mod_small. Qed.

Lemma wrap_s_id w z :
  (1 <= w)%Z -> (- 2 ^ (w - 1) <= z < 2 ^ (w - 1))%Z -> wrap_s w z = z.
Proof.
  intros Hw Hz. unfold wrap_s.
  assert (2 ^ w = 2 * 2 ^ (w - 1))%Z as Hp.
  { rewrite <- Z.pow_succ_r by lia. f_equal. lia. }
  rewrite Z.mod_small by lia. lia.
Qed.

(** ** Lists *)

(** [v.erase(std::find(v.begin(), v.end(), x))] when [x] is in [v]: the first
    occurrence goes. *)
Fixpoint erase_first (x : nat) (l : list nat) : list nat :=
  match l with
  | [] => []
  | y :: l' => if decide (x = y) then l' else y :: erase_first x l'
  end.

Lemma erase_first_perm x l : x ∈ l -> l ≡ₚ x :: erase_first x l.
Proof.
  induction l as [|y l IH]; intros Hx; [by apply elem_of_nil in Hx|].
  cbn. case_decide; [by subst|].
  apply elem_of_cons in Hx as [?|Hx]; [done|].
  rewrite Permutation_swap. by rewrite <- IH.
Qed.

Lemma erase_first_notin x l : x ∉ l -> erase_first x l = l.
Proof.
  induction l as [|y l IH]; intros Hx; [done|]. cbn.
  apply not_elem_of_cons in Hx as [? ?]. rewrite decide_False by done.
  by rewrite IH.
Qed.

Lemma erase_first_app_snoc x l : x ∉ l -> erase_first x (l ++ [x]) = l.
Proof.
  induction l as [|y l IH]; intros Hx; cbn; [by rewrite decide_True|].
  apply not_elem_of_cons in Hx as [? ?]. rewrite decide_False by done.
  by rewrite IH.
Qed.

Lemma mapM_ext_in {A B} (f g : A -> option B) l :
  (forall x, x ∈ l -> f x = g x) -> mapM f l = mapM g l.
Proof.
  induction l as [|x l IH]; intros Hfg; [done|]. cbn.
  rewrite (Hfg x) by (by left). by rewrite IH by (intros; apply Hfg; by right).
Qed.

(** Replacing an element moves a sum by the difference. *)
Lemma sum_list_insert {A} (f : A -> nat) l i x y :
  l !! i = Some x -> sum_list_with f (<[i := y]> l) + f x = sum_list_with f l + f y.
Proof.
  revert i. induction l as [|z l IH]; intros [|i] Hi; [done..| |].
  - injection Hi as ->. cbn. lia.
  - specialize (IH i Hi). change (<[S i := y]> (z :: l)) with (z :: <[i := y]> l).
    cbn [sum_list_with]. lia.
Qed.

Lemma sum_list_fmap_le {A} (f : A -> nat) (g : A -> A) l :
  (forall x, f (g x) <= f x) -> sum_list_with f (g <$> l) <= sum_list_with f l.
Proof. intros Hg. induction l as [|x l IH]; cbn; [done|]. specialize (Hg x). lia. Qed.

(** ** Step relations *)

(** An invariant of the initial states that every step preserves holds of
    every reachable state. *)
Lemma rtc_invariant {S} (step : S -> S -> Prop) (I : S -> Prop) s s' :
  (forall a b, I a -> step a b -> I b) -> I s -> rtc step s s' -> I s'.
Proof. intros Hstep Hs. induction 1; eauto. Qed.

(** ** Automation *)

Create HintDb xyco.
Create Rewrite HintDb xyco.
#[export] Hint Resolve wrap_u_range : xyco.
#[export] Hint Rewrite @length_insert @length_replicate @length_app
  @length_fmap : xyco.

(** Unfolds the monad in the goal. *)
Ltac mred :=
  cbv beta iota zeta delta [bind ret throw undef get put modify deref at_ zoom].

(** Case analysis on the discriminee of a [match] or an [if] of the goal or
    of a hypothesis, closing the impossible branches. *)
Ltac split_match :=
  match goal with
  | |- context [match ?x with _ => _ end] =>
      lazymatch x with
      | context [match _ with _ => _ end] => fail
      | _ => destruct x eqn:?
      end
  | H : context [match ?x with _ => _ end] |- _ =>
      lazymatch x with
      | context [match _ with _ => _ end] => fail
      | _ => destruct x eqn:?
      end
  end; simplify_eq/=.
