(* ===== verification/Errors.v ===== *)
(** Errors and results of the library: [include/xyco/utils/error.ccm],
    [src/utils/error.cc], the [TRY] macros of [include/xyco/utils/result.h]. *)
From stdpp Require Import base strings pretty list.
From Stdlib Require Import ZArith.
From S2P Require Import Prelude.

(** [std::expected<T, E>]. *)
Inductive Expected (E T : Type) : Type :=
| Value (v : T)
| Unexpected (e : E).
Arguments Value {E T} v.
Arguments Unexpected {E T} e.

#[global] Instance Expected_eq_dec {E T} `{EqDecision E, EqDecision T} :
  EqDecision (Expected E T).
Proof. solve_decision. Defined.

Inductive ErrorKind : Type := Uncategorized | Unsupported.

(** [std::to_underlying(ErrorKind)]: [Uncategorized = -2], then [-1]. *)
Definition ErrorKind_underlying (k : ErrorKind) : Z :=
  match k with Uncategorized => -2 | Unsupported => -1 end.

Record Error : Type := mkError { errno_ : Z; info_ : string }.

#[global] Instance Error_eq_dec : EqDecision Error.
Proof. solve_decision. Defined.

(** [panic]: it prints the stack and throws [std::runtime_error]. *)
Definition panic {S A} : M S A := throw RuntimeError.

Definition Result (T : Type) : Type := Expected Error T.

(** [expected::transform] and [expected::error]. *)
Definition transform {E T U} (f : T -> U) (r : Expected E T) : Expected E U :=
  match r with Value v => Value (f v) | Unexpected e => Unexpected e end.

Definition has_value {E T} (r : Expected E T) : bool :=
  match r with Value _ => true | Unexpected _ => false end.

(** The [TRY] macro: the error is returned from the enclosing function, the
    value is the value of the expression. *)
Definition TRY {E T U} (r : Expected E T) (k : T -> Expected E U) : Expected E U :=
  match r with Value v => k v | Unexpected e => Unexpected e end.

(** The [ASYNC_TRY] macro: the same in a coroutine. *)
Definition ASYNC_TRY {S E T U} (r : Expected E T) (k : T -> M S (Expected E U)) : M S (Expected E U) :=
  match r with Value v => k v | Unexpected e => ret (Unexpected e) end.

(** [*result] of a [std::expected<void, E>]: a precondition of [operator*] is
    that the object has a value. *)
Definition deref_expected {S E T} (r : Expected E T) : M S T :=
  match r with Value v => ret v | Unexpected _ => undef end.

(** [Error::from_sys_error] with the thread's [errno]. *)
Definition from_sys_error (errno : Z) : Error := mkError errno "".

(** Error numbers of Linux; the first two are one. *)
Definition EAGAIN : Z := 11.
Definition EWOULDBLOCK : Z := 11.
Definition EINTR : Z := 4.
Definition EINPROGRESS : Z := 115.
Definition EINVAL : Z := 22.

(** [into_sys_result]; [errno] is the thread's error number when it is called. *)
Definition into_sys_result (errno return_value : Z) : Result Z :=
  if (return_value =? -1)%Z then Unexpected (from_sys_error errno)
  else Value return_value.

(** [std::formatter<Error>::format]. *)
Definition Error_format (err : Error) : string :=
  if (0 <? errno_ err)%Z then
    "IoError{errno=" +:+ pretty (errno_ err) +:+ ", info=" +:+ info_ err +:+ "}"
  else
    let error_kind :=
      if (errno_ err =? ErrorKind_underlying Uncategorized)%Z then "Uncategorized"
      else if (errno_ err =? ErrorKind_underlying Unsupported)%Z then "Unsupported"
      else "Unknown" in
    "IoError{error_kind=" +:+ error_kind +:+ ", info=" +:+ info_ err +:+ "}".

(** ** Lemmas *)

Lemma into_sys_result_value errno r n :
  into_sys_result errno r = Value n <-> n = r /\ r <> (-1)%Z.
Proof.
  unfold into_sys_result. destruct (Z.eqb_spec r (-1)); naive_solver.
Qed.

Lemma into_sys_result_error errno r e :
  into_sys_result errno r = Unexpected e <-> e = mkError errno "" /\ r = (-1)%Z.
Proof.
  unfold into_sys_result, from_sys_error.
  destruct (Z.eqb_spec r (-1)); naive_solver.
Qed.

Lemma TRY_assoc {E T U V} (r : Expected E T) (k : T -> Expected E U)
    (h : U -> Expected E V) :
  TRY (TRY r k) h = TRY r (fun x => TRY (k x) h).
Proof. by destruct r. Qed.

Lemma transform_as_TRY {E T U} (f : T -> U) (r : Expected E T) :
  transform f r = TRY r (fun x => Value (f x)).
Proof. by destruct r. Qed.

#[export] Hint Rewrite @transform_as_TRY : xyco.

(** The two negative codes the library itself raises print as their kinds. *)
Example format_kinds :
  Error_format (mkError (ErrorKind_underlying Unsupported) "x")
    = "IoError{error_kind=Unsupported, info=x}"%string /\
  Error_format (mkError 11 "again") = "IoError{errno=11, info=again}"%string.
Proof. split; reflexivity. Qed.
