(* ===== verification/Logging.v ===== *)
(** Logging: [include/xyco/utils/logging.ccm], [src/utils/logging.cc].

    The library [spdlog] is outside: [SpdCall] are the calls the source makes of it, and
    its default level, which [load_env_levels] reads from the environment, is a
    parameter. *)
From stdpp Require Import base list strings.
From S2P Require Import Prelude.

Inductive LogLevel : Type := LevelTrace | LevelDebug | LevelInfo | LevelWarn | LevelError.

Inductive SpdCall : Type :=
| load_env_levels
| make_console_sink
| sink_set_pattern (pattern : string)
| make_daily_file_sink (name : string) (hour minute : nat) (truncate : bool)
| make_logger (name : string)
| logger_set_level (level : LogLevel)
| logger_set_pattern (pattern : string)
| logger_log (level : LogLevel) (message : string).

(** Whether the static [console] of [get_logger] is initialised, and the calls made. *)
Record LogState : Type := mkLogState {
  log_console : bool;
  log_calls : list SpdCall;
}.

Section Logging.
(** [XYCO_ENABLE_LOGGING], and [spdlog::get_level()]. *)
Variables (enabled : bool) (get_level : LogLevel).

Definition spd (c : SpdCall) : M LogState unit :=
  modify (fun s => mkLogState (log_console s) (log_calls s ++ [c])).

Definition log_pattern : string := "[%C-%m-%d %T.%e] [%l] [%t] [%@] %v".

(** The lambda [configure]. *)
Definition log_configure : M LogState unit :=
  spd load_env_levels ;;;
  spd make_console_sink ;;;
  spd (sink_set_pattern log_pattern) ;;;
  spd (make_daily_file_sink "runtime.txt" 0 0 true) ;;;
  spd (make_logger "xyco") ;;;
  spd (logger_set_level get_level) ;;;
  spd (logger_set_pattern log_pattern).

(** [LoggerCtx::get_logger]. *)
Definition get_logger : M LogState unit :=
  let! s := get in
  if log_console s then ret tt
  else log_configure ;;; modify (fun s => mkLogState true (log_calls s)).

(** [trace], [debug], [info], [warn] and [error] with the formatted message. *)
Definition log_at (level : LogLevel) (message : string) : M LogState unit :=
  if enabled then get_logger ;;; spd (logger_log level message) else ret tt.

Fixpoint log_all (messages : list (LogLevel * string)) : M LogState unit :=
  match messages with
  | [] => ret tt
  | (level, message) :: messages => log_at level message ;;; log_all messages
  end.

Definition configuring : list SpdCall :=
  [load_env_levels; make_console_sink; sink_set_pattern log_pattern;
   make_daily_file_sink "runtime.txt" 0 0 true; make_logger "xyco";
   logger_set_level get_level; logger_set_pattern log_pattern].

Lemma log_all_configured messages calls :
  enabled = true ->
  log_all messages (mkLogState true calls) =
    (Done tt, mkLogState true (calls ++ ((fun m => logger_log m.1 m.2) <$> messages))).
Proof.
  intros He. revert calls. induction messages as [|[level message] messages IH]; intros calls.
  - by rewrite app_nil_r.
  - cbn [log_all]. rewrite (bind_done _ _ _ tt (mkLogState true (calls ++ [logger_log level message]))).
    + rewrite IH. cbn. by rewrite <- (assoc_L (++)).
    + unfold log_at. by rewrite He.
Qed.

(** The program's messages reach the logger in order, each once, after one configuration,
    which the first message causes: the log file is truncated at most once.  Without
    [XYCO_ENABLE_LOGGING] nothing is done at all. *)
Theorem logging_configures_once messages :
  log_all messages (mkLogState false []) =
    (Done tt, if enabled && negb (bool_decide (messages = []))
              then mkLogState true (configuring ++ ((fun m => logger_log m.1 m.2) <$> messages))
              else mkLogState false []).
Proof.
  destruct enabled eqn:He.
  - destruct messages as [|[level message] messages]; [done|]. cbn [log_all].
    rewrite (bind_done _ _ _ tt (mkLogState true (configuring ++ [logger_log level message]))).
    + rewrite log_all_configured by done. cbn [fmap list_fmap andb negb]. rewrite bool_decide_false by done.
      by rewrite <- (assoc_L (++)).
    + unfold log_at. by rewrite He.
  - induction messages as [|[level message] messages IH]; [done|]. cbn [log_all].
    rewrite (bind_done _ _ _ tt (mkLogState false [])); [exact IH|]. unfold log_at. by rewrite He.
Qed.
End Logging.
