(* ===== verification/Events.v ===== *)
(** Events, their extras and the interface of a registry:
    [include/xyco/runtime/registry.ccm], with the data of the [Extra]
    subclasses declared in [time/registry.ccm], [task/registry.ccm],
    [io/epoll/registry.ccm] and [io/io_uring/registry.ccm]. *)
From stdpp Require Import base gmap list strings.
From Stdlib Require Import ZArith.
From S2P Require Import Prelude Errors.

(** ** Extras *)

(** [time::TimeExtra]: the expiry in ticks of [system_clock]. *)
Record TimeExtra : Type := mkTimeExtra { expire_time_ : Z }.

(** [task::BlockingExtra]: [before_extra_] names the closure to run,
    [after_extra_] is the pointer to its result, null until it has run. *)
Record BlockingExtra : Type := mkBlockingExtra {
  before_extra_ : nat;
  after_extra_ : option nat;
}.

(** [io::epoll::IoExtra::Interest] and [io::epoll::IoExtra]; the state is the
    [uint8_t] bit field [State::field_]. *)
Inductive Interest : Type := InterestRead | InterestWrite | InterestAll.

Record EpollExtra : Type := mkEpollExtra {
  ep_state_ : Z;
  interest_ : Interest;
  ep_fd_ : Z;
}.

(** [io::Shutdown]. *)
Inductive Shutdown : Type := ShutRead | ShutWrite | ShutAll.

(** [static_cast<std::underlying_type_t<io::Shutdown>>(shutdown)]. *)
Definition Shutdown_underlying (s : Shutdown) : Z :=
  match s with ShutRead => 0 | ShutWrite => 1 | ShutAll => 2 end.

(** The argument classes of [io::uring::IoExtra] and their variant. *)
Inductive UringArgs : Type :=
| UringRead (buf_ : nat) (len_ : Z) (offset_ : Z)
| UringWrite (buf_ : nat) (len_ : Z) (offset_ : Z)
| UringClose
| UringAccept (addr_ : nat) (addrlen_ : nat) (flags_ : Z)
| UringConnect (addr_ : nat) (addrlen_ : Z)
| UringShutdown (shutdown_ : Shutdown).

Record UringExtra : Type := mkUringExtra {
  args_ : UringArgs;
  ur_fd_ : Z;
  return_ : Z;
  ur_state_ : Z;
}.

(** The class hierarchy under [runtime::Extra]. *)
Inductive Extra : Type :=
| ETime (x : TimeExtra)
| EBlocking (x : BlockingExtra)
| EEpoll (x : EpollExtra)
| EUring (x : UringExtra).

Record Event : Type := mkEvent {
  future_ : option fid;
  extra_ : option Extra;
}.

(** The events in memory, by the address a [shared_ptr<Event>] holds. *)
Abbreviation EventStore := (gmap eid Event).

(** ** [dynamic_cast] of an event's extra *)

Definition time_extra (es : EventStore) (e : eid) : option TimeExtra :=
  match es !! e with
  | Some (mkEvent _ (Some (ETime x))) => Some x
  | _ => None
  end.

Definition blocking_extra (es : EventStore) (e : eid) : option BlockingExtra :=
  match es !! e with
  | Some (mkEvent _ (Some (EBlocking x))) => Some x
  | _ => None
  end.

Definition epoll_extra (es : EventStore) (e : eid) : option EpollExtra :=
  match es !! e with
  | Some (mkEvent _ (Some (EEpoll x))) => Some x
  | _ => None
  end.

Definition uring_extra (es : EventStore) (e : eid) : option UringExtra :=
  match es !! e with
  | Some (mkEvent _ (Some (EUring x))) => Some x
  | _ => None
  end.

Definition set_future (f : option fid) (ev : Event) : Event :=
  mkEvent f (extra_ ev).
Definition set_extra (x : Extra) (ev : Event) : Event :=
  mkEvent (future_ ev) (Some x).

(** The future bound to an event, [None] when the event is gone or unbound. *)
Definition future_of (es : EventStore) (e : eid) : option fid :=
  es !! e ≫= future_.

Lemma future_of_set_extra es e e' x :
  future_of (alter (set_extra x) e es) e' = future_of es e'.
Proof.
  unfold future_of. rewrite lookup_alter. case_decide; [subst|done].
  by destruct (es !! e') as [[]|].
Qed.

(** ** The interface of a registry

    [Registry] of [registry.ccm]: four virtual functions over the registry's
    own state and the events.  [Env] is what the operation reads from outside
    (the clock, the answers of the kernel). *)
Class Registry (R Env : Type) : Type := {
  Register : Env -> eid -> M (R * EventStore) (Result unit);
  reregister : Env -> eid -> M (R * EventStore) (Result unit);
  deregister : Env -> eid -> M (R * EventStore) (Result unit);
  select : Env -> Z -> M (R * EventStore * list eid) (Result unit);
}.

(** The extra of an event. *)
Definition extra_of (es : EventStore) (e : eid) : option Extra :=
  es !! e ≫= extra_.

(** What a registry promises to the driver.  [pending] is the list of the
    events it holds and [ready] the condition under which a call to [select]
    returns a value.  [select] then appends the events it takes out to the
    vector it is given: each of them was held, none is lost or duplicated.  It
    binds no event to another future, leaves the events it does not hold alone,
    and reads nothing of an event but its extra. *)
Class RegistryLaws (R Env : Type) `{Registry R Env} : Type := {
  pending : R -> list eid;
  ready : Env -> R -> EventStore -> Prop;
  ready_ext : forall env r es es',
    (forall e, e ∈ pending r -> extra_of es' e = extra_of es e) ->
    ready env r es -> ready env r es';
  select_spec : forall env timeout r es evs,
    ready env r es -> exists r' es' new,
      select env timeout (r, es, evs) = (Done (Value tt), (r', es', evs ++ new)) /\
      pending r ≡ₚ new ++ pending r' /\
      (forall e, future_of es' e = future_of es e) /\
      (forall e, e ∉ pending r -> es' !! e = es !! e);
}.

(** Two kinds of registries behind one interface: the driver's map holds
    [shared_ptr<Registry>] to different subclasses. *)
Section Sum.
Context {R1 E1 R2 E2 : Type} `{Registry R1 E1} `{Registry R2 E2}.

Definition inl_state {A} (m : M (R1 * EventStore) A) (r : R1) :
    M ((R1 + R2) * EventStore) A :=
  fun s => let '(o, (r', es')) := m (r, s.2) in (o, (inl r', es')).
Definition inr_state {A} (m : M (R2 * EventStore) A) (r : R2) :
    M ((R1 + R2) * EventStore) A :=
  fun s => let '(o, (r', es')) := m (r, s.2) in (o, (inr r', es')).

#[global] Instance sum_registry : Registry (R1 + R2) (E1 * E2) := {
  Register env e s := match s.1 with
    | inl r => inl_state (Register env.1 e) r s
    | inr r => inr_state (Register env.2 e) r s end;
  reregister env e s := match s.1 with
    | inl r => inl_state (reregister env.1 e) r s
    | inr r => inr_state (reregister env.2 e) r s end;
  deregister env e s := match s.1 with
    | inl r => inl_state (deregister env.1 e) r s
    | inr r => inr_state (deregister env.2 e) r s end;
  select env t s := match s.1.1 with
    | inl r => let '(o, (r', es', evs')) := select env.1 t (r, s.1.2, s.2) in
               (o, (inl r', es', evs'))
    | inr r => let '(o, (r', es', evs')) := select env.2 t (r, s.1.2, s.2) in
               (o, (inr r', es', evs')) end;
}.

#[global] Program Instance sum_registry_laws
    `{!RegistryLaws R1 E1, !RegistryLaws R2 E2} :
    RegistryLaws (R1 + R2) (E1 * E2) := {
  pending r := match r with inl r => pending r | inr r => pending r end;
  ready env r es := match r with
    | inl r => ready env.1 r es
    | inr r => ready env.2 r es end;
}.
Next Obligation.
  intros L1 L2 [e1 e2] [r|r] es es'; apply ready_ext.
Qed.
Next Obligation.
  intros L1 L2 [e1 e2] t [r|r] es evs Hr; cbn in *;
    destruct (select_spec _ t _ _ evs Hr) as (r' & es' & new & Hs & Hrest);
    rewrite Hs; do 3 eexists; split; done.
Qed.
End Sum.
