(* ===== verification/Wheel.v ===== *)
(** The hierarchical timing wheel: [include/xyco/time/wheel.ccm],
    [src/time/wheel.cc].

    Five levels of sixty slots.  The cursors of the levels are the base-60
    digits of the number of milliseconds walked so far ([tick]); an event that
    expires [d] milliseconds from now is filed under the highest digit in which
    [tick + d] differs from [tick] ([located]). *)
From stdpp Require Import base gmap list relations.
From Stdlib Require Import ZArith Lia.
From S2P Require Import Prelude Errors Events.

(** ** Data *)

Definition slot_num_ : nat := 60.
Definition level_num_ : nat := 5.
Definition interval_ms_ : Z := 1.

(** [system_clock::duration] of libc++ counts microseconds. *)
Definition ticks_per_ms : Z := 1000.

(** [duration_cast<milliseconds>(d).count()]: division toward zero. *)
Definition to_ms (d : Z) : Z := Z.quot d ticks_per_ms.

(** [current_it_] is the index of the slot the iterator points to. *)
Record Level : Type := mkLevel {
  events_ : list (list eid);
  current_it_ : nat;
}.

Record Wheel : Type := mkWheel {
  levels_ : list Level;
  now_ : Z;
}.

(** [Level::Level] and [Wheel::Wheel]. *)
Definition Level_new : Level := mkLevel (replicate slot_num_ []) 0.
Definition Wheel_new (clock_now : Z) : Wheel :=
  mkWheel (replicate level_num_ Level_new) clock_now.

(** [std::distance(it, events_.end())]. *)
Definition distance_to_end (it : nat) : Z := Z.of_nat slot_num_ - Z.of_nat it.

(** [std::advance(it, 1)] and the wrap at [events_.end()]. *)
Definition next_it (it : nat) : nat :=
  if Nat.eqb (S it) slot_num_ then 0 else S it.

(** [slot_it->push_back(e)]. *)
Definition Level_push (slot : nat) (e : eid) (l : Level) : Level :=
  mkLevel (alter (fun evs => evs ++ [e]) slot (events_ l)) (current_it_ l).

Definition Wheel_push (level slot : nat) (e : eid) (w : Wheel) : Wheel :=
  mkWheel (alter (Level_push slot e) level (levels_ w)) (now_ w).

(** ** [Wheel::insert_event] *)

(** The [while (total_steps > 0)] loop; [ls] are the levels from [level] on, so
    that [levels_.at(level)] throws when [ls] is empty. *)
Fixpoint insert_loop (ls : list Level) (level steps total_steps : Z)
    : option (Z * Z) :=
  if (0 <? total_steps)%Z then
    match ls with
    | [] => None
    | l :: ls' =>
        let steps := Z.rem total_steps (Z.of_nat slot_num_) in
        let another_cycle := (distance_to_end (current_it_ l) <=? steps)%Z in
        insert_loop ls' (level + 1) steps
          (Z.quot total_steps (Z.of_nat slot_num_) + Z.b2z another_cycle)
    end
  else Some (level, steps).

Definition insert_event (es : EventStore) (e : eid) : M Wheel unit :=
  let! w := get in
  let! x := deref (time_extra es e) in
  let total_steps := to_ms (expire_time_ x - now_ w) in
  match insert_loop (levels_ w) 0 0 total_steps with
  | None => throw OutOfRange
  | Some (level, steps) =>
      let level := Z.to_nat (Z.max (level - 1) 0) in
      let! l := at_ (levels_ w) level in
      let slot_it := current_it_ l in
      let steps :=
        if (distance_to_end slot_it <=? steps)%Z
        then (steps - Z.of_nat slot_num_)%Z else steps in
      let slot := (Z.of_nat slot_it + steps)%Z in
      if (0 <=? slot)%Z then
        deref (events_ l !! Z.to_nat slot) ;;;
        put (Wheel_push level (Z.to_nat slot) e w)
      else undef
  end.

(** ** [Wheel::walk] *)

(** The first loop: the number of slots to advance at each level.  The array
    [level_steps] is the list of the entries written so far; the others are the
    zeros of its value-initialization. *)
Fixpoint walk_loop (ls : list Level) (level steps : Z) (level_steps : list Z)
    : option (Z * list Z) :=
  if (0 <? steps)%Z then
    match ls with
    | [] => None
    | l :: ls' =>
        let s := Z.rem steps (Z.of_nat slot_num_) in
        let another_cycle := (distance_to_end (current_it_ l) <=? s)%Z in
        walk_loop ls' (level + 1)
          (Z.quot steps (Z.of_nat slot_num_) + Z.b2z another_cycle)
          (level_steps ++ [s])
    end
  else Some (level, level_steps).

(** The body shared by the two draining loops, [n] times: append the slot's
    events to [events], clear the slot, move to the next one. *)
Fixpoint drain (n it : nat) (slots : list (list eid)) (events : list eid)
    : nat * list (list eid) * list eid :=
  match n with
  | O => (it, slots, events)
  | S n' => drain n' (next_it it) (<[it := []]> slots)
              (events ++ default [] (slots !! it))
  end.

(** One turn of [for (i = 0; i < level; i++)]: a whole turn of the level, then
    the cursor moves by the level's steps. *)
Definition walk_lower (tmp_steps : Z) (l : Level) (events : list eid)
    : Level * list eid :=
  let '(slot_it, slots, events) :=
    drain slot_num_ (current_it_ l) (events_ l) events in
  let tmp_steps :=
    if (distance_to_end slot_it <=? tmp_steps)%Z
    then (tmp_steps - Z.of_nat slot_num_)%Z else tmp_steps in
  (mkLevel slots (Z.to_nat (Z.of_nat slot_it + tmp_steps)), events).

(** [for (i = 0; i < level_steps.at(level); i++)]. *)
Definition walk_top (steps : Z) (l : Level) (events : list eid)
    : Level * list eid :=
  let '(slot_it, slots, events) :=
    drain (Z.to_nat steps) (current_it_ l) (events_ l) events in
  (mkLevel slots slot_it, events).

(** The two draining loops over the levels: the last entry of [level_steps]
    is the top level's. *)
Fixpoint walk_levels (level_steps : list Z) (ls : list Level) (events : list eid)
    : list Level * list eid :=
  match level_steps, ls with
  | [], _ | _, [] => (ls, events)
  | [s], l :: ls' =>
      let '(l', events) := walk_top s l events in (l' :: ls', events)
  | s :: ss, l :: ls' =>
      let '(l', events) := walk_lower s l events in
      let '(ls'', events) := walk_levels ss ls' events in
      (l' :: ls'', events)
  end.

(** [reinsert_events = *slot_it; slot_it->clear();] and the reinsertions. *)
Definition reinsert_slot (es : EventStore) (level it : nat) : M Wheel unit :=
  let! w := get in
  let! l := at_ (levels_ w) level in
  let reinsert_events := default [] (events_ l !! it) in
  put (mkWheel (<[level := mkLevel (<[it := []]> (events_ l)) (current_it_ l)]>
                  (levels_ w)) (now_ w)) ;;;
  mfor (insert_event es) reinsert_events.

Definition walk (es : EventStore) (steps : Z) : M (Wheel * list eid) unit :=
  let! (w, events) := get in
  match walk_loop (levels_ w) 0 steps [] with
  | None => throw OutOfRange
  | Some (level, level_steps) =>
      let level := Z.to_nat (Z.max (level - 1) 0) in
      let '(ls, events) := walk_levels level_steps (levels_ w) events in
      put (mkWheel ls (now_ w), events) ;;;
      let! l := at_ ls level in
      let slot_it := current_it_ l in
      zoom fst (fun w s => (w, s.2)) (reinsert_slot es level slot_it) ;;;
      zoom fst (fun w s => (w, s.2)) (reinsert_slot es level (next_it slot_it)) ;;;
      let! (w, events) := get in
      let! l0 := at_ (levels_ w) 0 in
      let slot_it := current_it_ l0 in
      put (mkWheel (<[0 := mkLevel (<[slot_it := []]> (events_ l0)) slot_it]>
                      (levels_ w)) (now_ w),
           events ++ default [] (events_ l0 !! slot_it))
  end.

(** ** [Wheel::expire] *)
Definition expire (es : EventStore) (clock_now : Z) : M (Wheel * list eid) unit :=
  let! (w, events) := get in
  if (now_ w <? clock_now)%Z then
    let steps := Z.quot (to_ms (clock_now - now_ w)) interval_ms_ in
    put (mkWheel (levels_ w) clock_now, events) ;;;
    walk es (to_int32 steps)
  else ret tt.
