(* ===== verification/WheelSpec.v ===== *)
(** Correctness of the timing wheel: where an event is filed, what a walk
    takes out, and how the wheel behaves on its clock. *)
From stdpp Require Import base gmap list relations.
From Stdlib Require Import ZArith Lia.
From S2P Require Import Prelude Errors Events Wheel.

Local Open Scope Z_scope.
Local Ltac Zify.zify_post_hook ::= Z.div_mod_to_equations.

(** ** Base-60 arithmetic *)

Definition pw (L : nat) : Z := 60 ^ Z.of_nat L.

Lemma pw_0 : pw 0 = 1.
Proof. done. Qed.

Lemma pw_S L : pw (S L) = 60 * pw L.
Proof. unfold pw. rewrite Nat2Z.inj_succ, Z.pow_succ_r; lia. Qed.

Lemma pw_pos L : 0 < pw L.
Proof. unfold pw. lia. Qed.
#[local] Hint Resolve pw_pos : core.

Lemma div_pw_S T L : T / pw (S L) = T / 60 / pw L.
Proof. rewrite pw_S. symmetry. apply Z.div_div; [lia|auto]. Qed.

Lemma div_pw_S' T L : T / pw (S L) = T / pw L / 60.
Proof.
  rewrite pw_S, Z.mul_comm. symmetry.
  apply Z.div_div; [pose proof (pw_pos L); lia|lia].
Qed.

(** [T] is filed at level [L], slot [s] when the clock stands at [c]: [L] is
    the highest digit in which [T] and [c] differ and [s] that digit of [T]. *)
Definition located (c T : Z) (L s : nat) : Prop :=
  T / pw (S L) = c / pw (S L) /\
  (T / pw L <> c / pw L \/ (L = O /\ T = c)) /\
  Z.of_nat s = (T / pw L) mod 60.

Lemma located_shift c T L s :
  located (c / 60) (T / 60) L s -> T / 60 <> c / 60 -> located c T (S L) s.
Proof.
  unfold located. rewrite !(div_pw_S _ (S L)), !(div_pw_S _ L).
  intros (H1 & H2 & H3) Hne. split_and!; [done| |done].
  left. destruct H2 as [H2|[-> H2]]; [done|lia].
Qed.

(** ** Well-formed wheels and their tick *)

Definition wf_level (l : Level) : Prop :=
  length (events_ l) = slot_num_ /\ (current_it_ l < slot_num_)%nat.

Fixpoint tick_of (ls : list Level) : Z :=
  match ls with
  | [] => 0
  | l :: ls' => Z.of_nat (current_it_ l) + 60 * tick_of ls'
  end.

Definition tick (w : Wheel) : Z := tick_of (levels_ w).

Definition wf_wheel (w : Wheel) : Prop :=
  length (levels_ w) = level_num_ /\ Forall wf_level (levels_ w).

(** The ticks a wheel can hold: [60^5] milliseconds, nine days. *)
Definition capacity : Z := pw level_num_.

Lemma tick_of_range ls :
  Forall wf_level ls -> 0 <= tick_of ls < pw (length ls).
Proof.
  induction 1 as [|l ls [_ Hl] _ IH]; cbn [tick_of length]; [done|].
  rewrite pw_S. unfold slot_num_ in Hl. lia.
Qed.

Lemma tick_of_cons_div l ls :
  wf_level l -> tick_of (l :: ls) / 60 = tick_of ls.
Proof. intros [_ Hl]. cbn. unfold slot_num_ in Hl. lia. Qed.

(** ** Where [insert_event] files an event *)

(** One turn of the loop divides the target tick by 60: the carry is the one
    of the addition of [total] to the cursor's digit. *)
Lemma loop_carry l total :
  wf_level l -> 0 < total ->
  Z.quot total (Z.of_nat slot_num_) +
    Z.b2z (distance_to_end (current_it_ l) <=? Z.rem total (Z.of_nat slot_num_))
  = (Z.of_nat (current_it_ l) + total) / 60.
Proof.
  intros [_ Hl] Ht. unfold distance_to_end, slot_num_ in *.
  rewrite Z.quot_div_nonneg, Z.rem_mod_nonneg by lia.
  destruct (Z.leb_spec (Z.of_nat 60 - Z.of_nat (current_it_ l))
              (total mod Z.of_nat 60)); cbn [Z.b2z]; lia.
Qed.

Lemma insert_loop_ok ls lvl st total :
  Forall wf_level ls -> 0 < total -> tick_of ls + total < pw (length ls) ->
  exists L steps l,
    insert_loop ls lvl st total = Some (lvl + Z.of_nat L + 1, steps) /\
    ls !! L = Some l /\ 0 <= steps /\
    Z.of_nat (current_it_ l) + steps < 60 /\
    located (tick_of ls) (tick_of ls + total) L
      (Z.to_nat (Z.of_nat (current_it_ l) + steps)).
Proof.
  intros Hwf. revert lvl st total.
  induction Hwf as [|l ls Hl Hls IH]; intros lvl st total Ht Hlt.
  { cbn in Hlt. rewrite pw_0 in Hlt. lia. }
  cbn [insert_loop]. rewrite (proj2 (Z.ltb_lt _ _) Ht).
  rewrite (loop_carry l total Hl Ht).
  pose proof Hl as [_ Hcur]. unfold slot_num_ in Hcur.
  cbn [length tick_of] in Hlt |- *. rewrite pw_S in Hlt.
  set (c := Z.of_nat (current_it_ l)) in *. set (c' := tick_of ls) in *.
  set (total' := (c + total) / 60) in *.
  assert ((c + 60 * c') / 60 = c') as Hc by lia.
  assert ((c + 60 * c' + total) / 60 = c' + total') as HT by lia.
  destruct (decide (0 < total')) as [Hpos|Hneg].
  - destruct (IH (lvl + 1) (Z.rem total (Z.of_nat slot_num_)) total' Hpos)
      as (L & steps & l' & Heq & Hl' & Hst & Hlt' & Hloc); [lia|].
    exists (S L), steps, l'. rewrite Heq. split_and!; [do 2 f_equal; lia|done|done|done|].
    apply located_shift; [by rewrite Hc, HT|lia].
  - assert (total' = 0) by lia.
    exists O, total, l. split_and!; [|done|lia|lia|].
    + assert (Z.rem total (Z.of_nat slot_num_) = total) as ->.
      { unfold slot_num_. rewrite Z.rem_small; lia. }
      destruct ls; cbn [insert_loop];
        (destruct (Z.ltb_spec 0 total'); [lia|]); do 2 f_equal; lia.
    + fold c. unfold located. rewrite pw_S, pw_0.
      split_and!; [lia|left; lia|lia].
Qed.

Lemma insert_loop_overflow ls lvl st total :
  Forall wf_level ls -> 0 < total -> pw (length ls) <= tick_of ls + total ->
  insert_loop ls lvl st total = None.
Proof.
  intros Hwf. revert lvl st total.
  induction Hwf as [|l ls Hl Hls IH]; intros lvl st total Ht Hge;
    cbn [insert_loop]; rewrite (proj2 (Z.ltb_lt _ _) Ht); [done|].
  rewrite (loop_carry l total Hl Ht).
  pose proof Hl as [_ Hcur]. unfold slot_num_ in Hcur.
  cbn [length tick_of] in Hge. rewrite pw_S in Hge.
  pose proof (tick_of_range ls Hls).
  apply IH; lia.
Qed.

(** ** The contents of a wheel *)

Definition slot_at (w : Wheel) (L s : nat) : list eid :=
  default [] (levels_ w !! L ≫= fun l => events_ l !! s).

Definition stored (w : Wheel) : list eid :=
  concat ((fun l => concat (events_ l)) <$> levels_ w).

(** Every change of the contents is a change of one slot. *)
Definition upd_slot (L s : nat) (f : list eid -> list eid) (w : Wheel) : Wheel :=
  mkWheel (alter (fun l => mkLevel (alter f s (events_ l)) (current_it_ l)) L
             (levels_ w)) (now_ w).

Lemma Wheel_push_upd L s e w :
  Wheel_push L s e w = upd_slot L s (fun evs => evs ++ [e]) w.
Proof. done. Qed.

Lemma alter_as_insert {A} (f : A -> A) (l : list A) i x :
  l !! i = Some x -> alter f i l = <[i := f x]> l.
Proof.
  intros Hi. apply list_eq. intros j. destruct (decide (j = i)) as [->|].
  - rewrite list_lookup_alter_eq, Hi.
    by rewrite list_lookup_insert_eq by (by eapply lookup_lt_Some).
  - by rewrite list_lookup_alter_ne, list_lookup_insert_ne by done.
Qed.

Lemma clear_upd L s l w :
  levels_ w !! L = Some l ->
  mkWheel (<[L := mkLevel (<[s := []]> (events_ l)) (current_it_ l)]> (levels_ w))
    (now_ w) = upd_slot L s (fun _ => []) w.
Proof.
  intros Hl. unfold upd_slot. rewrite (alter_as_insert _ _ _ _ Hl).
  do 3 f_equal. destruct (events_ l !! s) as [sl|] eqn:E.
  - by rewrite (alter_as_insert _ _ _ _ E).
  - rewrite list_insert_ge by (by apply lookup_ge_None).
    apply list_eq. intros j. destruct (decide (j = s)) as [->|].
    + by rewrite list_lookup_alter_eq, E.
    + by rewrite list_lookup_alter_ne.
Qed.

Lemma tick_of_ext ls ls' :
  current_it_ <$> ls = current_it_ <$> ls' -> tick_of ls = tick_of ls'.
Proof.
  revert ls'. induction ls as [|l ls IH]; intros [|l' ls'] H; try done.
  cbn in *. injection H as H1 H2. by rewrite H1, (IH _ H2).
Qed.

Lemma tick_upd_slot L s f w : tick (upd_slot L s f w) = tick w.
Proof.
  apply tick_of_ext. cbn. apply list_eq. intros i. rewrite !list_lookup_fmap.
  destruct (decide (i = L)) as [->|].
  - rewrite list_lookup_alter_eq. by destruct (levels_ w !! L).
  - by rewrite list_lookup_alter_ne.
Qed.

Lemma wf_upd_slot L s f w : wf_wheel w -> wf_wheel (upd_slot L s f w).
Proof.
  intros [Hlen Hwf]. split; cbn; [by rewrite length_alter|].
  apply Forall_alter; [done|]. intros l _ [He Hc]. split; cbn; [|done].
  by rewrite length_alter.
Qed.

Lemma slot_at_upd_slot L s f w L' s' :
  wf_wheel w -> (L < level_num_)%nat -> (s < slot_num_)%nat ->
  slot_at (upd_slot L s f w) L' s' =
    if decide (L' = L /\ s' = s) then f (slot_at w L s) else slot_at w L' s'.
Proof.
  intros [Hlen Hwf] HL Hs. unfold slot_at. cbn.
  destruct (lookup_lt_is_Some_2 (levels_ w) L) as [l Hl]; [by rewrite Hlen|].
  rewrite Forall_lookup in Hwf. destruct (Hwf _ _ Hl) as [Hev _].
  destruct (lookup_lt_is_Some_2 (events_ l) s) as [sl Hsl]; [by rewrite Hev|].
  destruct (decide (L' = L)) as [->|].
  - rewrite list_lookup_alter_eq, Hl. cbn. destruct (decide (s' = s)) as [->|].
    + rewrite decide_True by done. by rewrite list_lookup_alter_eq, Hsl.
    + rewrite decide_False by tauto. by rewrite list_lookup_alter_ne.
  - rewrite decide_False by tauto. by rewrite list_lookup_alter_ne.
Qed.

Lemma concat_alter {A} (ls : list (list A)) i x :
  ls !! i = Some x ->
  exists rest, concat ls ≡ₚ x ++ rest /\
    forall f, concat (alter f i ls) ≡ₚ f x ++ rest.
Proof.
  intros Hi. exists (concat (take i ls) ++ concat (drop (S i) ls)).
  assert (forall y, concat (take i ls ++ y :: drop (S i) ls) ≡ₚ
            y ++ concat (take i ls) ++ concat (drop (S i) ls)) as Hmid.
  { intros y. rewrite concat_app. cbn. solve_Permutation. }
  split.
  - rewrite <- Hmid. by rewrite take_drop_middle.
  - intros f. rewrite <- Hmid, <- insert_take_drop by (by eapply lookup_lt_Some).
    by rewrite (alter_as_insert f ls i x Hi).
Qed.

Lemma stored_upd_slot L s w :
  wf_wheel w -> (L < level_num_)%nat -> (s < slot_num_)%nat ->
  exists rest, stored w ≡ₚ slot_at w L s ++ rest /\
    forall f, stored (upd_slot L s f w) ≡ₚ f (slot_at w L s) ++ rest.
Proof.
  intros [Hlen Hwf] HL Hs. unfold slot_at, stored. cbn.
  destruct (lookup_lt_is_Some_2 (levels_ w) L) as [l Hl]; [by rewrite Hlen|].
  rewrite Forall_lookup in Hwf. destruct (Hwf _ _ Hl) as [Hev _].
  destruct (lookup_lt_is_Some_2 (events_ l) s) as [sl Hsl]; [by rewrite Hev|].
  rewrite Hl. cbn. rewrite Hsl. cbn.
  destruct (concat_alter (events_ l) s sl Hsl) as (r1 & Hr1 & Hf1).
  destruct (concat_alter ((fun l => concat (events_ l)) <$> levels_ w) L
              (concat (events_ l))) as (r2 & Hr2 & Hf2);
    [by rewrite list_lookup_fmap, Hl|].
  exists (r1 ++ r2). split; [by rewrite Hr2, Hr1, (assoc (++))|].
  intros f. rewrite (assoc (++)), <- Hf1.
  rewrite <- (Hf2 (fun _ => concat (alter f s (events_ l)))).
  apply reflexive_eq. f_equal. apply list_eq. intros i. rewrite list_lookup_fmap.
  destruct (decide (i = L)) as [->|].
  - by rewrite !list_lookup_alter_eq, list_lookup_fmap, Hl.
  - by rewrite !list_lookup_alter_ne, list_lookup_fmap by done.
Qed.

Lemma elem_of_stored w e :
  e ∈ stored w <-> exists L s, e ∈ slot_at w L s.
Proof.
  unfold stored, slot_at. rewrite list_elem_of_In, in_concat. split.
  - intros (evs & Hevs & He). apply in_map_iff in Hevs as (l & <- & Hl).
    apply list_elem_of_In, list_elem_of_lookup in Hl as [L HL].
    apply in_concat in He as (sl & Hsl & He).
    apply list_elem_of_In, list_elem_of_lookup in Hsl as [s Hs].
    exists L, s. rewrite HL. cbn. rewrite Hs. cbn. by apply list_elem_of_In.
  - intros (L & s & He). destruct (levels_ w !! L) as [l|] eqn:HL; [|by apply elem_of_nil in He].
    cbn in He. destruct (events_ l !! s) as [sl|] eqn:Hs; [|by apply elem_of_nil in He].
    cbn in He. exists (concat (events_ l)). split.
    + apply in_map_iff. exists l. split; [done|].
      apply list_elem_of_In, list_elem_of_lookup. eauto.
    + apply in_concat. exists sl. split; apply list_elem_of_In; [|done].
      apply list_elem_of_lookup. eauto.
Qed.

Lemma slot_at_range w L s e :
  wf_wheel w -> e ∈ slot_at w L s -> (L < level_num_)%nat /\ (s < slot_num_)%nat.
Proof.
  intros [Hlen Hwf] He. unfold slot_at in He.
  destruct (levels_ w !! L) as [l|] eqn:HL; [|by apply elem_of_nil in He].
  cbn in He. destruct (events_ l !! s) as [sl|] eqn:Hs; [|by apply elem_of_nil in He].
  rewrite Forall_lookup in Hwf. destruct (Hwf _ _ HL) as [Hev _].
  split; [rewrite <- Hlen|rewrite <- Hev]; by eapply lookup_lt_Some.
Qed.

(** ** [insert_event] on a well-formed wheel *)

(** The milliseconds an event has left, none when it is late. *)
Definition delay (x : TimeExtra) (now : Z) : Z := Z.max 0 (to_ms (expire_time_ x - now)).

Lemma insert_event_files es e x w :
  wf_wheel w -> time_extra es e = Some x -> tick w + delay x (now_ w) < capacity ->
  exists L s,
    insert_event es e w = (Done tt, Wheel_push L s e w) /\
    located (tick w) (tick w + delay x (now_ w)) L s /\
    (L < level_num_)%nat /\ (s < slot_num_)%nat.
Proof.
  intros [Hlen Hwf] Hx Hcap. unfold delay in *. unfold insert_event. mred. rewrite Hx.
  set (total := to_ms (expire_time_ x - now_ w)) in *.
  assert (forall L l s, levels_ w !! L = Some l -> 0 <= s < 60 ->
            (L < level_num_)%nat /\ is_Some (events_ l !! Z.to_nat s)) as Hin.
  { intros L l s HL Hs. split; [rewrite <- Hlen; by eapply lookup_lt_Some|].
    apply lookup_lt_is_Some_2. rewrite Forall_lookup in Hwf.
    destruct (Hwf _ _ HL) as [-> _]. unfold slot_num_. lia. }
  assert (forall L l st, levels_ w !! L = Some l -> 0 <= st ->
            Z.of_nat (current_it_ l) + st < 60 ->
            (distance_to_end (current_it_ l) <=? st) = false /\
            (0 <=? Z.of_nat (current_it_ l) + st) = true) as Hno.
  { intros L l st HL Hst Hlt. unfold distance_to_end, slot_num_.
    split; [apply Z.leb_gt|apply Z.leb_le]; lia. }
  destruct (decide (0 < total)) as [Hpos|Hneg].
  - rewrite Z.max_r in Hcap |- * by lia.
    destruct (insert_loop_ok (levels_ w) 0 0 total Hwf Hpos)
      as (L & steps & l & -> & HL & Hst & Hlt & Hloc); [by rewrite Hlen|].
    exists L, (Z.to_nat (Z.of_nat (current_it_ l) + steps)).
    replace (Z.to_nat (Z.max (0 + Z.of_nat L + 1 - 1) 0)) with L by lia.
    rewrite HL. destruct (Hno _ _ _ HL Hst Hlt) as [-> ->].
    destruct (Hin L l (Z.of_nat (current_it_ l) + steps) HL) as [HLn [sl ->]]; [lia|].
    split_and!; [done|done|done|unfold slot_num_; lia].
  - rewrite Z.max_l in Hcap |- * by lia.
    destruct (lookup_lt_is_Some_2 (levels_ w) 0) as [l HL].
    { rewrite Hlen. unfold level_num_. lia. }
    pose proof Hwf as Hwf'. rewrite Forall_lookup in Hwf'.
    destruct (Hwf' _ _ HL) as [_ Hc]. unfold slot_num_ in Hc.
    assert (insert_loop (levels_ w) 0 0 total = Some (0, 0)) as ->.
    { destruct (levels_ w); cbn [insert_loop];
        by rewrite (proj2 (Z.ltb_ge 0 total)) by lia. }
    exists O, (current_it_ l). change (Z.to_nat (Z.max (0 - 1) 0)) with O.
    rewrite HL. destruct (Hno _ l 0 HL) as [-> ->]; [lia|lia|].
    destruct (Hin O l (Z.of_nat (current_it_ l) + 0) HL) as [HLn [sl ->]]; [lia|].
    replace (Z.to_nat (Z.of_nat (current_it_ l) + 0)) with (current_it_ l) by lia.
    split_and!; [done| |done|done].
    unfold located. rewrite Z.add_0_r. split_and!; [done|by right|].
    unfold tick. destruct (levels_ w) as [|l0 ls]; simplify_eq/=.
    rewrite pw_0, Z.div_1_r. lia.
Qed.

Lemma insert_event_overflow es e x w :
  wf_wheel w -> time_extra es e = Some x -> capacity <= tick w + delay x (now_ w) ->
  insert_event es e w = (Thrown OutOfRange, w).
Proof.
  intros [Hlen Hwf] Hx Hcap. unfold delay in *. unfold insert_event. mred. rewrite Hx.
  unfold tick in Hcap. pose proof (tick_of_range _ Hwf) as Hr. rewrite Hlen in Hr.
  unfold capacity in Hcap.
  rewrite (insert_loop_overflow (levels_ w) 0 0 (to_ms (expire_time_ x - now_ w))); [done|done|lia|].
  rewrite Hlen. lia.
Qed.

(** ** The invariant of the wheel

    [ok r d] relates the time an event has left, [r] ticks of the clock, to
    the distance [d] of the tick it is filed under. *)
Section Invariant.
Context (ok : Z -> Z -> Prop).

Definition filed (es : EventStore) (c now : Z) (L s : nat) (e : eid) : Prop :=
  exists x T, time_extra es e = Some x /\ located c T L s /\
    c <= T < capacity /\ ok (expire_time_ x - now) (T - c).

(** The invariant outside the slots in [P]. *)
Definition winv_but (P : nat -> nat -> Prop) (es : EventStore) (w : Wheel) : Prop :=
  wf_wheel w /\ forall L s e, e ∈ slot_at w L s -> ~ P L s ->
    filed es (tick w) (now_ w) L s e.

Definition winv : EventStore -> Wheel -> Prop := winv_but (fun _ _ => False).

Definition fits (es : EventStore) (w : Wheel) (e : eid) : Prop :=
  exists x, time_extra es e = Some x /\ tick w + delay x (now_ w) < capacity.

(** What a freshly filed event satisfies, and that a filed event fits. *)
Hypothesis ok_insert : forall r, ok r (Z.max 0 (to_ms r)).
Hypothesis ok_bound : forall r d, 0 <= d -> ok r d -> to_ms r <= d.

Lemma winv_fits es w L s e : winv es w -> e ∈ slot_at w L s -> fits es w e.
Proof.
  intros [Hwf Hinv] He. destruct (Hinv L s e He) as (x & T & Hx & _ & HT & Hok); [tauto|].
  exists x. split; [done|]. unfold delay.
  assert (to_ms (expire_time_ x - now_ w) <= T - tick w) by (apply ok_bound; [lia|done]).
  lia.
Qed.

(** The tick, the time and the cursors, which filing an event preserves. *)
Definition same_clock (w w' : Wheel) : Prop :=
  now_ w' = now_ w /\ current_it_ <$> levels_ w' = current_it_ <$> levels_ w.

Lemma same_clock_refl w : same_clock w w.
Proof. done. Qed.
Lemma same_clock_trans w1 w2 w3 :
  same_clock w1 w2 -> same_clock w2 w3 -> same_clock w1 w3.
Proof. unfold same_clock. intros [-> ->] [-> ->]. done. Qed.
Lemma same_clock_tick w w' : same_clock w w' -> tick w' = tick w.
Proof. intros [_ H]. by apply tick_of_ext. Qed.
Lemma same_clock_upd L s f w : same_clock w (upd_slot L s f w).
Proof.
  split; [done|]. cbn. apply list_eq. intros i. rewrite !list_lookup_fmap.
  destruct (decide (i = L)) as [->|].
  - rewrite list_lookup_alter_eq. by destruct (levels_ w !! L).
  - by rewrite list_lookup_alter_ne.
Qed.
Lemma same_clock_fits es w w' e : same_clock w w' -> fits es w e -> fits es w' e.
Proof.
  intros Hc (x & Hx & Hlt). exists x.
  rewrite (same_clock_tick _ _ Hc), (proj1 Hc). done.
Qed.

Lemma insert_event_inv P es e w :
  winv_but P es w -> fits es w e ->
  exists w', insert_event es e w = (Done tt, w') /\ winv_but P es w' /\
    stored w' ≡ₚ e :: stored w /\ same_clock w w'.
Proof.
  intros [Hwf Hinv] (x & Hx & Hfit).
  destruct (insert_event_files es e x w Hwf Hx Hfit) as (L & s & Heq & Hloc & HL & Hs).
  exists (Wheel_push L s e w). rewrite Wheel_push_upd in *.
  split_and!; [done|split; [by apply wf_upd_slot|]| |apply same_clock_upd].
  - intros L' s' e' He' HP. rewrite tick_upd_slot. cbn [upd_slot now_].
    rewrite slot_at_upd_slot in He' by done.
    case_decide as Heqs; [destruct Heqs as [-> ->]|by apply Hinv].
    apply elem_of_app in He' as [He'|He']; [by apply Hinv|].
    apply list_elem_of_singleton in He' as ->.
    exists x, (tick w + delay x (now_ w)). split_and!; [done|done| |done|].
    + unfold delay. lia.
    + replace (tick w + delay x (now_ w) - tick w) with (delay x (now_ w)) by lia.
      apply ok_insert.
  - destruct (stored_upd_slot L s w Hwf HL Hs) as (rest & Hr & Hf).
    rewrite Hf, Hr. solve_Permutation.
Qed.

Lemma mfor_insert_inv P es l w :
  winv_but P es w -> Forall (fits es w) l ->
  exists w', mfor (insert_event es) l w = (Done tt, w') /\ winv_but P es w' /\
    stored w' ≡ₚ l ++ stored w /\ same_clock w w'.
Proof.
  intros Hw Hl. revert w Hw Hl. induction l as [|e l IH]; intros w Hw Hl.
  { exists w. split_and!; done. }
  apply Forall_cons in Hl as [He Hl].
  destruct (insert_event_inv P es e w Hw He) as (w1 & Heq1 & Hw1 & Hs1 & Hc1).
  destruct (IH w1 Hw1) as (w2 & Heq2 & Hw2 & Hs2 & Hc2).
  { eapply Forall_impl; [done|]. intros e'. by apply same_clock_fits. }
  exists w2. cbn. rewrite (bind_done _ _ _ _ _ Heq1).
  split_and!; [done|done| |by eapply same_clock_trans].
  rewrite Hs2, Hs1. solve_Permutation.
Qed.

(** Moving the events of the slot [(L, s)]: what they satisfied before does
    not matter as long as they fit. *)
Lemma reinsert_slot_inv es L s w :
  winv_but (fun L' s' => L' = L /\ s' = s) es w ->
  (L < level_num_)%nat -> (s < slot_num_)%nat ->
  Forall (fits es w) (slot_at w L s) ->
  exists w', reinsert_slot es L s w = (Done tt, w') /\ winv es w' /\
    stored w' ≡ₚ stored w /\ same_clock w w'.
Proof.
  intros [Hwf Hinv] HL Hs Hfit.
  pose proof Hwf as [Hlen _].
  destruct (lookup_lt_is_Some_2 (levels_ w) L) as [l Hl]; [by rewrite Hlen|].
  destruct (stored_upd_slot L s w Hwf HL Hs) as (rest & Hr & Hf).
  destruct (mfor_insert_inv (fun _ _ => False) es (slot_at w L s)
              (upd_slot L s (fun _ => []) w)) as (w' & Heq & Hw' & Hs' & Hc').
  - split; [by apply wf_upd_slot|]. intros L' s' e He _.
    rewrite tick_upd_slot. rewrite slot_at_upd_slot in He by done.
    case_decide as Hd; [by apply elem_of_nil in He|]. by apply Hinv.
  - eapply Forall_impl; [done|]. intros e.
    apply same_clock_fits, same_clock_upd.
  - exists w'. unfold reinsert_slot. mred. rewrite Hl.
    rewrite (clear_upd L s l w Hl).
    replace (default [] (events_ l !! s)) with (slot_at w L s)
      by (unfold slot_at; by rewrite Hl).
    split_and!; [done|done| |].
    + rewrite Hs', Hf, Hr. solve_Permutation.
    + eapply same_clock_trans; [apply same_clock_upd|done].
Qed.
End Invariant.

(** ** Draining slots *)

Lemma concat_clear {A} (slots : list (list A)) it :
  concat slots ≡ₚ default [] (slots !! it) ++ concat (<[it := []]> slots).
Proof.
  destruct (slots !! it) as [sl|] eqn:E.
  - destruct (concat_alter slots it sl E) as (rest & Hr & Hf).
    rewrite <- (alter_as_insert (fun _ => []) _ _ _ E), Hf. by rewrite Hr.
  - by rewrite list_insert_ge by (by apply lookup_ge_None).
Qed.

(** The slots a turn of [n] steps from [it] passes. *)
Definition passed (n it s : nat) : Prop :=
  (Z.of_nat s - Z.of_nat it) mod 60 < Z.of_nat n.

#[local] Instance passed_dec n it s : Decision (passed n it s).
Proof. unfold passed. apply _. Defined.

Lemma next_it_mod it : (it < 60)%nat ->
  (next_it it < 60)%nat /\ Z.of_nat (next_it it) = (Z.of_nat it + 1) mod 60.
Proof.
  intros. unfold next_it, slot_num_. destruct (Nat.eqb_spec (S it) 60); lia.
Qed.

Lemma drain_spec n it slots evs :
  length slots = slot_num_ -> (it < slot_num_)%nat -> (n <= slot_num_)%nat ->
  exists it' slots' out,
    drain n it slots evs = (it', slots', evs ++ out) /\
    Z.of_nat it' = (Z.of_nat it + Z.of_nat n) mod 60 /\
    length slots' = slot_num_ /\
    (forall s, (s < slot_num_)%nat ->
       slots' !! s = if decide (passed n it s) then Some [] else slots !! s) /\
    concat slots ≡ₚ out ++ concat slots' /\
    (forall e, e ∈ out -> exists s, (s < slot_num_)%nat /\ passed n it s /\
       e ∈ default [] (slots !! s)).
Proof.
  unfold slot_num_. revert it slots evs.
  induction n as [|n IH]; intros it slots evs Hlen Hit Hn.
  { exists it, slots, []. cbn. rewrite app_nil_r. split_and!; [done|lia|done| |done|].
    - intros s _. rewrite decide_False; [done|]. unfold passed. lia.
    - intros e He. by apply elem_of_nil in He. }
  destruct (next_it_mod it Hit) as [Hnx Hnxm].
  destruct (IH (next_it it) (<[it := []]> slots) (evs ++ default [] (slots !! it)))
    as (it' & slots' & out & Heq & Hit' & Hlen' & Hsl & Hperm & Hmem);
    [by rewrite length_insert|done|lia|].
  assert (forall s, (s < 60)%nat -> s <> it -> passed (S n) it s <-> passed n (next_it it) s)
    as Hp by (intros; unfold passed; lia).
  assert (passed (S n) it it) as Hpit by (unfold passed; lia).
  exists it', slots', (default [] (slots !! it) ++ out).
  split_and!.
  - cbn [drain]. by rewrite Heq, (assoc (++)).
  - lia.
  - done.
  - intros s Hs. rewrite (Hsl s Hs). destruct (decide (s = it)) as [->|Hne].
    + rewrite (decide_True _ _ Hpit). case_decide; [done|].
      by rewrite list_lookup_insert_eq by lia.
    + rewrite list_lookup_insert_ne by done.
      apply decide_ext. symmetry. by apply Hp.
  - rewrite (concat_clear slots it), Hperm. by rewrite (assoc (++)).
  - intros e He. apply elem_of_app in He as [He|He]; [by exists it|].
    destruct (Hmem e He) as (s & Hs & Hps & Hes).
    destruct (decide (s = it)) as [->|Hne].
    + rewrite list_lookup_insert_eq in Hes by lia. by apply elem_of_nil in Hes.
    + rewrite list_lookup_insert_ne in Hes by done. exists s.
      split_and!; [done|by apply Hp|done].
Qed.

Lemma walk_lower_spec st l evs :
  wf_level l -> 0 <= st < 60 ->
  exists l' out, walk_lower st l evs = (l', evs ++ out) /\ wf_level l' /\
    (forall s, default [] (events_ l' !! s) = []) /\
    Z.of_nat (current_it_ l') = (Z.of_nat (current_it_ l) + st) mod 60 /\
    out ≡ₚ concat (events_ l).
Proof.
  intros [Hlen Hc] Hst. unfold walk_lower.
  destruct (drain_spec slot_num_ (current_it_ l) (events_ l) evs Hlen Hc)
    as (it' & slots' & out & -> & Hit' & Hlen' & Hsl & Hperm & _); [done|].
  assert (it' = current_it_ l) as -> by (unfold slot_num_ in *; lia).
  assert (forall s, default [] (slots' !! s) = []) as Hemp.
  { intros s. destruct (decide (s < slot_num_)%nat).
    - rewrite Hsl by done. rewrite decide_True; [done|]. unfold passed, slot_num_. lia.
    - by rewrite lookup_ge_None_2 by lia. }
  eexists _, out. split_and!; [done| |done| |].
  - split; [done|]. cbn. unfold distance_to_end, slot_num_ in *.
    destruct (Z.leb_spec (Z.of_nat 60 - Z.of_nat (current_it_ l)) st); lia.
  - cbn. unfold distance_to_end, slot_num_ in *.
    destruct (Z.leb_spec (Z.of_nat 60 - Z.of_nat (current_it_ l)) st); lia.
  - assert (concat slots' = []) as Hnil.
    { clear -Hemp. induction slots' as [|sl slots IH]; [done|].
      pose proof (Hemp O) as H0. cbn in H0. subst sl. cbn. apply IH.
      intros s. exact (Hemp (S s)). }
    by rewrite Hperm, Hnil, app_nil_r.
Qed.

Lemma walk_top_spec st l evs :
  wf_level l -> 0 < st -> Z.of_nat (current_it_ l) + st < 60 ->
  exists l' out, walk_top st l evs = (l', evs ++ out) /\ wf_level l' /\
    Z.of_nat (current_it_ l') = Z.of_nat (current_it_ l) + st /\
    (forall s, (s < slot_num_)%nat -> events_ l' !! s =
       if decide (current_it_ l <= s < current_it_ l')%nat then Some []
       else events_ l !! s) /\
    concat (events_ l) ≡ₚ out ++ concat (events_ l') /\
    (forall e, e ∈ out -> exists s, (current_it_ l <= s < current_it_ l')%nat /\
       e ∈ default [] (events_ l !! s)).
Proof.
  intros [Hlen Hc] Hst Hlt. unfold walk_top.
  destruct (drain_spec (Z.to_nat st) (current_it_ l) (events_ l) evs Hlen Hc)
    as (it' & slots' & out & -> & Hit' & Hlen' & Hsl & Hperm & Hmem);
    [unfold slot_num_; lia|].
  assert (Z.of_nat it' = Z.of_nat (current_it_ l) + st) as Hcur by lia.
  assert (forall s, (s < slot_num_)%nat ->
    passed (Z.to_nat st) (current_it_ l) s <-> (current_it_ l <= s < it')%nat) as Hp.
  { intros s Hs. unfold passed, slot_num_ in *. lia. }
  eexists _, out. split_and!; [done|split; [done|cbn; unfold slot_num_; lia]|done| |done|].
  - intros s Hs. cbn [events_ current_it_]. rewrite Hsl by done.
    by apply decide_ext, Hp.
  - intros e He. destruct (Hmem e He) as (s & Hs & Hps & Hes).
    exists s. split; [|done]. by apply Hp.
Qed.

(** ** Walking the levels *)

Definition slot_of (ls : list Level) (L s : nat) : list eid :=
  default [] (ls !! L ≫= fun l => events_ l !! s).
Definition stored_of (ls : list Level) : list eid :=
  concat ((fun l => concat (events_ l)) <$> ls).

(** A walk of the levels [ls] to [ls'] that moved the cursor of level [L] from
    [cur] to [cur'] and took [out] out: the levels below [L] are empty, the
    slots of level [L] the cursor passed are empty, the rest is unchanged. *)
Record walked (ls ls' : list Level) (L cur cur' : nat) (out : list eid) : Prop := {
  walked_wf : Forall wf_level ls';
  walked_len : length ls' = length ls;
  walked_cur : exists l l', ls !! L = Some l /\ ls' !! L = Some l' /\
    current_it_ l = cur /\ current_it_ l' = cur' /\ (cur < cur')%nat;
  walked_slot : forall i s e, e ∈ slot_of ls' i s ->
    e ∈ slot_of ls i s /\ (L <= i)%nat /\ ~ (i = L /\ cur <= s < cur')%nat;
  walked_out : forall e, e ∈ out -> exists i s, e ∈ slot_of ls i s /\
    ((i < L)%nat \/ (i = L /\ cur <= s < cur')%nat);
  walked_perm : stored_of ls ≡ₚ out ++ stored_of ls';
  walked_above : forall i, (L < i)%nat -> ls' !! i = ls !! i;
}.

Lemma slot_of_concat l ls s e :
  e ∈ default [] (events_ l !! s) -> e ∈ slot_of (l :: ls) 0 s.
Proof. done. Qed.

Lemma elem_of_concat_slot l e :
  e ∈ concat (events_ l) -> exists s, e ∈ default [] (events_ l !! s).
Proof.
  rewrite list_elem_of_In, in_concat. intros (sl & Hsl & He).
  apply list_elem_of_In, list_elem_of_lookup in Hsl as [s Hs].
  exists s. rewrite Hs. by apply list_elem_of_In.
Qed.

Lemma walked_top l ls l' out :
  wf_level l -> Forall wf_level ls -> wf_level l' ->
  (current_it_ l < current_it_ l')%nat ->
  (forall s, (s < slot_num_)%nat -> events_ l' !! s =
     if decide (current_it_ l <= s < current_it_ l')%nat then Some []
     else events_ l !! s) ->
  concat (events_ l) ≡ₚ out ++ concat (events_ l') ->
  (forall e, e ∈ out -> exists s, (current_it_ l <= s < current_it_ l')%nat /\
     e ∈ default [] (events_ l !! s)) ->
  walked (l :: ls) (l' :: ls) 0 (current_it_ l) (current_it_ l') out.
Proof.
  intros Hl Hls Hl' Hlt Hsl Hperm Hmem. split.
  - by constructor.
  - done.
  - by exists l, l'.
  - intros [|i] s e He; [|by split_and!; [|lia|lia]].
    unfold slot_of in *. cbn in *.
    destruct (decide (s < slot_num_)%nat) as [Hs|Hs].
    + rewrite (Hsl s Hs) in He. case_decide; [by apply elem_of_nil in He|].
      split_and!; [done|lia|lia].
    + rewrite lookup_ge_None_2 in He by (rewrite (proj1 Hl'); lia).
      by apply elem_of_nil in He.
  - intros e He. destruct (Hmem e He) as (s & Hs & Hes).
    exists O, s. split; [done|]. by right.
  - unfold stored_of. cbn. rewrite Hperm. by rewrite (assoc (++)).
  - intros [|i] Hi; [lia|done].
Qed.

Lemma walked_lower l ls l' ls' L cur cur' out out' :
  wf_level l' ->
  (forall s, default [] (events_ l' !! s) = []) ->
  out ≡ₚ concat (events_ l) ->
  walked ls ls' L cur cur' out' ->
  walked (l :: ls) (l' :: ls') (S L) cur cur' (out ++ out').
Proof.
  intros Hl' Hemp Hout [H1 H2 H3 H4 H5 H6 H7]. split.
  - by constructor.
  - cbn. by rewrite H2.
  - done.
  - intros [|i] s e He; unfold slot_of in *; cbn in *.
    + rewrite Hemp in He. by apply elem_of_nil in He.
    + destruct (H4 i s e He) as (? & ? & ?). split_and!; [done|lia|lia].
  - intros e He. apply elem_of_app in He as [He|He].
    + rewrite Hout in He. apply elem_of_concat_slot in He as [s Hs].
      exists O, s. split; [done|]. left. lia.
    + destruct (H5 e He) as (i & s & He' & Hi). exists (S i), s.
      split; [done|]. lia.
  - unfold stored_of in *. cbn. rewrite <- Hout, H6.
    assert (concat (events_ l') = []) as ->; [|solve_Permutation].
    destruct (concat (events_ l')) as [|e evs] eqn:E; [done|].
    destruct (elem_of_concat_slot l' e) as [s Hs]; [rewrite E; by left|].
    rewrite Hemp in Hs. by apply elem_of_nil in Hs.
  - intros [|i] Hi; [lia|]. cbn. apply H7. lia.
Qed.

Lemma walk_levels_spec ls lvl acc steps evs :
  Forall wf_level ls -> 0 < steps -> tick_of ls + steps < pw (length ls) ->
  exists L ss ls' cur cur' out,
    walk_loop ls lvl steps acc = Some (lvl + Z.of_nat L + 1, acc ++ ss) /\
    ss <> [] /\
    walk_levels ss ls evs = (ls', evs ++ out) /\
    tick_of ls' = tick_of ls + steps /\
    walked ls ls' L cur cur' out.
Proof.
  intros Hwf. revert lvl acc steps evs.
  induction Hwf as [|l ls Hl Hls IH]; intros lvl acc steps evs Ht Hlt.
  { cbn in Hlt. rewrite pw_0 in Hlt. lia. }
  cbn [walk_loop]. rewrite (proj2 (Z.ltb_lt _ _) Ht), (loop_carry l steps Hl Ht).
  pose proof Hl as [_ Hcur]. unfold slot_num_ in Hcur.
  cbn [length tick_of] in Hlt |- *. rewrite pw_S in Hlt.
  set (s := Z.rem steps (Z.of_nat slot_num_)).
  assert (s = steps mod 60) as Hs.
  { unfold s, slot_num_. rewrite Z.rem_mod_nonneg; lia. }
  set (steps' := (Z.of_nat (current_it_ l) + steps) / 60) in *.
  destruct (decide (0 < steps')) as [Hpos|Hneg].
  - destruct (walk_lower_spec s l evs Hl) as (l' & out & Heq & Hl' & Hemp & Hcur' & Hout);
      [lia|].
    destruct (IH (lvl + 1) (acc ++ [s]) steps' (evs ++ out) Hpos)
      as (L & ss & ls' & cur & cur' & out' & Hloop & Hne & Hlv & Htick & Hwk); [lia|].
    exists (S L), (s :: ss), (l' :: ls'), cur, cur', (out ++ out').
    rewrite Hloop. split_and!.
    + do 2 f_equal; [lia|]. by rewrite <- (assoc (++)).
    + done.
    + destruct ss as [|s2 ss]; [done|]. change (s :: s2 :: ss) with (s :: (s2 :: ss)).
      cbn [walk_levels]. rewrite Heq. cbn [walk_levels] in Hlv. rewrite Hlv.
      by rewrite (assoc (++)).
    + cbn [tick_of]. rewrite Htick. lia.
    + by eapply walked_lower.
  - assert (steps' = 0) by lia.
    destruct (walk_top_spec s l evs Hl) as (l' & out & Heq & Hl' & Hcur' & Hsl & Hperm & Hmem);
      [lia|lia|].
    exists O, [s], (l' :: ls), (current_it_ l), (current_it_ l'), out. split_and!.
    + replace (lvl + Z.of_nat 0 + 1) with (lvl + 1) by lia.
      destruct ls; cbn [walk_loop];
        by rewrite (proj2 (Z.ltb_ge 0 steps')) by lia.
    + done.
    + cbn [walk_levels]. by rewrite Heq.
    + cbn [tick_of]. lia.
    + apply walked_top; try done. lia.
Qed.

Lemma walk_loop_overflow ls lvl steps acc :
  Forall wf_level ls -> 0 < steps -> pw (length ls) <= tick_of ls + steps ->
  walk_loop ls lvl steps acc = None.
Proof.
  intros Hwf. revert lvl steps acc.
  induction Hwf as [|l ls Hl Hls IH]; intros lvl steps acc Ht Hge;
    cbn [walk_loop]; rewrite (proj2 (Z.ltb_lt _ _) Ht); [done|].
  rewrite (loop_carry l steps Hl Ht).
  pose proof Hl as [_ Hcur]. unfold slot_num_ in Hcur.
  cbn [length tick_of] in Hge. rewrite pw_S in Hge.
  pose proof (tick_of_range ls Hls).
  apply IH; lia.
Qed.

(** The cursor of level [L] is the digit [L] of the tick, and the levels from
    [L] on are its quotient. *)
Lemma tick_of_drop ls L :
  Forall wf_level ls -> (L <= length ls)%nat -> tick_of ls / pw L = tick_of (drop L ls).
Proof.
  intros Hwf. revert L. induction Hwf as [|l ls Hl Hls IH]; intros [|L] HL.
  - done.
  - cbn in HL. lia.
  - by rewrite pw_0, Z.div_1_r.
  - rewrite div_pw_S, tick_of_cons_div by done. apply IH. cbn in HL. lia.
Qed.

Lemma tick_digit ls L l :
  Forall wf_level ls -> ls !! L = Some l ->
  tick_of ls / pw L = Z.of_nat (current_it_ l) + 60 * (tick_of ls / pw (S L)).
Proof.
  intros Hwf Hl. pose proof (lookup_lt_Some _ _ _ Hl).
  rewrite !tick_of_drop by (done || lia). by rewrite (drop_S _ _ _ Hl).
Qed.

Lemma div_pw_le T c m n :
  T / pw m = c / pw m -> (m <= n)%nat -> T / pw n = c / pw n.
Proof. intros H Hle. induction Hle; [done|]. by rewrite !div_pw_S', IHHle. Qed.

Lemma div_pw_lt T c L : T / pw L < c / pw L -> T < c.
Proof.
  intros H. destruct (Z.lt_ge_cases T c) as [|Hge]; [done|].
  pose proof (Z.div_le_mono c T (pw L) (pw_pos L) Hge). lia.
Qed.

(** ** A walk preserves the invariant and takes out late events only *)

Local Ltac Zify.zify_post_hook ::= idtac.

(** Dividing the time left by the length of a millisecond. *)
Lemma to_ms_le r d : r < (d + 1) * ticks_per_ms -> to_ms r <= Z.max 0 d.
Proof.
  unfold to_ms, ticks_per_ms. intros H. destruct (Z.le_gt_cases 0 r).
  - rewrite Z.quot_div_nonneg by lia.
    pose proof (Z.div_lt_upper_bound r 1000 (d + 1)). lia.
  - rewrite <- (Z.opp_involutive r), Z.quot_opp_l by lia.
    rewrite Z.quot_div_nonneg by lia.
    pose proof (Z.div_pos (- r) 1000). lia.
Qed.

Lemma to_ms_ge r d : 0 <= d -> d * ticks_per_ms <= r -> d <= to_ms r.
Proof.
  unfold to_ms, ticks_per_ms. intros Hd H. rewrite Z.quot_div_nonneg by lia.
  apply Z.div_le_lower_bound; lia.
Qed.

(** [ok] is what the walk finds and [ok'] what it leaves. *)
Section Walk.
Context (ok ok' : Z -> Z -> Prop).
Hypothesis ok_insert : forall r, ok' r (Z.max 0 (to_ms r)).
Hypothesis ok_late : forall r d, ok r d -> r < (d + 1) * ticks_per_ms.
Hypothesis ok_late' : forall r d, ok' r d -> r < (d + 1) * ticks_per_ms.

(** [elapsed] ticks of the clock pass and [k] steps are walked. *)
Context (elapsed k : Z).
Hypothesis Hk : 0 <= k /\ k * ticks_per_ms <= elapsed.
Hypothesis ok_shift : forall r d, ok r d -> k < d -> ok' (r - elapsed) (d - k).

Lemma ok_late_bound r d : 0 <= d -> ok' r d -> to_ms r <= d.
Proof using ok_late'. intros Hd H. apply ok_late', to_ms_le in H. lia. Qed.

(** Due: less than a millisecond is left. *)
Definition due (es : EventStore) (now : Z) (e : eid) : Prop :=
  exists x, time_extra es e = Some x /\ expire_time_ x - now < ticks_per_ms.

(** What walking past [T] or up to it means for an event filed under [T]. *)
Lemma filed_fits es ls' c now L s e :
  filed ok es c now L s e -> Forall wf_level ls' -> length ls' = level_num_ ->
  tick_of ls' = c + k -> fits es (mkWheel ls' (now + elapsed)) e.
Proof using Hk ok_late.
  intros (x & T & Hx & _ & HT & Hok) Hwf Hlen Htick. exists x. split; [done|].
  unfold tick, delay. cbn. rewrite Htick. apply ok_late in Hok.
  pose proof (tick_of_range _ Hwf) as Hr. rewrite Hlen, Htick in Hr.
  fold capacity in Hr.
  pose proof (to_ms_le (expire_time_ x - (now + elapsed)) (T - (c + k))).
  unfold ticks_per_ms in *. lia.
Qed.

Lemma filed_due es c now e T x :
  time_extra es e = Some x -> ok (expire_time_ x - now) (T - c) -> T <= c + k ->
  due es (now + elapsed) e.
Proof using Hk ok_late.
  intros Hx Hok HT. exists x. split; [done|]. apply ok_late in Hok.
  unfold ticks_per_ms in *. lia.
Qed.

Lemma located_div c T L s :
  located c T L s -> T / pw L = Z.of_nat s + 60 * (c / pw (S L)).
Proof using Type.
  intros (H1 & _ & H3). rewrite <- H1, (div_pw_S' T), H3.
  rewrite Z.add_comm. by apply Z.div_mod.
Qed.

Lemma walked_inv es ls ls' now L cur cur' out :
  winv ok es (mkWheel ls now) -> walked ls ls' L cur cur' out ->
  tick_of ls' = tick_of ls + k ->
  winv_but ok' (fun L' s' => L' = L /\ s' = cur') es (mkWheel ls' (now + elapsed)) /\
  Forall (fits es (mkWheel ls' (now + elapsed))) (slot_at (mkWheel ls' (now + elapsed)) L cur') /\
  Forall (due es (now + elapsed)) out.
Proof using Hk ok_late ok_shift.
  intros [[Hlen Hwf] Hinv] [Hwf' Hlen' (l & l' & Hl & Hl' & <- & <- & Hlt) Hslot Hout _ Habove] Htick.
  cbn in Hlen, Hwf. rewrite Hlen in Hlen'. unfold tick in Hinv. cbn in Hinv.
  assert (forall j, (L < j <= level_num_)%nat -> tick_of ls' / pw j = tick_of ls / pw j) as Hup.
  { intros j Hj. rewrite !tick_of_drop by (done || lia). f_equal.
    apply list_eq. intros i. rewrite !lookup_drop. apply Habove. lia. }
  assert (L < level_num_)%nat as HLn by (rewrite <- Hlen; by eapply lookup_lt_Some).
  pose proof (tick_digit ls L l Hwf Hl) as Hd.
  pose proof (tick_digit ls' L l' Hwf' Hl') as Hd'.
  rewrite (Hup (S L)) in Hd' by lia.
  split_and!.
  - split; [by split|]. intros i s e He Hne. unfold tick. cbn.
    destruct (Hslot i s e He) as (He0 & HLi & Hns).
    destruct (Hinv i s e He0) as (x & T & Hx & Hloc & HT & Hok); [tauto|].
    destruct (slot_at_range (mkWheel ls' now) i s e) as [Hin _]; [by split|done|].
    assert (tick_of ls' < T /\ located (tick_of ls') T i s) as [HTc Hloc'].
    { destruct (decide (i = L)) as [->|HiL].
      - pose proof (located_div _ _ _ _ Hloc) as HTL.
        pose proof (Z.div_le_mono _ _ (pw L) (pw_pos L) (proj1 HT)).
        destruct Hloc as (H1 & _ & H3).
        assert (s <> current_it_ l') by (intros ->; tauto).
        split; [apply (div_pw_lt _ _ L); lia|].
        split_and!; [rewrite H1; symmetry; apply Hup; lia|left; lia|done].
      - destruct Hloc as (H1 & [H2|[-> _]] & H3); [|lia].
        pose proof (Z.div_le_mono _ _ (pw i) (pw_pos i) (proj1 HT)).
        assert (tick_of ls' / pw i = tick_of ls / pw i) as Hi by (apply Hup; lia).
        split; [apply (div_pw_lt _ _ i); lia|].
        split_and!; [rewrite H1; symmetry; apply Hup; lia|left; lia|done]. }
    exists x, T. split_and!; [done|done|lia|lia|].
    replace (expire_time_ x - (now + elapsed)) with (expire_time_ x - now - elapsed) by lia.
    replace (T - tick_of ls') with (T - tick_of ls - k) by lia.
    apply ok_shift; [done|lia].
  - apply Forall_forall. intros e He.
    destruct (Hslot _ _ e He) as (He0 & _).
    eapply (filed_fits es ls' (tick_of ls)); [apply (Hinv _ _ _ He0); tauto|done|done|done].
  - apply Forall_forall. intros e He.
    destruct (Hout e He) as (i & s & He0 & Hi).
    destruct (Hinv i s e He0) as (x & T & Hx & Hloc & HT & Hok); [tauto|].
    eapply (filed_due es (tick_of ls) now e T x Hx Hok).
    enough (T < tick_of ls') by lia. apply (div_pw_lt _ _ L).
    destruct Hi as [Hi|[-> Hs]].
    + destruct Hloc as (H1 & _). rewrite (div_pw_le _ _ (S i) L H1) by lia. lia.
    + rewrite (located_div _ _ _ _ Hloc). lia.
Qed.

(** In the slot under the cursor of level 0 there are the events due now. *)
Lemma located_current c T L s :
  located c T L s -> (T = c <-> L = O /\ Z.of_nat s = c mod 60).
Proof using Type.
  unfold located. intros (H1 & H2 & H3). split.
  - intros ->. destruct H2 as [H2|[-> _]]; [done|].
    by rewrite pw_0, Z.div_1_r in H3.
  - intros [-> Hs]. rewrite pw_0, Z.div_1_r in H3. rewrite pw_S, pw_0, Z.mul_1_r in H1.
    rewrite (Z.div_mod T 60), (Z.div_mod c 60) by done. congruence.
Qed.

Lemma tick_current ls l :
  Forall wf_level ls -> ls !! O = Some l -> Z.of_nat (current_it_ l) = tick_of ls mod 60.
Proof using Type.
  intros Hwf Hl. pose proof (tick_digit ls O l Hwf Hl) as Hd.
  rewrite pw_S, pw_0, Z.mul_1_r, Z.div_1_r in Hd.
  rewrite Z.mod_eq by done. lia.
Qed.

Lemma stationary_inv es ls now l :
  k = 0 -> winv ok es (mkWheel ls now) -> ls !! O = Some l ->
  winv_but ok' (fun L' s' => L' = O /\ s' = current_it_ l) es (mkWheel ls (now + elapsed)) /\
  Forall (fits es (mkWheel ls (now + elapsed)))
    (slot_at (mkWheel ls (now + elapsed)) 0 (current_it_ l)).
Proof using Hk ok_late ok_shift.
  intros Hk0 [[Hlen Hwf] Hinv] Hl. unfold tick in Hinv. cbn in *. split.
  - split; [by split|]. intros i s e He Hne. unfold tick. cbn.
    destruct (Hinv i s e He) as (x & T & Hx & Hloc & HT & Hok); [tauto|].
    assert (T <> tick_of ls).
    { intros HTc. apply (located_current _ _ _ _ Hloc) in HTc as [-> Hs]. apply Hne.
      split; [done|]. apply Nat2Z.inj. rewrite Hs. symmetry. by apply tick_current. }
    exists x, T. split_and!; [done|done|lia|lia|].
    replace (expire_time_ x - (now + elapsed)) with (expire_time_ x - now - elapsed) by lia.
    replace (T - tick_of ls) with (T - tick_of ls - k) by lia.
    apply ok_shift; [done|lia].
  - apply Forall_forall. intros e He.
    eapply (filed_fits es ls (tick_of ls)); [apply (Hinv _ _ _ He); tauto|done|done|lia].
Qed.

(** The end of a walk: the two reinsertions and the slot under the cursor of
    level 0. *)
Definition walk_tail (es : EventStore) (level : nat) (slot_it : nat)
    : M (Wheel * list eid) unit :=
  zoom fst (fun w s => (w, s.2)) (reinsert_slot es level slot_it) ;;;
  zoom fst (fun w s => (w, s.2)) (reinsert_slot es level (next_it slot_it)) ;;;
  let! (w, events) := get in
  let! l0 := at_ (levels_ w) 0 in
  let slot_it := current_it_ l0 in
  put (mkWheel (<[0%nat := mkLevel (<[slot_it := []]> (events_ l0)) slot_it]>
                  (levels_ w)) (now_ w),
       events ++ default [] (events_ l0 !! slot_it)).

(** What a walk establishes of the wheel [w'] it leaves and of the events
    [out] it takes from the wheel that stored [before]. *)
Definition walk_post (es : EventStore) (before : list eid) (w' : Wheel) (out : list eid) : Prop :=
  winv ok' es w' /\ before ≡ₚ out ++ stored w' /\
  Forall (due es (now_ w')) out /\
  forall e, e ∈ stored w' -> exists x d,
    time_extra es e = Some x /\ 0 < d /\ ok' (expire_time_ x - now_ w') d.

(** Taking the slot under the cursor of level 0 takes what is due now. *)
Lemma current_slot_post es w2 l0 :
  winv ok' es w2 -> levels_ w2 !! 0%nat = Some l0 ->
  walk_post es (stored w2) (upd_slot 0 (current_it_ l0) (fun _ => []) w2)
    (slot_at w2 0 (current_it_ l0)).
Proof using Hk ok_late'.
  intros Hw2 Hl0.
  pose proof Hw2 as [Hwf2 Hinv2]. pose proof Hwf2 as [Hlen2 Hlv2].
  assert (current_it_ l0 < slot_num_)%nat as Hcs.
  { rewrite Forall_lookup in Hlv2. by apply (Hlv2 _ _ Hl0). }
  pose proof (tick_current _ _ Hlv2 Hl0) as Hcur.
  assert (forall L' s' e, e ∈ slot_at (upd_slot 0 (current_it_ l0) (fun _ => []) w2) L' s' ->
    e ∈ slot_at w2 L' s' /\ ~ (L' = O /\ s' = current_it_ l0)) as Hleft.
  { intros L' s' e He. rewrite slot_at_upd_slot in He
      by (done || (unfold level_num_; lia)).
    case_decide; [by apply elem_of_nil in He|done]. }
  split_and!.
  - split; [by apply wf_upd_slot|]. intros L' s' e He _. rewrite tick_upd_slot.
    apply Hinv2; [|tauto]. by apply Hleft.
  - destruct (stored_upd_slot 0 (current_it_ l0) w2 Hwf2) as (rest & Hr & Hf);
      [unfold level_num_; lia|done|].
    by rewrite Hf.
  - apply Forall_forall. intros e He. cbn [upd_slot now_].
    destruct (Hinv2 _ _ e He) as (x & T & Hx & Hloc & HT & Hok); [tauto|].
    apply (located_current _ _ _ _) in Hloc as [_ Hloc].
    rewrite Hloc in Hok by done.
    exists x. split; [done|]. apply ok_late' in Hok. unfold ticks_per_ms in *. lia.
  - intros e He. apply elem_of_stored in He as (L' & s' & He).
    apply Hleft in He as [He Hne]. cbn [upd_slot now_].
    destruct (Hinv2 _ _ e He) as (x & T & Hx & Hloc & HT & Hok); [tauto|].
    exists x, (T - tick w2). split_and!; [done| |done].
    enough (T <> tick w2) by lia. intros HTc.
    apply (located_current _ _ _ _ Hloc) in HTc as [-> Hs']. apply Hne.
    split; [done|]. apply Nat2Z.inj. by rewrite Hs', Hcur.
Qed.

Lemma walk_tail_spec es w L s evs :
  winv_but ok' (fun L' s' => L' = L /\ s' = s) es w ->
  (L < level_num_)%nat -> (s < slot_num_)%nat -> Forall (fits es w) (slot_at w L s) ->
  exists w' out, walk_tail es L s (w, evs) = (Done tt, (w', evs ++ out)) /\
    same_clock w w' /\ walk_post es (stored w) w' out.
Proof using Hk ok_insert ok_late'.
  intros Hw HL Hs Hfit.
  destruct (reinsert_slot_inv ok' ok_insert es L s w Hw HL Hs Hfit)
    as (w1 & Heq1 & Hw1 & Hs1 & Hc1).
  destruct (reinsert_slot_inv ok' ok_insert es L (next_it s) w1)
    as (w2 & Heq2 & Hw2 & Hs2 & Hc2).
  { destruct Hw1 as [? Hi]. split; [done|]. intros ???? _. apply Hi; tauto. }
  { done. }
  { by apply next_it_mod. }
  { apply Forall_forall. intros e He. by eapply (winv_fits ok' ok_late_bound). }
  destruct (lookup_lt_is_Some_2 (levels_ w2) 0) as [l0 Hl0].
  { rewrite (proj1 (proj1 Hw2)). unfold level_num_. lia. }
  exists (upd_slot 0 (current_it_ l0) (fun _ => []) w2), (slot_at w2 0 (current_it_ l0)).
  split_and!.
  - unfold walk_tail. mred. cbn [fst snd]. rewrite Heq1. cbn [fst snd].
    rewrite Heq2. cbn [fst snd]. rewrite Hl0.
    rewrite (clear_upd _ _ _ _ Hl0). unfold slot_at. by rewrite Hl0.
  - eapply same_clock_trans; [done|]. eapply same_clock_trans; [done|].
    apply same_clock_upd.
  - destruct (current_slot_post es w2 l0 Hw2 Hl0) as (H1 & H2 & H3 & H4).
    split_and!; [done|by rewrite <- Hs1, <- Hs2|done|done].
Qed.

Lemma walk_run es now ls evs level_steps L evs0 ls' l' :
  Z.to_nat (Z.max (L - 1) 0) = l' ->
  walk_loop ls 0 k [] = Some (L, level_steps) ->
  walk_levels level_steps ls evs = (ls', evs0) ->
  walk es k (mkWheel ls (now + elapsed), evs) =
    (let! l := at_ ls' l' in walk_tail es l' (current_it_ l)) (mkWheel ls' (now + elapsed), evs0).
Proof using Type.
  intros <- Hloop Hlv. unfold walk, walk_tail.
  cbv beta iota delta [bind get put ret]. cbn [levels_ now_]. by rewrite Hloop, Hlv.
Qed.

(** A walk of [k] steps, [elapsed] ticks of the clock after the last one. *)
Lemma walk_spec es ls now evs :
  winv ok es (mkWheel ls now) -> tick_of ls + k < capacity ->
  exists w' out,
    walk es k (mkWheel ls (now + elapsed), evs) = (Done tt, (w', evs ++ out)) /\
    tick w' = tick_of ls + k /\ now_ w' = now + elapsed /\
    walk_post es (stored_of ls) w' out.
Proof using Hk ok_insert ok_late ok_late' ok_shift.
  intros Hw Hcap. pose proof Hw as [[Hlen Hwf] _]. cbn in Hlen, Hwf.
  destruct (decide (0 < k)) as [Hpos|Hzero].
  - destruct (walk_levels_spec ls 0 [] k evs Hwf Hpos)
      as (L & ss & ls' & cur & cur' & out & Hloop & _ & Hlv & Htick & Hwk);
      [by rewrite Hlen|].
    destruct (walked_inv es ls ls' now L cur cur' out Hw Hwk Htick)
      as (Hbut & Hfit & Hdue).
    destruct Hwk as [Hwf' Hlen' (l & l' & Hl & Hl' & _ & <- & _) _ _ Hperm _].
    assert (L < level_num_)%nat by (rewrite <- Hlen; by eapply lookup_lt_Some).
    destruct (walk_tail_spec es (mkWheel ls' (now + elapsed)) L (current_it_ l') (evs ++ out))
      as (w' & out' & Heq & Hc & Hwi & Hp & Hd & Hst); [done|done| |done|].
    { rewrite Forall_lookup in Hwf'. by apply (Hwf' _ _ Hl'). }
    exists w', (out ++ out').
    rewrite (walk_run es now ls evs ss (0 + Z.of_nat L + 1) (evs ++ out) ls' L); [|lia|done|done].
    cbv beta delta [bind at_]. rewrite Hl'. cbn [ret].
    rewrite (same_clock_tick _ _ Hc), (proj1 Hc). rewrite (assoc (++)).
    split_and!; [done|done|done|].
    split_and!; [done| |rewrite (proj1 Hc) in *; by apply Forall_app|done].
    rewrite Hperm, <- (assoc (++)). by f_equiv.
  - destruct (lookup_lt_is_Some_2 ls 0) as [l Hl].
    { rewrite Hlen. unfold level_num_. lia. }
    destruct (stationary_inv es ls now l) as [Hbut Hfit]; [lia|done|done|].
    destruct (walk_tail_spec es (mkWheel ls (now + elapsed)) 0 (current_it_ l) evs)
      as (w' & out' & Heq & Hc & Hwi & Hp & Hd & Hst);
      [done|unfold level_num_; lia| |done|].
    { rewrite Forall_lookup in Hwf. by apply (Hwf _ _ Hl). }
    exists w', out'. rewrite (walk_run es now ls evs [] 0 evs ls 0%nat); [|done| |done].
    + cbv beta delta [bind at_]. rewrite Hl. cbn [ret].
      rewrite (same_clock_tick _ _ Hc), (proj1 Hc).
      split_and!; [done|unfold tick; cbn; lia|done|by split_and!].
    + destruct ls; cbn [walk_loop]; by rewrite (proj2 (Z.ltb_ge 0 k)) by lia.
Qed.
End Walk.

(** ** The theorems about [insert_event] and [expire] *)

(** An event is never filed more than a millisecond early. *)
Definition late_ok (r d : Z) : Prop := r < (d + 1) * ticks_per_ms.

(** The wheel runs [lag] ticks of the clock behind: an event is filed under its
    millisecond or up to [lag] ticks later. *)
Definition lag_ok (lag r d : Z) : Prop :=
  late_ok r d /\ (0 < d -> d * ticks_per_ms <= r + lag).

Lemma to_ms_lt r : r < (Z.max 0 (to_ms r) + 1) * ticks_per_ms.
Proof.
  unfold to_ms, ticks_per_ms. destruct (Z.le_gt_cases 0 r); [|lia].
  rewrite Z.quot_div_nonneg by lia.
  pose proof (Z.mul_succ_div_gt r 1000). lia.
Qed.

Lemma to_ms_range d : 0 <= d -> 0 <= to_ms d /\ to_ms d * ticks_per_ms <= d.
Proof.
  unfold to_ms, ticks_per_ms. intros. rewrite Z.quot_div_nonneg by lia.
  pose proof (Z.mul_div_le d 1000). pose proof (Z.div_pos d 1000). lia.
Qed.

Lemma lag_ok_insert lag r : 0 <= lag -> lag_ok lag r (Z.max 0 (to_ms r)).
Proof.
  intros Hl. split; [apply to_ms_lt|]. intros Hpos. destruct (Z.le_gt_cases 0 r) as [Hr|Hr].
  - pose proof (to_ms_range r Hr). lia.
  - pose proof (to_ms_le r (-1)). unfold ticks_per_ms in *. lia.
Qed.

(** [k] milliseconds are walked in [elapsed] ticks of the clock. *)
Lemma lag_ok_shift lag elapsed k r d :
  lag_ok lag r d -> k * ticks_per_ms <= elapsed -> 0 <= k < d ->
  lag_ok (lag + (elapsed - k * ticks_per_ms)) (r - elapsed) (d - k).
Proof. unfold lag_ok, late_ok, ticks_per_ms. lia. Qed.

Lemma expire_as_walk es w now' evs :
  now_ w < now' -> 0 <= tick w -> tick w + to_ms (now' - now_ w) < capacity ->
  expire es now' (w, evs) =
    walk es (to_ms (now' - now_ w)) (mkWheel (levels_ w) now', evs).
Proof.
  intros Hlt Ht Hcap. unfold expire. cbv beta iota delta [bind get put ret].
  rewrite (proj2 (Z.ltb_lt _ _) Hlt). unfold interval_ms_. rewrite Z.quot_1_r.
  rewrite wrap_s_id; [done|done|].
  pose proof (to_ms_range (now' - now_ w)). unfold capacity in Hcap.
  change (pw level_num_) with 777600000 in Hcap.
  change (2 ^ (32 - 1)) with 2147483648. lia.
Qed.

(** One poll, for any reading [ok] of the invariant and what the step makes of it. *)
Lemma expire_spec ok ok' es w now' evs :
  (forall r, ok' r (Z.max 0 (to_ms r))) ->
  (forall r d, ok r d -> late_ok r d) -> (forall r d, ok' r d -> late_ok r d) ->
  (forall r d, ok r d -> to_ms (now' - now_ w) < d ->
     ok' (r - (now' - now_ w)) (d - to_ms (now' - now_ w))) ->
  winv ok es w -> now_ w < now' -> tick w + to_ms (now' - now_ w) < capacity ->
  exists w' out, expire es now' (w, evs) = (Done tt, (w', evs ++ out)) /\
    tick w' = tick w + to_ms (now' - now_ w) /\ now_ w' = now' /\
    walk_post ok' es (stored w) w' out.
Proof.
  intros Hins Hlate Hlate' Hshift Hw Hlt Hcap. destruct w as [ls now].
  unfold tick at 2. unfold tick in Hcap. cbn [now_ levels_] in *.
  assert (0 <= tick_of ls) by (apply tick_of_range, (proj2 (proj1 Hw))).
  rewrite expire_as_walk by done. cbn [levels_ now_].
  destruct (walk_spec ok ok' Hins Hlate Hlate' (now' - now) (to_ms (now' - now))
              (to_ms_range (now' - now) ltac:(lia)) Hshift es ls now evs Hw Hcap)
    as (w' & out & Heq & Htick & Hnow & Hpost).
  replace (now + (now' - now)) with now' in * by lia. eauto 10.
Qed.

(** Filing an event in a well-formed wheel: an event due within the wheel's
    capacity is put in the slot of the level its distance selects, the wheel stays
    well formed and holds one event more; an event further away throws
    [std::out_of_range] and the wheel is unchanged. *)
Theorem insert_event_correct (ok : Z -> Z -> Prop) es e x w
    (Hins : forall r, ok r (Z.max 0 (to_ms r)))
    (Hw : winv ok es w) (Hx : time_extra es e = Some x) :
  let T := tick w + Z.max 0 (to_ms (expire_time_ x - now_ w)) in
  if decide (T < capacity) then
    exists L s, insert_event es e w = (Done tt, Wheel_push L s e w) /\
      located (tick w) T L s /\ winv ok es (Wheel_push L s e w) /\
      stored (Wheel_push L s e w) ≡ₚ e :: stored w
  else insert_event es e w = (Thrown OutOfRange, w).
Proof.
  intros T. case_decide as HT.
  - destruct (insert_event_files es e x w (proj1 Hw) Hx HT) as (L & s & Heq & Hloc & HL & Hs).
    destruct (insert_event_inv ok Hins (fun _ _ => False) es e w Hw) as (w' & Heq' & ? & ? & ?).
    { by exists x. }
    rewrite Heq in Heq'. simplify_eq. eauto 10.
  - apply insert_event_overflow with x; [exact (proj1 Hw)|done|].
    fold (delay x (now_ w)) in T. unfold T in HT. lia.
Qed.

(** Whatever the clock does, an [expire] that stays within the capacity returns;
    no event is lost or duplicated and none is handed out with a millisecond or
    more to go. *)
Lemma expire_never_early es w now' evs
    (Hw : winv late_ok es w) (Hlt : now_ w < now')
    (Hcap : tick w + to_ms (now' - now_ w) < capacity) :
  exists w' out,
    expire es now' (w, evs) = (Done tt, (w', evs ++ out)) /\
    winv late_ok es w' /\ now_ w' = now' /\
    tick w' = tick w + to_ms (now' - now_ w) /\
    stored w ≡ₚ out ++ stored w' /\
    forall e, e ∈ out -> exists x, time_extra es e = Some x /\
      expire_time_ x - now' < ticks_per_ms.
Proof.
  destruct (expire_spec late_ok late_ok es w now' evs) as (w' & out & Heq & Ht & <- & Hi & Hp & Hd & _).
  - intros r. apply to_ms_lt.
  - done.
  - done.
  - intros r d Hok Hd. unfold late_ok, ticks_per_ms in *.
    pose proof (to_ms_range (now' - now_ w)). unfold ticks_per_ms in *. lia.
  - done.
  - done.
  - done.
  - exists w', out. split_and!; [done..|]. by apply Forall_forall.
Qed.

(** How far the wheel is behind after a poll at [now']: the fraction of a millisecond
    that [expire] drops is added. *)
Definition next_lag (lag : Z) (w : Wheel) (now' : Z) : Z :=
  lag + (now' - now_ w - to_ms (now' - now_ w) * ticks_per_ms).

(** [expire] at any later time splits the stored events: what it hands out is due by
    the clock, what it keeps is not due by the wheel's own time, which is behind. *)
Lemma expire_splits es w lag now' evs
    (Hw : winv (lag_ok lag) es w) (Hlag : 0 <= lag) (Hlt : now_ w < now')
    (Hcap : tick w + to_ms (now' - now_ w) < capacity) :
  exists w' out,
    expire es now' (w, evs) = (Done tt, (w', evs ++ out)) /\
    winv (lag_ok (next_lag lag w now')) es w' /\ now_ w' = now' /\
    tick w' = tick w + to_ms (now' - now_ w) /\ stored w ≡ₚ out ++ stored w' /\
    (forall e, e ∈ out -> due es now' e) /\
    (forall e, e ∈ stored w' -> ~ due es (now' - next_lag lag w now') e).
Proof.
  pose proof (to_ms_range (now' - now_ w) ltac:(lia)) as [Hms Hle].
  destruct (expire_spec (lag_ok lag) (lag_ok (next_lag lag w now')) es w now' evs)
    as (w' & out & Heq & Ht & Hn & Hi & Hp & Hd & Hs); try done.
  - intros r. apply lag_ok_insert. unfold next_lag. lia.
  - by intros r d [? _].
  - by intros r d [? _].
  - intros r d Hok Hd. by apply lag_ok_shift.
  - exists w', out. rewrite Hn in Hd, Hs. split_and!; [done..| |].
    + intros e He. by eapply Forall_forall in Hd.
    + intros e He (x & Hx & Hdue). destruct (Hs e He) as (x' & d & Hx' & Hd0 & _ & Hok).
      rewrite Hx in Hx'. injection Hx' as <-. specialize (Hok Hd0). unfold ticks_per_ms in *. lia.
Qed.

(** A poll at a time that is not later does nothing. *)
Lemma expire_stale es w now' evs : now' <= now_ w -> expire es now' (w, evs) = (Done tt, (w, evs)).
Proof. intros Hle. unfold expire. mred. by rewrite (proj2 (Z.ltb_ge _ _)). Qed.

(** C40.  The wheel keeps [60^5] ticks, from the start of the process: the poll that
    walks past the last one throws [std::out_of_range]. *)
Theorem expire_out_of_range es w now' evs
    (Hwf : wf_wheel w) (Hlt : now_ w < now')
    (Hcap : capacity <= tick w + to_ms (now' - now_ w))
    (Hint : to_ms (now' - now_ w) < 2 ^ 31) :
  expire es now' (w, evs) = (Thrown OutOfRange, (mkWheel (levels_ w) now', evs)).
Proof.
  unfold expire. cbv beta iota delta [bind get put ret].
  rewrite (proj2 (Z.ltb_lt _ _) Hlt). unfold interval_ms_. rewrite Z.quot_1_r.
  pose proof (to_ms_range (now' - now_ w) ltac:(lia)) as [Hge _].
  rewrite wrap_s_id by (change (2 ^ (32 - 1)) with (2 ^ 31); lia).
  destruct Hwf as [Hlen Hwf]. pose proof (tick_of_range _ Hwf).
  unfold walk. cbv beta iota delta [bind get put ret]. cbn [levels_ now_].
  rewrite walk_loop_overflow; [done|done| |].
  - unfold capacity, tick in *. rewrite Hlen in *. lia.
  - rewrite Hlen. exact Hcap.
Qed.

(** ** Sequences of polls *)

(** The latest of the times [ts] after [now], and the milliseconds walked when [expire]
    is called at each of them. *)
Definition clock_after : Z -> list Z -> Z := foldl Z.max.
Fixpoint ms_walked (now : Z) (ts : list Z) : Z :=
  match ts with
  | [] => 0
  | t :: ts' => to_ms (Z.max now t - now) + ms_walked (Z.max now t) ts'
  end.

(** The lag after the polls at [ts]: the time that has passed and was not walked. *)
Definition lag_after (lag now : Z) (ts : list Z) : Z :=
  lag + (clock_after now ts - now - ms_walked now ts * ticks_per_ms).

Lemma clock_after_ge now ts : now <= clock_after now ts.
Proof.
  revert now. induction ts as [|t ts IH]; intros now; [cbn; lia|].
  specialize (IH (Z.max now t)). change (clock_after now (t :: ts)) with (clock_after (Z.max now t) ts). lia.
Qed.

Lemma clock_after_cons now t ts : clock_after now (t :: ts) = clock_after (Z.max now t) ts.
Proof. done. Qed.

Lemma ms_walked_nonneg now ts : 0 <= ms_walked now ts.
Proof.
  revert now. induction ts as [|t ts IH]; intros now; cbn; [lia|].
  specialize (IH (Z.max now t)). pose proof (to_ms_range (Z.max now t - now)). lia.
Qed.

Lemma lag_after_cons lag now t ts :
  lag_after lag now (t :: ts) =
    lag_after (lag + (Z.max now t - now - to_ms (Z.max now t - now) * ticks_per_ms)) (Z.max now t) ts.
Proof. unfold lag_after. rewrite clock_after_cons. cbn [ms_walked]. unfold ticks_per_ms. lia. Qed.

(** Each poll adds less than a millisecond to the lag. *)
Lemma lag_after_bound lag now ts :
  lag <= lag_after lag now ts <= lag + Z.of_nat (length ts) * (ticks_per_ms - 1).
Proof.
  revert lag now. induction ts as [|t ts IH]; intros lag now; [unfold lag_after; cbn; lia|].
  rewrite lag_after_cons. cbn [length].
  specialize (IH (lag + (Z.max now t - now - to_ms (Z.max now t - now) * ticks_per_ms)) (Z.max now t)).
  pose proof (to_ms_range (Z.max now t - now) ltac:(lia)).
  pose proof (to_ms_lt (Z.max now t - now)). unfold ticks_per_ms in *. lia.
Qed.

(** Polls whole milliseconds apart add nothing to it. *)
Fixpoint whole_ms (now : Z) (ts : list Z) : Prop :=
  match ts with
  | [] => True
  | t :: ts' => (exists k, Z.max now t = now + k * ticks_per_ms) /\ whole_ms (Z.max now t) ts'
  end.

Lemma lag_after_whole lag now ts : whole_ms now ts -> lag_after lag now ts = lag.
Proof.
  revert lag now. induction ts as [|t ts IH]; intros lag now; [unfold lag_after; cbn; lia|].
  intros [[k Hk] Hts]. rewrite lag_after_cons, IH by done. rewrite Hk.
  replace (now + k * ticks_per_ms - now) with (k * ticks_per_ms) by lia.
  unfold to_ms. rewrite Z.quot_mul by done. lia.
Qed.

(** Polls that find the clock where it was leave the lag as it is. *)
Lemma lag_after_stays lag now ts : clock_after now ts = now -> lag_after lag now ts = lag.
Proof.
  intros Hc. pose proof (lag_after_bound lag now ts) as [Hb _]. pose proof (ms_walked_nonneg now ts).
  unfold lag_after in *. rewrite Hc in *. unfold ticks_per_ms in *. lia.
Qed.

Definition sum_list_Z : list Z -> Z := foldr Z.add 0.

Lemma due_mono es t t' e : t <= t' -> due es t e -> due es t' e.
Proof. intros Ht (x & Hx & Hd). exists x. split; [done|lia]. Qed.

(** ** Polling faster than the clock's millisecond *)

(** The times of polls that come less than a millisecond apart. *)
Inductive submillisecond : Z -> list Z -> Prop :=
| submillisecond_nil now : submillisecond now []
| submillisecond_cons now t ts :
    now < t < now + ticks_per_ms -> submillisecond t ts ->
    submillisecond now (t :: ts).

Lemma expire_submillisecond es w l t evs :
  levels_ w !! 0%nat = Some l -> wf_wheel w ->
  slot_at w 0 (current_it_ l) = [] -> slot_at w 0 (next_it (current_it_ l)) = [] ->
  now_ w < t < now_ w + ticks_per_ms ->
  expire es t (w, evs) = (Done tt, (mkWheel (levels_ w) t, evs)).
Proof.
  intros Hl [Hlen Hwf] Hs1 Hs2 Ht. destruct w as [ls now]. cbn [levels_ now_] in *.
  assert (to_ms (t - now) = 0) as Hms.
  { unfold to_ms, ticks_per_ms in *. rewrite Z.quot_small; lia. }
  unfold expire. cbv beta iota delta [bind get put ret]. cbn [levels_ now_].
  rewrite (proj2 (Z.ltb_lt _ _) (proj1 Ht)), Hms.
  change (to_int32 (Z.quot 0 interval_ms_)) with 0.
  assert (forall s, slot_at (mkWheel ls now) 0 s = [] ->
    (s < slot_num_)%nat ->
    reinsert_slot es 0 s (mkWheel ls t) = (Done tt, mkWheel ls t)) as Hre.
  { intros s Hs Hsn. unfold reinsert_slot. mred. cbn [levels_]. rewrite Hl.
    unfold slot_at in Hs. cbn in Hs. rewrite Hl in Hs. cbn in Hs.
    pose proof Hwf as Hwf0. rewrite Forall_lookup in Hwf0.
    destruct (Hwf0 _ _ Hl) as [Hev _].
    destruct (lookup_lt_is_Some_2 (events_ l) s) as [sl Hsl]; [by rewrite Hev|].
    rewrite Hsl in *. cbn in Hs. subst sl. cbn [default mfor now_].
    rewrite (list_insert_id _ _ _ Hsl). destruct l as [evl itl]. cbn [current_it_ events_].
    by rewrite (list_insert_id _ _ _ Hl). }
  pose proof Hwf as Hwf0. rewrite Forall_lookup in Hwf0.
  destruct (Hwf0 _ _ Hl) as [Hev Hc].
  destruct (next_it_mod _ Hc) as [Hnx _].
  unfold walk. cbv beta iota delta [bind get put ret]. cbn [levels_ now_].
  assert (walk_loop ls 0 0 [] = Some (0, [])) as -> by (by destruct ls).
  cbn [walk_levels]. change (Z.to_nat (Z.max (0 - 1) 0)) with O. unfold at_. rewrite Hl.
  cbv beta iota delta [zoom ret]. cbn [fst snd]. rewrite (Hre _ Hs1 Hc). cbn [fst snd].
  rewrite (Hre _ Hs2 Hnx). cbn [fst snd levels_ now_]. rewrite Hl.
  unfold slot_at in Hs1. cbn in Hs1. rewrite Hl in Hs1. cbn in Hs1.
  destruct (lookup_lt_is_Some_2 (events_ l) (current_it_ l)) as [sl Hsl]; [by rewrite Hev|].
  rewrite Hsl in *. cbn in Hs1. subst sl. cbn [default]. rewrite app_nil_r.
  rewrite (list_insert_id _ _ _ Hsl). destruct l as [evl itl]. cbn [current_it_ events_].
  by rewrite (list_insert_id _ _ _ Hl).
Qed.

(** Polled more than once per millisecond the wheel does not turn: the
    fraction of a millisecond is dropped at each poll, so however much time
    passes, an event two slots or more ahead stays where it is. *)
Theorem submillisecond_polls_stall es ts w l evs
    (Hwf : wf_wheel w) (Hl : levels_ w !! 0%nat = Some l)
    (Hcur : slot_at w 0 (current_it_ l) = [])
    (Hnext : slot_at w 0 (next_it (current_it_ l)) = [])
    (Hts : submillisecond (now_ w) ts) :
  mfor (expire es) ts (w, evs) =
    (Done tt, (mkWheel (levels_ w) (List.last ts (now_ w)), evs)).
Proof.
  revert w Hwf Hl Hcur Hnext Hts. induction ts as [|t ts IH];
    intros w Hwf Hl Hcur Hnext Hts; [by destruct w|].
  inversion Hts as [|? ? ? Ht Hts']; subst.
  cbn [mfor]. unfold bind.
  rewrite (expire_submillisecond es w l t evs Hl Hwf Hcur Hnext Ht).
  rewrite IH; [|done..]. cbn [levels_ now_ List.last].
  destruct ts; [done|]. do 3 f_equal. clear. revert z.
  induction ts as [|t' ts IH]; intros z; [done|]. cbn. destruct ts; [done|].
  apply (IH z).
Qed.

(** ** Instances *)

Lemma wf_Wheel_new now : wf_wheel (Wheel_new now).
Proof. split; [done|]. apply Forall_replicate. split; cbn; unfold slot_num_; lia. Qed.

Lemma winv_Wheel_new ok es now : winv ok es (Wheel_new now).
Proof.
  split; [apply wf_Wheel_new|]. intros L s e He. exfalso.
  assert (stored (Wheel_new now) = []) as Hnil by done.
  assert (e ∈ stored (Wheel_new now)) as Hin by (apply elem_of_stored; eauto).
  rewrite Hnil in Hin. by apply elem_of_nil in Hin.
Qed.
