(* ===== verification/WheelEquiv.v ===== *)
(** The timing wheel against a list of timers.  [expire] walks whole milliseconds and
    drops the rest of the time that has passed, so that the wheel falls behind the clock:
    the list has the time it is behind as part of its state. *)
From stdpp Require Import base gmap list relations.
From Stdlib Require Import ZArith Lia.
From S2P Require Import Prelude Errors Events Wheel WheelSpec.

Local Open Scope Z_scope.

(** A call on the wheel: an event is inserted, or the wheel is polled when the clock
    reads [t]. *)
Inductive timer_op : Type :=
| op_insert (e : eid)
| op_poll (t : Z).

(** ** The wheel *)

Definition wheel_call (es : EventStore) (op : timer_op) : M Wheel (list eid) :=
  match op with
  | op_insert e => insert_event es e ;;; ret []
  | op_poll t => fun w =>
      let '(o, (w', events)) := expire es t (w, []) in
      (match o with Done _ => Done events | Thrown x => Thrown x | Undef => Undef end, w')
  end.

Fixpoint wheel_calls (es : EventStore) (ops : list timer_op) : M Wheel (list (list eid)) :=
  match ops with
  | [] => ret []
  | op :: ops =>
      let! out := wheel_call es op in
      let! outs := wheel_calls es ops in
      ret (out :: outs)
  end.

(** ** The specification: a list of the pending events *)

Record TimerList : Type := mkTimerList { tl_pending : list eid; tl_now : Z; tl_lag : Z }.

(** The fraction of a millisecond between two times. *)
Definition fraction (now t : Z) : Z := (t - now) mod ticks_per_ms.

(** A poll of the list at [t] hands out events that are due by the clock, and all those
    that are due by the time of the list, which falls behind by the fraction of a
    millisecond since the poll before.  A poll that is not later does nothing. *)
Inductive timer_step (es : EventStore) : timer_op -> list eid -> TimerList -> TimerList -> Prop :=
| timer_insert e l now lag :
    timer_step es (op_insert e) [] (mkTimerList l now lag) (mkTimerList (e :: l) now lag)
| timer_stale t l now lag :
    t <= now -> timer_step es (op_poll t) [] (mkTimerList l now lag) (mkTimerList l now lag)
| timer_poll t l now lag out rest :
    now < t -> l ≡ₚ out ++ rest -> (forall e, e ∈ out -> due es t e) ->
    (forall e, e ∈ rest -> ~ due es (t - (lag + fraction now t)) e) ->
    timer_step es (op_poll t) out (mkTimerList l now lag)
      (mkTimerList rest t (lag + fraction now t)).

Inductive timer_steps (es : EventStore) : list timer_op -> list (list eid) -> TimerList -> TimerList -> Prop :=
| timer_steps_nil s : timer_steps es [] [] s s
| timer_steps_cons op ops out outs s s1 s2 :
    timer_step es op out s s1 -> timer_steps es ops outs s1 s2 ->
    timer_steps es (op :: ops) (out :: outs) s s2.

(** ** The reference: the same list when nothing is dropped *)

#[global] Instance due_decision es now e : Decision (due es now e).
Proof.
  unfold due. destruct (time_extra es e) as [x|].
  - destruct (decide (expire_time_ x - now < ticks_per_ms)).
    + left. by exists x.
    + right. by intros (x' & [= <-] & ?).
  - right. by intros (? & ? & _).
Defined.

Definition list_call (es : EventStore) (op : timer_op) (s : list eid * Z) : list eid * (list eid * Z) :=
  match op with
  | op_insert e => ([], (e :: s.1, s.2))
  | op_poll t =>
      if s.2 <? t then (filter (due es t) s.1, (filter (fun e => ~ due es t e) s.1, t))
      else ([], s)
  end.

Fixpoint list_calls (es : EventStore) (ops : list timer_op) (s : list eid * Z)
    : list (list eid) * (list eid * Z) :=
  match ops with
  | [] => ([], s)
  | op :: ops =>
      let '(out, s1) := list_call es op s in
      let '(outs, s2) := list_calls es ops s1 in
      (out :: outs, s2)
  end.

(** The calls stay within the capacity of the wheel. *)
Fixpoint calls_fit (es : EventStore) (tick now : Z) (ops : list timer_op) : Prop :=
  match ops with
  | [] => True
  | op_insert e :: ops =>
      (exists x, time_extra es e = Some x /\ tick + delay x now < capacity) /\
      calls_fit es tick now ops
  | op_poll t :: ops =>
      let k := to_ms (Z.max now t - now) in
      tick + k < capacity /\ calls_fit es (tick + k) (Z.max now t) ops
  end.

(** The polls are whole milliseconds apart. *)
Fixpoint whole_calls (now : Z) (ops : list timer_op) : Prop :=
  match ops with
  | [] => True
  | op_insert e :: ops => whole_calls now ops
  | op_poll t :: ops => (now < t -> fraction now t = 0) /\ whole_calls (Z.max now t) ops
  end.

(** A wheel and a list that hold the same events at the same time. *)
Definition same_timers (es : EventStore) (w : Wheel) (s : TimerList) : Prop :=
  winv (lag_ok (tl_lag s)) es w /\ 0 <= tl_lag s /\ stored w ≡ₚ tl_pending s /\ now_ w = tl_now s.

Lemma filter_every {A} (P : A -> Prop) `{forall x, Decision (P x)} (l : list A) :
  (forall x, x ∈ l -> P x) -> filter P l = l.
Proof.
  induction l as [|x l IH]; intros Hl; [done|]. rewrite filter_cons_True by (apply Hl; by left).
  f_equal. apply IH. intros y Hy. apply Hl. by right.
Qed.

Lemma filter_no {A} (P : A -> Prop) `{forall x, Decision (P x)} (l : list A) :
  (forall x, x ∈ l -> ~ P x) -> filter P l = [].
Proof.
  induction l as [|x l IH]; intros Hl; [done|]. rewrite filter_cons_False by (apply Hl; by left).
  apply IH. intros y Hy. apply Hl. by right.
Qed.

Lemma filter_split {A} (P : A -> Prop) `{forall x, Decision (P x)} (l l1 l2 : list A) :
  l ≡ₚ l1 ++ l2 -> (forall x, x ∈ l1 -> P x) -> (forall x, x ∈ l2 -> ~ P x) ->
  filter P l ≡ₚ l1 /\ filter (fun x => ~ P x) l ≡ₚ l2.
Proof.
  intros Hl H1 H2. split; rewrite Hl, filter_app.
  - by rewrite (filter_every P l1), (filter_no P l2), app_nil_r.
  - rewrite (filter_no _ l1), (filter_every _ l2); [done|done|].
    intros x Hx Hn. by apply Hn, H1.
Qed.

Lemma fraction_lag lag w t : now_ w < t -> next_lag lag w t = lag + fraction (now_ w) t.
Proof.
  intros Hlt. unfold next_lag, fraction, to_ms, ticks_per_ms. rewrite Z.quot_div_nonneg by lia.
  pose proof (Z.div_mod (t - now_ w) 1000). lia.
Qed.

Lemma fraction_nonneg now t : 0 <= fraction now t.
Proof. unfold fraction, ticks_per_ms. pose proof (Z.mod_pos_bound (t - now) 1000). lia. Qed.

(** What a call does to the tick of the wheel. *)
Definition call_ms (now : Z) (op : timer_op) : Z :=
  match op with op_insert _ => 0 | op_poll t => to_ms (Z.max now t - now) end.

(** One call. *)
Lemma calls_agree es op w s :
  same_timers es w s -> calls_fit es (tick w) (now_ w) [op] ->
  exists out w' s', wheel_call es op w = (Done out, w') /\ timer_step es op out s s' /\
    same_timers es w' s' /\ tick w' = tick w + call_ms (now_ w) op /\
    now_ w' = match op with op_insert _ => now_ w | op_poll t => Z.max (now_ w) t end.
Proof.
  intros (Hw & Hlag & Hst & Hn) Hfit. destruct s as [l now lag]. cbn [tl_pending tl_now tl_lag] in *.
  destruct op as [e|t]; cbn [wheel_call call_ms].
  - destruct Hfit as [Hfit _].
    destruct (insert_event_inv (lag_ok lag) (fun r => lag_ok_insert lag r Hlag) (fun _ _ => False) es e w Hw Hfit)
      as (w' & Hrun & Hw' & Hs' & Hc).
    exists [], w', (mkTimerList (e :: l) now lag). rewrite (bind_done _ _ _ _ _ Hrun).
    split_and!; [done|constructor| |rewrite (same_clock_tick _ _ Hc); lia|apply Hc].
    split_and!; [done..|cbn; by rewrite Hs', Hst|by rewrite (proj1 Hc)].
  - destruct Hfit as [Hcap _]. destruct (Z.lt_ge_cases (now_ w) t) as [Hlt|Hge].
    + rewrite Z.max_r in * by lia.
      destruct (expire_splits es w lag t [] Hw Hlag Hlt Hcap) as (w' & out & Hrun & Hw' & Hn' & Ht & Hp & Hd & Hr).
      rewrite fraction_lag, Hn in Hw', Hr by done. exists out, w', (mkTimerList (stored w') t (lag + fraction now t)).
      rewrite Hrun. split_and!; [done| | |done|done].
      * constructor; [lia|by rewrite <- Hst|done|done].
      * pose proof (fraction_nonneg now t). split_and!; [done|cbn; lia|done|done].
    + rewrite expire_stale by done. exists [], w, (mkTimerList l now lag).
      split_and!; [done|constructor; lia| | |lia]; [done|].
      rewrite Z.max_l, Z.sub_diag by lia. change (to_ms 0) with 0. lia.
Qed.

(** When nothing is dropped the specification leaves no choice. *)
Lemma whole_steps_exact es ops outs s s' :
  timer_steps es ops outs s s' -> tl_lag s = 0 -> whole_calls (tl_now s) ops ->
  forall l, tl_pending s ≡ₚ l ->
  Forall2 (≡ₚ) outs (fst (list_calls es ops (l, tl_now s))) /\
  tl_pending s' ≡ₚ fst (snd (list_calls es ops (l, tl_now s))).
Proof.
  induction 1 as [s|op ops out outs s s1 s2 Hst _ IH]; intros Hlag Hwh l Hl; [split; [constructor|done]|].
  cbn [list_calls].
  enough (out ≡ₚ fst (list_call es op (l, tl_now s)) /\
    tl_pending s1 ≡ₚ fst (snd (list_call es op (l, tl_now s))) /\
    tl_now s1 = snd (snd (list_call es op (l, tl_now s))) /\ tl_lag s1 = 0 /\
    whole_calls (tl_now s1) ops) as (Ho & Hp & Hn & Hlag1 & Hwh1).
  { destruct (list_call es op (l, tl_now s)) as [o [l1 n1]]. cbn [fst snd] in *. subst n1.
    destruct (IH Hlag1 Hwh1 l1 Hp) as [IH1 IH2].
    destruct (list_calls es ops (l1, tl_now s1)) as [os s3]. cbn [fst snd] in *.
    split; [by constructor|done]. }
  destruct Hst as [e p now lag|t p now lag Hle|t p now lag out rest Hlt Hp Hd Hr]; cbn in *.
  - split_and!; [done|by rewrite Hl|done..].
  - rewrite (proj2 (Z.ltb_ge _ _)) by done. rewrite Z.max_l in Hwh by done.
    split_and!; try done. by apply Hwh.
  - rewrite (proj2 (Z.ltb_lt _ _)) by done. rewrite Z.max_r in Hwh by lia. destruct Hwh as [Hf Hwh].
    rewrite Hf, Hlag, !Z.add_0_r in * by done. rewrite Z.sub_0_r in Hr.
    destruct (filter_split (due es t) l out rest) as [F1 F2]; [by rewrite <- Hl|done|done|].
    cbn. by rewrite F1, F2.
Qed.

