(* ===== verification/Futures.v ===== *)
(** Futures, promises and the awaiting protocol:
    [include/xyco/runtime/future.ccm], [src/runtime/future.cc].

    The heap holds the [Future] objects and the coroutine frames with their
    promises.  [Future<Output>] and its specialization [Future<void>] share one
    record; [p_void] and [f_void] say which of the two a promise or a future
    is, and the operations that differ test it. *)
From stdpp Require Import base gmap list.
From S2P Require Import Prelude Errors.

Inductive Poll (T : Type) : Type :=
| Ready (inner_ : T)
| Pending.
Arguments Ready {T} inner_.
Arguments Pending {T}.

(** [try { m } catch (...) { h(e) }]. *)
Definition try_catch {S A} (m : M S A) (h : exn -> M S A) : M S A :=
  fun s => match m s with
           | (Thrown e, s') => h e s'
           | r => r
           end.

Section Futures.
Context {V : Type}.

(** The members of [Future<Output>]. *)
Record FutureObj : Type := mkFuture {
  f_void : bool;
  f_return_ : option V;
  f_exception_ptr_ : option exn;
  f_self_ : option hid;
  f_waiting_ : option hid;
  f_waited_ : option hid;
  f_cancelled_ : bool;
}.

(** A coroutine frame: its promise's [future_] and whether it is suspended at
    its final suspend point ([coroutine_handle::done]). *)
Record Frame : Type := mkFrame {
  p_void : bool;
  p_future_ : option fid;
  fr_done : bool;
}.

Record Heap : Type := mkHeap {
  futures : gmap fid FutureObj;
  frames : gmap hid Frame;
}.

(** ** Memory accesses: a dangling or null pointer is undefined behaviour *)

Definition get_fut (f : fid) : M Heap FutureObj :=
  let! h := get in deref (futures h !! f).
Definition get_frame (c : hid) : M Heap Frame :=
  let! h := get in deref (frames h !! c).
Definition set_fut (f : fid) (fo : FutureObj) : M Heap unit :=
  modify (fun h => mkHeap (<[f := fo]> (futures h)) (frames h)).
Definition set_frame (c : hid) (fr : Frame) : M Heap unit :=
  modify (fun h => mkHeap (futures h) (<[c := fr]> (frames h))).

Definition upd_fut (f : fid) (g : FutureObj -> FutureObj) : M Heap unit :=
  let! fo := get_fut f in set_fut f (g fo).

(** Field updates. *)
Definition with_return (r : option V) (fo : FutureObj) : FutureObj :=
  mkFuture (f_void fo) r (f_exception_ptr_ fo) (f_self_ fo) (f_waiting_ fo)
    (f_waited_ fo) (f_cancelled_ fo).
Definition with_exception (e : option exn) (fo : FutureObj) : FutureObj :=
  mkFuture (f_void fo) (f_return_ fo) e (f_self_ fo) (f_waiting_ fo)
    (f_waited_ fo) (f_cancelled_ fo).
Definition with_waiting (c : option hid) (fo : FutureObj) : FutureObj :=
  mkFuture (f_void fo) (f_return_ fo) (f_exception_ptr_ fo) (f_self_ fo) c
    (f_waited_ fo) (f_cancelled_ fo).
Definition with_waited (c : option hid) (fo : FutureObj) : FutureObj :=
  mkFuture (f_void fo) (f_return_ fo) (f_exception_ptr_ fo) (f_self_ fo)
    (f_waiting_ fo) c (f_cancelled_ fo).
Definition with_cancelled (fo : FutureObj) : FutureObj :=
  mkFuture (f_void fo) (f_return_ fo) (f_exception_ptr_ fo) (f_self_ fo)
    (f_waiting_ fo) (f_waited_ fo) true.

(** ** [PromiseType] *)

(** [Future(Handle<promise_type> self)] at address [this]. *)
Definition Future_ctor (void : bool) (this : fid) (self : option hid) : M Heap unit :=
  set_fut this (mkFuture void None None self None None false) ;;;
  match self with
  | Some c =>
      let! fr := get_frame c in
      set_frame c (mkFrame (p_void fr) (Some this) (fr_done fr))
  | None => ret tt
  end.

(** [get_return_object] builds the future of the coroutine at [this]. *)
Definition Promise_get_return_object (c : hid) (this : fid) : M Heap unit :=
  let! fr := get_frame c in
  Future_ctor (p_void fr) this (Some c).

(** [future_->...] in a promise: [Future<void>] tests [future_] for null and
    runs [on_null]; [Future<Output>] does not. *)
Definition on_future {A} (c : hid) (k : fid -> M Heap A) (on_null : M Heap A)
    : M Heap A :=
  let! fr := get_frame c in
  match p_future_ fr with
  | Some f => k f
  | None => if p_void fr then on_null else undef
  end.

(** The handle [final_suspend]'s awaitable resumes. *)
Definition Promise_final_suspend (c : hid) : M Heap (option hid) :=
  on_future c (fun f => let! fo := get_fut f in ret (f_waiting_ fo)) (ret None).

Definition Promise_unhandled_exception (c : hid) (e : exn) : M Heap unit :=
  on_future c (fun f => upd_fut f (with_exception (Some e))) (throw e).

(** [return_value] and, with the [bool] of [Future<void>] as value,
    [return_void]. *)
Definition Promise_return_value (c : hid) (v : V) : M Heap unit :=
  on_future c (fun f => upd_fut f (with_return (Some v))) (ret tt).

Definition Promise_future (c : hid) : M Heap (option fid) :=
  let! fr := get_frame c in ret (p_future_ fr).

Definition Promise_set_waited (c : hid) (w : option hid) : M Heap unit :=
  on_future c (fun f => upd_fut f (with_waited w)) (ret tt).

(** ** [FinalAwaitable] *)

Definition FinalAwaitable_await_ready (waiting_ : option hid) : bool :=
  match waiting_ with None => true | Some _ => false end.
Definition FinalAwaitable_await_suspend (waiting_ : option hid) : option hid :=
  waiting_.

(** ** [Awaitable] *)

Definition Awaitable_await_ready (f : fid) : M Heap bool :=
  let! fo := get_fut f in
  match f_self_ fo with
  | Some c => let! fr := get_frame c in ret (fr_done fr)
  | None => ret false
  end.

(** User code runs in a larger state [S] that contains the heap: [prj] and
    [upd] are the access to it. *)
Section InState.
Context {S : Type} (prj : S -> Heap) (upd : Heap -> S -> S).

(** [resume] runs a coroutine and [poll] is the virtual function of a future
    object: both are the user's code.  The result says whether the awaiting
    coroutine stays suspended. *)
Definition Awaitable_await_suspend (resume : hid -> M S unit)
    (poll : fid -> option hid -> M S (Poll V)) (f : fid) (waiting : hid)
    : M S bool :=
  let on_heap {A} (m : M Heap A) : M S A := zoom prj upd m in
  on_heap (upd_fut f (with_waiting (Some waiting))) ;;;
  let! fo := on_heap (get_fut f) in
  on_heap (Promise_set_waited waiting (f_self_ fo)) ;;;
  match f_self_ fo with
  | Some c => resume c ;;; ret true
  | None =>
      let! res := poll f (Some waiting) in
      match res with
      | Pending => ret true
      | Ready v =>
          (if f_void fo then ret tt
           else on_heap (upd_fut f (with_return (Some v)))) ;;;
          ret false
      end
  end.

Definition Future_poll_wrapper (poll : fid -> option hid -> M S (Poll V))
    (f : fid) : M S bool :=
  let on_heap {A} (m : M Heap A) : M S A := zoom prj upd m in
  try_catch
    (let! fo := on_heap (get_fut f) in
     let! result := poll f (f_waiting_ fo) in
     match result with
     | Pending => ret false
     | Ready v =>
         (if f_void fo then ret tt
          else on_heap (upd_fut f (with_return (Some v)))) ;;;
         ret true
     end)
    (fun e => on_heap (upd_fut f (with_exception (Some e))) ;;; ret true).
End InState.

(** The result is [None] for [Future<void>]. *)
Definition Awaitable_await_resume (f : fid) : M Heap (option V) :=
  let! fo := get_fut f in
  match f_waiting_ fo with
  | Some c => Promise_set_waited c None
  | None => ret tt
  end ;;;
  let! fo := get_fut f in
  match f_exception_ptr_ fo with
  | Some e => throw e
  | None =>
      if f_cancelled_ fo then throw CancelException
      else if f_void fo then ret None
      else let! v := deref (f_return_ fo) in ret (Some v)
  end.

(** ** [Future] *)

Definition Future_get_handle (f : fid) : M Heap (option hid) :=
  let! fo := get_fut f in
  ret match f_self_ fo with None => f_waiting_ fo | Some c => Some c end.

(** [cancel] follows the chain of awaited coroutines; [fuel] bounds the
    depth of the recursion. *)
Fixpoint Future_cancel (fuel : nat) (f : fid) : M Heap unit :=
  match fuel with
  | O => undef
  | S fuel =>
      upd_fut f with_cancelled ;;;
      let! fo := get_fut f in
      match f_waited_ fo with
      | None => ret tt
      | Some c =>
          let! fo := Promise_future c in
          let! f' := deref fo in
          Future_cancel fuel f'
      end
  end.

(** [operator=(Future &&)]; [Future<void>] leaves [return_] alone. *)
Definition Future_move_assign (this other : fid) : M Heap unit :=
  let! o := get_fut other in
  upd_fut this (fun t =>
    mkFuture (f_void t) (if f_void t then f_return_ t else f_return_ o)
      (f_exception_ptr_ t) (f_self_ o) (f_waiting_ o) (f_waited_ o)
      (f_cancelled_ t)) ;;;
  upd_fut other (fun o =>
    mkFuture (f_void o) (f_return_ o) (f_exception_ptr_ o) None None None
      (f_cancelled_ o)) ;;;
  let! t := get_fut this in
  match f_self_ t with
  | Some c =>
      let! fr := get_frame c in
      set_frame c (mkFrame (p_void fr) (Some this) (fr_done fr))
  | None => ret tt
  end.

(** [Future(Future &&)]. *)
Definition Future_move_ctor (void : bool) (this other : fid) : M Heap unit :=
  set_fut this (mkFuture void None None None None None false) ;;;
  Future_move_assign this other.

(** [~Future]: the outermost coroutine outlives its [Future<void>].  Destroying
    a frame runs the destructors of its locals, each a [Future_dtor] of its
    own. *)
Definition Future_dtor (this : fid) : M Heap unit :=
  let! fo := get_fut this in
  match f_self_ fo with
  | None => ret tt
  | Some c =>
      if f_void fo && bool_decide (f_waiting_ fo = None) then
        let! fr := get_frame c in
        set_frame c (mkFrame (p_void fr) None (fr_done fr))
      else
        get_frame c ;;;
        modify (fun h => mkHeap (futures h) (delete c (frames h)))
  end ;;;
  modify (fun h => mkHeap (delete this (futures h)) (frames h)).
End Futures.
Arguments FutureObj : clear implicits.
Arguments Heap : clear implicits.
