(* ===== verification/FuturesSpec.v ===== *)
(** Properties of futures and promises: the links between a coroutine's frame
    and its future, the delivery of results and exceptions, cancellation. *)
From stdpp Require Import base gmap list relations.
From S2P Require Import Prelude Errors Futures.

Section Spec.
Context {V : Type}.
Implicit Types (h : Heap V) (fo : FutureObj V) (f g : fid) (c : hid).

(** ** Reading and writing the heap *)

Definition put_fut f fo h : Heap V := mkHeap (<[f := fo]> (futures h)) (frames h).

Lemma upd_fut_run f (u : FutureObj V -> FutureObj V) fo h :
  futures h !! f = Some fo -> upd_fut f u h = (Done tt, put_fut f (u fo) h).
Proof. intros Hf. unfold upd_fut, get_fut, set_fut. mred. by rewrite Hf. Qed.

Lemma on_future_run {A} c (k : fid -> M (Heap V) A) n fr f h :
  frames h !! c = Some fr -> p_future_ fr = Some f -> on_future c k n h = k f h.
Proof. intros Hc Hf. unfold on_future, get_frame. mred. by rewrite Hc, Hf. Qed.

(** ** Links

    The promise of a frame and the future of its coroutine point to each
    other.  Only a [Future<void>] leaves its coroutine behind. *)
Record linked h : Prop := {
  frame_link : forall c fr f, frames h !! c = Some fr -> p_future_ fr = Some f ->
    exists fo, futures h !! f = Some fo /\ f_self_ fo = Some c /\ f_void fo = p_void fr;
  fut_link : forall f fo c, futures h !! f = Some fo -> f_self_ fo = Some c ->
    exists fr, frames h !! c = Some fr /\ p_future_ fr = Some f;
  value_link : forall c fr, frames h !! c = Some fr -> p_void fr = false ->
    p_future_ fr <> None;
}.

(** An update of a future that keeps [self_] keeps the links. *)
Lemma linked_put f fo fo' h :
  linked h -> futures h !! f = Some fo -> f_self_ fo' = f_self_ fo ->
  f_void fo' = f_void fo -> linked (put_fut f fo' h).
Proof.
  intros [H1 H2 H3] Hf Hs Hv. split; cbn; [| |done].
  - intros c fr g Hc Hg. destruct (H1 c fr g Hc Hg) as (go & Hgo & ? & ?).
    destruct (decide (g = f)) as [->|]; [|rewrite lookup_insert_ne by done; eauto].
    rewrite lookup_insert_eq. simplify_eq. exists fo'. split_and!; congruence.
  - intros g go c Hgo Hc. destruct (decide (g = f)) as [->|].
    + rewrite lookup_insert_eq in Hgo. simplify_eq. apply (H2 f fo); congruence.
    + rewrite lookup_insert_ne in Hgo by done. eauto.
Qed.

(** The fields of a future an operation changes, other than [self_]. *)
Definition keeps_self (u : FutureObj V -> FutureObj V) : Prop :=
  forall fo, f_self_ (u fo) = f_self_ fo /\ f_void (u fo) = f_void fo.

Lemma keeps_with_return r : keeps_self (with_return r).
Proof. by intros []. Qed.
Lemma keeps_with_exception e : keeps_self (with_exception e).
Proof. by intros []. Qed.
Lemma keeps_with_waiting w : keeps_self (with_waiting w).
Proof. by intros []. Qed.
Lemma keeps_with_waited w : keeps_self (with_waited w).
Proof. by intros []. Qed.
Lemma keeps_with_cancelled : keeps_self with_cancelled.
Proof. by intros []. Qed.

Lemma linked_upd f u h r h' :
  keeps_self u -> linked h -> upd_fut f u h = (r, h') -> linked h'.
Proof.
  intros Hu Hl. unfold upd_fut, get_fut, set_fut. mred.
  destruct (futures h !! f) as [fo|] eqn:Hf; intros; simplify_eq; [|done].
  destruct (Hu fo). by eapply linked_put.
Qed.

Lemma linked_on_future {A} c (k : fid -> M (Heap V) A) n h r h' :
  (forall f h r h', linked h -> k f h = (r, h') -> linked h') ->
  (forall h r h', linked h -> n h = (r, h') -> linked h') ->
  linked h -> on_future c k n h = (r, h') -> linked h'.
Proof.
  intros Hk Hn Hl. unfold on_future, get_frame. mred.
  destruct (frames h !! c) as [fr|]; [|intros; by simplify_eq].
  destruct (p_future_ fr); [by apply Hk|].
  destruct (p_void fr); [by apply Hn|intros; by simplify_eq].
Qed.

Lemma linked_cancel n f h r h' :
  linked h -> Future_cancel n f h = (r, h') -> linked h'.
Proof.
  revert f h. induction n as [|n IH]; intros f h Hl; cbn.
  { mred. intros. by simplify_eq. }
  unfold bind at 1. destruct (upd_fut f with_cancelled h) as [o h1] eqn:E.
  apply (linked_upd _ _ _ _ _ keeps_with_cancelled Hl) in E.
  destruct o; [|intros; by simplify_eq..].
  unfold get_fut, Promise_future, get_frame. mred.
  destruct (futures h1 !! f) as [fo|]; [|intros; by simplify_eq].
  destruct (f_waited_ fo) as [c|]; [|intros; by simplify_eq].
  destruct (frames h1 !! c) as [fr|]; [|intros; by simplify_eq].
  destruct (p_future_ fr); [|intros; by simplify_eq]. by apply IH.
Qed.

(** ** The life of futures and coroutines *)

(** A step of the program on its heap.  A coroutine is called: its frame and
    its future are made together.  A future object is made with no
    coroutine.  A future is moved into a new object, or assigned to an object of its
    type that holds no coroutine; it is destroyed; the coroutine finishes; [set_waited], [poll_wrapper], [await_suspend] and
    [cancel] write to the object. *)
Inductive life_step : Heap V -> Heap V -> Prop :=
| life_call h c f void h' :
    frames h !! c = None -> futures h !! f = None ->
    Promise_get_return_object c f
      (mkHeap (futures h) (<[c := mkFrame void None false]> (frames h))) = (Done tt, h') ->
    life_step h h'
| life_object h f void h' :
    futures h !! f = None -> Future_ctor void f None h = (Done tt, h') ->
    life_step h h'
| life_move h this other o h' :
    futures h !! this = None -> futures h !! other = Some o ->
    Future_move_ctor (f_void o) this other h = (Done tt, h') ->
    life_step h h'
| life_assign h this other t o h' :
    futures h !! this = Some t -> futures h !! other = Some o -> other <> this ->
    f_void o = f_void t -> f_self_ t = None ->
    Future_move_assign this other h = (Done tt, h') ->
    life_step h h'
| life_dtor h f h' :
    Future_dtor f h = (Done tt, h') -> life_step h h'
| life_return h c v r h' :
    Promise_return_value c v h = (r, h') -> life_step h h'
| life_exception h c e r h' :
    Promise_unhandled_exception c e h = (r, h') -> life_step h h'
| life_waited h c w r h' :
    Promise_set_waited c w h = (r, h') -> life_step h h'
| life_write h f u r h' :
    keeps_self u -> upd_fut f u h = (r, h') -> life_step h h'
| life_cancel h n f r h' :
    Future_cancel n f h = (r, h') -> life_step h h'.

Lemma linked_call h c f void h' :
  linked h -> frames h !! c = None -> futures h !! f = None ->
  Promise_get_return_object c f
    (mkHeap (futures h) (<[c := mkFrame void None false]> (frames h))) = (Done tt, h') ->
  linked h'.
Proof.
  intros [H1 H2 H3] Hc Hf. unfold Promise_get_return_object, Future_ctor, get_frame, set_fut, set_frame.
  mred. cbn. rewrite lookup_insert_eq. cbn. rewrite lookup_insert_eq. cbn.
  rewrite insert_insert_eq. intros [= <-]. split; cbn.
  - intros c' fr' f' Hc' Hf'. destruct (decide (c' = c)) as [->|].
    + rewrite lookup_insert_eq in Hc'. simplify_eq/=. exists (mkFuture void None None (Some c) None None false).
      by rewrite lookup_insert_eq.
    + rewrite lookup_insert_ne in Hc' by done.
      destruct (H1 _ _ _ Hc' Hf') as (fo & Hfo & ?). exists fo.
      rewrite lookup_insert_ne; [done|]. intros ->. by simplify_eq.
  - intros g go c' Hg Hc'. destruct (decide (g = f)) as [->|].
    + rewrite lookup_insert_eq in Hg. simplify_eq/=. eexists. by rewrite lookup_insert_eq.
    + rewrite lookup_insert_ne in Hg by done.
      destruct (H2 _ _ _ Hg Hc') as (fr & Hfr & ?). exists fr.
      rewrite lookup_insert_ne; [done|]. intros ->. by simplify_eq.
  - intros c' fr' Hc' Hv. destruct (decide (c' = c)) as [->|].
    + rewrite lookup_insert_eq in Hc'. by simplify_eq/=.
    + rewrite lookup_insert_ne in Hc' by done. eauto.
Qed.

Lemma linked_object h f void h' :
  linked h -> futures h !! f = None -> Future_ctor void f None h = (Done tt, h') ->
  linked h'.
Proof.
  intros [H1 H2 H3] Hf. unfold Future_ctor, set_fut. mred. intros [= <-].
  split; cbn; [| |done].
  - intros c fr g Hc Hg. destruct (H1 c fr g Hc Hg) as (go & Hgo & ?).
    exists go. rewrite lookup_insert_ne; [done|]. intros ->. by simplify_eq.
  - intros g go c Hgo Hc. destruct (decide (g = f)) as [->|].
    + rewrite lookup_insert_eq in Hgo. by simplify_eq/=.
    + rewrite lookup_insert_ne in Hgo by done. eauto.
Qed.

(** The object assigned to takes over the coroutine, the old one holds none. *)
Lemma move_assign_run this other t o h :
  linked h -> futures h !! this = Some t -> futures h !! other = Some o -> other <> this ->
  let t' := mkFuture (f_void t) (if f_void t then f_return_ t else f_return_ o) (f_exception_ptr_ t)
              (f_self_ o) (f_waiting_ o) (f_waited_ o) (f_cancelled_ t) in
  let o' := mkFuture (f_void o) (f_return_ o) (f_exception_ptr_ o) None None None (f_cancelled_ o) in
  Future_move_assign this other h =
    (Done tt, mkHeap (<[other := o']> (<[this := t']> (futures h)))
                match f_self_ o with
                | None => frames h
                | Some c => alter (fun fr => mkFrame (p_void fr) (Some this) (fr_done fr)) c (frames h)
                end).
Proof.
  intros [H1 H2 H3] Ht Ho Hne t' o'.
  unfold Future_move_assign, upd_fut, get_fut, set_fut, set_frame, get_frame.
  mred. cbn. rewrite Ho. cbn. rewrite Ht. cbn.
  rewrite lookup_insert_ne, Ho by done. cbn.
  rewrite lookup_insert_ne, lookup_insert_eq by done. cbn.
  destruct (f_self_ o) as [c|] eqn:Hs; [|done].
  destruct (H2 _ _ _ Ho Hs) as (fr & Hfr & _). cbn. rewrite Hfr. cbn.
  do 2 f_equal. apply map_eq. intros c'. destruct (decide (c' = c)) as [->|].
  - by rewrite lookup_insert_eq, lookup_alter_eq, Hfr.
  - by rewrite lookup_insert_ne, lookup_alter_ne by done.
Qed.

Lemma linked_assign h this other t o h' :
  linked h -> futures h !! this = Some t -> futures h !! other = Some o -> other <> this ->
  f_void o = f_void t -> f_self_ t = None ->
  Future_move_assign this other h = (Done tt, h') -> linked h'.
Proof.
  intros Hl Ht Ho Hne Hv Hst Hm. rewrite (move_assign_run this other t o h Hl Ht Ho Hne) in Hm.
  injection Hm as <-. destruct Hl as [H1 H2 H3].
  assert (forall c fr f, frames h !! c = Some fr -> p_future_ fr = Some f ->
            f_self_ o <> Some c -> f <> other /\ f <> this) as Hoth.
  { intros c fr f Hc Hf Hso. destruct (H1 _ _ _ Hc Hf) as (fo & Hfo & Hs & _).
    split; intros ->; simplify_eq. }
  split; cbn.
  - intros c fr f Hc Hf. destruct (f_self_ o) as [c0|] eqn:Hs.
    + destruct (decide (c = c0)) as [->|].
      * rewrite lookup_alter_eq in Hc. destruct (frames h !! c0) as [fr0|] eqn:Hc0; [|done].
        simplify_eq/=. rewrite lookup_insert_ne, lookup_insert_eq by done.
        eexists. split_and!; [done|done|]. cbn.
        destruct (H2 _ _ _ Ho Hs) as (fr1 & ? & Hp). simplify_eq.
        destruct (H1 _ _ _ Hc0 Hp) as (? & ? & ? & ?). simplify_eq. congruence.
      * rewrite lookup_alter_ne in Hc by done.
        destruct (Hoth c fr f Hc Hf) as [? ?]; [congruence|].
        rewrite !lookup_insert_ne by done. eauto.
    + destruct (Hoth c fr f Hc Hf) as [? ?]; [done|].
      rewrite !lookup_insert_ne by done. eauto.
  - intros f fo c Hf Hs. destruct (decide (f = other)) as [->|Hfo].
    { rewrite lookup_insert_eq in Hf. by simplify_eq/=. }
    rewrite lookup_insert_ne in Hf by done. destruct (decide (f = this)) as [->|Hft].
    + rewrite lookup_insert_eq in Hf. simplify_eq/=. rewrite Hs.
      destruct (H2 _ _ _ Ho Hs) as (fr & Hfr & _).
      eexists. rewrite lookup_alter_eq, Hfr. cbn. split; [done|]. done.
    + rewrite lookup_insert_ne in Hf by done.
      destruct (H2 _ _ _ Hf Hs) as (fr & Hfr & Hp). exists fr.
      destruct (f_self_ o) as [c0|] eqn:Hso; [|done].
      rewrite lookup_alter_ne; [done|]. intros ->.
      destruct (H2 _ _ _ Ho Hso) as (fr' & ? & ?). simplify_eq.
  - intros c fr Hc Hv'. destruct (f_self_ o) as [c0|]; [|by eapply H3].
    destruct (decide (c = c0)) as [->|].
    + rewrite lookup_alter_eq in Hc. destruct (frames h !! c0); by simplify_eq/=.
    + rewrite lookup_alter_ne in Hc by done. by eapply H3.
Qed.

(** The move constructor assigns to a new object. *)
Lemma linked_move h this other o h' :
  linked h -> futures h !! this = None -> futures h !! other = Some o ->
  Future_move_ctor (f_void o) this other h = (Done tt, h') -> linked h'.
Proof.
  intros Hl Ht Ho. assert (other <> this) as Hne by (intros ->; by simplify_eq).
  set (t := mkFuture (f_void o) None None None None None false : FutureObj V).
  unfold Future_move_ctor. fold t. rewrite (bind_done _ _ _ tt (put_fut this t h)) by done.
  apply (linked_assign _ this other t o); [|cbn; by rewrite ?lookup_insert_eq|
    cbn; by rewrite lookup_insert_ne|done..].
  by apply (linked_object h this (f_void o)).
Qed.

Lemma linked_dtor h f h' :
  linked h -> Future_dtor f h = (Done tt, h') -> linked h'.
Proof.
  intros [H1 H2 H3]. unfold Future_dtor, get_fut, get_frame, set_frame. mred.
  destruct (futures h !! f) as [fo|] eqn:Hf; [|done].
  destruct (f_self_ fo) as [c|] eqn:Hs.
  2:{ intros [= <-]. split; cbn; [| |done].
      - intros c fr g Hc Hg. destruct (H1 c fr g Hc Hg) as (go & Hgo & Hself & Hv).
        exists go. rewrite lookup_delete_ne; [done|]. intros ->. by simplify_eq.
      - intros g go c Hgo Hc. apply lookup_delete_Some in Hgo as [? Hgo]. eauto. }
  destruct (H2 _ _ _ Hf Hs) as (fr & Hfr & Hp).
  assert (forall c' fr' g, frames h !! c' = Some fr' -> p_future_ fr' = Some g ->
            c' <> c -> g <> f) as Hne.
  { intros c' fr' g Hc' Hg Hcc ->. destruct (H1 _ _ _ Hc' Hg) as (? & ? & ? & _). by simplify_eq. }
  assert (forall g go c', futures h !! g = Some go -> f_self_ go = Some c' -> g <> f -> c' <> c) as Hne'.
  { intros g go c' Hg Hc' Hgf ->. destruct (H2 _ _ _ Hg Hc') as (? & ? & ?). by simplify_eq. }
  destruct (f_void fo && _) eqn:Hb; rewrite Hfr; intros [= <-]; split; cbn.
  - intros c' fr' g Hc' Hg. destruct (decide (c' = c)) as [->|Hcc].
    + rewrite lookup_insert_eq in Hc'. by simplify_eq/=.
    + rewrite lookup_insert_ne in Hc' by done. rewrite lookup_delete_ne; [eauto|].
      apply not_eq_sym. by eapply Hne.
  - intros g go c' Hg Hc'. apply lookup_delete_Some in Hg as [Hgf Hg].
    assert (c' <> c) by (by eapply Hne'). rewrite lookup_insert_ne by done. eauto.
  - intros c' fr' Hc' Hv. destruct (decide (c' = c)) as [->|].
    + rewrite lookup_insert_eq in Hc'. simplify_eq/=.
      destruct (H1 _ _ _ Hfr Hp) as (? & ? & _ & Hvv). simplify_eq.
      apply andb_true_iff in Hb as [Hb _]. congruence.
    + rewrite lookup_insert_ne in Hc' by done. eauto.
  - intros c' fr' g Hc' Hg. apply lookup_delete_Some in Hc' as [Hcc Hc'].
    rewrite lookup_delete_ne; [eauto|]. apply not_eq_sym. by eapply Hne.
  - intros g go c' Hg Hc'. apply lookup_delete_Some in Hg as [Hgf Hg].
    assert (c' <> c) by (by eapply Hne'). rewrite lookup_delete_ne by done. eauto.
  - intros c' fr' Hc' Hv. apply lookup_delete_Some in Hc' as [Hcc Hc']. eauto.
Qed.

Lemma life_step_linked h h' : linked h -> life_step h h' -> linked h'.
Proof.
  intros Hl. inversion 1; subst.
  - by eapply linked_call.
  - by eapply linked_object.
  - by eapply linked_move.
  - match goal with H : Future_move_assign ?a ?b _ = _ |- _ => by eapply (linked_assign _ a b) end.
  - by eapply linked_dtor.
  - eapply linked_on_future; [| |done|done].
    + intros ? ? ? ? ? Hu. by eapply (linked_upd _ _ _ _ _ (keeps_with_return _)), Hu.
    + mred. intros. by simplify_eq.
  - eapply linked_on_future; [| |done|done].
    + intros ? ? ? ? ? Hu. by eapply (linked_upd _ _ _ _ _ (keeps_with_exception _)), Hu.
    + mred. intros. by simplify_eq.
  - eapply linked_on_future; [| |done|done].
    + intros ? ? ? ? ? Hu. by eapply (linked_upd _ _ _ _ _ (keeps_with_waited _)), Hu.
    + mred. intros. by simplify_eq.
  - by eapply linked_upd.
  - by eapply linked_cancel.
Qed.

Lemma linked_empty : linked (mkHeap ∅ ∅).
Proof. split; cbn; intros *; rewrite lookup_empty; done. Qed.

Lemma on_future_safe {A} c (k : fid -> M (Heap V) A) n fr h :
  linked h -> frames h !! c = Some fr ->
  (forall f fo, futures h !! f = Some fo -> (k f h).1 <> Undef) ->
  (n h).1 <> Undef -> (on_future c k n h).1 <> Undef.
Proof.
  intros [H1 _ H3] Hc Hk Hn. unfold on_future, get_frame. mred. rewrite Hc.
  destruct (p_future_ fr) as [f|] eqn:Hf.
  - destruct (H1 _ _ _ Hc Hf) as (fo & Hfo & _). by eapply Hk.
  - destruct (p_void fr) eqn:Hv; [done|]. by destruct (H3 _ _ Hc Hv).
Qed.

(** C13.  In every heap the program can reach, from the empty one, by calling
    coroutines, making and destroying futures, moving them into new objects or assigning
    them to objects that hold no coroutine, finishing, awaiting and cancelling coroutines,
    no promise of a live coroutine dereferences a
    null or dangling future: [final_suspend], [return_value] (or
    [return_void]), [unhandled_exception] and [set_waited] all avoid
    undefined behaviour. *)
Theorem promises_never_dangle h c fr v e w
    (Hreach : rtc life_step (mkHeap ∅ ∅) h) (Hc : frames h !! c = Some fr) :
  (Promise_final_suspend c h).1 <> Undef /\
  (Promise_return_value c v h).1 <> Undef /\
  (Promise_unhandled_exception c e h).1 <> Undef /\
  (Promise_set_waited c w h).1 <> Undef.
Proof.
  assert (linked h) as Hl.
  { apply (rtc_invariant life_step linked (mkHeap ∅ ∅)); [|apply linked_empty|done].
    intros a b. apply life_step_linked. }
  assert (forall f fo (u : FutureObj V -> FutureObj V), futures h !! f = Some fo ->
            (upd_fut f u h).1 <> Undef) as Hupd.
  { intros f fo u Hf. by rewrite (upd_fut_run _ _ _ _ Hf). }
  split_and!; (eapply on_future_safe; [done|done| |done]); intros f fo Hf;
    [|by eapply Hupd..].
  unfold get_fut. mred. by rewrite Hf.
Qed.

(** Assigning to a future that holds a coroutine leaves that coroutine behind, neither
    destroyed nor told: its promise still has the address of the future, which is another
    coroutine's now, and once the future is destroyed, [final_suspend] of the coroutine
    dereferences a dangling pointer. *)
Theorem move_assign_strands_coroutine h this other t o c h1 h2
    (Hl : linked h) (Ht : futures h !! this = Some t) (Ho : futures h !! other = Some o)
    (Hne : other <> this) (Hv : f_void o = f_void t) (Hc : f_self_ t = Some c)
    (Hm : Future_move_assign this other h = (Done tt, h1))
    (Hd : Future_dtor this h1 = (Done tt, h2)) :
  is_Some (frames h2 !! c) /\ (Promise_final_suspend c h2).1 = Undef.
Proof.
  rewrite (move_assign_run this other t o h Hl Ht Ho Hne) in Hm. injection Hm as <-.
  destruct (fut_link _ Hl _ _ _ Ht Hc) as (fr & Hfr & Hp).
  assert (f_self_ o <> Some c) as Hoc.
  { intros Hs. destruct (fut_link _ Hl _ _ _ Ho Hs) as (fr' & ? & ?). simplify_eq. }
  enough (frames h2 !! c = Some fr /\ futures h2 !! this = None) as [Hfr2 Hgone].
  { split; [by eexists|]. unfold Promise_final_suspend, on_future, get_frame, get_fut. mred.
    by rewrite Hfr2, Hp, Hgone. }
  revert Hd. unfold Future_dtor, get_fut, get_frame, set_frame. mred. cbn.
  rewrite lookup_insert_ne, lookup_insert_eq by done. cbn.
  destruct (f_self_ o) as [c2|] eqn:Hs; cbn.
  2:{ intros [= <-]. cbn. split; [done|apply lookup_delete_eq]. }
  assert (c2 <> c) by congruence. destruct (fut_link _ Hl _ _ _ Ho Hs) as (fr2 & Hfr2 & _).
  destruct (f_void t && _); cbn; rewrite lookup_alter_eq, Hfr2; intros [= <-]; cbn.
  - rewrite lookup_insert_ne, lookup_alter_ne by done. split; [done|apply lookup_delete_eq].
  - rewrite lookup_delete_ne, lookup_alter_ne by done. split; [done|apply lookup_delete_eq].
Qed.

(** ** Delivery of a coroutine's result *)

(** How a coroutine body ends. *)
Definition finish (c : hid) (r : V + exn) : M (Heap V) unit :=
  match r with
  | inl v => Promise_return_value c v
  | inr e => Promise_unhandled_exception c e
  end.

(** What [await_resume] gives for a future object. *)
Definition delivered fo : outcome (option V) :=
  match f_exception_ptr_ fo with
  | Some e => Thrown e
  | None => if f_cancelled_ fo then Thrown CancelException
            else if f_void fo then Done None
            else match f_return_ fo with Some v => Done (Some v) | None => Undef end
  end.

(** The coroutine that awaits the future is alive and has a future of its
    own, or is the outermost one. *)
Definition awaiter_ok h f : Prop :=
  forall fo c, futures h !! f = Some fo -> f_waiting_ fo = Some c ->
    exists fr, frames h !! c = Some fr /\
      match p_future_ fr with
      | Some g => g <> f /\ is_Some (futures h !! g)
      | None => p_void fr = true
      end.

(** Writing to the future keeps it so. *)
Lemma awaiter_ok_put h f fo fo' :
  futures h !! f = Some fo -> f_waiting_ fo' = f_waiting_ fo -> awaiter_ok h f ->
  awaiter_ok (put_fut f fo' h) f.
Proof.
  intros Hf Hw Hok fo1 c Hfo1 Hc. cbn in Hfo1. rewrite lookup_insert_eq in Hfo1. simplify_eq.
  destruct (Hok fo c Hf) as (fr & Hfr & Hp); [congruence|]. exists fr. split; [done|].
  destruct (p_future_ fr) as [g|]; [|done]. destruct Hp as [? ?]. split; [done|]. cbn. by rewrite lookup_insert_ne.
Qed.

Definition resume_tail f : M (Heap V) (option V) :=
  let! fo := get_fut f in
  match f_exception_ptr_ fo with
  | Some e => throw e
  | None =>
      if f_cancelled_ fo then throw CancelException
      else if f_void fo then ret None
      else let! v := deref (f_return_ fo) in ret (Some v)
  end.

Lemma resume_tail_run f fo h :
  futures h !! f = Some fo -> (resume_tail f h).1 = delivered fo.
Proof.
  intros Hf. unfold resume_tail, get_fut, delivered. mred. rewrite Hf.
  destruct (f_exception_ptr_ fo); [done|]. destruct (f_cancelled_ fo); [done|].
  destruct (f_void fo); [done|]. by destruct (f_return_ fo).
Qed.

Lemma await_resume_run f fo h :
  futures h !! f = Some fo -> awaiter_ok h f ->
  (Awaitable_await_resume f h).1 = delivered fo.
Proof.
  intros Hf Hok. unfold Awaitable_await_resume. fold (resume_tail f).
  unfold bind at 1, get_fut at 1. mred. rewrite Hf.
  destruct (f_waiting_ fo) as [c|] eqn:Hw; [|by apply resume_tail_run].
  destruct (Hok fo c Hf Hw) as (fr & Hfr & Hp).
  unfold Promise_set_waited, on_future, get_frame. mred. rewrite Hfr.
  destruct (p_future_ fr) as [g|].
  - destruct Hp as [Hgf [go Hgo]]. rewrite (upd_fut_run _ _ _ _ Hgo).
    apply resume_tail_run. cbn. by rewrite lookup_insert_ne.
  - rewrite Hp. by apply resume_tail_run.
Qed.

(** C12.  A coroutine's result reaches its awaiter.  When the body of a live
    coroutine with a future returns or throws, [final_suspend] hands control
    to the coroutine that awaits it, and that coroutine's [await_resume]
    yields the exception if the body threw, a [CancelException] if it was
    cancelled and otherwise the value. *)
Theorem result_reaches_awaiter h c fr f fo (r : V + exn)
    (Hc : frames h !! c = Some fr) (Hf : p_future_ fr = Some f)
    (Hfo : futures h !! f = Some fo) (Hfresh : f_exception_ptr_ fo = None)
    (Hok : awaiter_ok h f) :
  exists h1,
    finish c r h = (Done tt, h1) /\
    Promise_final_suspend c h1 = (Done (f_waiting_ fo), h1) /\
    (Awaitable_await_resume f h1).1 =
      match r with
      | inr e => Thrown e
      | inl v => if f_cancelled_ fo then Thrown CancelException
                 else Done (if f_void fo then None else Some v)
      end.
Proof.
  set (fo' := match r with inl v => with_return (Some v) fo
              | inr e => with_exception (Some e) fo end).
  exists (put_fut f fo' h). split_and!.
  - destruct r; cbn [finish];
      unfold Promise_return_value, Promise_unhandled_exception;
      by rewrite (on_future_run _ _ _ _ _ _ Hc Hf), (upd_fut_run _ _ _ _ Hfo).
  - unfold Promise_final_suspend.
    rewrite (on_future_run _ _ _ fr f) by done. unfold get_fut. mred. cbn.
    rewrite lookup_insert_eq. by destruct r.
  - rewrite (await_resume_run f fo').
    + unfold delivered, fo'. destruct r; cbn; rewrite ?Hfresh; [|done].
      destruct (f_cancelled_ fo); [done|]. by destruct (f_void fo).
    + cbn. by rewrite lookup_insert_eq.
    + apply (awaiter_ok_put _ _ fo); [done|by destruct r|done].
Qed.

(** C27.  [poll_wrapper] lets no exception out and loses no outcome of [poll]: when [poll]
    is pending it gives [false] and writes nothing, so that the coroutine stays suspended;
    when [poll] returns a value or throws it gives [true], and the [await_resume] of the
    coroutine that is then resumed throws that exception, a [CancelException] if the
    future was cancelled, and otherwise yields the value. *)
Theorem poll_wrapper_outcome {S} (prj : S -> Heap V) (upd : Heap V -> S -> S)
    (poll : fid -> option hid -> M S (Poll V)) f fo s o s1 fo1
    (Hset : forall h s, prj (upd h s) = h) (Hlens : forall s, upd (prj s) s = s)
    (Hfo : futures (prj s) !! f = Some fo) (Hpoll : poll f (f_waiting_ fo) s = (o, s1))
    (Hfo1 : futures (prj s1) !! f = Some fo1) (Hvoid : f_void fo1 = f_void fo)
    (Hfresh : f_exception_ptr_ fo1 = None) (Hok : awaiter_ok (prj s1) f) :
  let resumed x := exists s2, Future_poll_wrapper prj upd poll f s = (Done true, s2) /\
    (Awaitable_await_resume f (prj s2)).1 = x in
  match o with
  | Done Pending => Future_poll_wrapper prj upd poll f s = (Done false, s1)
  | Done (Ready v) => resumed (if f_cancelled_ fo1 then Thrown CancelException
                               else Done (if f_void fo then None else Some v))
  | Thrown e => resumed (Thrown e)
  | Undef => Future_poll_wrapper prj upd poll f s = (Undef, s1)
  end.
Proof.
  intros resumed. assert (forall u, f_waiting_ (u fo1) = f_waiting_ fo1 ->
    (Awaitable_await_resume f (prj (upd (put_fut f (u fo1) (prj s1)) s1))).1 = delivered (u fo1)) as Hdel.
  { intros u Hu. rewrite Hset. apply await_resume_run; [cbn; by rewrite lookup_insert_eq|].
    by apply (awaiter_ok_put _ _ fo1). }
  unfold resumed, Future_poll_wrapper, try_catch, get_fut. mred. rewrite Hfo, Hlens, Hpoll.
  destruct o as [[v|]|e|]; [|done| |done].
  - destruct (f_void fo) eqn:Ev.
    + exists s1. split; [done|]. rewrite (await_resume_run f fo1 _ Hfo1 Hok). unfold delivered.
      rewrite Hfresh, Hvoid. by destruct (f_cancelled_ fo1).
    + rewrite (upd_fut_run _ _ _ _ Hfo1). eexists. split; [done|]. rewrite Hdel by done.
      unfold delivered. cbn. rewrite Hfresh, Hvoid. by destruct (f_cancelled_ fo1).
  - rewrite (upd_fut_run _ _ _ _ Hfo1). eexists. split; [done|]. by rewrite Hdel.
Qed.

(** ** Cancellation *)

(** The path of [waited_] pointers from [f]. *)
Inductive awaits h : fid -> list fid -> Prop :=
| awaits_leaf f fo :
    futures h !! f = Some fo -> f_waited_ fo = None -> awaits h f [f]
| awaits_child f fo c fr g l :
    futures h !! f = Some fo -> f_waited_ fo = Some c ->
    frames h !! c = Some fr -> p_future_ fr = Some g ->
    awaits h g l -> awaits h f (f :: l).

Definition cancel_all (l : list fid) h : Heap V :=
  mkHeap (map_imap (fun f fo => Some (if decide (f ∈ l) then with_cancelled fo else fo))
            (futures h)) (frames h).

Lemma lookup_cancel_all l h f :
  futures (cancel_all l h) !! f =
    (fun fo => if decide (f ∈ l) then with_cancelled fo else fo) <$> futures h !! f.
Proof. cbn. rewrite map_lookup_imap. by destruct (futures h !! f). Qed.

Lemma with_cancelled_idem fo : with_cancelled (with_cancelled fo) = with_cancelled fo.
Proof. by destruct fo. Qed.

Lemma cancel_all_cons f fo l h :
  futures h !! f = Some fo ->
  cancel_all l (put_fut f (with_cancelled fo) h) = cancel_all (f :: l) h.
Proof.
  intros Hf. unfold cancel_all. f_equal. apply map_eq. intros g.
  rewrite !map_lookup_imap. cbn. destruct (decide (g = f)) as [->|Hne].
  - rewrite lookup_insert_eq, Hf. cbn. rewrite (decide_True (P := f ∈ f :: l)) by set_solver.
    case_decide; [by rewrite with_cancelled_idem|done].
  - rewrite lookup_insert_ne by done. destruct (futures h !! g); [|done]. cbn.
    f_equal. apply decide_ext. set_solver.
Qed.

Lemma awaits_put_cancelled f fo h g l :
  futures h !! f = Some fo -> awaits h g l ->
  awaits (put_fut f (with_cancelled fo) h) g l.
Proof.
  intros Hf Ha. induction Ha as [g go Hg Hw|g go c fr g' l Hg Hw Hc Hp _ IH].
  - destruct (decide (g = f)) as [->|].
    + eapply awaits_leaf; [cbn; by rewrite lookup_insert_eq|]. by simplify_eq.
    + eapply awaits_leaf; [cbn; by rewrite lookup_insert_ne|done].
  - destruct (decide (g = f)) as [->|].
    + eapply awaits_child; [cbn; by rewrite lookup_insert_eq| |done|done|done]. by simplify_eq.
    + eapply awaits_child; [cbn; by rewrite lookup_insert_ne|done..].
Qed.

(** [cancel] marks the futures of the path and terminates. *)
Lemma cancel_path h f l fuel (Hchain : awaits h f l) (Hfuel : length l <= fuel) :
  Future_cancel fuel f h = (Done tt, cancel_all l h).
Proof.
  revert h f l Hchain Hfuel. induction fuel as [|n IH]; intros h f l Ha Hn.
  { inversion Ha; subst; cbn in Hn; lia. }
  inversion Ha as [? fo Hf Hw|? fo c fr g l' Hf Hw Hc Hp Ha']; subst; cbn in Hn;
    cbn [Future_cancel]; unfold bind at 1; rewrite (upd_fut_run _ _ _ _ Hf);
    rewrite <- (cancel_all_cons f fo _ h Hf);
    unfold get_fut, Promise_future, get_frame; mred; cbn;
    rewrite lookup_insert_eq; cbn; rewrite Hw.
  - f_equal. unfold cancel_all, put_fut. cbn. f_equal. apply map_eq. intros g.
    rewrite map_lookup_imap. destruct (_ !! g); [|done]. cbn.
    rewrite decide_False; [done|]. apply not_elem_of_nil.
  - change (frames (put_fut f (with_cancelled fo) h)) with (frames h).
    rewrite Hc, Hp. apply IH; [|lia]. by apply awaits_put_cancelled.
Qed.
(** A coroutine [c] that runs awaits the first coroutine of [l], which awaits the next
    one, and so on; the last awaits the object [o], whose [poll] is pending.  Each
    [co_await] is an [await_suspend], in which the awaited coroutine runs. *)
Fixpoint await_nested (poll : fid -> option hid -> M (Heap V) (Poll V)) (l : list (hid * fid))
    (o : fid) c : M (Heap V) bool :=
  match l with
  | [] => Awaitable_await_suspend id (fun h _ => h) (fun _ => undef) poll o c
  | (_, f) :: l =>
      Awaitable_await_suspend id (fun h _ => h) (fun c => await_nested poll l o c ;;; ret tt) poll f c
  end.

(** A coroutine and its future. *)
Definition coroutine h (x : hid * fid) : Prop :=
  (exists fo, futures h !! x.2 = Some fo /\ f_self_ fo = Some x.1) /\
  (exists fr, frames h !! x.1 = Some fr /\ p_future_ fr = Some x.2).

Lemma coroutine_put h f fo u x :
  keeps_self u -> futures h !! f = Some fo -> coroutine h x -> coroutine (put_fut f (u fo) h) x.
Proof.
  intros Hu Hf [(go & Hg & Hs) Hfr]. split; [|done]. cbn. destruct (decide (x.2 = f)) as [E|].
  - rewrite E, lookup_insert_eq. eexists. split; [done|]. rewrite E in Hg. simplify_eq.
    by destruct (Hu fo) as [-> _].
  - rewrite lookup_insert_ne by done. by exists go.
Qed.

(** What [co_await] of [g] by the coroutine [c] of the future [f] writes before anything
    else runs. *)
Lemma await_links c f g h go :
  coroutine h (c, f) -> futures h !! g = Some go -> g <> f ->
  exists fo, futures h !! f = Some fo /\
    upd_fut g (with_waiting (Some c)) h = (Done tt, put_fut g (with_waiting (Some c) go) h) /\
    forall w, Promise_set_waited c w (put_fut g (with_waiting (Some c) go) h) =
      (Done tt, put_fut f (with_waited w fo) (put_fut g (with_waiting (Some c) go) h)).
Proof.
  intros [(fo & Hf & _) (fr & Hfr & Hp)] Hg Hne. cbn in *. exists fo.
  split_and!; [done|by apply upd_fut_run|]. intros w. unfold Promise_set_waited.
  rewrite (on_future_run _ _ _ fr f) by done. apply upd_fut_run. cbn. by rewrite lookup_insert_ne.
Qed.

Lemma nested_path poll l o oo c f h :
  (forall c h, poll o (Some c) h = (Done Pending, h)) ->
  futures h !! o = Some oo -> f_self_ oo = None ->
  Forall (coroutine h) ((c, f) :: l) -> NoDup (o :: f :: l.*2) ->
  exists h1, await_nested poll l o c h = (Done true, h1) /\ awaits h1 f (f :: l.*2) /\
    frames h1 = frames h /\ (forall g, g ∉ o :: f :: l.*2 -> futures h1 !! g = futures h !! g).
Proof.
  intros Hpoll. revert c f h oo. induction l as [|[c1 f1] l IH]; intros c f h oo Ho Hself Hall Hnd;
    apply Forall_cons in Hall as [Hc Hl]; cbn [await_nested fmap list_fmap snd] in *;
    unfold Awaitable_await_suspend.
  - apply NoDup_cons in Hnd as [Hno _]. apply not_elem_of_cons in Hno as [Hne _].
    destruct (await_links c f o h oo Hc Ho Hne) as (fo & Hf & Hw & Hs).
    eexists. unfold get_fut, id. mred. rewrite Hw. cbn. rewrite lookup_insert_eq. cbn. rewrite Hself, Hs.
    rewrite Hpoll. split_and!; [done| |done|].
    + eapply awaits_leaf; [cbn; by rewrite lookup_insert_eq|done].
    + intros g Hg. rewrite !not_elem_of_cons in Hg. cbn.
      by rewrite !lookup_insert_ne by (intros ->; tauto).
  - apply NoDup_cons in Hnd as [Hno Hnd]. apply NoDup_cons in Hnd as [Hnf Hnd].
    apply not_elem_of_cons in Hno as [Hof Hno]. pose proof Hno as [Hof1 _]%not_elem_of_cons.
    assert (f1 <> f) as Hne by (intros ->; apply Hnf; by left).
    apply Forall_cons in Hl as [Hc1 Hl]. pose proof Hc1 as [(fo1 & Hf1 & Hs1) (fr1 & Hfr1 & Hp1)]. cbn in *.
    destruct (await_links c f f1 h fo1 Hc Hf1 Hne) as (fo & Hf & Hw & Hs).
    set (h' := put_fut f (with_waited (Some c1) fo) (put_fut f1 (with_waiting (Some c) fo1) h)).
    assert (Forall (coroutine h') ((c1, f1) :: l)) as Hall'.
    { apply (Forall_impl (coroutine h)); [by constructor|]. intros x Hx.
      apply coroutine_put; [apply keeps_with_waited|cbn; by rewrite lookup_insert_ne|].
      by apply coroutine_put; [apply keeps_with_waiting|..]. }
    destruct (IH c1 f1 h' oo) as (h1 & Hrun & Ha & Hfrm & Hrest); [|done|done| |].
    { cbn. by rewrite !lookup_insert_ne. }
    { by apply NoDup_cons. }
    exists h1. unfold get_fut, id. mred. rewrite Hw. cbn. rewrite lookup_insert_eq. cbn.
    rewrite Hs1, Hs. fold h'. rewrite Hrun. split_and!; [done| |by rewrite Hfrm|].
    + apply (awaits_child h1 f (with_waited (Some c1) fo) c1 fr1 f1); [|done|by rewrite Hfrm|done|done].
      rewrite Hrest; [cbn; by rewrite lookup_insert_eq|]. rewrite not_elem_of_cons. by split; [apply not_eq_sym|].
    + intros g Hg. rewrite !not_elem_of_cons in Hg. rewrite Hrest by (rewrite !not_elem_of_cons; tauto).
      cbn. rewrite !lookup_insert_ne by (intros ->; tauto). done.
Qed.

(** C20.  Cancelling the future of a coroutine reaches every coroutine it is suspended in:
    when coroutines have awaited one another, to any depth, and the innermost awaits a
    future object that is pending, [cancel] on the outermost future returns, and marks
    the future of every coroutine of the chain and nothing else.  The awaited object is
    not marked: it has no coroutine and [set_waited] is given null for it. *)
Theorem cancel_marks_chain poll l o oo c f h
    (Hl : linked h) (Hpoll : forall c h, poll o (Some c) h = (Done Pending, h))
    (Ho : futures h !! o = Some oo) (Hobj : f_self_ oo = None)
    (Hself : Forall (fun x => exists fo, futures h !! x.2 = Some fo /\ f_self_ fo = Some x.1) ((c, f) :: l))
    (Hnd : NoDup (f :: l.*2)) :
  exists h1, await_nested poll l o c h = (Done true, h1) /\
    Future_cancel (S (length l)) f h1 = (Done tt, cancel_all (f :: l.*2) h1) /\
    futures (cancel_all (f :: l.*2) h1) !! o = futures h1 !! o.
Proof.
  assert (o ∉ f :: l.*2) as Hno.
  { change (o ∉ ((c, f) :: l).*2). intros ([c' f'] & -> & Hin)%list_elem_of_fmap.
    rewrite Forall_forall in Hself. destruct (Hself _ Hin) as (fo & Hfo & Hs). cbn in *. simplify_eq. }
  destruct (nested_path poll l o oo c f h) as (h1 & Hrun & Ha & _); [done..| |by apply NoDup_cons|].
  { apply (Forall_impl _ _ _ Hself). intros [c' f'] (fo & Hfo & Hs). split; [by eexists|].
    by eapply fut_link. }
  exists h1. split_and!; [done|apply cancel_path; [done|]|].
  - cbn. rewrite length_fmap. lia.
  - rewrite lookup_cancel_all. destruct (futures h1 !! o); [|done]. cbn. by rewrite decide_False.
Qed.
End Spec.
