(* ===== verification/Core.v ===== *)
(** The state of a runtime and the queues of its handles:
    [include/xyco/runtime/core.ccm], [src/runtime/core.cc], and the forwarding
    functions of [src/runtime/runtime_ctx.cc].

    This file has the sequential operations on the queues, each the body of one
    critical section of the handle mutex; [Worker.v] has the worker loop and
    its interleavings. *)
From stdpp Require Import base gmap list relations.
From S2P Require Import Prelude Errors Events Futures FuturesSpec.

(** ** Data *)

(** A pair of [handles_]: [(handle, nullptr)] for a spawned coroutine,
    [(handle, future)] for a [co_await] on a future object. *)
Definition Entry : Type := option hid * option fid.

(** [Worker]: the thread itself is in [Worker.v]. *)
Record Worker : Type := mkWorker {
  suspend_flag_ : bool;
  wk_handles_ : list Entry;
}.

(** How [Builder::registry] makes a registry of one thread: the hash of its
    type, whether the class is a [GlobalRegistry] or a [ThreadLocalRegistry],
    and the object [std::make_shared<R>(args...)] constructs. *)
Record Initializer (R : Type) : Type := mkInitializer {
  init_hash : nat;
  init_global : bool;
  init_registry : R;
}.
Arguments mkInitializer {R}.
Arguments init_hash {R}.
Arguments init_global {R}.
Arguments init_registry {R}.

(** [Driver]: the inner maps associate the hash of a registry type to the
    address of the registry, in the order [for] visits them. *)
Record Driver (R : Type) : Type := mkDriver {
  registry_initializers_ : list (Initializer R);
  local_registries_ : gmap tid (list (nat * nat));
}.
Arguments mkDriver {R}.
Arguments registry_initializers_ {R}.
Arguments local_registries_ {R}.

(** A runtime with the memory it shares: the futures and coroutines, the
    events, the registries and the static maps [per_runtime_registry_], one
    per registry class, keyed by the address of a runtime; [core_addr] is the
    address of this runtime, which [RuntimeCtxImpl::get_ctx] gives on each of
    its threads.  [w_result] is the local variable [result] of [Runtime::block_on], which
    its lambda captures by reference. *)
Record World (R V : Type) : Type := mkWorld {
  w_heap : Heap V;
  w_events : EventStore;
  w_handles_ : list Entry;
  in_place_worker_ : Worker;
  workers_ : gmap tid Worker;
  driver_ : Driver R;
  w_registries : gmap nat R;
  per_runtime_registry_ : gmap (nat * nat) nat;
  core_addr : nat;
  w_result : option V;
}.
Arguments mkWorld {R V}.
Arguments w_heap {R V}.
Arguments w_events {R V}.
Arguments w_handles_ {R V}.
Arguments in_place_worker_ {R V}.
Arguments workers_ {R V}.
Arguments driver_ {R V}.
Arguments w_registries {R V}.
Arguments per_runtime_registry_ {R V}.
Arguments core_addr {R V}.
Arguments w_result {R V}.

Section Core.
Context {R V : Type}.
Implicit Types (w : World R V).

Definition set_heap (h : Heap V) w : World R V :=
  mkWorld h (w_events w) (w_handles_ w) (in_place_worker_ w) (workers_ w)
    (driver_ w) (w_registries w) (per_runtime_registry_ w) (core_addr w) (w_result w).
Definition set_events (es : EventStore) w : World R V :=
  mkWorld (w_heap w) es (w_handles_ w) (in_place_worker_ w) (workers_ w)
    (driver_ w) (w_registries w) (per_runtime_registry_ w) (core_addr w) (w_result w).
Definition set_handles (l : list Entry) w : World R V :=
  mkWorld (w_heap w) (w_events w) l (in_place_worker_ w) (workers_ w)
    (driver_ w) (w_registries w) (per_runtime_registry_ w) (core_addr w) (w_result w).
Definition set_in_place (k : Worker) w : World R V :=
  mkWorld (w_heap w) (w_events w) (w_handles_ w) k (workers_ w)
    (driver_ w) (w_registries w) (per_runtime_registry_ w) (core_addr w) (w_result w).
Definition set_workers (ks : gmap tid Worker) w : World R V :=
  mkWorld (w_heap w) (w_events w) (w_handles_ w) (in_place_worker_ w) ks
    (driver_ w) (w_registries w) (per_runtime_registry_ w) (core_addr w) (w_result w).
Definition set_driver (d : Driver R) w : World R V :=
  mkWorld (w_heap w) (w_events w) (w_handles_ w) (in_place_worker_ w) (workers_ w)
    d (w_registries w) (per_runtime_registry_ w) (core_addr w) (w_result w).
Definition set_registries (rs : gmap nat R) (gs : gmap (nat * nat) nat) w : World R V :=
  mkWorld (w_heap w) (w_events w) (w_handles_ w) (in_place_worker_ w) (workers_ w)
    (driver_ w) rs gs (core_addr w) (w_result w).
Definition set_result (r : option V) w : World R V :=
  mkWorld (w_heap w) (w_events w) (w_handles_ w) (in_place_worker_ w) (workers_ w)
    (driver_ w) (w_registries w) (per_runtime_registry_ w) (core_addr w) r.

(** Heap operations in the world. *)
Definition in_heap {A} (m : M (Heap V) A) : M (World R V) A :=
  zoom w_heap set_heap m.

(** ** Queues of handles *)

(** [handles_.insert(handles_.begin(), e)] on the runtime's own queue. *)
Definition push_handle (e : Entry) : M (World R V) unit :=
  modify (fun w => set_handles (e :: w_handles_ w) w).

(** [RuntimeCore::spawn_impl]: [c] and [fw] are the frame and the local
    [Future<void>] of the call to [spawn_with_exception_handling]; the local
    is destroyed on return. *)
Definition RuntimeCore_spawn_impl (c : hid) (fw : fid) : M (World R V) unit :=
  in_heap (modify (fun h => mkHeap (futures h)
             (<[c := mkFrame true None false]> (frames h)))) ;;;
  in_heap (Promise_get_return_object c fw) ;;;
  let! handle := in_heap (Future_get_handle fw) in
  match handle with
  | Some _ => push_handle (handle, None)
  | None => ret tt
  end ;;;
  in_heap (Future_dtor fw).

(** How the body of [spawn_with_exception_handling] ends when the spawned
    future ends with [o]. *)
Definition spawn_with_exception_handling {A} (o : outcome A) : outcome unit :=
  match o with
  | Done _ => Done tt
  | Thrown CancelException => Done tt
  | Thrown e => Thrown e
  | Undef => Undef
  end.

(** [RuntimeCore::register_future]. *)
Definition RuntimeCore_register_future (f : fid) : M (World R V) unit :=
  let! handle := in_heap (Future_get_handle f) in
  push_handle (handle, Some f).

(** The body of the loop of [RuntimeCore::wake]. *)
Definition wake_event (push : Entry -> M (World R V) unit) (e : eid)
    : M (World R V) unit :=
  let! w := get in
  let! ev := deref (w_events w !! e) in
  put (set_events (<[e := set_future None ev]> (w_events w)) w) ;;;
  let! future := deref (future_ ev) in
  let! handle := in_heap (Future_get_handle future) in
  push (handle, Some future).

(** [RuntimeCore::wake]; the result is [events], cleared. *)
Definition RuntimeCore_wake (events : list eid) : M (World R V) (list eid) :=
  mfor (wake_event push_handle) events ;;; ret [].

(** [RuntimeCore::wake_local] on the thread [t]: [find] gives [end()] for a
    thread that is not a worker. *)
Definition push_local (t : tid) (e : Entry) : M (World R V) unit :=
  let! w := get in
  let! k := deref (workers_ w !! t) in
  put (set_workers (<[t := mkWorker (suspend_flag_ k) (e :: wk_handles_ k)]> (workers_ w)) w).

Definition RuntimeCore_wake_local (t : tid) (events : list eid)
    : M (World R V) (list eid) :=
  let! w := get in
  deref (workers_ w !! t) ;;;
  mfor (wake_event (push_local t)) events ;;; ret [].

(** ** Lemmas *)

(** The order in which [handles.back()] serves a queue. *)
Definition fifo (l : list Entry) : list Entry := rev l.

(** The entry a bound event becomes. *)
Definition entry_of (h : Heap V) (es : EventStore) (e : eid) : option Entry :=
  f ← future_of es e; fo ← futures h !! f;
  Some (match f_self_ fo with None => f_waiting_ fo | Some c => Some c end, Some f).

(** The queue entry of a future object. *)
Definition entry_for (this : fid) (fo : FutureObj V) : Entry :=
  (match f_self_ fo with None => f_waiting_ fo | Some c => Some c end, Some this).

Lemma entry_of_bound (h : Heap V) es e x this :
  entry_of h es e = Some x -> x.2 = Some this -> future_of es e = Some this.
Proof.
  unfold entry_of. destruct (future_of es e) as [f|]; [|done]. cbn.
  destruct (futures h !! f); [|done]. cbn. intros [= <-]. cbn. by intros [= ->].
Qed.

Lemma entry_of_for (h : Heap V) es e this fo :
  futures h !! this = Some fo -> future_of es e = Some this ->
  entry_of h es e = Some (entry_for this fo).
Proof. unfold entry_of. intros Hfo ->. cbn. by rewrite Hfo. Qed.

Lemma get_handle_run f fo (h : Heap V) :
  futures h !! f = Some fo ->
  Future_get_handle f h =
    (Done match f_self_ fo with None => f_waiting_ fo | Some c => Some c end, h).
Proof. intros Hf. unfold Future_get_handle, get_fut. mred. by rewrite Hf. Qed.

Lemma set_heap_id w : set_heap (w_heap w) w = w.
Proof. by destruct w. Qed.

Definition unbind (e : eid) (es : EventStore) : EventStore :=
  alter (set_future None) e es.

Lemma wake_event_run push e x w :
  entry_of (w_heap w) (w_events w) e = Some x ->
  wake_event push e w = push x (set_events (unbind e (w_events w)) w).
Proof.
  unfold entry_of, future_of. intros Hx.
  destruct (w_events w !! e) as [ev|] eqn:He; [|done]. cbn in Hx.
  destruct (future_ ev) as [f|] eqn:Hf; [|done]. cbn in Hx.
  destruct (futures (w_heap w) !! f) as [fo|] eqn:Hfo; [|done]. cbn in Hx.
  injection Hx as <-. unfold wake_event, in_heap. mred. rewrite He. cbn. rewrite Hf.
  rewrite (get_handle_run f fo) by done. cbn. f_equal.
  unfold unbind, set_events, set_heap. cbn. f_equal. apply map_eq. intros e'.
  destruct (decide (e' = e)) as [->|].
  - by rewrite lookup_insert_eq, lookup_alter_eq, He.
  - by rewrite lookup_insert_ne, lookup_alter_ne by done.
Qed.

Lemma entry_of_unbind h es e e' :
  e' <> e -> entry_of h (unbind e es) e' = entry_of h es e'.
Proof.
  intros Hne. unfold entry_of, future_of, unbind. by rewrite lookup_alter_ne.
Qed.

Lemma mapM_entry_unbind e h es events xs :
  e ∉ events -> Forall2 (fun e x => entry_of h es e = Some x) events xs ->
  mapM (entry_of h (unbind e es)) events = Some xs.
Proof.
  intros Hni Hxs. apply mapM_Some.
  induction Hxs as [|e' x' events xs He' Hxs IH]; constructor.
  - rewrite entry_of_unbind; [done|]. intros ->. apply Hni. by left.
  - apply IH. intros ?. apply Hni. by right.
Qed.

Lemma foldr_unbind_comm e events es :
  unbind e (foldr unbind es events) = foldr unbind (unbind e es) events.
Proof.
  induction events as [|e' events IH]; [done|]. cbn. rewrite <- IH. unfold unbind.
  destruct (decide (e = e')) as [->|]; [done|]. by apply alter_alter_ne.
Qed.

Lemma mfor_wake_event_run events xs w :
  NoDup events -> mapM (entry_of (w_heap w) (w_events w)) events = Some xs ->
  mfor (wake_event push_handle) events w =
    (Done tt, set_handles (rev xs ++ w_handles_ w)
                (set_events (foldr unbind (w_events w) events) w)).
Proof.
  revert xs w. induction events as [|e events IH]; intros xs w Hnd Hxs.
  { injection Hxs as <-. by destruct w. }
  apply NoDup_cons in Hnd as [Hni Hnd].
  apply mapM_Some in Hxs. inversion Hxs as [|? x ? xs' Hx Hxs']; subst.
  cbn [mfor]. rewrite (bind_done _ _ _ tt
    (set_handles (x :: w_handles_ w) (set_events (unbind e (w_events w)) w))).
  2:{ (etrans; [by apply wake_event_run|]); by unfold push_handle; mred. }
  rewrite (IH xs').
  - cbn. rewrite foldr_unbind_comm. unfold set_handles, set_events. cbn.
    do 2 f_equal. by rewrite <- (assoc (++)).
  - done.
  - by apply mapM_entry_unbind.
Qed.

Lemma foldr_unbind_lookup events es e :
  foldr unbind es events !! e =
    (if decide (e ∈ events) then set_future None <$> es !! e else es !! e).
Proof.
  induction events as [|e' events IH]; [done|]. cbn. unfold unbind at 1.
  destruct (decide (e = e')) as [->|Hne].
  - rewrite lookup_alter_eq, IH, (decide_True (P := e' ∈ e' :: events)) by (by left).
    case_decide; [|done]. by destruct (es !! e') as [[]|].
  - rewrite lookup_alter_ne, IH by done. apply decide_ext.
    rewrite elem_of_cons. naive_solver.
Qed.

(** The local queue of thread [t] gains the entries of [wake_local]. *)
Lemma push_local_run t k x w :
  workers_ w !! t = Some k ->
  push_local t x w = (Done tt,
    set_workers (<[t := mkWorker (suspend_flag_ k) (x :: wk_handles_ k)]> (workers_ w)) w).
Proof. intros Hk. unfold push_local. mred. by rewrite Hk. Qed.

Lemma wake_local_run t events xs k w :
  workers_ w !! t = Some k -> NoDup events ->
  mapM (entry_of (w_heap w) (w_events w)) events = Some xs ->
  exists w', mfor (wake_event (push_local t)) events w = (Done tt, w') /\
    workers_ w' !! t = Some (mkWorker (suspend_flag_ k) (rev xs ++ wk_handles_ k)) /\
    w_handles_ w' = w_handles_ w /\
    (forall t', t' <> t -> workers_ w' !! t' = workers_ w !! t').
Proof.
  revert xs k w. induction events as [|e events IH]; intros xs k w Hk Hnd Hxs.
  { injection Hxs as <-. exists w. rewrite Hk. by destruct k. }
  apply NoDup_cons in Hnd as [Hni Hnd].
  apply mapM_Some in Hxs. inversion Hxs as [|? x ? xs' Hx Hxs']; subst. cbn [mfor].
  erewrite bind_done; [|etrans; [by apply wake_event_run|by apply push_local_run]].
  edestruct (IH xs' (mkWorker (suspend_flag_ k) (x :: wk_handles_ k)) (set_workers
    (<[t := mkWorker (suspend_flag_ k) (x :: wk_handles_ k)]> (workers_ w))
    (set_events (unbind e (w_events w)) w))) as (w' & Hrun & Hk' & Hh & Ho).
  { apply lookup_insert_eq. }
  { done. }
  { by apply (mapM_entry_unbind e). }
  exists w'. split; [done|]. split_and!; [|done|].
  - rewrite Hk'. cbn. by rewrite <- (assoc (++)).
  - intros t' Ht. rewrite Ho by done. cbn. by rewrite lookup_insert_ne.
Qed.

(** ** Theorems *)

(** [wake] serves the vector of events in order: the runtime's queue
    grows by one entry per event, holding the event's future and its handle,
    behind every entry that was waiting and in the order of the vector;
    every event of the vector is unbound and keeps its extra, no other event
    changes; the heap is untouched and the vector is cleared. *)
Theorem wake_appends_in_order events xs w :
  NoDup events ->
  mapM (entry_of (w_heap w) (w_events w)) events = Some xs ->
  exists w', RuntimeCore_wake events w = (Done [], w') /\
    fifo (w_handles_ w') = fifo (w_handles_ w) ++ xs /\
    (forall e, future_of (w_events w') e =
       if decide (e ∈ events) then None else future_of (w_events w) e) /\
    (forall e, (w_events w' !! e) ≫= extra_ = (w_events w !! e) ≫= extra_) /\
    w_heap w' = w_heap w /\ workers_ w' = workers_ w.
Proof.
  intros Hnd Hxs. eexists. split.
  { unfold RuntimeCore_wake. by erewrite bind_done by (by apply mfor_wake_event_run). }
  cbn. split_and!; [by unfold fifo; rewrite rev_app_distr, rev_involutive| | |done|done].
  - intros e. unfold future_of. rewrite foldr_unbind_lookup. case_decide; [|done].
    by destruct (w_events w !! e).
  - intros e. rewrite foldr_unbind_lookup. case_decide; [|done].
    by destruct (w_events w !! e).
Qed.

(** An event of the vector whose [future_] is null makes [wake] undefined:
    an event is woken at most once per binding. *)
Theorem wake_unbound_is_undefined e events w :
  future_of (w_events w) e = None ->
  exists w', RuntimeCore_wake (e :: events) w = (Undef, w').
Proof.
  unfold future_of. intros Hf. unfold RuntimeCore_wake. cbn [mfor].
  unfold wake_event at 1. mred. destruct (w_events w !! e) as [ev|]; [|by eexists].
  cbn in Hf. rewrite Hf. by eexists.
Qed.

(** [wake_local] queues on the worker of the calling thread alone, and is
    undefined on a thread that is not a worker. *)
Theorem wake_local_appends_in_order t k events xs w :
  workers_ w !! t = Some k -> NoDup events ->
  mapM (entry_of (w_heap w) (w_events w)) events = Some xs ->
  exists w', RuntimeCore_wake_local t events w = (Done [], w') /\
    (exists k', workers_ w' !! t = Some k' /\
       fifo (wk_handles_ k') = fifo (wk_handles_ k) ++ xs /\
       suspend_flag_ k' = suspend_flag_ k) /\
    w_handles_ w' = w_handles_ w /\
    (forall t', t' <> t -> workers_ w' !! t' = workers_ w !! t').
Proof.
  intros Hk Hnd Hxs. unfold RuntimeCore_wake_local.
  rewrite (bind_done _ _ _ w w) by done. rewrite (bind_done _ _ _ k w) by (by mred; rewrite Hk).
  apply (wake_local_run t events) with (k := k) in Hxs as (w' & Hrun & Hk' & Hh & Ho); [|done..].
  exists w'. rewrite (bind_done _ _ _ _ _ Hrun). split; [done|].
  split; [|done]. eexists. split; [done|]. cbn. unfold fifo.
  by rewrite rev_app_distr, rev_involutive.
Qed.

(** [spawn_impl] leaves a started-later coroutine: its frame is alive with
    no future object behind it, so nothing dangles when it ends, and the
    queue has exactly one more entry, served last, that resumes it. *)
Lemma spawn_impl_queues_frame c fw w :
  frames (w_heap w) !! c = None ->
  exists w', RuntimeCore_spawn_impl c fw w = (Done tt, w') /\
    fifo (w_handles_ w') = fifo (w_handles_ w) ++ [(Some c, None)] /\
    frames (w_heap w') = <[c := mkFrame true None false]> (frames (w_heap w)) /\
    futures (w_heap w') = delete fw (futures (w_heap w)) /\
    w_events w' = w_events w /\ in_place_worker_ w' = in_place_worker_ w.
Proof.
  intros Hc. unfold RuntimeCore_spawn_impl, Promise_get_return_object, Future_ctor,
    Future_get_handle, Future_dtor, get_fut, get_frame, set_fut, set_frame, push_handle,
    in_heap. mred. cbn.
  repeat (rewrite ?lookup_insert_eq; cbn). eexists. split; [done|]. cbn.
  split_and!; [done| | |done|done].
  - by rewrite !insert_insert_eq.
  - apply map_eq. intros f. destruct (decide (f = fw)) as [->|];
      [by rewrite !lookup_delete_eq|].
    by rewrite !lookup_delete_ne, lookup_insert_ne by done.
Qed.
End Core.
