(* ===== verification/Driver.v ===== *)
(** The driver: [include/xyco/runtime/driver.ccm], [src/runtime/driver.cc],
    and the two ways a registry is made, [global_registry.ccm] and
    [thread_local_registry.ccm].

    The driver is a client of the [Registry] interface: its theorems are proved
    against [RegistryLaws]. *)
From stdpp Require Import base gmap list sets.
From Stdlib Require Import ZArith.
From S2P Require Import Prelude Errors Events Futures Core.

(** [MAX_TIMEOUT], in milliseconds. *)
Definition MAX_TIMEOUT : Z := 2.

Section Driver.
Context {R V Env : Type} `{Registry R Env}.
Implicit Types (w : World R V).

(** ** Operations *)

(** [std::make_shared<R>(args...)] at the fresh address [a]. *)
Definition make_registry (a : nat) (r : R) : M (World R V) nat :=
  modify (fun w => set_registries (<[a := r]> (w_registries w)) (per_runtime_registry_ w) w) ;;;
  ret a.

(** [ThreadLocalRegistry::get_instance]. *)
Definition ThreadLocalRegistry_get_instance (a : nat) (i : Initializer R)
    : M (World R V) nat :=
  make_registry a (init_registry i).

(** [GlobalRegistry::get_instance]: [per_runtime_registry_] is searched for
    the current runtime, and filled on a miss. *)
Definition GlobalRegistry_get_instance (a : nat) (i : Initializer R)
    : M (World R V) nat :=
  let! w := get in
  match per_runtime_registry_ w !! (init_hash i, core_addr w) with
  | Some registry => ret registry
  | None =>
      let! registry := make_registry a (init_registry i) in
      modify (fun w => set_registries (w_registries w)
        (<[(init_hash i, core_addr w) := registry]> (per_runtime_registry_ w)) w) ;;;
      ret registry
  end.

(** [R::get_instance]. *)
Definition get_instance (a : nat) (i : Initializer R) : M (World R V) nat :=
  if init_global i then GlobalRegistry_get_instance a i
  else ThreadLocalRegistry_get_instance a i.

(** [m[k] = v] on the inner map. *)
Fixpoint assign {A} (k : nat) (v : A) (l : list (nat * A)) : list (nat * A) :=
  match l with
  | [] => [(k, v)]
  | (k', v') :: l' => if decide (k = k') then (k, v) :: l' else (k', v') :: assign k v l'
  end.

Fixpoint find_registry {A} (k : nat) (l : list (nat * A)) : option A :=
  match l with
  | [] => None
  | (k', v') :: l' => if decide (k = k') then Some v' else find_registry k l'
  end.

(** [Driver::add_registry] on thread [t]; a new registry is put at [a]. *)
Definition Driver_add_registry (t : tid) (a : nat) (i : Initializer R)
    : M (World R V) unit :=
  let! registry := get_instance a i in
  modify (fun w =>
    let d := driver_ w in
    set_driver (mkDriver (registry_initializers_ d)
      (<[t := assign (init_hash i) registry (default [] (local_registries_ d !! t))]>
         (local_registries_ d))) w).

(** The initializers in order, the [n]-th allocating at [a + n]. *)
Fixpoint run_initializers (t : tid) (a : nat) (l : list (Initializer R))
    : M (World R V) unit :=
  match l with
  | [] => ret tt
  | i :: l' => Driver_add_registry t a i ;;; run_initializers t (S a) l'
  end.

(** [Driver::add_thread] on thread [t]. *)
Definition Driver_add_thread (t : tid) (a : nat) : M (World R V) unit :=
  modify (fun w =>
    let d := driver_ w in
    set_driver (mkDriver (registry_initializers_ d) (<[t := []]> (local_registries_ d))) w) ;;;
  let! w := get in
  run_initializers t a (registry_initializers_ (driver_ w)).

(** [local_registries_.find(this_thread)->second.find(hash)->second]. *)
Definition registry_of (t : tid) (hash : nat) (w : World R V) : option nat :=
  l ← local_registries_ (driver_ w) !! t; find_registry hash l.

(** A member function of the registry at address [a]. *)
Definition on_registry {A} (a : nat) (m : M (R * EventStore) A) : M (World R V) A :=
  fun w => match w_registries w !! a with
           | None => (Undef, w)
           | Some r =>
               let '(o, (r', es')) := m (r, w_events w) in
               (o, set_events es' (set_registries (<[a := r']> (w_registries w))
                     (per_runtime_registry_ w) w))
           end.

Definition Driver_call (op : Env -> eid -> M (R * EventStore) (Result unit))
    (env : Env) (t : tid) (hash : nat) (event : eid) : M (World R V) unit :=
  let! w := get in
  let! a := deref (registry_of t hash w) in
  let! result := on_registry a (op env event) in
  deref_expected result.

Definition Driver_Register := Driver_call Register.
Definition Driver_reregister := Driver_call reregister.
Definition Driver_deregister := Driver_call deregister.

(** [registry->select(events, MAX_TIMEOUT)]. *)
Definition Driver_select (env : Env) (a : nat) (events : list eid)
    : M (World R V) (list eid) :=
  let! (result, events') := on_registry a (fun s =>
    let '(o, (r', es', evs')) := select env MAX_TIMEOUT (s.1, s.2, events) in
    (match o with Done x => Done (x, evs') | Thrown e => Thrown e | Undef => Undef end,
     (r', es'))) in
  deref_expected result ;;; ret events'.

(** The loop of [Driver::poll]: [env] gives what each registry reads from
    outside when it is selected. *)
Fixpoint Driver_poll_loop (env : nat -> Env) (l : list (nat * nat)) (events : list eid)
    : M (World R V) unit :=
  match l with
  | [] => ret tt
  | (_, a) :: l' =>
      let! selected := Driver_select (env a) a events in
      let! events' := RuntimeCore_wake selected in
      Driver_poll_loop env l' events'
  end.

Definition Driver_poll (env : nat -> Env) (t : tid) : M (World R V) unit :=
  let! w := get in
  let! local_registry := deref (local_registries_ (driver_ w) !! t) in
  Driver_poll_loop env local_registry [].
End Driver.
