(* ===== verification/DriverSpec.v ===== *)
(** What a poll of the driver does, against the registry interface: the
    conservation of events and the wake-ups of [Driver::poll], the sharing of
    global registries between the threads of a runtime. *)
From stdpp Require Import base gmap list sets.
From Stdlib Require Import ZArith.
From S2P Require Import Prelude Errors Events Futures Core Driver.

Lemma entry_of_future {V} (h : Heap V) es es' e :
  future_of es' e = future_of es e -> entry_of h es' e = entry_of h es e.
Proof. unfold entry_of. by intros ->. Qed.

Lemma mapM_entries {V} (h : Heap V) es l :
  (forall e, e ∈ l -> is_Some (entry_of h es e)) ->
  exists xs, mapM (entry_of h es) l = Some xs.
Proof.
  intros Hl. apply mapM_is_Some. apply Forall_forall. intros e He. by apply Hl.
Qed.

(** A poll on a thread that has one registry: the selected events are queued in order and
    unbound. *)
Lemma single_poll {R V Env} `{Registry R Env} env t k a (w : World R V) r r' es' sel :
  local_registries_ (driver_ w) !! t = Some [(k, a)] -> w_registries w !! a = Some r ->
  select (env a) MAX_TIMEOUT (r, w_events w, []) = (Done (Value tt), (r', es', sel)) -> NoDup sel ->
  (forall e, future_of es' e = future_of (w_events w) e) ->
  (forall e, e ∈ sel -> is_Some (entry_of (w_heap w) (w_events w) e)) ->
  exists w' xs, Driver_poll env t w = (Done tt, w') /\
    Forall2 (fun e y => entry_of (w_heap w) (w_events w) e = Some y) sel xs /\
    fifo (w_handles_ w') = fifo (w_handles_ w) ++ xs /\
    w_events w' = foldr unbind es' sel /\ w_registries w' = <[a := r']> (w_registries w) /\
    driver_ w' = driver_ w.
Proof.
  intros Hl Hr Hs Hnd Hfut Hbd. destruct (mapM_entries (w_heap w) (w_events w) _ Hbd) as [xs Hxs].
  set (w1 := set_events es' (set_registries (<[a := r']> (w_registries w)) (per_runtime_registry_ w) w)).
  assert (Driver_select (env a) a [] w = (Done sel, w1)) as Hsel.
  { unfold Driver_select, on_registry. mred. rewrite Hr. cbn [fst snd]. by rewrite Hs. }
  assert (mapM (entry_of (w_heap w1) (w_events w1)) sel = Some xs) as Hxs1.
  { rewrite <- Hxs. apply mapM_ext. intros e. by apply entry_of_future. }
  eexists _, xs. split; [|split_and!].
  - unfold Driver_poll. mred. rewrite Hl. cbn [Driver_poll_loop].
    rewrite (bind_done _ _ _ _ _ Hsel). unfold RuntimeCore_wake. mred.
    rewrite (mfor_wake_event_run _ _ _ Hnd Hxs1). reflexivity.
  - by apply mapM_Some.
  - cbn. unfold fifo. by rewrite rev_app_distr, rev_involutive.
  - done.
  - done.
  - done.
Qed.

Section Poll.
Context {R V Env : Type} `{RegistryLaws R Env}.
Implicit Types (w : World R V) (env : nat -> Env).

(** The events the registry at address [a] holds. *)
Definition held w (a : nat) : list eid :=
  match w_registries w !! a with Some r => pending r | None => [] end.

(** The registries at [addrs] are ready to be selected and hold distinct
    events, each bound to a living future. *)
Record pollable env w (addrs : list nat) : Prop := {
  poll_distinct : NoDup addrs;
  poll_ready : forall a, a ∈ addrs ->
    exists r, w_registries w !! a = Some r /\ ready (env a) r (w_events w);
  poll_events : NoDup (addrs ≫= held w);
  poll_bound : forall e, e ∈ addrs ≫= held w ->
    is_Some (entry_of (w_heap w) (w_events w) e);
}.

(** The runtime after the registry at [a], now [r'], has handed out [new] and its events
    were queued as [xs] and unbound. *)
Definition after_wake w (a : nat) (r' : R) (es' : EventStore) (new : list eid) (xs : list Entry)
    : World R V :=
  set_handles (rev xs ++ w_handles_ w) (set_events (foldr unbind es' new)
    (set_registries (<[a := r']> (w_registries w)) (per_runtime_registry_ w) w)).

(** What a poll is to do: the registries are selected one after the other, in the order of
    the thread's list; what [select] of one puts out is queued, first out first, before the
    next is selected.  The list has the events in that order. *)
Inductive polled env : list (nat * nat) -> World R V -> list eid -> World R V -> Prop :=
| polled_nil w : polled env [] w [] w
| polled_cons k a l w r r' es' new xs woken w' :
    w_registries w !! a = Some r ->
    select (env a) MAX_TIMEOUT (r, w_events w, []) = (Done (Value tt), (r', es', new)) ->
    mapM (entry_of (w_heap w) (w_events w)) new = Some xs ->
    polled env l (after_wake w a r' es' new xs) woken w' ->
    polled env ((k, a) :: l) w (new ++ woken) w'.

(** One registry: its selected events are woken, and nothing else moves. *)
Lemma select_wake env w a r :
  w_registries w !! a = Some r -> ready (env a) r (w_events w) -> NoDup (pending r) ->
  (forall e, e ∈ pending r -> is_Some (entry_of (w_heap w) (w_events w) e)) ->
  exists w' r' es' new xs,
    bind (Driver_select (env a) a []) RuntimeCore_wake w = (Done [], w') /\
    select (env a) MAX_TIMEOUT (r, w_events w, []) = (Done (Value tt), (r', es', new)) /\
    w' = after_wake w a r' es' new xs /\
    w_registries w' = <[a := r']> (w_registries w) /\
    pending r ≡ₚ new ++ pending r' /\
    mapM (entry_of (w_heap w) (w_events w)) new = Some xs /\
    fifo (w_handles_ w') = fifo (w_handles_ w) ++ xs /\
    (forall e, future_of (w_events w') e =
       if decide (e ∈ new) then None else future_of (w_events w) e) /\
    (forall e, e ∉ pending r -> extra_of (w_events w') e = extra_of (w_events w) e) /\
    w_heap w' = w_heap w.
Proof.
  intros Hr Hrdy Hnd Hbd.
  destruct (select_spec (env a) MAX_TIMEOUT r (w_events w) [] Hrdy)
    as (r' & es' & new & Hs & Hperm & Hfut & Hframe). cbn in Hs.
  set (w1 := set_events es' (set_registries (<[a := r']> (w_registries w))
               (per_runtime_registry_ w) w)).
  assert (Driver_select (env a) a [] w = (Done new, w1)) as Hsel.
  { unfold Driver_select, on_registry. mred. rewrite Hr. cbn. by rewrite Hs. }
  rewrite Hperm in Hnd. apply NoDup_app in Hnd as (Hnd & _ & _).
  destruct (mapM_entries (w_heap w) (w_events w) new) as [xs Hxs].
  { intros e He. apply Hbd. rewrite Hperm. set_solver. }
  exists (set_handles (rev xs ++ w_handles_ w1)
            (set_events (foldr unbind (w_events w1) new) w1)), r', es', new, xs.
  rewrite (bind_done _ _ _ _ _ Hsel). unfold RuntimeCore_wake.
  rewrite (bind_done _ _ _ tt
    (set_handles (rev xs ++ w_handles_ w1) (set_events (foldr unbind (w_events w1) new) w1))).
  2:{ apply mfor_wake_event_run; [done|]. rewrite <- Hxs. apply mapM_ext.
      intros e. by apply entry_of_future. }
  cbn. split_and!; try done.
  - unfold fifo. by rewrite rev_app_distr, rev_involutive.
  - intros e. unfold future_of. rewrite foldr_unbind_lookup. case_decide.
    + by destruct (es' !! e).
    + apply Hfut.
  - intros e He. unfold extra_of. rewrite foldr_unbind_lookup, Hframe by done.
    case_decide; [by destruct (w_events w !! e)|done].
Qed.

Lemma pollable_tail env w w' a addrs r r' new :
  pollable env w (a :: addrs) -> w_registries w !! a = Some r ->
  w_registries w' = <[a := r']> (w_registries w) -> pending r ≡ₚ new ++ pending r' ->
  (forall e, future_of (w_events w') e =
     if decide (e ∈ new) then None else future_of (w_events w) e) ->
  (forall e, e ∉ pending r -> extra_of (w_events w') e = extra_of (w_events w) e) ->
  w_heap w' = w_heap w ->
  pollable env w' addrs /\ addrs ≫= held w' = addrs ≫= held w /\
  (forall e, e ∈ addrs ≫= held w -> e ∉ pending r).
Proof.
  intros [Hd Hrdy Hev Hbd] Hr Hregs Hperm Hfut Hext Hheap.
  apply NoDup_cons in Hd as [Ha Hd]. cbn in Hev, Hbd. unfold held in Hev at 1, Hbd at 1.
  rewrite Hr in Hev, Hbd. apply NoDup_app in Hev as (Hnr & Hdis & Hnrest).
  assert (forall b, b ∈ addrs -> w_registries w' !! b = w_registries w !! b) as Hlk.
  { intros b Hb. rewrite Hregs, lookup_insert_ne; [done|]. intros <-. done. }
  assert (addrs ≫= held w' = addrs ≫= held w) as Hheld.
  { clear -Hlk. induction addrs as [|b addrs IH]; [done|]. cbn.
    rewrite IH by (intros; apply Hlk; by right). unfold held at 1 3.
    by rewrite Hlk by (by left). }
  split_and!; [|done|intros e He Hp; by apply (Hdis e)].
  constructor; [done| | |].
  - intros b Hb. destruct (Hrdy b) as (rb & Hrb & Hready); [by right|].
    exists rb. rewrite Hlk by done. split; [done|]. eapply ready_ext; [|done].
    intros e He. apply Hext. intros Hp. apply (Hdis e Hp). apply list_elem_of_bind.
    exists b. split; [|done]. unfold held. by rewrite Hrb.
  - by rewrite Hheld.
  - rewrite Hheld, Hheap. intros e He. rewrite (entry_of_future _ (w_events w)).
    + apply Hbd. set_solver.
    + rewrite Hfut, decide_False; [done|]. intros Hn. apply (Hdis e); [|done].
      rewrite Hperm. set_solver.
Qed.

Lemma poll_step env k a l w w1 :
  bind (Driver_select (env a) a []) RuntimeCore_wake w = (Done [], w1) ->
  Driver_poll_loop env ((k, a) :: l) [] w = Driver_poll_loop env l [] w1.
Proof.
  intros Hrun. cbn [Driver_poll_loop].
  apply bind_inv_done in Hrun as (sel & w0 & Hs & Hw).
  by rewrite (bind_done _ _ _ _ _ Hs), (bind_done _ _ _ _ _ Hw).
Qed.

(** The loop of [Driver::poll]; registries outside [l] are untouched. *)
Lemma poll_loop_run env l w :
  pollable env w l.*2 ->
  exists w' woken xs, Driver_poll_loop env l [] w = (Done tt, w') /\ polled env l w woken w' /\
    (forall a, a ∉ l.*2 -> w_registries w' !! a = w_registries w !! a) /\
    l.*2 ≫= held w ≡ₚ woken ++ (l.*2 ≫= held w') /\
    mapM (entry_of (w_heap w) (w_events w)) woken = Some xs /\
    fifo (w_handles_ w') = fifo (w_handles_ w) ++ xs /\
    (forall e, future_of (w_events w') e =
       if decide (e ∈ woken) then None else future_of (w_events w) e) /\
    w_heap w' = w_heap w.
Proof.
  revert w. induction l as [|[k a] l IH]; intros w Hp.
  { exists w, [], []. rewrite (app_nil_r (fifo _)). split_and!; try done. constructor. }
  cbn [fmap list_fmap snd] in Hp. pose proof Hp as Hp0.
  destruct Hp as [Hd Hrdy Hev Hbd].
  destruct (Hrdy a) as (r & Hr & Hready); [by left|].
  assert (held w a = pending r) as Hha by (unfold held; by rewrite Hr).
  cbn in Hev, Hbd. rewrite Hha in Hev, Hbd. apply NoDup_app in Hev as (Hnr & _ & _).
  destruct (select_wake env w a r) as
    (w1 & r' & es' & new & xs & Hrun & Hsel & Hw1 & Hregs & Hperm & Hxs & Hq & Hfut & Hext & Hheap);
    [done..|intros; apply Hbd; set_solver|].
  destruct (pollable_tail env w w1 a l.*2 r r' new) as (Hp1 & Hheld & Hdis); [done..|].
  destruct (IH w1 Hp1) as (w2 & woken & ys & Hrun2 & Hpd2 & Hfr2 & Hperm2 & Hys & Hq2 & Hfut2 & Hheap2).
  exists w2, (new ++ woken), (xs ++ ys).
  apply NoDup_cons in Hd as [Ha _].
  assert (held w2 a = pending r') as Ha2.
  { unfold held. by rewrite Hfr2, Hregs, lookup_insert_eq. }
  assert (forall e, e ∈ woken -> e ∉ new) as Hwn.
  { intros e He Hn. apply (Hdis e).
    - rewrite <- Hheld, Hperm2. set_solver.
    - rewrite Hperm. set_solver. }
  split_and!.
  - by rewrite (poll_step env k a l w w1).
  - eapply polled_cons; [done..|]. by rewrite <- Hw1.
  - intros b Hb. cbn in Hb. apply not_elem_of_cons in Hb as [Hba Hb].
    by rewrite Hfr2, Hregs, lookup_insert_ne.
  - cbn. rewrite Hha, Ha2, Hperm, <- Hheld, Hperm2. by solve_Permutation.
  - apply mapM_Some. apply Forall2_app; [by apply mapM_Some|].
    apply mapM_Some. rewrite <- Hys. apply mapM_ext_in. intros e He.
    rewrite Hheap. symmetry. apply entry_of_future. rewrite Hfut, decide_False; [done|].
    by apply Hwn.
  - by rewrite Hq2, Hq, (assoc (++)).
  - intros e. rewrite Hfut2, Hfut. repeat case_decide; set_solver.
  - by rewrite Hheap2.
Qed.

(** C3.  A poll of the driver on a worker thread returns, when the thread's registries are
    ready to be selected and hold distinct events bound to living futures.  It selects
    the registries one after the other in the order of the thread's list and wakes what
    each puts out, in that order ([polled]): the runtime's queue grows by one entry per
    selected event, first selected first, each entry naming the event's future and
    handle.  Every event the registries held is afterwards either still held or was
    woken, exactly once; the woken events are unbound and the others keep their
    futures. *)
Theorem poll_wakes_selected env t l w :
  local_registries_ (driver_ w) !! t = Some l -> pollable env w l.*2 ->
  exists w' woken xs, Driver_poll env t w = (Done tt, w') /\ polled env l w woken w' /\
    l.*2 ≫= held w ≡ₚ woken ++ (l.*2 ≫= held w') /\
    mapM (entry_of (w_heap w) (w_events w)) woken = Some xs /\
    fifo (w_handles_ w') = fifo (w_handles_ w) ++ xs /\
    (forall e, future_of (w_events w') e =
       if decide (e ∈ woken) then None else future_of (w_events w) e) /\
    w_heap w' = w_heap w.
Proof.
  intros Hl Hp. destruct (poll_loop_run env l w Hp) as (w' & woken & xs & Hrun & Hpd & _ & Hrest).
  exists w', woken, xs. split_and!; [|done|apply Hrest..]. unfold Driver_poll.
  rewrite (bind_done _ _ _ w w) by done. by rewrite (bind_done _ _ _ l w) by (by mred; rewrite Hl).
Qed.
End Poll.

(** ** Registries of threads *)
Section Threads.
Context {R V : Type}.
Implicit Types (w : World R V).

Lemma find_assign_eq {A} k (v : A) l : find_registry k (assign k v l) = Some v.
Proof.
  induction l as [|[k' v'] l IH]; cbn; [by rewrite decide_True|].
  case_decide; cbn; [by rewrite decide_True|]. by rewrite decide_False.
Qed.

Lemma find_assign_ne {A} k k' (v : A) l :
  k <> k' -> find_registry k (assign k' v l) = find_registry k l.
Proof.
  intros Hk. induction l as [|[k0 v0] l IH]; cbn; [by rewrite decide_False|].
  destruct (decide (k' = k0)) as [->|]; cbn; [by rewrite !decide_False|].
  case_decide; [done|]. done.
Qed.

(** The address a new thread finds for the initializer [i]: the one in the
    static map if [i] is global and the map has one. *)
Definition instance_of w (a : nat) (i : Initializer R) : nat :=
  if init_global i then default a (per_runtime_registry_ w !! (init_hash i, core_addr w))
  else a.

Lemma add_registry_run t a i w :
  exists w', Driver_add_registry t a i w = (Done tt, w') /\
    registry_of t (init_hash i) w' = Some (instance_of w a i) /\
    (forall h, h <> init_hash i -> registry_of t h w' =
       find_registry h (default [] (local_registries_ (driver_ w) !! t))) /\
    (forall t' h, t' <> t -> registry_of t' h w' = registry_of t' h w) /\
    registry_initializers_ (driver_ w') = registry_initializers_ (driver_ w) /\
    core_addr w' = core_addr w /\
    per_runtime_registry_ w' =
      (if init_global i then <[(init_hash i, core_addr w) := instance_of w a i]>
        (per_runtime_registry_ w) else per_runtime_registry_ w) /\
    is_Some (local_registries_ (driver_ w') !! t).
Proof.
  unfold Driver_add_registry, get_instance, ThreadLocalRegistry_get_instance,
    GlobalRegistry_get_instance, make_registry, instance_of, registry_of. mred.
  destruct (init_global i); [destruct (per_runtime_registry_ w !! _) as [a'|] eqn:Hg|].
  all: eexists; split; [done|]; cbn; rewrite lookup_insert_eq; cbn.
  all: split_and!; try done; try apply find_assign_eq.
  all: try (intros h Hh; by apply find_assign_ne).
  all: try (intros t' h Ht; by rewrite lookup_insert_ne).
  by rewrite insert_id.
Qed.

Record initialized (t : tid) (a : nat) (l : list (Initializer R)) w w' : Prop := {
  ini_at : forall n i, l !! n = Some i ->
    registry_of t (init_hash i) w' = Some (instance_of w (a + n) i);
  ini_other : forall h, h ∉ init_hash <$> l -> registry_of t h w' = registry_of t h w;
  ini_threads : forall t' h, t' <> t -> registry_of t' h w' = registry_of t' h w;
  ini_inits : registry_initializers_ (driver_ w') = registry_initializers_ (driver_ w);
  ini_addr : core_addr w' = core_addr w;
  ini_global : forall n i, l !! n = Some i -> init_global i = true ->
    per_runtime_registry_ w' !! (init_hash i, core_addr w) = Some (instance_of w (a + n) i);
  ini_static : forall h c, h ∉ init_hash <$> l ->
    per_runtime_registry_ w' !! (h, c) = per_runtime_registry_ w !! (h, c);
}.

Lemma run_initializers_run t l a w :
  NoDup (init_hash <$> l) -> is_Some (local_registries_ (driver_ w) !! t) ->
  exists w', run_initializers t a l w = (Done tt, w') /\ initialized t a l w w'.
Proof.
  revert a w. induction l as [|i l IH]; intros a w Hnd Ht.
  { exists w. split; [done|]. constructor; try done. }
  cbn in Hnd. apply NoDup_cons in Hnd as [Hi Hnd].
  destruct (add_registry_run t a i w) as
    (w1 & Hrun & Hreg & Hoth & Hthr & Hini & Hca & Hper & Ht1).
  destruct (IH (S a) w1 Hnd Ht1) as (w' & Hrun' & [A1 A2 A3 A4 A5 A6 A7]).
  assert (forall b j, init_hash j <> init_hash i -> instance_of w1 b j = instance_of w b j) as Hins.
  { intros b j Hj. unfold instance_of. rewrite Hca, Hper. destruct (init_global i); [|done].
    rewrite lookup_insert_ne by congruence. done. }
  assert (forall n j, l !! n = Some j -> init_hash j <> init_hash i) as Hlj.
  { intros n j Hj E. apply Hi. rewrite <- E. apply list_elem_of_fmap_2.
    by eapply list_elem_of_lookup_2. }
  exists w'. split; [cbn [run_initializers]; by rewrite (bind_done _ _ _ _ _ Hrun)|].
  constructor; try congruence.
  - intros [|n] j Hj; cbn in Hj.
    + injection Hj as <-. rewrite Nat.add_0_r. by rewrite A2.
    + rewrite (A1 n j Hj), Hins by (by eapply Hlj). do 2 f_equal. lia.
  - intros h Hh. cbn in Hh. apply not_elem_of_cons in Hh as [Hh1 Hh2].
    rewrite A2, Hoth by done. unfold registry_of. by destruct Ht as [? ->].
  - intros t' h Ht'. by rewrite A3, Hthr.
  - intros [|n] j Hj Hg; cbn in Hj.
    + injection Hj as <-. rewrite Nat.add_0_r, A7, Hper, Hg by done. apply lookup_insert_eq.
    + rewrite <- Hca, (A6 n j Hj), Hins by (done || by eapply Hlj). do 2 f_equal. lia.
  - intros h c Hh. cbn in Hh. apply not_elem_of_cons in Hh as [Hh1 Hh2].
    rewrite A7, Hper by done. destruct (init_global i); [|done].
    by rewrite lookup_insert_ne by congruence.
Qed.

Lemma add_thread_run t a w :
  NoDup (init_hash <$> registry_initializers_ (driver_ w)) ->
  exists w', Driver_add_thread t a w = (Done tt, w') /\
    (forall n i, registry_initializers_ (driver_ w) !! n = Some i ->
       registry_of t (init_hash i) w' = Some (instance_of w (a + n) i) /\
       (init_global i = true -> per_runtime_registry_ w' !! (init_hash i, core_addr w) =
          Some (instance_of w (a + n) i))) /\
    (forall t' h, t' <> t -> registry_of t' h w' = registry_of t' h w) /\
    registry_initializers_ (driver_ w') = registry_initializers_ (driver_ w) /\
    core_addr w' = core_addr w.
Proof.
  intros Hnd. unfold Driver_add_thread.
  set (w0 := set_driver (mkDriver (registry_initializers_ (driver_ w))
               (<[t := []]> (local_registries_ (driver_ w)))) w).
  rewrite (bind_done _ _ _ tt w0) by done. rewrite (bind_done _ _ _ w0 w0) by done.
  destruct (run_initializers_run t (registry_initializers_ (driver_ w0)) a w0)
    as (w' & Hrun & [A1 A2 A3 A4 A5 A6 A7]); [done|cbn; by rewrite lookup_insert_eq|].
  exists w'. rewrite Hrun. split_and!; try done.
  - intros n i Hi. split; [by apply (A1 n i)|]. intros Hg. by apply (A6 n i).
  - intros t' h Ht. rewrite A3 by done. unfold registry_of. cbn. by rewrite lookup_insert_ne.
Qed.

(** Threads of one runtime share their global registries and own their
    thread-local ones: when two threads have run [add_thread], each finds one
    registry per registered type, the same address on both threads for a
    [GlobalRegistry] and different addresses for a [ThreadLocalRegistry]. *)
Theorem threads_share_global_registries t1 t2 a1 a2 w w1 w2 :
  NoDup (init_hash <$> registry_initializers_ (driver_ w)) -> t1 <> t2 ->
  a1 + length (registry_initializers_ (driver_ w)) <= a2 ->
  Driver_add_thread t1 a1 w = (Done tt, w1) ->
  Driver_add_thread t2 a2 w1 = (Done tt, w2) ->
  forall i, i ∈ registry_initializers_ (driver_ w) ->
  exists r1 r2, registry_of t1 (init_hash i) w2 = Some r1 /\
    registry_of t2 (init_hash i) w2 = Some r2 /\
    (r1 = r2 <-> init_global i = true).
Proof.
  intros Hnd Ht Ha H1 H2 i Hi. apply list_elem_of_lookup_1 in Hi as [n Hn].
  destruct (add_thread_run t1 a1 w Hnd) as (w1' & E1 & A1 & A2 & A3 & A4).
  rewrite H1 in E1. injection E1 as <-.
  rewrite <- A3 in Hnd. destruct (add_thread_run t2 a2 w1 Hnd) as (w2' & E2 & B1 & B2 & B3 & B4).
  rewrite H2 in E2. injection E2 as <-. destruct (A1 n i Hn) as [Hr1 Hg1].
  rewrite A3 in B1. destruct (B1 n i Hn) as [Hr2 _].
  exists (instance_of w (a1 + n) i), (instance_of w1 (a2 + n) i).
  rewrite B2 by done. split_and!; [done..|].
  unfold instance_of in *. rewrite A4. destruct (init_global i).
  - by rewrite Hg1.
  - apply lookup_lt_Some in Hn. split; [lia|done].
Qed.

(** The static map outlives a runtime: a runtime built at the address of
    a destroyed one (the map still has the address as a key) is given the
    destroyed runtime's registry by [get_instance], whatever arguments its
    own initializer has. *)
Theorem global_registry_outlives_runtime a i w old :
  init_global i = true ->
  per_runtime_registry_ w !! (init_hash i, core_addr w) = Some old ->
  get_instance a i w = (Done old, w).
Proof.
  intros Hg Hold. unfold get_instance, GlobalRegistry_get_instance. rewrite Hg. mred.
  by rewrite Hold.
Qed.
End Threads.
