(* ===== verification/TimeRegistry.v ===== *)
(** Clocks, the timer registry and sleeping: [include/xyco/time/clock.ccm],
    [src/time/clock.cc], [include/xyco/time/registry.ccm],
    [src/time/registry.cc], [include/xyco/time/sleep.ccm].

    The wheel is the registry's state; its lemmas discharge the interface the
    driver relies on. *)
From stdpp Require Import base gmap list.
From Stdlib Require Import ZArith Lia.
From S2P Require Import Prelude Errors Events Wheel WheelSpec Futures Core Driver DriverSpec.
#[local] Open Scope Z_scope.

(** ** Clocks *)

(** The alternatives of [Clock::clock_]. *)
Inductive ClockKind : Type := SystemClock | SteadyClock | FrozenClock.

(** [clock_] and [FrozenClock::time_point_]. *)
Record Clocks : Type := mkClocks {
  clock_ : ClockKind;
  time_point_ : Z;
}.

(** What the machine's clocks answer: [system_clock::now()] in its own ticks,
    and two calls of [steady_clock::now()], in nanoseconds. *)
Record Readings : Type := mkReadings {
  system_now : Z;
  steady_first : Z;
  steady_second : Z;
}.

(** Nanoseconds of the steady clock in a tick of the system clock. *)
Definition ns_per_tick : Z := 1000.

(** The static members at the start of the program, when the system clock is at [now]. *)
Definition Clocks_static (now : Z) : Clocks := mkClocks SystemClock now.

Definition FrozenClock_now (c : Clocks) : Z := time_point_ c.

(** [advance] by a duration given in ticks of the system clock. *)
Definition FrozenClock_advance (duration : Z) (c : Clocks) : Clocks :=
  mkClocks (clock_ c) (time_point_ c + duration).

Definition Clock_now (r : Readings) (c : Clocks) : Z :=
  match clock_ c with
  | SystemClock => system_now r
  | FrozenClock => FrozenClock_now c
  | SteadyClock =>
      Z.quot (steady_first r - steady_second r + system_now r * ns_per_tick) ns_per_tick
  end.

Definition Clock_init (k : ClockKind) (c : Clocks) : Clocks :=
  mkClocks k (time_point_ c).

(** ** [TimeRegistryImpl]: the environment is [Clock::now()] *)

Definition TimeRegistryImpl_Register (event : eid) : M (Wheel * EventStore) (Result unit) :=
  fun s => let '(o, wheel) := insert_event s.2 event s.1 in
           (match o with Done _ => Done (Value tt) | Thrown e => Thrown e | Undef => Undef end,
            (wheel, s.2)).

Definition TimeRegistryImpl_reregister (event : eid) : M (Wheel * EventStore) (Result unit) :=
  ret (Value tt).

Definition TimeRegistryImpl_deregister (event : eid) : M (Wheel * EventStore) (Result unit) :=
  ret (Value tt).

Definition TimeRegistryImpl_select (clock_now timeout : Z)
    : M (Wheel * EventStore * list eid) (Result unit) :=
  fun s => let '(wheel, es, events) := s in
           let '(o, (wheel', events')) := expire es clock_now (wheel, events) in
           (match o with Done _ => Done (Value tt) | Thrown e => Thrown e | Undef => Undef end,
            (wheel', es, events')).

#[export] Instance TimeRegistry : Registry Wheel Z := {
  Register clock_now := TimeRegistryImpl_Register;
  reregister clock_now := TimeRegistryImpl_reregister;
  deregister clock_now := TimeRegistryImpl_deregister;
  select := TimeRegistryImpl_select;
}.

(** [typeid(TimeRegistry).hash_code()]. *)
Definition TimeRegistry_hash : nat := 1.

(** ** [sleep] *)

(** The local class [Future] of [sleep]; [duration_] counts milliseconds. *)
Record SleepFuture : Type := mkSleepFuture {
  ready_ : bool;
  duration_ : Z;
  event_ : eid;
}.

(** The constructor makes the event with an extra at [time_point::min()]. *)
Definition SleepFuture_new (e : eid) (duration : Z) (es : EventStore)
    : SleepFuture * EventStore :=
  (mkSleepFuture false duration e,
   <[e := mkEvent None (Some (ETime (mkTimeExtra (- 2 ^ 63))))]> es).

Section Sleep.
Context {R V Env : Type} `{Registry R Env}.

(** [poll] on thread [t]; [env] is what the registry reads. *)
Definition SleepFuture_poll (clock_now : Z) (env : Env) (t : tid) (this : fid)
    : M (SleepFuture * World R V) (Poll unit) :=
  let! (s, w) := get in
  if ready_ s then ret (Ready tt)
  else
    let! ev := deref (w_events w !! event_ s) in
    match extra_ ev with
    | Some (ETime _) =>
        let expire_time := clock_now + duration_ s * ticks_per_ms in
        put (mkSleepFuture true (duration_ s) (event_ s),
             set_events (<[event_ s := mkEvent (Some this)
                            (Some (ETime (mkTimeExtra expire_time)))]> (w_events w)) w) ;;;
        zoom snd (fun w s => (s.1, w))
          (Driver_Register env t TimeRegistry_hash (event_ s)) ;;;
        ret Pending
    | _ => undef
    end.
End Sleep.

(** ** The interface the driver relies on *)

Lemma winv_ext ok es es' w :
  (forall e, e ∈ stored w -> extra_of es' e = extra_of es e) ->
  winv ok es w -> winv ok es' w.
Proof.
  intros Hext [Hwf Hin]. split; [done|]. intros L s e He HP.
  destruct (Hin L s e He HP) as (x & T & Hx & Hrest). exists x, T. split; [|done].
  rewrite <- Hx. assert (extra_of es' e = extra_of es e) as E.
  { apply Hext. apply elem_of_stored. eauto. }
  revert E. unfold time_extra, extra_of.
  destruct (es' !! e) as [[f' [[]|]]|], (es !! e) as [[f [[]|]]|]; cbn; congruence.
Qed.

(** The poll at [clock_now] stays within the wheel. *)
Definition in_range (clock_now : Z) (w : Wheel) : Prop :=
  now_ w < clock_now -> tick w + to_ms (clock_now - now_ w) < capacity.

#[export] Program Instance TimeRegistry_laws : RegistryLaws Wheel Z := {
  pending := stored;
  ready clock_now w es := winv late_ok es w /\ in_range clock_now w;
}.
Next Obligation.
  intros clock_now w es es' Hext [Hw Hr]. split; [|done]. by eapply winv_ext.
Qed.
Next Obligation.
  intros clock_now timeout w es evs [Hw Hr]. cbn [select TimeRegistry]. destruct (Z.ltb_spec (now_ w) clock_now) as [Hlt|Hge].
  - destruct (expire_never_early es w clock_now evs Hw Hlt (Hr Hlt))
      as (w' & out & Heq & _ & _ & _ & Hp & _).
    unfold TimeRegistryImpl_select. rewrite Heq. exists w', es, out. split_and!; done.
  - unfold TimeRegistryImpl_select, expire. mred. rewrite (proj2 (Z.ltb_ge _ _)) by done.
    exists w, es, []. rewrite app_nil_r. by split_and!.
Qed.
