(* ===== verification/TimeSpec.v ===== *)
(** Timers through the whole stack: the registry's own contract, and a sleeping
    future from its first poll, through the driver and the wheel, to the queue
    of the runtime. *)
From stdpp Require Import base gmap list sets.
From Stdlib Require Import ZArith Lia.
From S2P Require Import Prelude Errors Events Wheel WheelSpec Futures Core Driver DriverSpec TimeRegistry.
#[local] Open Scope Z_scope.

Section Timers.
Context {V : Type}.
Implicit Types (w : World Wheel V).

(** Thread [t] drives one registry, the wheel at address [a]; the events in
    the wheel are distinct, bound to living futures, and filed under their
    millisecond or up to [lag] ticks of the clock later. *)
Record timed (t : tid) (a : nat) (lag : Z) w (wheel : Wheel) : Prop := {
  tm_local : local_registries_ (driver_ w) !! t = Some [(TimeRegistry_hash, a)];
  tm_wheel : w_registries w !! a = Some wheel;
  tm_lag : 0 <= lag;
  tm_inv : winv (lag_ok lag) (w_events w) wheel;
  tm_distinct : NoDup (stored wheel);
  tm_bound : forall e, e ∈ stored wheel ->
    is_Some (entry_of (w_heap w) (w_events w) e);
}.

(** The effect of waking the events [out] with queue entries [xs]. *)
Record woke w w' (out : list eid) (xs : list Entry) : Prop := {
  wk_entries : mapM (entry_of (w_heap w) (w_events w)) out = Some xs;
  wk_queue : fifo (w_handles_ w') = fifo (w_handles_ w) ++ xs;
  wk_future : forall e, future_of (w_events w') e =
    if decide (e ∈ out) then None else future_of (w_events w) e;
  wk_extra : forall e, extra_of (w_events w') e = extra_of (w_events w) e;
  wk_heap : w_heap w' = w_heap w;
}.

Lemma due_ext es es' now e :
  extra_of es' e = extra_of es e -> due es' now e <-> due es now e.
Proof.
  unfold due, extra_of, time_extra.
  destruct (es' !! e) as [[f' [[]|]]|], (es !! e) as [[f [[]|]]|]; cbn;
    intros E; simplify_eq; done.
Qed.

(** One poll of the driver when the clock reads [now]. *)
Lemma timed_poll t a lag w wheel now :
  timed t a lag w wheel -> now_ wheel < now -> tick wheel + to_ms (now - now_ wheel) < capacity ->
  exists w' wheel' out xs,
    Driver_poll (fun _ => now) t w = (Done tt, w') /\
    timed t a (next_lag lag wheel now) w' wheel' /\ woke w w' out xs /\
    now_ wheel' = now /\ tick wheel' = tick wheel + to_ms (now - now_ wheel) /\
    stored wheel ≡ₚ out ++ stored wheel' /\
    (forall e, e ∈ out -> due (w_events w) now e) /\
    (forall e, e ∈ stored wheel' -> ~ due (w_events w) (now - next_lag lag wheel now) e).
Proof.
  intros [Hl Hr Hlag Hi Hnd Hbd] Hlt Hcap.
  destruct (expire_splits (w_events w) wheel lag now [] Hi Hlag Hlt Hcap)
    as (wheel' & out & Heq & Hi' & Hn & Ht & Hp & Hdue & Hrest). cbn [app] in Heq.
  assert (0 <= next_lag lag wheel now) as Hlag'.
  { unfold next_lag. pose proof (to_ms_range (now - now_ wheel)). lia. }
  pose proof Hnd as Hnd0. rewrite Hp in Hnd0. apply NoDup_app in Hnd0 as (Hno & Hdis & Hns).
  destruct (mapM_entries (w_heap w) (w_events w) out) as [xs Hxs].
  { intros e He. apply Hbd. rewrite Hp. set_solver. }
  set (w1 := set_events (w_events w) (set_registries (<[a := wheel']> (w_registries w))
               (per_runtime_registry_ w) w)).
  assert (woke w (set_handles (rev xs ++ w_handles_ w1)
    (set_events (foldr unbind (w_events w1) out) w1)) out xs) as Hwoke.
  { constructor; [done| | | |done].
    - cbn. unfold fifo. by rewrite rev_app_distr, rev_involutive.
    - intros e. cbn. unfold future_of. rewrite foldr_unbind_lookup.
      case_decide; [by destruct (w_events w !! e)|done].
    - intros e. cbn. unfold extra_of. rewrite foldr_unbind_lookup.
      case_decide; [by destruct (w_events w !! e)|done]. }
  eexists _, wheel', out, xs. split_and!; [| |exact Hwoke|done..].
  - unfold Driver_poll. rewrite (bind_done _ _ _ w w) by done.
    rewrite (bind_done _ _ _ [(TimeRegistry_hash, a)] w) by (by mred; rewrite Hl).
    cbn [Driver_poll_loop]. rewrite (bind_done _ _ _ out w1).
    2:{ unfold Driver_select, on_registry. mred. rewrite Hr. cbn [select TimeRegistry].
        unfold TimeRegistryImpl_select. cbn [fst snd]. by rewrite Heq. }
    unfold RuntimeCore_wake. rewrite (bind_done _ _ _ [] (set_handles (rev xs ++ w_handles_ w1)
      (set_events (foldr unbind (w_events w1) out) w1))); [done|].
    by rewrite (bind_done _ _ _ _ _ (mfor_wake_event_run out xs w1 Hno Hxs)).
  - constructor; try done.
    + cbn. by rewrite lookup_insert_eq.
    + eapply winv_ext; [|exact Hi']. intros e He. by apply Hwoke.
    + intros e He. rewrite (wk_heap _ _ _ _ Hwoke).
      rewrite (entry_of_future _ (w_events w)).
      * apply Hbd. rewrite Hp. set_solver.
      * rewrite (wk_future _ _ _ _ Hwoke), decide_False; [done|]. intros Ho. by apply (Hdis e).
Qed.

Lemma woke_trans w w1 w2 out1 out2 xs1 xs2 :
  woke w w1 out1 xs1 -> woke w1 w2 out2 xs2 -> (forall e, e ∈ out2 -> e ∉ out1) ->
  woke w w2 (out1 ++ out2) (xs1 ++ xs2).
Proof.
  intros [A1 A2 A3 A4 A5] [B1 B2 B3 B4 B5] Hd. constructor.
  - apply mapM_Some. apply Forall2_app; [by apply mapM_Some|].
    apply mapM_Some. rewrite <- B1. apply mapM_ext_in. intros e He.
    rewrite A5. symmetry. apply entry_of_future. rewrite A3, decide_False; [done|].
    by apply Hd.
  - by rewrite B2, A2, (assoc (++)).
  - intros e. rewrite B3, A3. repeat case_decide; set_solver.
  - intros e. by rewrite B4.
  - by rewrite B5.
Qed.

(** A poll at a time that is not later does nothing. *)
Lemma stale_poll t a lag w wheel now :
  timed t a lag w wheel -> now <= now_ wheel ->
  exists w', Driver_poll (fun _ => now) t w = (Done tt, w') /\ timed t a lag w' wheel /\
    woke w w' [] [] /\ w_events w' = w_events w.
Proof.
  intros [Hl Hr Hlag Hi Hnd Hbd] Hle.
  set (w1 := set_events (w_events w) (set_registries (<[a := wheel]> (w_registries w))
               (per_runtime_registry_ w) w)).
  exists w1. split_and!; [| | |done].
  - unfold Driver_poll. mred. rewrite Hl. cbn [Driver_poll_loop].
    unfold Driver_select, on_registry, RuntimeCore_wake. mred. rewrite Hr. cbn [select TimeRegistry].
    unfold TimeRegistryImpl_select. cbn [fst snd]. by rewrite expire_stale.
  - constructor; try done. cbn. by rewrite lookup_insert_eq.
  - constructor; try done. by rewrite app_nil_r.
Qed.

(** A poll at any time: the events handed out are due by the clock; those kept are not
    due by the time of the wheel, unless it has not moved. *)
Lemma timed_poll_any t a lag w wheel now :
  timed t a lag w wheel -> tick wheel + to_ms (Z.max (now_ wheel) now - now_ wheel) < capacity ->
  let now' := Z.max (now_ wheel) now in let lag' := next_lag lag wheel now' in
  exists w' wheel' out xs,
    Driver_poll (fun _ => now) t w = (Done tt, w') /\
    timed t a lag' w' wheel' /\ woke w w' out xs /\
    now_ wheel' = now' /\ tick wheel' = tick wheel + to_ms (now' - now_ wheel) /\
    stored wheel ≡ₚ out ++ stored wheel' /\
    (forall e, e ∈ out -> due (w_events w) now' e) /\
    (now_ wheel < now' -> forall e, e ∈ stored wheel' -> ~ due (w_events w) (now' - lag') e) /\
    (now_ wheel = now' -> out = [] /\ lag' = lag /\ wheel' = wheel).
Proof.
  intros Htm Hcap. destruct (Z.lt_ge_cases (now_ wheel) now) as [Hlt|Hge].
  - rewrite Z.max_r in * by lia. intros now' lag'.
    destruct (timed_poll t a lag w wheel now Htm Hlt Hcap)
      as (w' & wheel' & out & xs & H1 & H2 & H3 & H4 & H5 & H6 & H7 & H8).
    exists w', wheel', out, xs. split_and!; try done. unfold now' in *. lia.
  - rewrite Z.max_l in * by lia. intros now' lag'.
    assert (lag' = lag) as Hlag.
    { unfold lag', next_lag, now'. rewrite Z.sub_diag. change (to_ms 0) with 0. lia. }
    rewrite Hlag. destruct (stale_poll t a lag w wheel now Htm Hge) as (w' & Hrun & Htm' & Hwk & _).
    exists w', wheel, [], []. unfold now'. rewrite Z.sub_diag. change (to_ms 0) with 0.
    split_and!; try done; [lia|by intros e ?%not_elem_of_nil|lia].
Qed.

(** The driver polled again and again, at the readings [ts] of the clock. *)
Fixpoint driver_polls (t : tid) (ts : list Z) : M (World Wheel V) unit :=
  match ts with
  | [] => ret tt
  | now :: ts' => Driver_poll (fun _ => now) t ;;; driver_polls t ts'
  end.

Lemma timed_polls t a lag ts w wheel :
  timed t a lag w wheel -> tick wheel + ms_walked (now_ wheel) ts < capacity ->
  let now' := clock_after (now_ wheel) ts in let lag' := lag_after lag (now_ wheel) ts in
  exists w' wheel' out xs,
    driver_polls t ts w = (Done tt, w') /\
    timed t a lag' w' wheel' /\ woke w w' out xs /\ now_ wheel' = now' /\
    stored wheel ≡ₚ out ++ stored wheel' /\
    (forall e, e ∈ out -> due (w_events w) now' e) /\
    (now_ wheel < now' -> forall e, e ∈ stored wheel' -> ~ due (w_events w) (now' - lag') e).
Proof.
  revert lag w wheel. induction ts as [|now ts IH]; intros lag w wheel Htm Hcap now' lag'.
  { exists w, wheel, [], []. unfold now', lag', lag_after. cbn. rewrite Z.sub_diag, Z.add_0_r.
    split_and!; try done; [|set_solver|lia]. constructor; try done. by rewrite app_nil_r. }
  cbn [ms_walked] in Hcap. pose proof (ms_walked_nonneg (Z.max (now_ wheel) now) ts).
  destruct (timed_poll_any t a lag w wheel now Htm) as
    (w1 & wheel1 & out1 & xs1 & Hrun1 & Htm1 & Hwk1 & Hn1 & Ht1 & Hp1 & Hd1 & Hr1 & Hst1); [lia|].
  destruct (IH _ w1 wheel1 Htm1) as
    (w2 & wheel2 & out2 & xs2 & Hrun2 & Htm2 & Hwk2 & Hn2 & Hp2 & Hd2 & Hr2); [rewrite Hn1; lia|].
  assert (clock_after (now_ wheel1) ts = now') as Hnow by (unfold now'; by rewrite Hn1).
  assert (lag_after (next_lag lag wheel (Z.max (now_ wheel) now)) (now_ wheel1) ts = lag') as Hlag
    by (unfold lag'; by rewrite lag_after_cons, Hn1).
  rewrite Hnow, Hlag in *.
  assert (forall t e, due (w_events w1) t e <-> due (w_events w) t e)
    as Hext by (intros; apply due_ext, Hwk1).
  pose proof (clock_after_ge (now_ wheel1) ts) as Hge. rewrite Hnow in Hge.
  pose proof (tm_distinct _ _ _ _ _ Htm) as Hnd. rewrite Hp1 in Hnd.
  apply NoDup_app in Hnd as (_ & Hdis & _).
  exists w2, wheel2, (out1 ++ out2), (xs1 ++ xs2). split_and!; [|done| |done| | |].
  - cbn [driver_polls]. by rewrite (bind_done _ _ _ _ _ Hrun1).
  - eapply woke_trans; [done..|]. intros e He1 He. apply (Hdis e He). rewrite Hp2. set_solver.
  - by rewrite Hp1, Hp2, (assoc (++)).
  - intros e [He|He]%elem_of_app; [|by apply Hext, Hd2].
    apply (due_mono _ (Z.max (now_ wheel) now)); [lia|]. by apply Hd1.
  - intros Hlt e He. rewrite <- Hext. destruct (Z.lt_ge_cases (now_ wheel1) now') as [Hlt1|Hge1].
    + by apply Hr2.
    + (* only the first poll moved the wheel *)
      rewrite Hext. assert (now' = Z.max (now_ wheel) now) as Heq by lia.
      assert (lag' = next_lag lag wheel (Z.max (now_ wheel) now)) as ->.
      { unfold lag'. rewrite lag_after_cons. apply lag_after_stays. rewrite <- Hn1. lia. }
      rewrite Heq. apply Hr1; [lia|]. rewrite Hp2. set_solver.
Qed.

(** The first poll of a sleeping future files its event. *)
Lemma sleep_first_poll t a lag w wheel s c this fo ev x :
  timed t a lag w wheel -> ready_ s = false -> event_ s ∉ stored wheel ->
  w_events w !! event_ s = Some ev -> extra_ ev = Some (ETime x) ->
  futures (w_heap w) !! this = Some fo ->
  tick wheel + Z.max 0 (to_ms (c + duration_ s * ticks_per_ms - now_ wheel)) < capacity ->
  exists w' wheel',
    SleepFuture_poll c c t this (s, w) =
      (Done Pending, (mkSleepFuture true (duration_ s) (event_ s), w')) /\
    timed t a lag w' wheel' /\ now_ wheel' = now_ wheel /\ tick wheel' = tick wheel /\
    stored wheel' ≡ₚ event_ s :: stored wheel /\
    w_events w' = <[event_ s := mkEvent (Some this)
      (Some (ETime (mkTimeExtra (c + duration_ s * ticks_per_ms))))]> (w_events w) /\
    w_heap w' = w_heap w /\ w_handles_ w' = w_handles_ w /\
    in_place_worker_ w' = in_place_worker_ w.
Proof.
  intros [Hl Hr Hlag Hi Hnd Hbd] Hrdy Hns Hev Hx Hfo Hcap.
  set (es1 := <[event_ s := mkEvent (Some this)
    (Some (ETime (mkTimeExtra (c + duration_ s * ticks_per_ms))))]> (w_events w)).
  assert (forall e, e <> event_ s -> es1 !! e = w_events w !! e) as Hes1
    by (intros; by apply lookup_insert_ne).
  destruct (insert_event_inv (lag_ok lag) (fun r => lag_ok_insert lag r Hlag) (fun _ _ => False) es1 (event_ s) wheel)
    as (wheel' & Hins & Hi' & Hp & Hsc).
  { eapply winv_ext; [|exact Hi]. intros e He. unfold extra_of. rewrite Hes1; [done|].
    by intros ->. }
  { eexists. split; [unfold time_extra, es1; by rewrite lookup_insert_eq|exact Hcap]. }
  exists (set_events es1 (set_registries (<[a := wheel']> (w_registries w))
            (per_runtime_registry_ w) w)), wheel'.
  split_and!; [| |apply Hsc|by apply same_clock_tick|done..].
  - unfold SleepFuture_poll, Driver_Register, Driver_call, registry_of, on_registry.
    mred. rewrite Hrdy, Hev, Hx. cbn. rewrite Hl. cbn.
    rewrite decide_True by done. cbn. rewrite Hr. fold es1.
    unfold TimeRegistryImpl_Register. cbn [fst snd]. by rewrite Hins.
  - constructor; [done|cbn; by rewrite lookup_insert_eq|done|done| |].
    + rewrite Hp. by constructor.
    + intros e. rewrite Hp. cbn. intros [->|He]%elem_of_cons.
      * unfold entry_of, future_of, es1. rewrite lookup_insert_eq. cbn. rewrite Hfo. by eexists.
      * rewrite (entry_of_future _ (w_events w)); [by apply Hbd|]. unfold future_of.
        rewrite Hes1; [done|]. by intros ->.
Qed.


(** C17.  Whatever the clock does, backward steps included, a selection that
    stays within the wheel's capacity returns a value, keeps the wheel well
    formed, loses or duplicates no timer, and hands none out with a
    millisecond or more to go. *)
Theorem time_select_never_early es wheel now timeout evs
    (Hw : winv late_ok es wheel) (Hr : in_range now wheel) :
  exists wheel' out,
    TimeRegistryImpl_select now timeout (wheel, es, evs) =
      (Done (Value tt), (wheel', es, evs ++ out)) /\
    winv late_ok es wheel' /\ now_ wheel' = Z.max (now_ wheel) now /\
    stored wheel ≡ₚ out ++ stored wheel' /\ Forall (due es now) out.
Proof.
  unfold TimeRegistryImpl_select. destruct (Z.ltb_spec (now_ wheel) now) as [Hlt|Hge].
  - destruct (expire_never_early es wheel now evs Hw Hlt (Hr Hlt))
      as (w' & out & Heq & Hw' & Hn & _ & Hp & Hd).
    rewrite Heq. exists w', out. split_and!; [done..|lia|done|]. by apply Forall_forall.
  - exists wheel, []. unfold expire. mred. rewrite (proj2 (Z.ltb_ge _ _)) by done.
    rewrite app_nil_r. split_and!; try done. lia.
Qed.
End Timers.

(** Until [init] is called the library's clock is the system clock.  With [SteadyClock]
      it never runs ahead of the system clock, and falls behind it by no more than the
      time between its two readings of the steady clock; a frozen clock starts at the
      time the program started, and moves by the durations it is advanced by and by
      nothing else. *)
Theorem clock_readings r c ds start
    (Hord : steady_first r <= steady_second r)
    (Hpos : steady_second r - steady_first r <= system_now r * ns_per_tick) :
  Clock_now r (Clocks_static start) = system_now r /\
  Clock_now r (Clock_init FrozenClock (Clocks_static start)) = start /\
  (clock_ c = SteadyClock ->
     system_now r * ns_per_tick - (steady_second r - steady_first r) - ns_per_tick <
       Clock_now r c * ns_per_tick <= system_now r * ns_per_tick) /\
  (clock_ c = FrozenClock ->
     Clock_now r (foldr FrozenClock_advance c ds) = Clock_now r c + sum_list_Z ds).
Proof.
  unfold Clock_now, ns_per_tick in *. split; [done|]. split; [done|]. split; intros Hc.
  - rewrite Hc. rewrite Z.quot_div_nonneg by lia.
    pose proof (Z.div_mod (steady_first r - steady_second r + system_now r * 1000) 1000).
    pose proof (Z.mod_pos_bound (steady_first r - steady_second r + system_now r * 1000) 1000). lia.
  - rewrite Hc. assert (clock_ (foldr FrozenClock_advance c ds) = FrozenClock) as ->
      by (clear -Hc; by induction ds).
    unfold FrozenClock_now. clear. induction ds as [|d ds IH]; cbn; [lia|].
    rewrite IH. fold (sum_list_Z ds). lia.
Qed.
