(* ===== verification/TimeWitness.v ===== *)
(** Concrete runs of the timer theorems: two timers in a fresh wheel, a sleeping
    future on one thread. *)
From stdpp Require Import base gmap list sets relations.
From Stdlib Require Import ZArith Lia.
From S2P Require Import Prelude Errors Events Wheel WheelSpec Futures Core Driver DriverSpec TimeRegistry TimeSpec.
#[local] Open Scope Z_scope.

(** ** Timers due after 5 and 70 milliseconds *)

Definition timer (ms : Z) : Event := mkEvent None (Some (ETime (mkTimeExtra (ms * ticks_per_ms)))).

Definition two_timers : EventStore := <[1%nat := timer 5]> (<[2%nat := timer 70]> ∅).

Lemma two_timers_fit : Forall (fits two_timers (Wheel_new 0)) [1%nat; 2%nat].
Proof.
  repeat constructor; eexists; (split; [reflexivity|vm_compute; reflexivity]).
Qed.

Lemma two_timers_wheel ok :
  (forall r, ok r (Z.max 0 (to_ms r))) ->
  exists w, mfor (insert_event two_timers) [1%nat; 2%nat] (Wheel_new 0) = (Done tt, w) /\
    winv ok two_timers w /\ stored w ≡ₚ [1%nat; 2%nat] /\ now_ w = 0 /\ tick w = 0.
Proof.
  intros Hins.
  destruct (mfor_insert_inv ok Hins (fun _ _ => False) two_timers [1%nat; 2%nat] (Wheel_new 0))
    as (w & Hrun & Hinv & Hst & Hsc); [apply winv_Wheel_new|apply two_timers_fit|].
  exists w. split_and!; [done|done| |apply Hsc|].
  - rewrite Hst. vm_compute. done.
  - rewrite (same_clock_tick _ _ Hsc). by vm_compute.
Qed.

Lemma insert_event_correct_witness :
  exists L s, insert_event two_timers 2%nat (Wheel_new 0) =
    (Done tt, Wheel_push L s 2%nat (Wheel_new 0)) /\ located 0 70 L s.
Proof.
  pose proof (insert_event_correct late_ok two_timers 2%nat (mkTimeExtra 70000) (Wheel_new 0)
    to_ms_lt (winv_Wheel_new late_ok two_timers 0) eq_refl) as H.
  cbv zeta in H. rewrite decide_True in H by (vm_compute; reflexivity).
  destruct H as (L & s & Hrun & Hloc & _). exists L, s. split; [exact Hrun|].
  replace (tick (Wheel_new 0)) with 0 in Hloc by (vm_compute; reflexivity). exact Hloc.
Defined.

Lemma time_select_never_early_witness :
  exists w w' out, mfor (insert_event two_timers) [1%nat; 2%nat] (Wheel_new 0) = (Done tt, w) /\
    TimeRegistryImpl_select 5500 2 (w, two_timers, []) =
      (Done (Value tt), (w', two_timers, out)) /\ 2%nat ∉ out.
Proof.
  destruct (two_timers_wheel late_ok to_ms_lt) as (w & Hw & Hinv & Hst & Hn & Ht).
  destruct (time_select_never_early two_timers w 5500 2 [] Hinv
    ltac:(intros _; rewrite Ht, Hn; vm_compute; reflexivity)) as (w' & out & Hrun & _ & _ & _ & Hd).
  exists w, w', out. split; [exact Hw|]. split; [exact Hrun|].
  intros Hin. rewrite Forall_forall in Hd. destruct (Hd _ Hin) as (x & Hx & Hlt).
  injection Hx as <-. vm_compute in Hlt. discriminate.
Defined.

Lemma expire_out_of_range_witness :
  (expire ∅ (777600000 * ticks_per_ms) (Wheel_new 0, [])).1 = Thrown OutOfRange.
Proof.
  rewrite (expire_out_of_range ∅ (Wheel_new 0) (777600000 * ticks_per_ms) [] (wf_Wheel_new 0));
    [reflexivity|vm_compute; reflexivity|vm_compute; discriminate|vm_compute; reflexivity].
Defined.

(** The second timer stays put while the clock passes its time in steps of half
    a millisecond. *)
Definition far_wheel : Wheel := (insert_event two_timers 2%nat (Wheel_new 0)).2.

Lemma far_wheel_wf : wf_wheel far_wheel.
Proof. split; [reflexivity|]. vm_compute. repeat constructor. Qed.

Fixpoint half_steps (n : nat) (t : Z) : list Z :=
  match n with O => [] | S n => (t + 500) :: half_steps n (t + 500) end.

Lemma half_steps_sub n t : submillisecond t (half_steps n t).
Proof.
  revert t. induction n as [|n IH]; intros t; constructor; [unfold ticks_per_ms; lia|apply IH].
Qed.

Lemma submillisecond_polls_stall_witness :
  (mfor (expire two_timers) (half_steps 200 0) (far_wheel, [])).2.2 = [] /\
  List.last (half_steps 200 0) 0 = 100 * ticks_per_ms.
Proof.
  split; [|vm_compute; reflexivity].
  rewrite (submillisecond_polls_stall two_timers (half_steps 200 0) far_wheel Level_new []
    far_wheel_wf ltac:(vm_compute; reflexivity) ltac:(vm_compute; reflexivity)
    ltac:(vm_compute; reflexivity) (half_steps_sub 200 0)). reflexivity.
Defined.

(** ** A sleeping future *)

(** Future 7 is awaited by coroutine 3; its event is 1; thread 0 drives the
    wheel at address 100. *)
Definition sleeper : FutureObj nat := mkFuture true None None None (Some 3%nat) None false.

Definition sleep_world : World Wheel nat :=
  mkWorld (mkHeap (<[7%nat := sleeper]> ∅) ∅)
    (SleepFuture_new 1%nat 50 ∅).2 [] (mkWorker false []) ∅
    (mkDriver [] (<[0%nat := [(TimeRegistry_hash, 100%nat)]]> ∅))
    (<[100%nat := Wheel_new 0]> ∅) ∅ 0 None.

Lemma stored_new now : stored (Wheel_new now) = [].
Proof. vm_compute. reflexivity. Qed.

Lemma sleep_world_timed : timed 0 100 0 sleep_world (Wheel_new 0).
Proof.
  constructor; [reflexivity|reflexivity|reflexivity|apply winv_Wheel_new|rewrite stored_new; constructor|].
  intros e. rewrite stored_new. by intros ?%elem_of_nil.
Qed.


(** ** A poll of the driver *)

(** Event 1 is bound to future 7 and expires after 5 milliseconds. *)
Definition bound_timer : EventStore :=
  <[1%nat := mkEvent (Some 7%nat) (Some (ETime (mkTimeExtra (5 * ticks_per_ms))))]> ∅.

Definition poll_world (wheel : Wheel) : World Wheel nat :=
  mkWorld (mkHeap (<[7%nat := sleeper]> ∅) ∅) bound_timer [] (mkWorker false []) ∅
    (mkDriver [] (<[0%nat := [(TimeRegistry_hash, 100%nat)]]> ∅))
    (<[100%nat := wheel]> ∅) ∅ 0 None.

Lemma poll_world_pollable :
  exists wheel, insert_event bound_timer 1%nat (Wheel_new 0) = (Done tt, wheel) /\
    stored wheel ≡ₚ [1%nat] /\
    pollable (fun _ => 6 * ticks_per_ms) (poll_world wheel) [100%nat].
Proof.
  destruct (insert_event_inv late_ok to_ms_lt (fun _ _ => False) bound_timer 1%nat (Wheel_new 0))
    as (wheel & Hrun & Hinv & Hst & Hsc).
  { apply winv_Wheel_new. }
  { eexists. split; [reflexivity|vm_compute; reflexivity]. }
  rewrite stored_new in Hst. exists wheel. split_and!; [done|done|].
  constructor.
  - apply NoDup_singleton.
  - intros a ->%list_elem_of_singleton. exists wheel. split; [reflexivity|]. split; [exact Hinv|].
    intros _. rewrite (proj1 Hsc), (same_clock_tick _ _ Hsc). vm_compute. reflexivity.
  - cbn. rewrite app_nil_r, Hst. apply NoDup_singleton.
  - intros e. cbn. rewrite app_nil_r, Hst. intros ->%list_elem_of_singleton. by eexists.
Qed.

Lemma poll_wakes_selected_witness :
  exists wheel w' (woken : list nat), insert_event bound_timer 1%nat (Wheel_new 0) = (Done tt, wheel) /\
    Driver_poll (fun _ => 6 * ticks_per_ms) 0%nat (poll_world wheel) = (Done tt, w') /\
    [1%nat] ≡ₚ woken ++ held w' 100 /\ length (fifo (w_handles_ w')) = length woken.
Proof.
  destruct poll_world_pollable as (wheel & Hins & Hst & Hp).
  destruct (poll_wakes_selected (fun _ => 6 * ticks_per_ms) 0%nat [(TimeRegistry_hash, 100%nat)]
    (poll_world wheel) eq_refl Hp) as (w' & woken & xs & Hrun & _ & Hperm & Hxs & Hq & _).
  exists wheel, w', woken. split; [exact Hins|]. split; [exact Hrun|]. cbn in Hperm.
  rewrite !app_nil_r in Hperm. split; [by rewrite <- Hst|].
  rewrite Hq. cbn. apply mapM_Some in Hxs. symmetry. by eapply Forall2_length.
Defined.

Lemma wake_appends_in_order_witness :
  exists w', RuntimeCore_wake [1%nat] (poll_world (Wheel_new 0)) = (Done [], w') /\
    fifo (w_handles_ w') = [(Some 3%nat, Some 7%nat)] /\ future_of (w_events w') 1%nat = None.
Proof.
  destruct (wake_appends_in_order [1%nat] [(Some 3%nat, Some 7%nat)] (poll_world (Wheel_new 0))
    ltac:(apply NoDup_singleton) eq_refl) as (w' & Hrun & Hq & Hf & _).
  exists w'. split; [exact Hrun|]. split; [exact Hq|]. rewrite Hf. reflexivity.
Defined.

(** ** Registries of two threads *)

Definition two_initializers : list (Initializer Wheel) :=
  [mkInitializer 1 true (Wheel_new 0); mkInitializer 2 false (Wheel_new 0)].

Definition fresh_world : World Wheel nat :=
  mkWorld (mkHeap ∅ ∅) ∅ [] (mkWorker false []) ∅ (mkDriver two_initializers ∅) ∅ ∅ 0 None.

Definition world_1 : World Wheel nat := (Driver_add_thread 1 10 fresh_world).2.
Definition world_2 : World Wheel nat := (Driver_add_thread 2 20 world_1).2.

Lemma threads_share_global_registries_witness :
  exists r1 r2, registry_of 1 1 world_2 = Some r1 /\ registry_of 2 1 world_2 = Some r2 /\ r1 = r2.
Proof.
  destruct (threads_share_global_registries 1 2 10 20 fresh_world world_1 world_2
    ltac:(cbn; apply NoDup_cons; split; [set_solver|apply NoDup_singleton]) ltac:(done)
    ltac:(cbn; lia) ltac:(vm_compute; reflexivity) ltac:(vm_compute; reflexivity)
    (mkInitializer 1 true (Wheel_new 0)) ltac:(by left)) as (r1 & r2 & H1 & H2 & Hiff).
  exists r1, r2. split; [exact H1|]. split; [exact H2|]. by apply Hiff.
Defined.
