(* ===== verification/Worker.v ===== *)
(** The worker loop, [block_on] and the builder: [src/runtime/core.cc],
    [include/xyco/runtime/runtime.ccm], [src/runtime/runtime.cc].

    Here a worker runs alone, as the thread of [block_on] does when the runtime
    has no worker threads; [Scheduler.v] has the interleavings of many. *)
From stdpp Require Import base gmap list.
From Stdlib Require Import Lia ZArith.
From S2P Require Import Prelude Errors Events Futures Core Driver.

(** The worker that runs: [in_place_worker_] or the one of a thread. *)
Inductive WorkerRef : Type := InPlace (t : tid) | Threaded (t : tid).

Definition thread_of (me : WorkerRef) : tid :=
  match me with InPlace t => t | Threaded t => t end.

(** The queue [resume] serves. *)
Inductive QueueRef : Type := LocalQueue | GlobalQueue.

(** [handles.back()] and [handles.pop_back()]. *)
Fixpoint unsnoc {A} (l : list A) : option (list A * A) :=
  match l with
  | [] => None
  | x :: l' => match unsnoc l' with
               | None => Some ([], x)
               | Some (r, y) => Some (x :: r, y)
               end
  end.

Section Worker.
Context {R V Env : Type} `{Registry R Env}.
Implicit Types (w : World R V).

(** The user's code: the virtual [poll] of the future objects and
    [coroutine_handle::resume]. *)
Variable poll : fid -> option hid -> M (World R V) (Poll V).
Variable resume_coroutine : hid -> M (World R V) unit.

Definition worker_of (me : WorkerRef) w : option Worker :=
  match me with InPlace _ => Some (in_place_worker_ w) | Threaded t => workers_ w !! t end.

Definition set_worker (me : WorkerRef) (k : Worker) w : World R V :=
  match me with
  | InPlace _ => set_in_place k w
  | Threaded t => set_workers (<[t := k]> (workers_ w)) w
  end.

Definition queue_of (me : WorkerRef) (q : QueueRef) w : option (list Entry) :=
  match q with
  | LocalQueue => wk_handles_ <$> worker_of me w
  | GlobalQueue => Some (w_handles_ w)
  end.

Definition set_queue (me : WorkerRef) (q : QueueRef) (l : list Entry) w : World R V :=
  match q with
  | LocalQueue =>
      match worker_of me w with
      | Some k => set_worker me (mkWorker (suspend_flag_ k) l) w
      | None => w
      end
  | GlobalQueue => set_handles l w
  end.

(** [Worker::suspend]. *)
Definition Worker_suspend (me : WorkerRef) : M (World R V) unit :=
  let! w := get in
  let! k := deref (worker_of me w) in
  put (set_worker me (mkWorker true (wk_handles_ k)) w).

(** [handle.resume()]. *)
Definition resume_handle (h : option hid) : M (World R V) unit :=
  let! c := deref h in resume_coroutine c.

(** [if (future == nullptr || future->poll_wrapper()) handle.resume();] *)
Definition run_entry (x : Entry) : M (World R V) unit :=
  match x.2 with
  | None => resume_handle x.1
  | Some f =>
      let! b := Future_poll_wrapper w_heap set_heap poll f in
      if b then resume_handle x.1 else ret tt
  end.

(** The lambda [resume] of [run_loop_once], the lock acquired; the result is
    [false] when [fuel] entries were not enough. *)
Fixpoint resume_queue (fuel : nat) (me : WorkerRef) (q : QueueRef)
    : M (World R V) bool :=
  let! w := get in
  let! k := deref (worker_of me w) in
  let! handles := deref (queue_of me q w) in
  if suspend_flag_ k then ret true
  else match unsnoc handles with
       | None => ret true
       | Some (rest, x) =>
           match fuel with
           | O => ret false
           | S fuel =>
               put (set_queue me q rest w) ;;;
               run_entry x ;;;
               resume_queue fuel me q
           end
       end.

Definition is_suspended (me : WorkerRef) : M (World R V) bool :=
  let! w := get in
  let! k := deref (worker_of me w) in
  ret (suspend_flag_ k).

(** [Worker::run_loop_once]; [env] is what the registries read. *)
Definition Worker_run_loop_once (fuel : nat) (env : nat -> Env) (me : WorkerRef)
    : M (World R V) bool :=
  let! b := resume_queue fuel me LocalQueue in
  if negb b then ret false
  else
    let! e := is_suspended me in
    if e then ret true
    else
      let! b := resume_queue fuel me GlobalQueue in
      if negb b then ret false
      else
        let! e := is_suspended me in
        if e then ret true
        else Driver_poll env (thread_of me) ;;; ret true.

(** [Worker::run_in_place]: one element of [envs] per turn of the loop; the
    result is [false] when the loop has not ended with the last. *)
Fixpoint Worker_run_in_place (fuel : nat) (envs : list (nat -> Env)) (me : WorkerRef)
    : M (World R V) bool :=
  let! w := get in
  let! k := deref (worker_of me w) in
  if suspend_flag_ k then
    put (set_worker me (mkWorker false (wk_handles_ k)) w) ;;; ret true
  else match envs with
       | [] => ret false
       | env :: envs' =>
           let! b := Worker_run_loop_once fuel env me in
           if b then Worker_run_in_place fuel envs' me else ret false
       end.

(** [Runtime::block_on] on thread [t]: [c] and [fw] are the frame and the
    wrapper of [spawn_impl], [result] reads the [std::optional] the lambda
    captures. *)
Definition Runtime_block_on {A} (fuel : nat) (envs : list (nat -> Env)) (t : tid)
    (c : hid) (fw : fid) (result : World R V -> option A) : M (World R V) (option A) :=
  RuntimeCore_spawn_impl c fw ;;;
  let! b := Worker_run_in_place fuel envs (InPlace t) in
  if b then let! w := get in let! v := deref (result w) in ret (Some v)
  else ret None.
End Worker.

(** [Builder]. *)
Record Builder (R : Type) : Type := mkBuilder {
  b_worker_num_ : Z;
  b_registry_initializers_ : list (Initializer R);
}.
Arguments mkBuilder {R}.
Arguments b_worker_num_ {R}.
Arguments b_registry_initializers_ {R}.

Definition Builder_new_multi_thread {R} : Builder R := mkBuilder 0 [].
Definition Builder_worker_threads {R} (val : Z) (b : Builder R) : Builder R :=
  mkBuilder (to_uint16 val) (b_registry_initializers_ b).
Definition Builder_registry {R} (i : Initializer R) (b : Builder R) : Builder R :=
  mkBuilder (b_worker_num_ b) (b_registry_initializers_ b ++ [i]).

(** The loop of [RuntimeCore::RuntimeCore] over the worker threads [ts], each of which
    runs [init_in_thread], with registries at addresses from [a] on. *)
Fixpoint init_workers {R V} (ts : list tid) (a : nat) : M (World R V) unit :=
  match ts with
  | [] => ret tt
  | t :: ts' =>
      let! w := get in
      put (set_workers (<[t := mkWorker false []]> (workers_ w)) w) ;;;
      Driver_add_thread t a ;;;
      init_workers ts' (a + length (registry_initializers_ (driver_ w)))
  end.

(** [RuntimeCore::RuntimeCore] in the memory [w]: the in-place worker's
    [init_in_thread] on the building thread [t], then each worker's. *)
Definition RuntimeCore_new {R V} (registry_initializers : list (Initializer R)) (worker_num : Z)
    (t : tid) (ts : list tid) (a : nat) : M (World R V) unit :=
  let! w := get in
  put (mkWorld (w_heap w) (w_events w) [] (mkWorker false []) ∅
         (mkDriver registry_initializers ∅) (w_registries w)
         (per_runtime_registry_ w) (core_addr w) (w_result w)) ;;;
  Driver_add_thread t a ;;;
  init_workers (take (Z.to_nat worker_num) ts) (a + length registry_initializers).

(** [Runtime::Runtime]. *)
Definition Runtime_new {R V} := @RuntimeCore_new R V.

(** [Builder::build]. *)
Definition Builder_build {R V} (b : Builder R) (t : tid) (ts : list tid) (a : nat)
    : M (World R V) (Expected unit unit) :=
  Runtime_new (b_registry_initializers_ b) (b_worker_num_ b) t ts a ;;;
  ret (Value tt).
