(* ===== verification/WorkerSpec.v ===== *)
(** What the worker loop does: the queue is drained in order, the loop ends when
    and only when the worker is suspended, [block_on] returns the result. *)
From stdpp Require Import base gmap list.
From Stdlib Require Import Lia ZArith.
From S2P Require Import Prelude Errors Events Futures Core Driver Worker.

Lemma unsnoc_snoc {A} (l : list A) x : unsnoc (l ++ [x]) = Some (l, x).
Proof. induction l as [|y l IH]; cbn; [done|]. by rewrite IH. Qed.

Lemma unsnoc_spec {A} (l : list A) :
  match unsnoc l with None => l = [] | Some (r, x) => l = r ++ [x] end.
Proof.
  induction l as [|y l IH]; cbn; [done|]. destruct (unsnoc l) as [[r x]|]; by subst.
Qed.

Section WorkerSpec.
Context {R V Env : Type} `{Registry R Env}.
Variable poll : fid -> option hid -> M (World R V) (Poll V).
Variable resume_coroutine : hid -> M (World R V) unit.
Implicit Types (w : World R V) (me : WorkerRef).

#[local] Abbreviation run := (run_entry poll resume_coroutine).
#[local] Abbreviation drain := (resume_queue poll resume_coroutine).
#[local] Abbreviation loop_once := (Worker_run_loop_once poll resume_coroutine).
#[local] Abbreviation in_place := (Worker_run_in_place poll resume_coroutine).

Definition flag me w : option bool := suspend_flag_ <$> worker_of me w.

(** One turn of the loop of [resume] on the runtime's queue. *)
Lemma drain_step fuel me w l x :
  flag me w = Some false -> w_handles_ w = l ++ [x] ->
  drain (S fuel) me GlobalQueue w =
    bind (run x) (fun _ => drain fuel me GlobalQueue) (set_handles l w).
Proof.
  intros Hf Hq. unfold flag in Hf. cbn [resume_queue]. mred. unfold queue_of.
  destruct (worker_of me w) as [k|]; [|done]. injection Hf as Hf. rewrite Hf, Hq, unsnoc_snoc.
  done.
Qed.

Lemma drain_stops fuel me q w l :
  queue_of me q w = Some l -> (flag me w = Some true \/ (flag me w = Some false /\ l = [])) ->
  drain fuel me q w = (Done true, w).
Proof.
  unfold flag. intros Hq Hf. destruct fuel; cbn [resume_queue]; mred.
  all: destruct (worker_of me w) as [k|]; [|naive_solver]; cbn in Hf; rewrite Hq.
  all: destruct Hf as [[= ->]|[[= ->] ->]]; done.
Qed.

(** [resume] terminates: if every entry of the queue, when it runs, returns and
    queues work of the same kind and of a smaller total cost than its own, then
    as many turns as the cost of the queue are enough, and when the loop ends
    the queue is empty or the worker is suspended. *)
Theorem resume_queue_terminates (P : Entry -> Prop) (cost : Entry -> nat) me fuel w
    (Hk : is_Some (worker_of me w))
    (Hrun : forall x w, P x -> is_Some (worker_of me w) -> exists w' new,
       run x w = (Done tt, w') /\ w_handles_ w' = new ++ w_handles_ w /\ Forall P new /\
       sum_list_with cost new < cost x /\ is_Some (worker_of me w'))
    (HP : Forall P (w_handles_ w))
    (Hfuel : sum_list_with cost (w_handles_ w) <= fuel) :
  exists w', drain fuel me GlobalQueue w = (Done true, w') /\
    (w_handles_ w' = [] \/ flag me w' = Some true).
Proof.
  revert w Hk HP Hfuel. induction fuel as [|fuel IH]; intros w Hk HP Hfuel.
  - assert (w_handles_ w = []) as Hq.
    { destruct (w_handles_ w) as [|x l]; [done|]. cbn in Hfuel. apply Forall_cons in HP as [Hx _].
      destruct (Hrun x w Hx Hk) as (? & ? & _ & _ & _ & ? & _). lia. }
    exists w. rewrite (drain_stops 0 me GlobalQueue w []); [by auto|by rewrite <- Hq|].
    unfold flag. destruct Hk as [k ->]. cbn. destruct (suspend_flag_ k); auto.
  - destruct Hk as [k Hk]. pose proof (unsnoc_spec (w_handles_ w)) as Hu.
    destruct (suspend_flag_ k) eqn:Hf.
    { exists w. rewrite (drain_stops _ me GlobalQueue w (w_handles_ w)); unfold flag;
        rewrite ?Hk; cbn; rewrite ?Hf; auto. }
    destruct (unsnoc (w_handles_ w)) as [[l x]|].
    2:{ exists w. rewrite (drain_stops _ me GlobalQueue w []); unfold flag;
          rewrite ?Hk; cbn; rewrite ?Hf; rewrite ?Hu; auto. }
    rewrite (drain_step fuel me w l x) by (done || (unfold flag; by rewrite Hk; cbn; rewrite Hf)).
    rewrite Hu in HP. apply Forall_app in HP as [HPl HPx]. apply Forall_cons in HPx as [HPx _].
    destruct (Hrun x (set_handles l w) HPx) as (w1 & new & Hr & Hq1 & HPn & Hc & Hk1).
    { exists k. by destruct me. }
    rewrite (bind_done _ _ _ _ _ Hr). apply IH; [done| |]; rewrite Hq1; cbn.
    + by apply Forall_app.
    + rewrite Hu in Hfuel. rewrite sum_list_with_app in *. cbn in Hfuel. lia.
Qed.

(** ** The end of the loop *)

(** [run_in_place] returns as soon as the worker is suspended, clears the
    flag for the next call and runs nothing more. *)
Theorem run_in_place_stops fuel envs me w k
    (Hk : worker_of me w = Some k) (Hs : suspend_flag_ k = true) :
  exists w', in_place fuel envs me w = (Done true, w') /\
    w' = set_worker me (mkWorker false (wk_handles_ k)) w /\
    flag me w' = Some false.
Proof.
  exists (set_worker me (mkWorker false (wk_handles_ k)) w). split_and!; [|done|].
  - destruct envs; cbn [Worker_run_in_place]; mred; rewrite Hk, Hs; done.
  - unfold flag. destruct me as [t|t]; cbn; [done|]. by rewrite lookup_insert_eq.
Qed.

(** The in-place worker's flag is only written by [suspend]. *)
Definition keeps_flag {A} (m : M (World R V) A) : Prop :=
  forall w, suspend_flag_ (in_place_worker_ w) = false ->
    suspend_flag_ (in_place_worker_ (m w).2) = false.

Lemma keeps_ret {A} (a : A) : keeps_flag (ret a).
Proof. intros w Hw. exact Hw. Qed.
Lemma keeps_undef {A} : keeps_flag (undef (A := A)).
Proof. intros w Hw. exact Hw. Qed.
Lemma keeps_get : keeps_flag get.
Proof. intros w Hw. exact Hw. Qed.
Lemma keeps_deref {A} (o : option A) : keeps_flag (deref o).
Proof. destruct o; intros w Hw; exact Hw. Qed.
Lemma keeps_bind {A B} (m : M (World R V) A) (k : A -> M (World R V) B) :
  keeps_flag m -> (forall a, keeps_flag (k a)) -> keeps_flag (bind m k).
Proof.
  intros Hm Hk w Hw. specialize (Hm w Hw). unfold bind.
  destruct (m w) as [[a|e|] w']; [|done..]. by apply Hk.
Qed.
Lemma keeps_in_heap {A} (m : M (Heap V) A) : keeps_flag (in_heap m).
Proof. intros w Hw. unfold in_heap, zoom. by destruct (m (w_heap w)). Qed.
Lemma keeps_mfor {A} (f : A -> M (World R V) unit) l :
  (forall a, keeps_flag (f a)) -> keeps_flag (mfor f l).
Proof. intros Hf. induction l; [apply keeps_ret|]. by apply keeps_bind. Qed.
Lemma keeps_deref_expected {E A} (r : Expected E A) : keeps_flag (deref_expected r).
Proof. destruct r; intros w Hw; exact Hw. Qed.
Lemma keeps_on_registry {A} a (m : M (R * EventStore) A) : keeps_flag (on_registry a m).
Proof.
  intros w Hw. unfold on_registry. destruct (w_registries w !! a); [|done].
  by destruct (m _) as [o [r' es']].
Qed.
Lemma keeps_pair {A B C} (m : M (World R V) (A * B)) (k : A -> B -> M (World R V) C) :
  keeps_flag m -> (forall a b, keeps_flag (k a b)) ->
  keeps_flag (bind m (fun p => let (x, y) := p in k x y)).
Proof. intros ? ?. apply keeps_bind; [done|]. by intros []. Qed.

(** Decomposes a program into operations that keep the flag. *)
Ltac keeps :=
  repeat first
    [ apply keeps_ret | apply keeps_get | apply keeps_deref | apply keeps_in_heap
    | apply keeps_on_registry | apply keeps_deref_expected
    | match goal with
      | |- forall _, _ => intro
      | H : context [keeps_flag] |- _ => apply H
      | |- keeps_flag (bind _ (fun p => let (x, y) := p in _)) => apply keeps_pair
      | |- keeps_flag (bind _ _) => apply keeps_bind
      | |- keeps_flag (if ?b then _ else _) => destruct b
      | |- keeps_flag (match ?p with _ => _ end) => destruct p
      end ].

Lemma keeps_wake l : keeps_flag (RuntimeCore_wake l).
Proof.
  unfold RuntimeCore_wake. keeps. apply keeps_mfor. intros e w Hw.
  unfold wake_event, push_handle, in_heap. mred.
  destruct (w_events w !! e) as [ev|]; [|done]. destruct (future_ ev) as [f|]; [|done].
  by destruct (Future_get_handle _ _) as [[] ?].
Qed.

Lemma keeps_poll_loop env l evs : keeps_flag (Driver_poll_loop env l evs).
Proof.
  revert evs. induction l as [|[h a] l IH]; intros evs; cbn [Driver_poll_loop]; [keeps|].
  unfold Driver_select. keeps. apply keeps_wake.
Qed.

Lemma keeps_Driver_poll env t : keeps_flag (Driver_poll env t).
Proof. unfold Driver_poll. keeps. apply keeps_poll_loop. Qed.

Lemma keeps_poll_wrapper f :
  (forall f h, keeps_flag (poll f h)) -> keeps_flag (Future_poll_wrapper w_heap set_heap poll f).
Proof.
  intros Hp w Hw. unfold Future_poll_wrapper, try_catch.
  set (m := bind _ _). assert (keeps_flag m) as Hm by (unfold m; keeps; apply keeps_in_heap).
  specialize (Hm w Hw). destruct (m w) as [[b|e|] w1]; [done| |done].
  apply (keeps_bind (in_heap _)); [apply keeps_in_heap|keeps|done].
Qed.

Lemma keeps_drain fuel t q :
  (forall x, keeps_flag (run x)) -> keeps_flag (drain fuel (InPlace t) q).
Proof.
  intros Hrun. induction fuel as [|fuel IH]; intros w Hw; cbn [resume_queue]; mred;
    cbn [worker_of]; rewrite Hw.
  all: destruct (queue_of (InPlace t) q w) as [l|]; [|done]; cbn; rewrite ?Hw;
    destruct (unsnoc l) as [[rest x]|]; try done.
  assert (suspend_flag_ (in_place_worker_ (set_queue (InPlace t) q rest w)) = false) as Hw1
    by (by destruct q).
  pose proof (Hrun x _ Hw1) as Hw2. destruct (run x _) as [[[]|e|] w2]; [|done..]. by apply IH.
Qed.

Lemma keeps_loop_once fuel env t :
  (forall q, keeps_flag (drain fuel (InPlace t) q)) ->
  keeps_flag (loop_once fuel env (InPlace t)).
Proof.
  intros Hd. unfold Worker_run_loop_once, is_suspended. keeps. apply keeps_Driver_poll.
Qed.

(** Only [suspend] ends [run_in_place]: while no coroutine and no [poll]
    suspends the in-place worker, the loop never returns, however long it
    runs and whatever the registries deliver. *)
Theorem run_in_place_needs_suspend fuel envs t w
    (Hpoll : forall f h, keeps_flag (poll f h))
    (Hres : forall c, keeps_flag (resume_coroutine c))
    (Hw : suspend_flag_ (in_place_worker_ w) = false) :
  forall w', in_place fuel envs (InPlace t) w <> (Done true, w').
Proof.
  assert (forall x, keeps_flag (run x)) as Hrun.
  { intros [h [f|]]; unfold run_entry, resume_handle; cbn [fst snd]; keeps.
    by apply keeps_poll_wrapper. }
  assert (forall q, keeps_flag (drain fuel (InPlace t) q)) as Hdrain
    by (intros; by apply keeps_drain).
  revert w Hw. induction envs as [|env envs IH]; intros w Hw w';
    cbn [Worker_run_in_place]; mred; cbn [worker_of]; rewrite Hw; [done|].
  assert (keeps_flag (loop_once fuel env (InPlace t))) as Hloop by (by apply keeps_loop_once).
  specialize (Hloop w Hw). destruct (loop_once fuel env (InPlace t) w) as [[[]|e|] w1]; [|done..].
  by apply IH.
Qed.

(** An entry that returns and leaves the queue and the worker as they are. *)
Definition quiet (x : Entry) : Prop :=
  forall w, exists w', run x w = (Done tt, w') /\ w_handles_ w' = w_handles_ w /\
    in_place_worker_ w' = in_place_worker_ w.

Lemma drain_quiet t x0 l fuel w :
  Forall quiet l -> w_handles_ w = x0 :: l -> suspend_flag_ (in_place_worker_ w) = false ->
  exists w', drain (length l + fuel) (InPlace t) GlobalQueue w =
      drain fuel (InPlace t) GlobalQueue w' /\
    w_handles_ w' = [x0] /\ in_place_worker_ w' = in_place_worker_ w.
Proof.
  revert w. induction l as [|x l IH] using rev_ind; intros w Hl Hq Hf; [by exists w|].
  apply Forall_app in Hl as [Hl Hx]. apply Forall_cons in Hx as [Hx _].
  destruct (Hx (set_handles (x0 :: l) w)) as (w1 & Hr & Hq1 & Hi1).
  destruct (IH w1 Hl) as (w' & Hd & Hq' & Hi'); [done|by rewrite Hi1|].
  exists w'. rewrite length_app. cbn [length]. replace (length l + 1 + fuel)
    with (S (length l + fuel)) by lia.
  rewrite (drain_step _ (InPlace t) w (x0 :: l) x).
  - rewrite (bind_done _ _ _ _ _ Hr). by rewrite Hi', Hi1.
  - unfold flag. cbn. by rewrite Hf.
  - done.
Qed.

(** [block_on] runs what is queued before it in order, then the blocking
    coroutine; when that coroutine stores the result and suspends the
    worker, the call returns the stored result and leaves the worker ready
    for another call. *)
Theorem block_on_returns {A} (result : World R V -> option A) (v : A) c fw w t fuel env envs
    (Hc : frames (w_heap w) !! c = None)
    (Hwk : in_place_worker_ w = mkWorker false [])
    (Hquiet : Forall quiet (w_handles_ w))
    (Hbody : forall w, exists w', resume_coroutine c w = (Done tt, w') /\
       result w' = Some v /\ in_place_worker_ w' = mkWorker true [])
    (Hres : forall k w, result (set_in_place k w) = result w)
    (Hfuel : length (w_handles_ w) < fuel) :
  exists w', Runtime_block_on poll resume_coroutine fuel (env :: envs) t c fw result w =
      (Done (Some v), w') /\ in_place_worker_ w' = mkWorker false [].
Proof.
  destruct (spawn_impl_queues_frame c fw w Hc) as (w1 & Hsp & Hq & _ & _ & _ & Hi).
  assert (w_handles_ w1 = (Some c, None) :: w_handles_ w) as Hq1.
  { apply (f_equal (@rev _)) in Hq. unfold fifo in Hq.
    by rewrite rev_app_distr, !rev_involutive in Hq. }
  rewrite Hwk in Hi. unfold Runtime_block_on. rewrite (bind_done _ _ _ _ _ Hsp).
  replace fuel with (length (w_handles_ w) + S (fuel - length (w_handles_ w) - 1)) by lia.
  set (n := fuel - length (w_handles_ w) - 1).
  destruct (drain_quiet t (Some c, None) (w_handles_ w) (S n) w1) as (w2 & Hd & Hq2 & Hi2);
    [done..|by rewrite Hi|].
  destruct (Hbody (set_handles [] w2)) as (w3 & Hrun & Hv & Hi3).
  assert (drain (S n) (InPlace t) GlobalQueue w2 = (Done true, w3)) as Hlast.
  { rewrite (drain_step n (InPlace t) w2 [] (Some c, None)); [|by unfold flag; cbn; rewrite Hi2, Hi|done].
    rewrite (bind_done _ _ _ tt w3) by exact Hrun.
    apply (drain_stops n (InPlace t) GlobalQueue w3 (w_handles_ w3)); [done|].
    left. unfold flag. cbn. by rewrite Hi3. }
  rewrite (bind_done _ _ _ true (set_in_place (mkWorker false []) w3)).
  - mred. rewrite Hres, Hv. by eexists.
  - cbn [Worker_run_in_place]. mred. cbn [worker_of]. rewrite Hi. cbn [suspend_flag_].
    unfold Worker_run_loop_once at 1.
    rewrite (bind_done _ _ _ true w1).
    2:{ apply (drain_stops _ (InPlace t) LocalQueue w1 []); [by cbn; rewrite Hi|].
        right. unfold flag. cbn. by rewrite Hi. }
    unfold is_suspended. mred. cbn [worker_of negb]. rewrite Hi. cbn [suspend_flag_].
    rewrite Hd, Hlast. cbn [negb]. rewrite Hi3. cbn [suspend_flag_].
    destruct envs; cbn [Worker_run_in_place]; mred; cbn [worker_of]; by rewrite Hi3.
Qed.
End WorkerSpec.
