(* ===== verification/Build.v ===== *)
(** Building a runtime: what [Builder::build] and [RuntimeCore::RuntimeCore] make of the
    registered initializers, thread by thread. *)
From stdpp Require Import base gmap list sets.
From Stdlib Require Import ZArith Lia.
From S2P Require Import Prelude Errors Events Futures Core Driver DriverSpec Worker.

Section Build.
Context {R V : Type}.
Implicit Types (w : World R V) (i : Initializer R) (l : list (Initializer R)).

(** Nothing but the driver and the registries differs. *)
Definition same_core w w' : Prop :=
  w_heap w' = w_heap w /\ w_events w' = w_events w /\ w_handles_ w' = w_handles_ w /\
  in_place_worker_ w' = in_place_worker_ w /\ core_addr w' = core_addr w /\
  registry_initializers_ (driver_ w') = registry_initializers_ (driver_ w).

Lemma same_core_trans w1 w2 w3 : same_core w1 w2 -> same_core w2 w3 -> same_core w1 w3.
Proof. intros (?&?&?&?&?&?) (?&?&?&?&?&?). split_and!; congruence. Qed.

(** Where thread [t]'s instances are, its initializers allocating from [a] on. *)
Definition instances w (a : nat) l : list (nat * nat) :=
  imap (fun n i => (init_hash i, instance_of w (a + n) i)) l.

(** The effect of the initializers [l] on thread [t], at addresses from [a] on. *)
Record registered (t : tid) (a : nat) l w w' : Prop := {
  rg_core : same_core w w';
  rg_workers : workers_ w' = workers_ w;
  rg_local : local_registries_ (driver_ w') =
    <[t := default [] (local_registries_ (driver_ w) !! t) ++ instances w a l]>
      (local_registries_ (driver_ w));
  (** a registry is made for a thread-local initializer, and for a global one that is
      not in the static map yet *)
  rg_made : forall n i, l !! n = Some i ->
    (init_global i = true -> per_runtime_registry_ w !! (init_hash i, core_addr w) = None) ->
    w_registries w' !! (a + n) = Some (init_registry i);
  rg_kept : forall b, b < a \/ a + length l <= b -> w_registries w' !! b = w_registries w !! b;
  rg_static : forall n i, l !! n = Some i -> init_global i = true ->
    per_runtime_registry_ w' !! (init_hash i, core_addr w) = Some (instance_of w (a + n) i);
  rg_static_other : forall h c, h ∉ init_hash <$> l \/ c <> core_addr w ->
    per_runtime_registry_ w' !! (h, c) = per_runtime_registry_ w !! (h, c);
}.

Lemma assign_new {A} k (v : A) (l : list (nat * A)) : k ∉ l.*1 -> assign k v l = l ++ [(k, v)].
Proof.
  induction l as [|[k' v'] l IH]; cbn; [done|]. intros [Hne Hk]%not_elem_of_cons.
  rewrite decide_False by done. by rewrite IH.
Qed.

(** One initializer whose type the thread does not have yet. *)
Lemma add_registry_registered t a i w :
  init_hash i ∉ (default [] (local_registries_ (driver_ w) !! t)).*1 ->
  exists w', Driver_add_registry t a i w = (Done tt, w') /\ registered t a [i] w w'.
Proof.
  intros Hi. unfold Driver_add_registry, get_instance, ThreadLocalRegistry_get_instance,
    GlobalRegistry_get_instance, make_registry. mred.
  destruct (init_global i) eqn:Hg; [destruct (per_runtime_registry_ w !! _) as [a'|] eqn:Hs|].
  all: eexists; split; [done|]; constructor; cbn; try done.
  all: try (rewrite assign_new by done; unfold instances, instance_of; cbn; by rewrite Hg, ?Hs, ?Nat.add_0_r).
  all: try (intros b Hb; apply lookup_insert_ne; lia).
  all: try (intros [|[|n]] j [= <-]; unfold instance_of; rewrite ?Nat.add_0_r, ?Hg; try done; intros H;
    try specialize (H eq_refl); rewrite ?Hs; by try apply lookup_insert_eq; congruence).
  { intros [|[|n]] j [= <-] _. unfold instance_of. by rewrite Hg, Hs. }
  intros h c Hh. apply lookup_insert_ne. intros [= <- <-]. destruct Hh as [Hh|Hh]; [|done].
  apply Hh. by left.
Qed.

Lemma instances_hashes w a l : (instances w a l).*1 = init_hash <$> l.
Proof.
  unfold instances. revert a. induction l as [|i l IH]; intros a; [done|]. cbn. f_equal.
  rewrite <- (IH (S a)). f_equal. apply imap_ext. intros n j _. cbn. by rewrite Nat.add_succ_r.
Qed.

(** All initializers of a thread. *)
Lemma run_initializers_registered t l a w :
  NoDup (init_hash <$> l) ->
  (forall h, h ∈ (default [] (local_registries_ (driver_ w) !! t)).*1 -> h ∉ init_hash <$> l) ->
  is_Some (local_registries_ (driver_ w) !! t) ->
  exists w', run_initializers t a l w = (Done tt, w') /\ registered t a l w w'.
Proof.
  revert a w. induction l as [|i l IH]; intros a w Hnd Hnew Ht.
  { exists w. split; [done|]. constructor; try done. cbn. destruct Ht as [x Hx]. rewrite Hx. cbn.
    rewrite app_nil_r. by rewrite insert_id. }
  cbn in Hnd. apply NoDup_cons in Hnd as [Hi Hnd].
  destruct (add_registry_registered t a i w) as (w1 & Hrun & [B1 B2 B3 B4 B5 B6 B7]).
  { intros Hin. apply (Hnew _ Hin). by left. }
  assert (core_addr w1 = core_addr w) as Hca by apply B1.
  assert (forall j, j ∈ l -> init_hash j <> init_hash i) as Hlj.
  { intros j Hj E. apply Hi. rewrite <- E. by apply list_elem_of_fmap_2. }
  assert (forall j, j ∈ l -> per_runtime_registry_ w1 !! (init_hash j, core_addr w1) =
    per_runtime_registry_ w !! (init_hash j, core_addr w)) as Hst.
  { intros j Hj. rewrite Hca, B7; [done|]. left. cbn. intros E%list_elem_of_singleton.
    by apply (Hlj j Hj). }
  assert (forall b j, j ∈ l -> instance_of w1 b j = instance_of w b j) as Hins.
  { intros b j Hj. unfold instance_of. by rewrite Hst. }
  destruct (IH (S a) w1 Hnd) as (w' & Hrun' & [A1 A2 A3 A4 A5 A6 A7]).
  { rewrite B3, lookup_insert_eq. cbn. intros h. rewrite fmap_app. intros [Hh|Hh]%elem_of_app.
    - intros Hin. apply (Hnew _ Hh). by right.
    - cbn in Hh. apply list_elem_of_singleton in Hh as ->. done. }
  { rewrite B3, lookup_insert_eq. by eexists. }
  exists w'. split; [cbn [run_initializers]; by rewrite (bind_done _ _ _ _ _ Hrun)|].
  constructor.
  - by eapply same_core_trans.
  - congruence.
  - rewrite A3, B3, insert_insert_eq, lookup_insert_eq. cbn. f_equal. rewrite <- (assoc (++)). f_equal.
    unfold instances. cbn. f_equal. apply imap_ext. intros n j Hj. cbn.
    rewrite Hins by (by eapply list_elem_of_lookup_2). by rewrite Nat.add_succ_r.
  - intros [|n] j Hj Hg; cbn in Hj.
    + injection Hj as <-. rewrite A5 by lia. by apply B4.
    + replace (a + S n) with (S a + n) by lia. apply A4; [done|]. intros Hgl.
      rewrite Hst by (by eapply list_elem_of_lookup_2). by apply Hg.
  - intros b Hb. cbn in Hb. rewrite A5, B5; [done| |]; cbn; lia.
  - intros [|n] j Hj Hg; cbn in Hj.
    + injection Hj as <-. rewrite A7 by (by left). by apply (B6 0 i).
    + rewrite <- Hca, (A6 n j Hj Hg), Hins by (by eapply list_elem_of_lookup_2). do 2 f_equal. lia.
  - intros h c Hh. rewrite A7, B7; [done| |rewrite Hca]; cbn in *; set_solver.
Qed.

(** [Driver::add_thread]. *)
Lemma add_thread_registered t a w :
  NoDup (init_hash <$> registry_initializers_ (driver_ w)) ->
  exists w', Driver_add_thread t a w = (Done tt, w') /\
    same_core w w' /\ workers_ w' = workers_ w /\
    local_registries_ (driver_ w') = <[t := instances w a (registry_initializers_ (driver_ w))]>
      (local_registries_ (driver_ w)) /\
    (forall n i, registry_initializers_ (driver_ w) !! n = Some i ->
       (init_global i = true -> per_runtime_registry_ w !! (init_hash i, core_addr w) = None) ->
       w_registries w' !! (a + n) = Some (init_registry i)) /\
    (forall b, b < a \/ a + length (registry_initializers_ (driver_ w)) <= b ->
       w_registries w' !! b = w_registries w !! b) /\
    (forall n i, registry_initializers_ (driver_ w) !! n = Some i -> init_global i = true ->
       per_runtime_registry_ w' !! (init_hash i, core_addr w) = Some (instance_of w (a + n) i)).
Proof.
  intros Hnd. unfold Driver_add_thread. set (l := registry_initializers_ (driver_ w)).
  set (w0 := set_driver (mkDriver l (<[t := []]> (local_registries_ (driver_ w)))) w).
  rewrite (bind_done _ _ _ tt w0) by done. rewrite (bind_done _ _ _ w0 w0) by done.
  destruct (run_initializers_registered t l a w0) as (w' & Hrun & [A1 A2 A3 A4 A5 A6 A7]); [done| | |].
  { cbn. rewrite lookup_insert_eq. by intros h ?%not_elem_of_nil. }
  { cbn. rewrite lookup_insert_eq. by eexists. }
  exists w'. split; [exact Hrun|]. split_and!; try done.
  rewrite A3. cbn. by rewrite lookup_insert_eq, insert_insert_eq.
Qed.

(** ** The threads of a runtime *)

(** Where the [p]-th thread has its instance of the [n]-th initializer [i], of [num]. *)
Definition instance_address (a num p n : nat) i : nat :=
  if init_global i then a + n else a + p * num + n.
Definition thread_registries (a p : nat) l : list (nat * nat) :=
  imap (fun n i => (init_hash i, instance_address a (length l) p n i)) l.

(** The threads [us], in this order, have run [add_thread]. *)
Record built (a : nat) (us : list tid) l w : Prop := {
  bt_inits : registry_initializers_ (driver_ w) = l;
  bt_local : forall p u, us !! p = Some u ->
    local_registries_ (driver_ w) !! u = Some (thread_registries a p l);
  bt_others : forall u, u ∉ us -> local_registries_ (driver_ w) !! u = None;
  bt_registry : forall p n i, p < length us -> l !! n = Some i ->
    w_registries w !! instance_address a (length l) p n i = Some (init_registry i);
  bt_static : forall n i, l !! n = Some i -> init_global i = true ->
    per_runtime_registry_ w !! (init_hash i, core_addr w) =
      match us with [] => None | _ => Some (a + n) end;
}.

Lemma add_thread_built a us l u w :
  NoDup (init_hash <$> l) -> built a us l w -> u ∉ us ->
  exists w', Driver_add_thread u (a + length us * length l) w = (Done tt, w') /\
    built a (us ++ [u]) l w' /\ same_core w w' /\ workers_ w' = workers_ w.
Proof.
  intros Hnd [B1 B2 B3 B4 B5] Hu.
  destruct (add_thread_registered u (a + length us * length l) w)
    as (w' & Hrun & Hcore & Hwk & Hlocal & Hmade & Hkept & Hstat); [by rewrite B1|]. rewrite B1 in *.
  exists w'. split_and!; [done| |done|done].
  assert (forall n i, l !! n = Some i -> instance_of w (a + length us * length l + n) i =
    instance_address a (length l) (length us) n i) as Hins.
  { intros n i Hi. unfold instance_of, instance_address. destruct (init_global i) eqn:Hg; [|done].
    rewrite (B5 n i Hi Hg). destruct us; cbn; [lia|done]. }
  assert (core_addr w' = core_addr w) as Hca by apply Hcore.
  constructor.
  - destruct Hcore as (_&_&_&_&_&Hc). by rewrite Hc.
  - intros p u' Hp. rewrite Hlocal. apply lookup_app_Some in Hp as [Hp|[Hle Hp]].
    + rewrite lookup_insert_ne by (intros ->; apply Hu; by eapply list_elem_of_lookup_2). by apply B2.
    + destruct (p - length us) as [|] eqn:E; [|done]. injection Hp as <-. rewrite lookup_insert_eq.
      assert (p = length us) as -> by lia. f_equal. unfold instances, thread_registries.
      apply imap_ext. intros n i Hi. cbn. by rewrite Hins.
  - intros u' Hu'. rewrite Hlocal. rewrite lookup_insert_ne by (intros ->; set_solver). apply B3. set_solver.
  - intros p n i Hp Hi. rewrite length_app in Hp. cbn in Hp. pose proof (lookup_lt_Some _ _ _ Hi) as Hn.
    destruct (decide (p < length us)) as [Hlt|Hge].
    + rewrite Hkept; [by apply B4|]. left. unfold instance_address. destruct (init_global i); nia.
    + assert (p = length us) as -> by lia. destruct (init_global i) eqn:Hg.
      * unfold instance_address. rewrite Hg. destruct us as [|u0 us].
        -- cbn in *. replace (a + n) with (a + 0 + n) by lia. apply Hmade; [done|]. intros _. by apply (B5 n i).
        -- rewrite Hkept by (left; cbn; lia). pose proof (B4 0 n i ltac:(cbn; lia) Hi) as Hb.
           unfold instance_address in Hb. by rewrite Hg in Hb.
      * unfold instance_address. rewrite Hg. by apply Hmade; [|congruence].
  - intros n i Hi Hg. rewrite Hca, (Hstat n i Hi Hg), Hins by done. unfold instance_address. rewrite Hg.
    by destruct us.
Qed.

Lemma built_set_workers a us l ks w : built a us l w -> built a us l (set_workers ks w).
Proof. intros [B1 B2 B3 B4 B5]. by constructor. Qed.

Lemma init_workers_built a l ts us w :
  NoDup (init_hash <$> l) -> NoDup (us ++ ts) -> built a us l w ->
  exists w', init_workers ts (a + length us * length l) w = (Done tt, w') /\
    built a (us ++ ts) l w' /\ same_core w w' /\
    workers_ w' = foldl (fun ks t => <[t := mkWorker false []]> ks) (workers_ w) ts.
Proof.
  intros Hnd. revert us w. induction ts as [|t ts IH]; intros us w Hts Hb.
  { exists w. rewrite app_nil_r. by split_and!. }
  assert (t ∉ us) as Ht by (apply NoDup_app in Hts as (_&Hd&_); intros Hin; apply (Hd t Hin); by left).
  set (w1 := set_workers (<[t := mkWorker false []]> (workers_ w)) w).
  destruct (add_thread_built a us l t w1 Hnd) as (w2 & Hrun & Hb2 & Hc2 & Hw2);
    [by apply built_set_workers|done|].
  destruct (IH (us ++ [t]) w2) as (w' & Hrun' & Hb' & Hc' & Hw').
  { by rewrite <- (assoc (++)). }
  { done. }
  exists w'. rewrite <- (assoc (++)) in Hb'. split_and!; [|done| |].
  - cbn [init_workers]. rewrite (bind_done _ _ _ w w) by done. rewrite (bind_done _ _ _ tt w1) by done.
    rewrite (bind_done _ _ _ _ _ Hrun). rewrite length_app in Hrun'. cbn in Hrun'.
    rewrite (bt_inits _ _ _ _ Hb).
    by replace (a + length us * length l + length l) with (a + (length us + 1) * length l) by lia.
  - eapply same_core_trans; [|done]. by eapply same_core_trans; [|exact Hc2].
  - by rewrite Hw', Hw2.
Qed.

Lemma new_workers_lookup ts (ks : gmap tid Worker) u :
  foldl (fun ks t => <[t := mkWorker false []]> ks) ks ts !! u =
    if decide (u ∈ ts) then Some (mkWorker false []) else ks !! u.
Proof.
  revert ks. induction ts as [|t ts IH]; intros ks; cbn; [done|]. rewrite IH.
  destruct (decide (u = t)) as [->|Hne].
  - rewrite (decide_True (P := t ∈ t :: ts)) by (by left). case_decide; [done|]. apply lookup_insert_eq.
  - rewrite lookup_insert_ne by done. repeat case_decide; set_solver.
Qed.

Lemma find_imap (f : nat -> Initializer R -> nat) l n i :
  NoDup (init_hash <$> l) -> l !! n = Some i ->
  find_registry (init_hash i) (imap (fun n i => (init_hash i, f n i)) l) = Some (f n i).
Proof.
  revert f n. induction l as [|j l IH]; intros f n Hnd Hi; [done|].
  cbn in Hnd. apply NoDup_cons in Hnd as [Hj Hnd]. destruct n as [|n]; cbn in Hi |- *.
  - injection Hi as ->. by rewrite decide_True.
  - rewrite decide_False; [by apply (IH (fun n => f (S n)))|].
    intros E. apply Hj. rewrite <- E. apply list_elem_of_fmap_2. by eapply list_elem_of_lookup_2.
Qed.

Lemma find_thread_registry a p l n i :
  NoDup (init_hash <$> l) -> l !! n = Some i ->
  find_registry (init_hash i) (thread_registries a p l) = Some (instance_address a (length l) p n i).
Proof. apply (find_imap (fun n => instance_address a (length l) p n)). Qed.

Lemma built_registries a us l w u v i :
  NoDup (init_hash <$> l) -> NoDup us -> built a us l w -> u ∈ us -> v ∈ us -> i ∈ l ->
  exists r r', registry_of u (init_hash i) w = Some r /\ registry_of v (init_hash i) w = Some r' /\
    w_registries w !! r = Some (init_registry i) /\ (r = r' <-> u = v \/ init_global i = true).
Proof.
  intros Hnd Hus Hb [p Hp]%list_elem_of_lookup [q Hq]%list_elem_of_lookup [n Hn]%list_elem_of_lookup.
  exists (instance_address a (length l) p n i), (instance_address a (length l) q n i).
  unfold registry_of. rewrite (bt_local _ _ _ _ Hb p u Hp), (bt_local _ _ _ _ Hb q v Hq). cbn.
  rewrite !(find_thread_registry _ _ _ n i) by done. split_and!; [done..| |].
  - apply Hb; [by eapply lookup_lt_Some|done].
  - pose proof (lookup_lt_Some _ _ _ Hn). unfold instance_address. destruct (init_global i).
    + split; [by right|done].
    + split; [|intros [->|]; [by rewrite (NoDup_lookup _ _ _ _ Hus Hp Hq)|done]].
      intros E. left. assert (p = q) as -> by nia. rewrite Hp in Hq. by injection Hq.
Qed.

(** The worker threads of a builder. *)
Definition worker_threads_of (b : Builder R) (ts : list tid) : list tid :=
  take (Z.to_nat (b_worker_num_ b)) ts.

Lemma build_run (b : Builder R) t ts a w :
  NoDup (init_hash <$> b_registry_initializers_ b) -> NoDup (t :: ts) ->
  (forall i, i ∈ b_registry_initializers_ b -> init_global i = true ->
     per_runtime_registry_ w !! (init_hash i, core_addr w) = None) ->
  exists w', Builder_build b t ts a w = (Done (Value tt), w') /\
    NoDup (t :: worker_threads_of b ts) /\
    built a (t :: worker_threads_of b ts) (b_registry_initializers_ b) w' /\
    w_handles_ w' = [] /\ in_place_worker_ w' = mkWorker false [] /\ w_heap w' = w_heap w /\
    (forall u, workers_ w' !! u =
       if decide (u ∈ worker_threads_of b ts) then Some (mkWorker false []) else None).
Proof.
  intros Hnd Hts Hnew. set (threads := worker_threads_of b ts). set (l := b_registry_initializers_ b) in *.
  set (w0 := mkWorld (w_heap w) (w_events w) [] (mkWorker false []) ∅ (mkDriver l ∅) (w_registries w)
    (per_runtime_registry_ w) (core_addr w) (w_result w)).
  assert (built a [] l w0) as Hb0.
  { constructor; try done; [cbn; lia|]. intros n i Hi. apply Hnew. by eapply list_elem_of_lookup_2. }
  destruct (add_thread_built a [] l t w0 Hnd Hb0) as (w1 & Hrun1 & Hb1 & Hc1 & Hw1); [apply not_elem_of_nil|].
  assert (NoDup ([t] ++ threads)) as Hnt.
  { apply NoDup_cons in Hts as [Ht Hts]. apply NoDup_cons. unfold threads, worker_threads_of.
    split; [|rewrite <- (take_drop (Z.to_nat (b_worker_num_ b)) ts) in Hts; by apply NoDup_app in Hts as (?&_&_)].
    intros Hin. apply Ht. rewrite <- (take_drop (Z.to_nat (b_worker_num_ b)) ts). set_solver. }
  destruct (init_workers_built a l threads [t] w1 Hnd Hnt Hb1) as (w2 & Hrun2 & Hb2 & Hc2 & Hw2).
  destruct (same_core_trans _ _ _ Hc1 Hc2) as (Hh&_&Hq&Hi&_).
  exists w2. split_and!; try done.
  - unfold Builder_build, Runtime_new, RuntimeCore_new. fold l. fold (worker_threads_of b ts). fold threads.
    rewrite (bind_done _ _ _ tt w2); [done|]. rewrite (bind_done _ _ _ w w) by done.
    rewrite (bind_done _ _ _ tt w0) by done. change (length []) with 0 in Hrun1.
    rewrite Nat.mul_0_l, Nat.add_0_r in Hrun1.
    rewrite (bind_done _ _ _ _ _ Hrun1). change (length [t]) with 1 in Hrun2.
    by rewrite Nat.mul_1_l in Hrun2.
  - intros u. rewrite Hw2, new_workers_lookup, Hw1. done.
Qed.

(** C11.  A built runtime is ready to run: [build] returns a value; the building thread
    and each of [worker_num_] worker threads has, for every registered type, one
    registry in the state its arguments give; two threads have the same one if and only
    if the type is a [GlobalRegistry]; no other thread has any; the queue is empty and no
    worker is suspended. *)
Theorem build_gives_registries (b : Builder R) t ts a w
    (Hnd : NoDup (init_hash <$> b_registry_initializers_ b)) (Hts : NoDup (t :: ts))
    (Hnew : forall i, i ∈ b_registry_initializers_ b -> init_global i = true ->
       per_runtime_registry_ w !! (init_hash i, core_addr w) = None) :
  let threads := worker_threads_of b ts in
  exists w', Builder_build b t ts a w = (Done (Value tt), w') /\
    w_handles_ w' = [] /\ in_place_worker_ w' = mkWorker false [] /\ w_heap w' = w_heap w /\
    (forall u, workers_ w' !! u = if decide (u ∈ threads) then Some (mkWorker false []) else None) /\
    (forall u, u ∉ t :: threads -> local_registries_ (driver_ w') !! u = None) /\
    (forall u, u ∈ t :: threads ->
       fst <$> default [] (local_registries_ (driver_ w') !! u) ≡ₚ init_hash <$> b_registry_initializers_ b) /\
    (forall u v i, u ∈ t :: threads -> v ∈ t :: threads -> i ∈ b_registry_initializers_ b ->
       exists r r', registry_of u (init_hash i) w' = Some r /\ registry_of v (init_hash i) w' = Some r' /\
         w_registries w' !! r = Some (init_registry i) /\ (r = r' <-> u = v \/ init_global i = true)).
Proof.
  intros threads.
  destruct (build_run b t ts a w Hnd Hts Hnew) as (w' & Hrun & Hnt & Hb & Hq & Hi & Hh & Hw).
  exists w'. split_and!; try done.
  - intros u Hu. by apply Hb.
  - intros u [p Hp]%list_elem_of_lookup. rewrite (bt_local _ _ _ _ Hb p u Hp). cbn.
    unfold thread_registries. rewrite fmap_imap. cbn. apply reflexive_eq, imap_const.
  - intros u v i Hu Hv Hin. by eapply built_registries.
Qed.
End Build.
