(* ===== verification/BlockOn.v ===== *)
(** [block_on] of a coroutine that awaits a future object, through every layer: the
    coroutines and their promises, the queue, the worker's loop, the driver.

    Three coroutines run.  [spawn_with_exception_handling] ([cw]) awaits the lambda of
    [Runtime::block_on] ([cb], of the future [fb]), which awaits the user's coroutine
    ([cu], of the future [fu]), which awaits the future object [fo].  Where a coroutine
    is suspended can be read from the heap: it is at its [co_await] when the future it
    awaits has it as its waiting coroutine.  The moves of the user's future into the
    parameter of the lambda are left out: [fu] is where it ends up. *)
From stdpp Require Import base gmap list.
From Stdlib Require Import ZArith Lia.
From S2P Require Import Prelude Errors Events Futures Core Driver Worker WorkerSpec.

Section Coroutines.
Context {R V Env : Type} `{Registry R Env}.
Implicit Types (w : World R V) (c : hid) (f : fid).

(** Calling a coroutine function whose result is a future at [f]: the frame [c] is
    allocated, [get_return_object] builds the future, and the coroutine is suspended at
    its beginning. *)
Definition co_call (void : bool) c f : M (World R V) unit :=
  in_heap (set_frame c (mkFrame void None false)) ;;;
  in_heap (Promise_get_return_object c f).

(** [Future<Output>::poll] of a future that is not an object with a [poll] of its own. *)
Definition Future_poll (self : option hid) : M (World R V) (Poll V) := ret Pending.

(** [co_await f] in the coroutine [c]: whether [c] stays suspended. *)
Definition co_await (resume : hid -> M (World R V) unit)
    (poll : fid -> option hid -> M (World R V) (Poll V)) f c : M (World R V) bool :=
  let! ready := in_heap (Awaitable_await_ready f) in
  if ready then ret false else Awaitable_await_suspend w_heap set_heap resume poll f c.

(** [co_return v] in the coroutine [c]; for a coroutine that ends without one, [v] is
    what [return_void] sets [return_] to.  [temporaries] destroys the temporaries of the
    expression, after [return_value] and before the final suspend point.  A coroutine that
    nobody awaits is not suspended there: its frame is destroyed with the futures it
    has taken as [params]. *)
Definition co_return (resume : hid -> M (World R V) unit) (v : V) (temporaries : M (World R V) unit)
    (params : list fid) c : M (World R V) unit :=
  in_heap (Promise_return_value c v) ;;;
  temporaries ;;;
  let! waiting := in_heap (Promise_final_suspend c) in
  if FinalAwaitable_await_ready waiting then
    mfor (fun f => in_heap (Future_dtor f)) params ;;;
    in_heap (modify (fun h => mkHeap (futures h) (delete c (frames h))))
  else
    in_heap (let! fr := get_frame c in set_frame c (mkFrame (p_void fr) (p_future_ fr) true)) ;;;
    let! h := deref (FinalAwaitable_await_suspend waiting) in
    resume h.
End Coroutines.

Section BlockOn.
Context {R V Env : Type} `{Registry R Env}.
Implicit Types (w : World R V).

(** The addresses of the frames and futures, and the value [return_void] stores. *)
Variables (t : tid) (cw cb cu : hid) (fw fb fu fo : fid) (done : V).

(** The class of the future object and of the user's coroutine: whether they are
    [Future<void>]; the events after the constructor and after the destructor of the
    object; its first [poll], which [await_suspend] calls, and its next one, which the
    worker calls. *)
Variables (void : bool) (create destroy : EventStore -> EventStore).
Variables (first_poll next_poll : M (World R V) (Poll V)).

Definition at_await (f : fid) : M (World R V) bool :=
  let! o := in_heap (get_fut f) in ret (bool_decide (is_Some (f_waiting_ o))).

Definition first_call (f : fid) (self : option hid) : M (World R V) (Poll V) :=
  if decide (f = fo) then first_poll else Future_poll self.
Definition next_call (f : fid) (self : option hid) : M (World R V) (Poll V) :=
  if decide (f = fo) then next_poll else Future_poll self.

(** The destructor of the object: the derived class's, then [~Future]. *)
Definition destroy_object : M (World R V) unit :=
  modify (fun w => set_events (destroy (w_events w)) w) ;;;
  in_heap (Future_dtor fo).

(** The user's coroutine: [co_await Object(...);] or, when there is a value,
    [co_return co_await Object(...);]. *)
Definition user_rest (resume : hid -> M (World R V) unit) : M (World R V) unit :=
  let! v := in_heap (Awaitable_await_resume fo) in
  if void then
    destroy_object ;;;
    co_return resume done (ret tt) [] cu
  else
    let! v := deref v in
    co_return resume v destroy_object [] cu.
Definition user_resume (resume : hid -> M (World R V) unit) : M (World R V) unit :=
  let! w := get in
  match futures (w_heap w) !! fo with
  | Some _ => user_rest resume
  | None =>
      in_heap (Future_ctor void fo None) ;;;
      modify (fun w => set_events (create (w_events w)) w) ;;;
      let! suspended := co_await resume first_call fo cu in
      if suspended then ret tt else user_rest resume
  end.

(** The lambda of [block_on]: [result = co_await future;], or [co_await future;] when
    there is no value. *)
Definition lambda_rest (resume : hid -> M (World R V) unit) : M (World R V) unit :=
  let! v := in_heap (Awaitable_await_resume fu) in
  (if void then ret tt else modify (set_result v)) ;;;
  Worker_suspend (InPlace t) ;;;
  co_return resume done (ret tt) [] cb.
Definition lambda_resume (resume : hid -> M (World R V) unit) : M (World R V) unit :=
  let! resumed := at_await fu in
  if resumed then lambda_rest resume
  else
    let! suspended := co_await resume first_call fu cb in
    if suspended then ret tt else lambda_rest resume.

(** [spawn_with_exception_handling], for a future that ends without an exception. *)
Definition wrapper_rest (resume : hid -> M (World R V) unit) : M (World R V) unit :=
  in_heap (Awaitable_await_resume fb) ;;;
  co_return resume done (ret tt) [fu; fb] cw.
Definition wrapper_resume (resume : hid -> M (World R V) unit) : M (World R V) unit :=
  let! resumed := at_await fb in
  if resumed then wrapper_rest resume
  else
    let! suspended := co_await resume first_call fb cw in
    if suspended then ret tt else wrapper_rest resume.

(** [coroutine_handle::resume]; [n] bounds the depth of nested resumptions. *)
Fixpoint resume (n : nat) (c : hid) : M (World R V) unit :=
  match n with
  | O => undef
  | S n =>
      if decide (c = cw) then wrapper_resume (resume n)
      else if decide (c = cb) then lambda_resume (resume n)
      else if decide (c = cu) then user_resume (resume n)
      else undef
  end.

(** [Runtime::block_on(future)] with [future] the user's coroutine.  The result is [None]
    while the call has not returned; a call without a value returns [done]. *)
Definition block_on (fuel : nat) (envs : list (nat -> Env)) : M (World R V) (option V) :=
  co_call void cu fu ;;;
  (if void then ret tt else modify (set_result None)) ;;;
  co_call true cb fb ;;;
  Runtime_block_on next_call (resume 6) fuel envs t cw fw
    (fun w => if void then Some done else w_result w).
End BlockOn.
