(* ===== verification/BlockOnSpec.v ===== *)
(** [block_on] returns when, and only when, the awaited future object is ready: what
    the coroutines, the queue, the worker's loop and the driver do together. *)
From stdpp Require Import base gmap list.
From Stdlib Require Import ZArith Lia.
From S2P Require Import Prelude Errors Events Futures Core Driver Worker WorkerSpec BlockOn.

(** ** Frames of the driver's poll *)
Section Frame.
Context {R V Env : Type} `{Registry R Env}.
Implicit Types (w : World R V).

(** What a poll of the driver leaves alone. *)
Definition same_rest w w' : Prop :=
  w_heap w' = w_heap w /\ in_place_worker_ w' = in_place_worker_ w /\ workers_ w' = workers_ w.

Lemma same_rest_trans w1 w2 w3 : same_rest w1 w2 -> same_rest w2 w3 -> same_rest w1 w3.
Proof. intros (?&?&?) (?&?&?). split_and!; congruence. Qed.

Lemma on_registry_rest {A} a (m : M (R * EventStore) A) w : same_rest w (snd (on_registry a m w)).
Proof. unfold on_registry. destruct (w_registries w !! a); [|done]. by destruct (m _) as [? []]. Qed.

Lemma wake_event_rest e w : same_rest w (snd (wake_event push_handle e w)).
Proof.
  unfold wake_event. mred. destruct (w_events w !! e) as [ev|]; [|done].
  destruct (future_ ev) as [f|]; [|done]. unfold in_heap, Future_get_handle, get_fut. mred. cbn.
  by destruct (futures _ !! f).
Qed.

Lemma wake_rest events w : same_rest w (snd (RuntimeCore_wake events w)).
Proof.
  unfold RuntimeCore_wake, bind at 1.
  assert (same_rest w (snd (mfor (wake_event push_handle) events w))) as Hm.
  { revert w. induction events as [|e events IH]; intros w; [done|]. cbn [mfor]. unfold bind at 1.
    pose proof (wake_event_rest e w). destruct (wake_event push_handle e w) as [[[]|x|] w1]; [|done|done].
    by eapply same_rest_trans. }
  by destruct (mfor _ events w) as [[[]|x|] w1].
Qed.

Lemma Driver_poll_rest env t w : same_rest w (snd (Driver_poll env t w)).
Proof.
  unfold Driver_poll. mred. destruct (local_registries_ (driver_ w) !! t) as [l|]; [|done].
  generalize (@nil eid). revert w. induction l as [|[h a] l IH]; intros w events; [done|].
  cbn [Driver_poll_loop]. unfold bind at 1.
  assert (same_rest w (snd (Driver_select (env a) a events w))) as Hs.
  { unfold Driver_select, bind at 1. match goal with |- context [on_registry a ?m w] =>
      pose proof (on_registry_rest a m w) as Hr; destruct (on_registry a m w) as [[[x evs]|x|] w1] end;
      [by destruct x|done|done]. }
  destruct (Driver_select (env a) a events w) as [[sel|x|] w1]; [|done|done]. unfold bind at 1.
  pose proof (wake_rest sel w1) as Hw. destruct (RuntimeCore_wake sel w1) as [[evs|x|] w2];
    [|by eapply same_rest_trans..].
  eapply same_rest_trans; [exact Hs|]. eapply same_rest_trans; [exact Hw|apply IH].
Qed.

(** ** The operations of a coroutine *)

Lemma co_call_run void c f w :
  co_call void c f w = (Done tt, set_heap (mkHeap
    (<[f := mkFuture void None None (Some c) None None false]> (futures (w_heap w)))
    (<[c := mkFrame void (Some f) false]> (frames (w_heap w)))) w).
Proof.
  unfold co_call, in_heap, Promise_get_return_object, Future_ctor, get_frame, set_frame, set_fut. mred.
  cbn. rewrite !lookup_insert_eq. cbn. rewrite lookup_insert_eq. cbn. by rewrite insert_insert_eq.
Qed.

(** [spawn_impl], exactly. *)
Lemma spawn_impl_run c f w :
  RuntimeCore_spawn_impl c f w = (Done tt, set_handles ((Some c, None) :: w_handles_ w)
    (set_heap (mkHeap (delete f (futures (w_heap w)))
      (<[c := mkFrame true None false]> (frames (w_heap w)))) w)).
Proof.
  unfold RuntimeCore_spawn_impl, Promise_get_return_object, Future_ctor, Future_get_handle, Future_dtor,
    get_fut, get_frame, set_fut, set_frame, push_handle, in_heap. mred. cbn.
  repeat (rewrite ?lookup_insert_eq; cbn). unfold set_handles, set_heap. cbn. do 2 f_equal.
  f_equal; by rewrite ?delete_insert_eq, ?insert_insert_eq.
Qed.

(** [co_await] of a coroutine that has not ended runs it. *)
Lemma co_await_coroutine rs poll f c o c' fr h' w :
  futures (w_heap w) !! f = Some o -> f_self_ o = Some c' ->
  frames (w_heap w) !! c' = Some fr -> fr_done fr = false ->
  Promise_set_waited c (Some c') (mkHeap (<[f := with_waiting (Some c) o]> (futures (w_heap w)))
    (frames (w_heap w))) = (Done tt, h') ->
  co_await rs poll f c w = bind (rs c') (fun _ => ret true) (set_heap h' w).
Proof.
  intros Ho Hs Hf Hd Hset. unfold co_await, in_heap, Awaitable_await_ready, Awaitable_await_suspend,
    upd_fut, get_fut, get_frame, set_fut. mred. rewrite Ho, Hs. cbn. rewrite Hf, Hd. cbn. rewrite ?Ho. cbn.
  rewrite lookup_insert_eq. cbn. by rewrite Hs, Hset.
Qed.

(** [co_await] of a future object polls it. *)
Lemma co_await_object rs poll f c o h' w :
  futures (w_heap w) !! f = Some o -> f_self_ o = None ->
  Promise_set_waited c None (mkHeap (<[f := with_waiting (Some c) o]> (futures (w_heap w)))
    (frames (w_heap w))) = (Done tt, h') ->
  co_await rs poll f c w =
    bind (poll f (Some c)) (fun res => match res with
      | Pending => ret true
      | Ready v => (if f_void o then ret tt else in_heap (upd_fut f (with_return (Some v)))) ;;; ret false
      end) (set_heap h' w).
Proof.
  intros Ho Hs Hset. unfold co_await, in_heap at 1, Awaitable_await_ready, Awaitable_await_suspend,
    upd_fut at 1, get_fut, get_frame, set_fut. mred. rewrite Ho, Hs. cbn. rewrite Ho. cbn.
  rewrite lookup_insert_eq. cbn. by rewrite Hs, Hset.
Qed.

(** The end of a coroutine that another one awaits. *)
Lemma co_return_awaited rs v temporaries params c f fr o o2 waiting w w2 :
  frames (w_heap w) !! c = Some fr -> p_future_ fr = Some f -> futures (w_heap w) !! f = Some o ->
  temporaries (set_heap (mkHeap (<[f := with_return (Some v) o]> (futures (w_heap w)))
    (frames (w_heap w))) w) = (Done tt, w2) ->
  frames (w_heap w2) = frames (w_heap w) ->
  futures (w_heap w2) !! f = Some o2 -> f_waiting_ o2 = Some waiting ->
  co_return rs v temporaries params c w = rs waiting (set_heap (mkHeap (futures (w_heap w2))
    (<[c := mkFrame (p_void fr) (Some f) true]> (frames (w_heap w)))) w2).
Proof.
  intros Hc Hf Ho Ht Hfr2 Ho2 Hw. unfold co_return. erewrite bind_done.
  2:{ unfold in_heap, Promise_return_value, on_future, upd_fut, get_fut, get_frame, set_fut. mred.
      rewrite Hc, Hf. cbn. by rewrite Ho. }
  cbn [futures frames]. rewrite (bind_done _ _ _ _ _ Ht).
  unfold in_heap, Promise_final_suspend, on_future, get_fut, get_frame, set_frame. mred.
  rewrite Hfr2, Hc, Hf, Ho2. cbn. rewrite Hw. cbn. rewrite Hfr2, Hc, Hf. cbn.
  by rewrite Hfr2, set_heap_id.
Qed.

(** What [await_resume] gives for a future that ended well. *)
Lemma await_resume_ended f c fr o w :
  futures (w_heap w) !! f = Some o -> f_waiting_ o = Some c -> f_exception_ptr_ o = None ->
  f_cancelled_ o = false -> is_Some (f_return_ o) ->
  frames (w_heap w) !! c = Some fr -> p_void fr = true ->
  (forall g, p_future_ fr = Some g -> g <> f /\ is_Some (futures (w_heap w) !! g)) ->
  in_heap (Awaitable_await_resume f) w = (Done (if f_void o then None else f_return_ o), set_heap (mkHeap
    match p_future_ fr with
    | Some g => alter (with_waited None) g (futures (w_heap w))
    | None => futures (w_heap w)
    end (frames (w_heap w))) w).
Proof.
  intros Ho Hw He Hc [v Hv] Hfr Hpv Hg. unfold in_heap, Awaitable_await_resume, Promise_set_waited, on_future,
    upd_fut, get_fut, get_frame, set_fut. mred. rewrite Ho, Hw, Hfr.
  destruct (p_future_ fr) as [g|].
  - destruct (Hg g eq_refl) as [Hne [og Hog]]. rewrite Hog. cbn. rewrite lookup_insert_ne by done.
    rewrite Ho, He, Hc, Hv.
    assert (<[g := with_waited None og]> (futures (w_heap w)) =
      alter (with_waited None) g (futures (w_heap w))) as ->.
    { apply map_eq. intros i. rewrite lookup_insert, lookup_alter. case_decide; [subst|done]. by rewrite Hog. }
    by destruct (f_void o).
  - rewrite Hpv. cbn. rewrite Ho, He, Hc, Hv. destruct w as [[]]. by destruct (f_void o).
Qed.
End Frame.

(** ** The run *)
Section Run.
Context {R V Env : Type} `{Registry R Env}.
Implicit Types (w : World R V).
Variables (t : tid) (cw cb cu : hid) (fw fb fu fo : fid) (done : V).
Variables (void : bool) (create destroy : EventStore -> EventStore).
Variables (first_poll next_poll : M (World R V) (Poll V)).

#[local] Abbreviation run_coroutine := (resume t cw cb cu fb fu fo done void create destroy first_poll).
#[local] Abbreviation in_place :=
  (Worker_run_in_place (next_call fo next_poll) (run_coroutine 6)).
#[local] Abbreviation loop_once :=
  (Worker_run_loop_once (next_call fo next_poll) (run_coroutine 6)).

(** Distinct objects at distinct addresses. *)
Hypothesis Hfid : NoDup [fw; fb; fu; fo].
Hypothesis Hhid : NoDup [cw; cb; cu].

Lemma distinct_futures : fw <> fb /\ fw <> fu /\ fw <> fo /\ fb <> fu /\ fb <> fo /\ fu <> fo.
Proof. pose proof Hfid as Hd. rewrite !NoDup_cons in Hd. set_solver. Qed.
Lemma distinct_frames : cw <> cb /\ cw <> cu /\ cb <> cu.
Proof. pose proof Hhid as Hd. rewrite !NoDup_cons in Hd. set_solver. Qed.

(** The futures as the calls of the two coroutines made them, and their frames. *)
Definition called_fu : FutureObj V := mkFuture void None None (Some cu) None None false.
Definition called_fb : FutureObj V := mkFuture true None None (Some cb) None None false.
Definition frame_cu : Frame := mkFrame void (Some fu) false.
Definition frame_cb : Frame := mkFrame true (Some fb) false.

(** The heap after the coroutines were called, and while they wait. *)
Definition called_heap (h : Heap V) : Heap V :=
  mkHeap (<[fb := called_fb]> (<[fu := called_fu]> (futures h)))
         (<[cw := mkFrame true None false]> (<[cb := frame_cb]> (<[cu := frame_cu]> (frames h)))).
Definition awaited_fu : FutureObj V := mkFuture void None None (Some cu) (Some cb) None false.
Definition awaited_fb : FutureObj V := mkFuture true None None (Some cb) (Some cw) (Some cu) false.
Definition waiting_futures (h : Heap V) : gmap fid (FutureObj V) :=
  <[fb := awaited_fb]> (<[fu := awaited_fu]> (futures h)).
Definition object (r : option V) : FutureObj V := mkFuture void r None None (Some cu) None false.
Definition waiting_heap (r : option V) (h : Heap V) : Heap V :=
  mkHeap (<[fo := object r]> (waiting_futures h)) (frames (called_heap h)).

(** The heap when the lambda is first resumed. *)
Definition await_fb (h : Heap V) : Heap V :=
  mkHeap (<[fb := mkFuture true None None (Some cb) (Some cw) None false]> (futures (called_heap h)))
    (frames (called_heap h)).

(** The heap after the user's coroutine has ended with [v], and after the lambda has. *)
Definition user_done (v : V) (h : Heap V) : Heap V :=
  mkHeap (<[fu := mkFuture void (Some v) None (Some cu) (Some cb) None false]> (waiting_futures h))
    (<[cu := mkFrame void (Some fu) true]> (frames (called_heap h))).
Definition lambda_done (v : V) (h : Heap V) : Heap V :=
  mkHeap (<[fb := mkFuture true (Some done) None (Some cb) (Some cw) None false]> (futures (user_done v h)))
    (<[cb := mkFrame true (Some fb) true]> (frames (user_done v h))).

(** The value the call returns when the object is ready with [v], and its assignment to
    [result]. *)
Definition value_of (v : V) : V := if void then done else v.
Definition keep (v : V) w : World R V := if void then w else set_result (Some v) w.

(** Memory in which none of the addresses is taken. *)
Record fresh_heap (h : Heap V) : Prop := {
  fh_futures : forall f, f ∈ [fw; fb; fu; fo] -> futures h !! f = None;
  fh_frames : forall c, c ∈ [cw; cb; cu] -> frames h !! c = None;
}.

Lemma run_wrapper n : run_coroutine (S n) cw = wrapper_resume cw fb fu fo done first_poll (run_coroutine n).
Proof. cbn [resume]. by rewrite decide_True. Qed.
Lemma run_lambda n : run_coroutine (S n) cb = lambda_resume t cb fu fo done void first_poll (run_coroutine n).
Proof.
  destruct distinct_frames as (?&?&?). cbn [resume]. by rewrite decide_False, decide_True by done.
Qed.
Lemma run_user n : run_coroutine (S n) cu = user_resume cu fo done void create destroy first_poll (run_coroutine n).
Proof.
  destruct distinct_frames as (?&?&?). cbn [resume]. by rewrite !decide_False, decide_True by done.
Qed.

(** Solves lookups in the heaps above. *)
Ltac heap :=
  destruct distinct_futures as (?&?&?&?&?&?), distinct_frames as (?&?&?);
  unfold lambda_done, user_done, await_fb, waiting_heap, waiting_futures, called_heap, object,
    called_fu, called_fb, awaited_fu, awaited_fb, frame_cu, frame_cb;
  cbn; simplify_map_eq; try done.

(** Equality of two maps that were updated at the addresses above. *)
Ltac heap_eq :=
  destruct distinct_futures as (?&?&?&?&?&?), distinct_frames as (?&?&?);
  unfold lambda_done, user_done, await_fb, waiting_heap, waiting_futures, called_heap, object,
    called_fu, called_fb, awaited_fu, awaited_fb, frame_cu, frame_cb;
  cbn; apply map_eq; intros ?i; 
  repeat first [rewrite lookup_insert | rewrite lookup_delete | rewrite lookup_alter];
  repeat case_decide; by simplify_eq.

Lemma at_await_run f o w :
  futures (w_heap w) !! f = Some o ->
  at_await f w = (Done (bool_decide (is_Some (f_waiting_ o))), w).
Proof. intros Ho. unfold at_await, in_heap, get_fut. mred. rewrite Ho. by destruct w. Qed.

Lemma set_waited_void c f fr (o : FutureObj V) v h :
  frames h !! c = Some fr -> p_future_ fr = Some f -> futures h !! f = Some o ->
  Promise_set_waited c v h = (Done tt, mkHeap (<[f := with_waited v o]> (futures h)) (frames h)).
Proof.
  intros Hc Hf Ho. unfold Promise_set_waited, on_future, upd_fut, get_fut, get_frame, set_fut. mred.
  by rewrite Hc, Hf, Ho.
Qed.

Lemma set_waited_root c fr v (h : Heap V) :
  frames h !! c = Some fr -> p_future_ fr = None -> p_void fr = true ->
  Promise_set_waited c v h = (Done tt, h).
Proof.
  intros Hc Hf Ho. unfold Promise_set_waited, on_future, get_frame. mred. by rewrite Hc, Hf, Ho.
Qed.

Lemma wrapper_first rs h w :
  w_heap w = called_heap h ->
  wrapper_resume cw fb fu fo done first_poll rs w =
    bind (rs cb) (fun _ => ret tt) (set_heap (await_fb h) w).
Proof.
  intros Hw. unfold wrapper_resume.
  rewrite (bind_done _ _ _ _ _ (at_await_run fb called_fb w ltac:(rewrite Hw; heap))). cbn.
  unfold bind at 1. rewrite (co_await_coroutine _ _ fb cw called_fb cb frame_cb (await_fb h));
    try (rewrite ?Hw; by heap).
  - unfold bind. by destruct (rs cb _) as [[[]| |] w'].
  - rewrite Hw. apply (set_waited_root cw (mkFrame true None false)); heap.
Qed.
Lemma lambda_first rs h w :
  w_heap w = await_fb h ->
  lambda_resume t cb fu fo done void first_poll rs w =
    bind (rs cu) (fun _ => ret tt)
      (set_heap (mkHeap (waiting_futures h) (frames (called_heap h))) w).
Proof.
  intros Hw. unfold lambda_resume.
  rewrite (bind_done _ _ _ _ _ (at_await_run fu called_fu w ltac:(rewrite Hw; heap))). cbn.
  unfold bind at 1. rewrite (co_await_coroutine _ _ fu cb called_fu cu frame_cu
    (mkHeap (waiting_futures h) (frames (called_heap h)))); try (rewrite ?Hw; by heap).
  - unfold bind. by destruct (rs cu _) as [[[]| |] w'].
  - rewrite Hw. rewrite (set_waited_void cb fb frame_cb
      (mkFuture true None None (Some cb) (Some cw) None false)) by heap.
    do 2 f_equal. heap_eq.
Qed.

(** The object is constructed, awaited and polled. *)
Lemma user_first rs h w :
  fresh_heap h -> w_heap w = mkHeap (waiting_futures h) (frames (called_heap h)) ->
  user_resume cu fo done void create destroy first_poll rs w =
    (let! res := first_poll in
     match res with
     | Pending => ret tt
     | Ready v => (if void then ret tt else in_heap (upd_fut fo (with_return (Some v)))) ;;;
                  user_rest cu fo done void destroy rs
     end) (set_events (create (w_events w)) (set_heap (waiting_heap None h) w)).
Proof.
  intros [Hff Hfr] Hw. assert (futures h !! fo = None) as Hfo by (apply Hff; set_solver).
  unfold user_resume. rewrite (bind_done _ _ _ w w) by done.
  assert (futures (w_heap w) !! fo = None) as -> by (rewrite Hw; heap).
  set (o := mkFuture (V := V) void None None None None None false).
  rewrite (bind_done _ _ _ tt (set_heap (mkHeap (<[fo := o]> (waiting_futures h)) (frames (called_heap h))) w))
    by (unfold in_heap, Future_ctor, set_fut; mred; by rewrite Hw).
  rewrite (bind_done _ _ _ tt (set_events (create (w_events w))
    (set_heap (mkHeap (<[fo := o]> (waiting_futures h)) (frames (called_heap h))) w))) by done.
  unfold bind at 1. rewrite (co_await_object _ _ fo cu o (waiting_heap None h)).
  - unfold first_call. rewrite decide_True by done. set (w2 := set_events _ (set_heap (waiting_heap None h) w)).
    change (set_heap (waiting_heap None h) (set_events (create (w_events w))
      (set_heap (mkHeap (<[fo := o]> (waiting_futures h)) (frames (called_heap h))) w))) with w2.
    unfold bind. destruct (first_poll w2) as [[[v|]| |] w3]; try done. cbn [f_void o].
    destruct void; [done|]. by destruct (in_heap _ w3) as [[[]| |] w4].
  - cbn. apply lookup_insert_eq.
  - done.
  - cbn. rewrite insert_insert_eq. rewrite (set_waited_void cu fu frame_cu awaited_fu) by heap.
    unfold waiting_heap. do 2 f_equal. heap_eq.
Qed.

Lemma first_resume h w w1 :
  fresh_heap h -> w_heap w = called_heap h ->
  first_poll (set_events (create (w_events w)) (set_heap (waiting_heap None h) w)) = (Done Pending, w1) ->
  run_coroutine 6 cw w = (Done tt, w1).
Proof.
  intros Hh Hw Hp. rewrite run_wrapper, (wrapper_first _ h w Hw), run_lambda.
  unfold bind. rewrite (lambda_first _ h) by done. rewrite run_user. unfold bind.
  rewrite (user_first _ h) by done. rewrite (bind_done _ _ _ Pending w1) by exact Hp. done.
Qed.

(** *** The resumption when the object is ready *)

(** The object gives its value; its destructor removes it. *)
Lemma object_resumes h r v w :
  w_heap w = waiting_heap r h -> (void = false -> r = Some v) ->
  in_heap (Awaitable_await_resume fo) w = (Done (if void then None else Some v), w).
Proof.
  intros Hw Hr. unfold in_heap, Awaitable_await_resume, get_fut. mred. rewrite Hw. cbn.
  rewrite lookup_insert_eq. cbn. rewrite (set_waited_void cu fu frame_cu awaited_fu) by heap.
  assert (<[fu := with_waited None awaited_fu]> (futures (waiting_heap r h)) =
    futures (waiting_heap r h)) as Hsame by (apply insert_id; heap).
  cbn in Hsame |- *. rewrite Hsame, lookup_insert_eq. cbn.
  destruct void; [|specialize (Hr eq_refl); subst r]; cbn; destruct w; cbn in Hw; by subst.
Qed.

Lemma object_destroyed r fs w :
  futures (w_heap w) = <[fo := object r]> fs -> fs !! fo = None ->
  destroy_object fo destroy w = (Done tt, set_events (destroy (w_events w))
    (set_heap (mkHeap fs (frames (w_heap w))) w)).
Proof.
  intros Hw Hfs. unfold destroy_object, in_heap, Future_dtor, get_fut. mred. cbn [w_heap set_events].
  rewrite Hw, lookup_insert_eq. cbn. by rewrite Hw, delete_insert_id.
Qed.

(** The user's coroutine takes the value and ends. *)
Lemma user_ends rs h r v w :
  fresh_heap h -> w_heap w = waiting_heap r h -> (void = false -> r = Some v) ->
  user_rest cu fo done void destroy rs w =
    rs cb (set_heap (user_done (value_of v) h) (set_events (destroy (w_events w)) w)).
Proof.
  intros [Hff Hfr] Hw Hr. assert (futures h !! fo = None) as Hfo by (apply Hff; set_solver).
  unfold user_rest. rewrite (bind_done _ _ _ _ _ (object_resumes h r v w Hw Hr)).
  unfold value_of. assert (waiting_futures h !! fo = None) as Hno by heap.
  destruct void eqn:Ev.
  - rewrite (bind_done _ _ _ _ _ (object_destroyed r (waiting_futures h) w ltac:(by rewrite Hw) Hno)).
    rewrite Hw. erewrite (co_return_awaited rs done (ret tt) [] cu fu frame_cu awaited_fu);
      [|by heap..]. done.
  - rewrite (bind_done _ _ _ v w) by done.
    set (fs := <[fu := with_return (Some v) awaited_fu]> (waiting_futures h)).
    rewrite (co_return_awaited rs v _ [] cu fu frame_cu awaited_fu
      (with_return (Some v) awaited_fu) cb w (set_events (destroy (w_events w))
        (set_heap (mkHeap fs (frames (called_heap h))) w))); try (rewrite ?Hw; by heap).
    2:{ cbn. unfold fs. apply lookup_insert_eq. }
    rewrite Hw. rewrite (object_destroyed r fs); [done|cbn|unfold fs; heap].
    unfold fs. apply insert_insert_ne. heap.
Qed.

Lemma user_last rs h r v w :
  fresh_heap h -> w_heap w = waiting_heap r h -> (void = false -> r = Some v) ->
  user_resume cu fo done void create destroy first_poll rs w =
    rs cb (set_heap (user_done (value_of v) h) (set_events (destroy (w_events w)) w)).
Proof.
  intros Hh Hw Hr. unfold user_resume. rewrite (bind_done _ _ _ w w) by done.
  assert (futures (w_heap w) !! fo = Some (object r)) as -> by (rewrite Hw; heap).
  by apply (user_ends _ h r).
Qed.

Lemma lambda_last rs h v w :
  w_heap w = user_done v h ->
  lambda_resume t cb fu fo done void first_poll rs w =
    rs cw (set_in_place (mkWorker true (wk_handles_ (in_place_worker_ w)))
      (set_heap (lambda_done v h) (keep v w))).
Proof.
  intros Hw. unfold lambda_resume.
  set (o := mkFuture void (Some v) None (Some cu) (Some cb) None false).
  rewrite (bind_done _ _ _ _ _ (at_await_run fu o w ltac:(rewrite Hw; heap))). cbn.
  unfold lambda_rest.
  rewrite (bind_done _ _ _ _ _ (await_resume_ended fu cb frame_cb o w
    ltac:(rewrite Hw; heap) ltac:(done) ltac:(done) ltac:(done) ltac:(done)
    ltac:(rewrite Hw; heap) ltac:(done) ltac:(intros g [= <-]; rewrite Hw; heap))).
  rewrite Hw. cbn [p_future_ frame_cb f_void f_return_ o]. set (w1 := set_heap _ w).
  rewrite (bind_done _ _ _ tt (keep v w1)) by (unfold keep; by destruct void).
  unfold Worker_suspend. mred. cbn [worker_of set_worker].
  assert (keep v w1 = set_heap (w_heap w1) (keep v w)) as -> by (unfold keep; by destruct void).
  assert (in_place_worker_ (set_heap (w_heap w1) (keep v w)) = in_place_worker_ w) as ->
    by (unfold keep; by destruct void).
  erewrite (co_return_awaited rs done (ret tt) [] cb fb frame_cb
    (mkFuture true None None (Some cb) (Some cw) None false)
    (mkFuture true (Some done) None (Some cb) (Some cw) None false) cw); [| |done| |done|done| |done];
    [|unfold w1; by heap..].
  f_equal. unfold set_in_place, set_heap. cbn. f_equal. unfold lambda_done. f_equal. heap_eq.
Qed.

(** The destructor of the future of a coroutine that was awaited. *)
Lemma Future_dtor_awaited f c o w :
  futures (w_heap w) !! f = Some o -> f_self_ o = Some c -> is_Some (f_waiting_ o) ->
  is_Some (frames (w_heap w) !! c) ->
  in_heap (Future_dtor f) w = (Done tt, set_heap (mkHeap (delete f (futures (w_heap w)))
    (delete c (frames (w_heap w)))) w).
Proof.
  intros Ho Hs [x Hx] [fr Hfr]. unfold in_heap, Future_dtor, get_fut, get_frame. mred.
  rewrite Ho, Hs, Hx, andb_false_r. by rewrite Hfr.
Qed.

Lemma everything_freed v h :
  fresh_heap h ->
  mkHeap (delete fb (delete fu (futures (lambda_done v h))))
    (delete cw (delete cb (delete cu (frames (lambda_done v h))))) = h.
Proof.
  intros [Hff Hfr]. destruct h as [fs frs]. f_equal; apply map_eq; intros i;
    unfold lambda_done, user_done, waiting_futures, called_heap; cbn in *;
    repeat first [rewrite lookup_insert | rewrite lookup_delete]; repeat case_decide; subst; try done;
    symmetry; first [apply Hff; set_solver | apply Hfr; set_solver].
Qed.

(** The wrapper ends and takes every frame and future with it. *)
Lemma wrapper_last rs h v w :
  fresh_heap h -> w_heap w = lambda_done v h ->
  wrapper_resume cw fb fu fo done first_poll rs w = (Done tt, set_heap h w).
Proof.
  intros [Hff Hfr] Hw. unfold wrapper_resume.
  set (o := mkFuture true (Some done) None (Some cb) (Some cw) None false).
  rewrite (bind_done _ _ _ _ _ (at_await_run fb o w ltac:(rewrite Hw; heap))). cbn.
  unfold wrapper_rest.
  rewrite (bind_done _ _ _ _ _ (await_resume_ended fb cw (mkFrame true None false) o w
    ltac:(rewrite Hw; heap) ltac:(done) ltac:(done) ltac:(done) ltac:(done)
    ltac:(rewrite Hw; heap) ltac:(done) ltac:(done))).
  rewrite Hw. cbn [p_future_]. unfold co_return.
  set (w1 := set_heap _ w). assert (frames (w_heap w1) !! cw = Some (mkFrame true None false)) as Hcw by heap.
  rewrite (bind_done _ _ _ tt w1) by (unfold in_heap, Promise_return_value, on_future, get_frame; mred;
    rewrite Hcw; by destruct w).
  rewrite (bind_done _ _ _ tt w1) by done.
  rewrite (bind_done _ _ _ None w1) by (unfold in_heap, Promise_final_suspend, on_future, get_frame; mred;
    rewrite Hcw; by destruct w). cbn [FinalAwaitable_await_ready mfor].
  unfold bind at 2. unfold bind at 1.
  rewrite (Future_dtor_awaited fu cu (mkFuture void (Some v) None (Some cu) (Some cb) None false) w1);
    [|heap|done|done|by heap; eexists].
  unfold bind at 1. rewrite (Future_dtor_awaited fb cb o); [|heap|done|done|by heap; eexists].
  unfold in_heap. mred. unfold w1. cbn [futures frames w_heap set_heap].
  by rewrite (everything_freed v h (Build_fresh_heap h Hff Hfr)).
Qed.

(** The resumption of the user's coroutine goes up to the wrapper. *)
Lemma last_resume h r v w :
  fresh_heap h -> w_heap w = waiting_heap r h -> (void = false -> r = Some v) ->
  run_coroutine 6 cu w =
    (Done tt, set_in_place (mkWorker true (wk_handles_ (in_place_worker_ w)))
      (set_heap h (keep v (set_events (destroy (w_events w)) w)))).
Proof.
  intros Hh Hw Hr. rewrite run_user, (user_last _ h r v) by done.
  rewrite run_lambda, (lambda_last _ h (value_of v)) by done.
  rewrite run_wrapper, (wrapper_last _ h (value_of v)) by done.
  unfold keep, value_of. by destruct void.
Qed.

(** When the object's first poll finishes the coroutines run to their ends at once. *)
Lemma first_resume_ready h v w w1 :
  fresh_heap h -> w_heap w = called_heap h ->
  first_poll (set_events (create (w_events w)) (set_heap (waiting_heap None h) w)) = (Done (Ready v), w1) ->
  w_heap w1 = waiting_heap None h ->
  run_coroutine 6 cw w =
    (Done tt, set_in_place (mkWorker true (wk_handles_ (in_place_worker_ w1)))
      (set_heap h (keep v (set_events (destroy (w_events w1)) w1)))).
Proof.
  intros Hh Hw Hp Hw1. rewrite run_wrapper, (wrapper_first _ h w Hw), run_lambda.
  unfold bind at 1. rewrite (lambda_first _ h) by done. rewrite run_user. unfold bind at 1.
  rewrite (user_first _ h) by done. rewrite (bind_done _ _ _ (Ready v) w1) by exact Hp.
  set (r := if void then None else Some v).
  rewrite (bind_done _ _ _ tt (set_heap (waiting_heap r h) w1)).
  2:{ unfold r. destruct void; [by rewrite <- Hw1, set_heap_id|].
      unfold in_heap, upd_fut, get_fut, set_fut. mred. rewrite Hw1. cbn. rewrite lookup_insert_eq. cbn.
      by rewrite insert_insert_eq. }
  rewrite (user_ends _ h r v) by (done || by unfold r; intros ->).
  rewrite run_lambda, (lambda_last _ h (value_of v)) by done.
  rewrite run_wrapper, (wrapper_last _ h (value_of v)) by done.
  unfold keep, value_of. by destruct void.
Qed.

(** *** The loop of the in-place worker *)

(** The driver polled once per turn, with an empty queue before each. *)
Inductive idles : list (nat -> Env) -> World R V -> World R V -> Prop :=
  | idles_nil w : idles [] w w
  | idles_cons env envs w w1 w2 :
      w_handles_ w = [] -> Driver_poll env t w = (Done tt, w1) -> idles envs w1 w2 ->
      idles (env :: envs) w w2.

Lemma idles_rest envs w w' : idles envs w w' -> same_rest w w'.
Proof.
  induction 1 as [w|env envs w w1 w2 _ Hp _ IH]; [done|]. eapply same_rest_trans; [|exact IH].
  pose proof (Driver_poll_rest env t w) as Hr. by rewrite Hp in Hr.
Qed.

Lemma idles_snoc envs env w w1 w2 :
  idles envs w w1 -> w_handles_ w1 = [] -> Driver_poll env t w1 = (Done tt, w2) ->
  idles (envs ++ [env]) w w2.
Proof.
  induction 1 as [w|env' envs w w' w1 Hq Hp _ IH]; intros Hq1 Hp1; cbn.
  - by econstructor; [| |constructor].
  - econstructor; [done..|]. by apply IH.
Qed.

Definition running w : Prop := in_place_worker_ w = mkWorker false [].

Lemma local_queue_empty fuel w :
  running w ->
  resume_queue (next_call fo next_poll) (run_coroutine 6) fuel (InPlace t) LocalQueue w = (Done true, w).
Proof.
  intros Hk. apply (drain_stops _ _ fuel (InPlace t) LocalQueue w []); [by cbn; rewrite Hk|].
  right. unfold flag. cbn. by rewrite Hk.
Qed.

(** A turn that drains the runtime's queue and leaves the worker running polls the
    driver. *)
Lemma turn_polls fuel env w w1 :
  running w -> running w1 ->
  resume_queue (next_call fo next_poll) (run_coroutine 6) fuel (InPlace t) GlobalQueue w =
    (Done true, w1) ->
  loop_once fuel env (InPlace t) w = (Driver_poll env t ;;; ret true) w1.
Proof.
  intros Hw Hw1 Hd. unfold Worker_run_loop_once. rewrite (bind_done _ _ _ _ _ (local_queue_empty fuel w Hw)).
  unfold is_suspended. mred. cbn [worker_of negb]. rewrite Hw. cbn [suspend_flag_]. rewrite Hd.
  cbn [negb]. by rewrite Hw1.
Qed.

Lemma empty_drain fuel w :
  running w -> w_handles_ w = [] ->
  resume_queue (next_call fo next_poll) (run_coroutine 6) fuel (InPlace t) GlobalQueue w = (Done true, w).
Proof.
  intros Hk Hq. apply (drain_stops _ _ fuel (InPlace t) GlobalQueue w []); [by cbn; rewrite Hq|].
  right. unfold flag. cbn. by rewrite Hk.
Qed.

Lemma in_place_turn fuel env envs w :
  running w ->
  in_place fuel (env :: envs) (InPlace t) w =
    bind (loop_once fuel env (InPlace t))
      (fun b : bool => if b then in_place fuel envs (InPlace t) else ret false) w.
Proof. intros Hk. cbn [Worker_run_in_place]. mred. cbn [worker_of]. by rewrite Hk. Qed.

Lemma idle_turns fuel envs envs' w w' :
  idles envs w w' -> running w ->
  in_place fuel (envs ++ envs') (InPlace t) w = in_place fuel envs' (InPlace t) w'.
Proof.
  induction 1 as [w|env envs w w1 w2 Hq Hp _ IH]; intros Hk; [done|].
  cbn [app]. rewrite in_place_turn by done. unfold bind at 1.
  rewrite (turn_polls fuel env w w) by (try done; by apply empty_drain).
  rewrite (bind_done _ _ _ _ _ Hp). cbn. apply IH. unfold running.
  pose proof (Driver_poll_rest env t w) as (_&Hi&_). rewrite Hp in Hi. cbn in Hi. by rewrite Hi.
Qed.

(** The first turn starts the coroutines, which suspend at the object. *)
Lemma first_turn fuel env envs h w w1 :
  fresh_heap h -> running w -> w_heap w = called_heap h -> w_handles_ w = [(Some cw, None)] ->
  first_poll (set_events (create (w_events w)) (set_heap (waiting_heap None h) (set_handles [] w))) =
    (Done Pending, w1) -> w_handles_ w1 = [] -> running w1 ->
  in_place (S fuel) (env :: envs) (InPlace t) w = in_place (S fuel) (env :: envs) (InPlace t) w1.
Proof.
  intros Hh Hk Hw Hq Hp Hq1 Hk1. rewrite !in_place_turn by done. unfold bind at 1 2.
  rewrite (turn_polls _ env w w1), (turn_polls _ env w1 w1); try done; [by apply empty_drain|].
  rewrite (drain_step _ _ fuel (InPlace t) w [] (Some cw, None)); [|unfold flag; cbn; by rewrite Hk|done].
  unfold run_entry. cbn [fst snd]. unfold resume_handle.
  rewrite (bind_done _ _ _ tt w1); [by apply empty_drain|].
  rewrite (bind_done _ _ _ cw (set_handles [] w)) by done. by apply (first_resume h).
Qed.

(** The loop ends after a turn in which the worker was suspended. *)
Lemma turn_ends fuel env envs w w1 :
  running w ->
  resume_queue (next_call fo next_poll) (run_coroutine 6) fuel (InPlace t) GlobalQueue w =
    (Done true, set_in_place (mkWorker true []) w1) ->
  in_place fuel (env :: envs) (InPlace t) w = (Done true, set_in_place (mkWorker false []) w1).
Proof.
  intros Hk Hd. rewrite in_place_turn by done. unfold Worker_run_loop_once.
  unfold bind at 2. unfold bind at 1. rewrite (local_queue_empty _ w Hk). cbn [negb].
  unfold is_suspended. mred. cbn [worker_of]. rewrite Hk. cbn [suspend_flag_]. rewrite Hd. cbn.
  by destruct envs.
Qed.

(** The runtime after the coroutines have ended, in a state in which the object was
    ready with [v]. *)
Definition ended (h : Heap V) (v : V) w : World R V :=
  set_in_place (mkWorker false []) (set_heap h (keep v (set_events (destroy (w_events w)) w))).

(** The turn in which the object's entry is served ends the loop. *)
Lemma last_turn fuel env envs h v w w1 :
  fresh_heap h -> running w -> w_heap w = waiting_heap None h -> w_handles_ w = [(Some cu, Some fo)] ->
  next_poll (set_handles [] w) = (Done (Ready v), w1) -> w_heap w1 = w_heap w ->
  running w1 ->
  in_place (S fuel) (env :: envs) (InPlace t) w = (Done true, ended h v w1).
Proof.
  intros Hh Hk Hw Hq Hp Hw1 Hk1. set (r := if void then None else Some v).
  assert (Future_poll_wrapper w_heap set_heap (next_call fo next_poll) fo (set_handles [] w) =
    (Done true, set_heap (waiting_heap r h) w1)) as Hpw.
  { unfold Future_poll_wrapper, try_catch.
    rewrite (bind_done _ _ _ (object None) (set_handles [] w)).
    2:{ unfold get_fut, zoom. mred. cbn. rewrite Hw. cbn. rewrite lookup_insert_eq.
        destruct w; cbn in *; by subst. }
    unfold next_call. rewrite decide_True by done. rewrite (bind_done _ _ _ _ _ Hp).
    unfold r. cbn [f_void object]. destruct void.
    - unfold bind, ret. rewrite <- Hw, <- Hw1. by rewrite set_heap_id.
    - unfold zoom, upd_fut, get_fut, set_fut. mred. rewrite Hw1, Hw. cbn. rewrite lookup_insert_eq. cbn.
      by rewrite insert_insert_eq. }
  set (w2 := set_in_place (mkWorker true [])
    (set_heap h (keep v (set_events (destroy (w_events w1)) w1)))).
  assert (resume_queue (next_call fo next_poll) (run_coroutine 6) (S fuel) (InPlace t) GlobalQueue w =
    (Done true, w2)) as Hd.
  { rewrite (drain_step _ _ fuel (InPlace t) w [] (Some cu, Some fo)); [|unfold flag; cbn; by rewrite Hk|done].
    unfold run_entry. cbn [fst snd]. rewrite (bind_done _ _ _ tt w2).
    - eapply (drain_stops _ _ fuel (InPlace t) GlobalQueue w2); [done|by left].
    - rewrite (bind_done _ _ _ _ _ Hpw). unfold resume_handle.
      rewrite (bind_done _ _ _ cu (set_heap (waiting_heap r h) w1)) by done.
      erewrite (last_resume h r v); [|done|done|unfold r; by intros ->]. cbn. rewrite Hk1.
      unfold w2, keep. by destruct void. }
  by rewrite (turn_ends _ env envs w _ Hk Hd).
Qed.

(** The first turn ends the loop when the object's first poll finishes. *)
Lemma ready_turn fuel env envs h v w w1 :
  fresh_heap h -> running w -> w_heap w = called_heap h -> w_handles_ w = [(Some cw, None)] ->
  first_poll (set_events (create (w_events w)) (set_heap (waiting_heap None h) (set_handles [] w))) =
    (Done (Ready v), w1) -> w_heap w1 = waiting_heap None h -> running w1 ->
  in_place (S fuel) (env :: envs) (InPlace t) w = (Done true, ended h v w1).
Proof.
  intros Hh Hk Hw Hq Hp Hw1 Hk1.
  set (w2 := set_in_place (mkWorker true [])
    (set_heap h (keep v (set_events (destroy (w_events w1)) w1)))).
  apply (turn_ends _ env envs w w2 Hk).
  rewrite (drain_step _ _ fuel (InPlace t) w [] (Some cw, None)); [|unfold flag; cbn; by rewrite Hk|done].
  unfold run_entry. cbn [fst snd]. unfold resume_handle. rewrite (bind_done _ _ _ tt w2).
  - eapply (drain_stops _ _ fuel (InPlace t) GlobalQueue w2); [done|by left].
  - rewrite (bind_done _ _ _ cw (set_handles [] w)) by done.
    rewrite (first_resume_ready h v _ w1) by done. by rewrite Hk1.
Qed.

(** [block_on] calls the coroutines and enters the loop. *)
Definition called_state w : World R V :=
  set_handles [(Some cw, None)] (set_heap (called_heap (w_heap w)) (if void then w else set_result None w)).

(** What the call returns after the loop. *)
Definition call_result w : option V := if void then Some done else w_result w.

Lemma block_on_starts fuel envs w :
  fresh_heap (w_heap w) -> w_handles_ w = [] ->
  block_on t cw cb cu fw fb fu fo done void create destroy first_poll next_poll fuel envs w =
    (let! b := in_place fuel envs (InPlace t) in
     if b then let! w := get in let! v := deref (call_result w) in ret (Some v) else ret None)
      (called_state w).
Proof.
  intros Hh Hq. destruct Hh as [Hff Hfr]. destruct distinct_futures as (?&?&?&?&?&?), distinct_frames as (?&?&?).
  unfold block_on. rewrite (bind_done _ _ _ _ _ (co_call_run _ _ _ _)). set (w1 := set_heap _ _).
  rewrite (bind_done _ _ _ tt (if void then w1 else set_result None w1)) by (by destruct void).
  rewrite (bind_done _ _ _ _ _ (co_call_run _ _ _ _)). set (w2 := set_heap _ _).
  unfold Runtime_block_on.
  assert (RuntimeCore_spawn_impl cw fw w2 = (Done tt, called_state w)) as Hsp.
  { rewrite spawn_impl_run. unfold called_state, w2, w1. destruct void eqn:E;
      unfold set_handles, set_heap, set_result; cbn; rewrite Hq; do 3 f_equal;
      unfold called_heap, called_fu, frame_cu; rewrite E; f_equal; apply delete_id;
      rewrite !lookup_insert_ne by done; apply Hff; set_solver. }
  by rewrite (bind_done _ _ _ _ _ Hsp).
Qed.

(** *** The whole call *)

(** The state in which the object was polled for the first time. *)
Definition first_state w : World R V :=
  set_events (create (w_events w))
    (set_heap (waiting_heap None (w_heap w))
      (set_handles [] (if void then w else set_result None w))).

(** How the runtime is when [block_on] is called and the object's first poll does not
    finish. *)
Record suspends w w1 : Prop := {
  su_fresh : fresh_heap (w_heap w);
  su_queue : w_handles_ w = [];
  su_running : running w;
  su_poll : first_poll (first_state w) = (Done Pending, w1);
  su_heap : w_heap w1 = waiting_heap None (w_heap w);
  su_queue1 : w_handles_ w1 = [];
  su_running1 : running w1;
}.

Lemma block_on_loop fuel env envs w w1 :
  suspends w w1 ->
  block_on t cw cb cu fw fb fu fo done void create destroy first_poll next_poll (S fuel) (env :: envs) w =
    (let! b := in_place (S fuel) (env :: envs) (InPlace t) in
     if b then let! w := get in let! v := deref (call_result w) in ret (Some v) else ret None) w1.
Proof.
  intros [Hh Hq Hk Hp Hw1 Hq1 Hk1]. rewrite block_on_starts by done. unfold bind.
  rewrite (first_turn fuel env envs (w_heap w) _ w1); try done.
  - unfold running, called_state. by destruct void.
  - rewrite <- Hp. unfold first_state, called_state. by destruct void.
Qed.

(** When the object's first poll finishes, the call returns in the first turn. *)
Lemma block_on_ready fuel env envs w w1 v :
  fresh_heap (w_heap w) -> w_handles_ w = [] -> running w ->
  first_poll (first_state w) = (Done (Ready v), w1) ->
  w_heap w1 = waiting_heap None (w_heap w) -> running w1 ->
  block_on t cw cb cu fw fb fu fo done void create destroy first_poll next_poll (S fuel) (env :: envs) w =
    (Done (Some (value_of v)), ended (w_heap w) v w1).
Proof.
  intros Hh Hq Hk Hp Hw1 Hk1. rewrite block_on_starts by done. unfold bind at 1.
  rewrite (ready_turn fuel env envs (w_heap w) v _ w1); try done.
  - unfold call_result, value_of, ended, keep. mred. by destruct void.
  - unfold running, called_state. by destruct void.
  - rewrite <- Hp. unfold first_state, called_state. by destruct void.
Qed.

(** While the driver wakes nothing the call does not return. *)
Lemma block_on_waits fuel envs w w1 w2 :
  suspends w w1 -> envs <> [] -> idles envs w1 w2 ->
  block_on t cw cb cu fw fb fu fo done void create destroy first_poll next_poll (S fuel) envs w = (Done None, w2).
Proof.
  intros Hs Hne Hi. destruct envs as [|env envs]; [done|]. rewrite (block_on_loop _ _ _ _ _ Hs).
  unfold bind. rewrite <- (app_nil_r (env :: envs)), (idle_turns _ _ [] w1 w2 Hi) by apply Hs.
  cbn [Worker_run_in_place]. mred. cbn [worker_of].
  destruct (idles_rest _ _ _ Hi) as (_&Hk&_). rewrite Hk, (su_running1 _ _ Hs). done.
Qed.

(** Once the driver has queued the object's entry, the next turn runs the coroutines to
    their ends and the call returns the object's value; the heap is as it was before the
    call. *)
Lemma block_on_ends fuel envs env envs' w w1 w2 w3 v :
  suspends w w1 -> envs <> [] -> idles envs w1 w2 -> w_handles_ w2 = [(Some cu, Some fo)] ->
  next_poll (set_handles [] w2) = (Done (Ready v), w3) -> w_heap w3 = w_heap w2 -> running w3 ->
  block_on t cw cb cu fw fb fu fo done void create destroy first_poll next_poll (S fuel)
    (envs ++ env :: envs') w = (Done (Some (value_of v)), ended (w_heap w) v w3).
Proof.
  intros Hs Hne Hi Hq2 Hp Hw3 Hk3. destruct envs as [|env0 envs]; [done|]. cbn [app].
  rewrite (block_on_loop _ _ _ _ _ Hs). unfold bind at 1.
  change (env0 :: envs ++ env :: envs') with ((env0 :: envs) ++ env :: envs').
  rewrite (idle_turns _ _ _ w1 w2 Hi) by apply Hs. destruct (idles_rest _ _ _ Hi) as (Hh2&Hk2&_).
  rewrite (last_turn _ _ _ (w_heap w) v w2 w3); try done; [|by apply Hs| | ].
  - unfold call_result, value_of, ended, keep. mred. by destruct void.
  - unfold running. rewrite Hk2. by apply Hs.
  - rewrite Hh2. by apply Hs.
Qed.
End Run.
