(* ===== verification/BlockOnTime.v ===== *)
(** [block_on(sleep(d))], from the call to its return: the coroutines of [BlockOn.v]
    with the future object of [sleep], the driver and the timing wheel. *)
From stdpp Require Import base gmap list sets.
From Stdlib Require Import ZArith Lia.
From S2P Require Import Prelude Errors Events Wheel WheelSpec Futures Core Driver DriverSpec TimeRegistry TimeSpec Worker WorkerSpec BlockOn BlockOnSpec.
#[local] Open Scope Z_scope.

Section Sleep.
Context {V : Type}.
Implicit Types (w : World Wheel V).
Variables (t : tid) (cw cb cu : hid) (fw fb fu fo : fid) (done : V).

(** The virtual [poll] of the object of [sleep], whose members are [s]. *)
Definition sleep_poll (c : Z) (s : SleepFuture) : M (World Wheel V) (Poll V) := fun w =>
  let '(o, (_, w')) := SleepFuture_poll c c t fo (s, w) in
  (match o with
   | Done Pending => Done Pending
   | Done (Ready _) => Done (Ready done)
   | Thrown x => Thrown x
   | Undef => Undef
   end, w').

(** [runtime->block_on(sleep(d))] with the clock at [c] when the object is polled
    first; the object's event is at [e].  The poll sets [ready_]. *)
Definition block_on_sleep (e : eid) (d c : Z)
    : nat -> list (nat -> Z) -> M (World Wheel V) (option V) :=
  block_on t cw cb cu fw fb fu fo done true
    (fun es => snd (SleepFuture_new e d es)) id
    (sleep_poll c (mkSleepFuture false d e)) (sleep_poll c (mkSleepFuture true d e)).

(** The readings of the clock, one per selection. *)
Definition clocks (ts : list Z) : list (nat -> Z) := (fun t _ => t) <$> ts.

Hypothesis Hfid : NoDup [fw; fb; fu; fo].
Hypothesis Hhid : NoDup [cw; cb; cu].

Variables (e : eid) (d c : Z).
#[local] Abbreviation in_place := (Worker_run_in_place
  (next_call fo (sleep_poll c (mkSleepFuture true d e)))
  (resume t cw cb cu fb fu fo done true (fun es => snd (SleepFuture_new e d es)) id
     (sleep_poll c (mkSleepFuture false d e)) 6)).
#[local] Abbreviation waiting := (waiting_heap cw cb cu fb fu fo true None).

(** The runtime while the coroutine sleeps until [T]. *)
Record sleeping (a : nat) (lag T : Z) (h : Heap V) w (wheel : Wheel) : Prop := {
  sl_timed : timed t a lag w wheel;
  sl_stored : stored wheel = [e];
  sl_event : w_events w !! e = Some (mkEvent (Some fo) (Some (ETime (mkTimeExtra T))));
  sl_heap : w_heap w = waiting h;
  sl_queue : w_handles_ w = [];
  sl_running : running w;
}.

Lemma sleeping_due a lag T h w wheel now :
  sleeping a lag T h w wheel -> due (w_events w) now e <-> T < now + ticks_per_ms.
Proof.
  intros Hs. unfold due, time_extra. rewrite (sl_event _ _ _ _ _ _ Hs). split.
  - intros (? & [= <-] & ?). cbn in *. lia.
  - intros. eexists. split; [done|]. cbn. lia.
Qed.

(** A poll of the driver either wakes the sleeping coroutine, when its time has come by
    the clock, or leaves it sleeping, when it has not come by the time of the wheel. *)
Lemma sleeping_poll a lag T h w wheel now :
  sleeping a lag T h w wheel -> tick wheel + to_ms (Z.max (now_ wheel) now - now_ wheel) < capacity ->
  let now' := Z.max (now_ wheel) now in let lag' := next_lag lag wheel now' in
  exists w' wheel',
    Driver_poll (fun _ => now) t w = (Done tt, w') /\
    now_ wheel' = now' /\ tick wheel' = tick wheel + to_ms (now' - now_ wheel) /\
    w_heap w' = waiting h /\ running w' /\
    ((w_handles_ w' = [(Some cu, Some fo)] /\ now_ wheel < now' /\ T < now' + ticks_per_ms) \/
     (sleeping a lag' T h w' wheel' /\ (now_ wheel < now' -> ~ T < now' - lag' + ticks_per_ms))).
Proof.
  intros Hs Hcap now' lag'. destruct (timed_poll_any t a lag w wheel now) as
    (w' & wheel' & out & xs & Hrun & Htm & Hwk & Hn & Ht & Hp & Hd & Hr & Hst); [apply Hs|done|].
  fold now' in Hn, Ht, Hd, Hr, Hst, Htm. fold lag' in Hr, Hst, Htm.
  pose proof (Driver_poll_rest (fun _ => now) t w) as (Hh&Hi&_).
  rewrite Hrun in Hh, Hi. cbn in Hh, Hi.
  exists w', wheel'. split_and!; try done; [by rewrite Hh; apply Hs|unfold running; rewrite Hi; apply Hs|].
  destruct Hwk as [Hent Hq Hfut Hext _]. rewrite (sl_queue _ _ _ _ _ _ Hs) in Hq. cbn in Hq.
  rewrite (sl_stored _ _ _ _ _ _ Hs) in Hp. symmetry in Hp. apply Permutation_singleton_r in Hp.
  destruct out as [|e' out]; cbn in Hp.
  - right. cbn in Hent. injection Hent as <-. split.
    2:{ intros Hlt. rewrite <- (sleeping_due a lag T h w wheel) by done. apply Hr; [done|].
        rewrite Hp. by left. }
    specialize (Hfut e). specialize (Hext e). rewrite decide_False in Hfut by set_solver.
    unfold future_of, extra_of in Hfut, Hext. rewrite (sl_event _ _ _ _ _ _ Hs) in Hfut, Hext.
    constructor; try done; [|by rewrite Hh; apply Hs| |unfold running; rewrite Hi; apply Hs].
    + destruct (w_events w' !! e) as [[f x]|]; cbn in Hfut, Hext; by simplify_eq.
    + unfold fifo in Hq. cbn in Hq. apply (f_equal (@rev _)) in Hq. by rewrite rev_involutive in Hq.
  - left. injection Hp as -> Hout. apply app_eq_nil in Hout as [-> _]. cbn in Hent. split_and!.
    + rewrite (entry_of_for _ _ _ fo (object cu true None)) in Hent.
      * cbn in Hent. injection Hent as <-. unfold fifo in Hq. cbn in Hq.
        apply (f_equal (@rev _)) in Hq. by rewrite rev_involutive in Hq.
      * rewrite (sl_heap _ _ _ _ _ _ Hs). cbn. by rewrite lookup_insert_eq.
      * unfold future_of. by rewrite (sl_event _ _ _ _ _ _ Hs).
    + destruct (decide (now_ wheel = now')) as [E|]; [by destruct (Hst E) as [? _]|unfold now' in *; lia].
    + apply (sleeping_due a lag T h w wheel); [done|]. apply Hd. by left.
Qed.

Lemma in_place_idle fuel env envs w w' :
  running w -> w_handles_ w = [] -> Driver_poll env t w = (Done tt, w') ->
  in_place fuel (env :: envs) (InPlace t) w = in_place fuel envs (InPlace t) w'.
Proof.
  intros Hk Hq Hp. apply (idle_turns t cw cb cu fb fu fo done true _ _ _ _ fuel [env] envs w w'); [|done].
  by econstructor; [..|constructor].
Qed.

(** The loop ends in the turn after the poll that finds the time come: by the time of
    the wheel at the latest, by the clock at the earliest.  The turn after the readings
    [ts] polls at [t'] or resumes the coroutine. *)
Lemma sleeping_loop fuel a lag T h ts t' w wheel :
  fresh_heap cw cb cu fw fb fu fo h -> sleeping a lag T h w wheel ->
  tick wheel + ms_walked (now_ wheel) (ts ++ [t']) < capacity ->
  let now' := clock_after (now_ wheel) ts in let lag' := lag_after lag (now_ wheel) ts in
  exists (r : bool) w', in_place (S fuel) (clocks (ts ++ [t'])) (InPlace t) w = (Done r, w') /\
    (now_ wheel < now' -> T < now' - lag' + ticks_per_ms -> r = true) /\
    (r = true -> now_ wheel < now' /\ T < now' + ticks_per_ms /\ w_heap w' = h /\ running w').
Proof.
  intros Hh. revert lag w wheel. induction ts as [|t1 ts IH]; intros lag w wheel Hs Hcap now' lag'.
  - cbn [app clocks fmap list_fmap] in *. cbn [ms_walked] in Hcap.
    destruct (sleeping_poll a lag T h w wheel t' Hs) as (w' & wheel' & Hp & _ & _ & _ & Hk' & _); [lia|].
    rewrite (in_place_idle _ _ _ w w' (sl_running _ _ _ _ _ _ Hs) (sl_queue _ _ _ _ _ _ Hs) Hp).
    exists false, w'. unfold now'. cbn [clock_after foldl]. split_and!; [|lia|done].
    cbn [Worker_run_in_place]. mred. cbn [worker_of]. by rewrite Hk'.
  - change (clocks ((t1 :: ts) ++ [t'])) with ((fun _ : nat => t1) :: clocks (ts ++ [t'])).
    cbn [app ms_walked] in Hcap. pose proof (ms_walked_nonneg (Z.max (now_ wheel) t1) (ts ++ [t'])).
    destruct (sleeping_poll a lag T h w wheel t1 Hs) as (w' & wheel' & Hp & Hn & Ht & Hh' & Hk' & Hif); [lia|].
    rewrite (in_place_idle _ _ _ w w' (sl_running _ _ _ _ _ _ Hs) (sl_queue _ _ _ _ _ _ Hs) Hp).
    unfold now', lag'. rewrite clock_after_cons, lag_after_cons.
    pose proof (clock_after_ge (Z.max (now_ wheel) t1) ts).
    destruct Hif as [(Hq & Hlt & Hdue)|[Hsl Hnot]].
    + destruct (ts ++ [t']) as [|t2 ts2] eqn:E; [by destruct ts|].
      change (clocks (t2 :: ts2)) with ((fun _ : nat => t2) :: clocks ts2).
      exists true, (ended true id h done (set_handles [] w')). split_and!; [|done|].
      * by apply (last_turn t cw cb cu fw fb fu fo done true).
      * intros _. split_and!; [lia|lia|done|done].
    + destruct (IH _ w' wheel' Hsl) as (r & w2 & Hrun & Hsure & Hend); [rewrite Hn; lia|].
      rewrite Hn in Hsure, Hend. exists r, w2. split_and!; [done| |].
      * intros Hlt HT. destruct (Z.lt_ge_cases (Z.max (now_ wheel) t1) (clock_after (Z.max (now_ wheel) t1) ts)) as [Hl|Hl].
        { by apply Hsure. }
        destruct Hnot; [lia|]. rewrite lag_after_stays in HT by lia.
        replace (clock_after (Z.max (now_ wheel) t1) ts) with (Z.max (now_ wheel) t1) in HT by lia.
        exact HT.
      * intros Hr. destruct (Hend Hr) as (? & ? & ? & ?). split_and!; [lia|done..].
Qed.

(** The object's first poll files its event and suspends the coroutine. *)
Lemma sleep_suspends a lag w wheel :
  timed t a lag w wheel -> stored wheel = [] -> fresh_heap cw cb cu fw fb fu fo (w_heap w) ->
  w_handles_ w = [] -> running w ->
  tick wheel + Z.max 0 (to_ms (c + d * ticks_per_ms - now_ wheel)) < capacity ->
  exists w1 wheel1,
    suspends cw cb cu fw fb fu fo true (fun es => snd (SleepFuture_new e d es))
      (sleep_poll c (mkSleepFuture false d e)) w w1 /\
    sleeping a lag (c + d * ticks_per_ms) (w_heap w) w1 wheel1 /\
    now_ wheel1 = now_ wheel /\ tick wheel1 = tick wheel.
Proof.
  intros Htm Hst Hh Hq Hk Hcap.
  set (create := fun es => snd (SleepFuture_new e d es)).
  set (w0 := first_state cw cb cu fb fu fo true create w).
  assert (timed t a lag w0 wheel) as Htm0.
  { destruct Htm as [Hl Hr Hlag Hi Hnd Hbd]. constructor; try done; [|by rewrite Hst; intros ? ?%not_elem_of_nil].
    eapply winv_ext; [|exact Hi]. rewrite Hst. by intros ? ?%not_elem_of_nil. }
  destruct (sleep_first_poll t a lag w0 wheel (mkSleepFuture false d e) c fo (object cu true None)
    (mkEvent None (Some (ETime (mkTimeExtra (- 2 ^ 63))))) (mkTimeExtra (- 2 ^ 63)))
    as (w1 & wheel1 & Hrun & Htm1 & Hn & Ht & Hp & Hes & Hheap & Hq1 & Hi1); try done.
  { rewrite Hst. apply not_elem_of_nil. }
  { cbn. by rewrite lookup_insert_eq. }
  { cbn. by rewrite lookup_insert_eq. }
  exists w1, wheel1. split_and!; [| |done|done].
  - constructor; try done; [|unfold running; by rewrite Hi1].
    unfold sleep_poll. fold create w0. by rewrite Hrun.
  - constructor; [done| | |by rewrite Hheap|by rewrite Hq1|unfold running; by rewrite Hi1].
    + apply Permutation_singleton_r. by rewrite Hp, Hst.
    + rewrite Hes. cbn. by rewrite lookup_insert_eq.
Qed.

End Sleep.
