(* ===== verification/FlowWitness.v ===== *)
(** Concrete runs of the theorems on building a runtime and on [block_on]. *)
From stdpp Require Import base gmap list sets.
From Stdlib Require Import ZArith Lia.
From S2P Require Import Prelude Errors Events Wheel WheelSpec Futures Core Driver DriverSpec TimeRegistry TimeSpec TimeWitness Worker WorkerSpec Build BlockOn BlockOnSpec BlockOnTime.

(** ** Building *)

(** Memory in which nothing has been built. *)
Definition bare_world : World Wheel nat :=
  mkWorld (mkHeap ∅ ∅) ∅ [] (mkWorker true []) ∅ (mkDriver [] ∅) ∅ ∅ 9 None.

(** Two worker threads, a registry of each kind. *)
Definition two_kinds : Builder Wheel :=
  Builder_registry (mkInitializer 2 false (Wheel_new 5))
    (Builder_registry (mkInitializer 1 true (Wheel_new 0))
      (Builder_worker_threads 2 Builder_new_multi_thread)).

Lemma build_gives_registries_witness :
  exists w', Builder_build two_kinds 10 [11; 12; 13] 100 bare_world = (Done (Value tt), w') /\
    w_handles_ w' = [] /\
    (exists r r', registry_of 10 1 w' = Some r /\ registry_of 12 1 w' = Some r' /\ r = r') /\
    (exists r r', registry_of 10 2 w' = Some r /\ registry_of 12 2 w' = Some r' /\ r <> r' /\
       w_registries w' !! r = Some (Wheel_new 5)).
Proof.
  destruct (build_gives_registries two_kinds 10 [11; 12; 13] 100 bare_world)
    as (w' & Hrun & Hq & _ & _ & _ & _ & _ & Hreg).
  - repeat constructor; set_solver.
  - repeat constructor; set_solver.
  - done.
  - exists w'. split; [exact Hrun|]. split; [exact Hq|]. split.
    + destruct (Hreg 10 12 (mkInitializer 1 true (Wheel_new 0))) as (r & r' & H1 & H2 & _ & Hiff);
        [set_solver|set_solver|set_solver|].
      exists r, r'. split; [exact H1|]. split; [exact H2|]. apply Hiff. by right.
    + destruct (Hreg 10 12 (mkInitializer 2 false (Wheel_new 5))) as (r & r' & H1 & H2 & Hr & Hiff);
        [set_solver|set_solver|set_solver|].
      exists r, r'. split; [exact H1|]. split; [exact H2|]. split; [|exact Hr].
      intros E. apply Hiff in E as [|]; done.
Defined.

(** ** [block_on(sleep(50ms))] *)

(** A runtime with nothing to do; thread 0 drives the wheel at address 100. *)
Definition idle_runtime : World Wheel nat :=
  mkWorld (mkHeap ∅ ∅) ∅ [] (mkWorker false []) ∅
    (mkDriver [] {[0 := [(TimeRegistry_hash, 100)]]}) {[100 := Wheel_new 0]} ∅ 0 None.

Lemma idle_runtime_timed : timed 0 100 0 idle_runtime (Wheel_new 0).
Proof.
  constructor; [reflexivity|reflexivity|reflexivity|apply winv_Wheel_new|rewrite stored_new; constructor|].
  intros e. rewrite stored_new. by intros ?%elem_of_nil.
Qed.

