(* ===== verification/Scheduler.v ===== *)
(** Many threads: the interleavings of the workers on the runtime's queue
    ([run_loop_once], [wake], [spawn_impl], [register_future] of
    [src/runtime/core.cc]) and the start-up of the workers
    ([Worker::init_in_thread]), as step relations. *)
From stdpp Require Import base gmap list relations sets fin_maps.
From Stdlib Require Import Lia.
From S2P Require Import Prelude Errors Events Futures Core Worker WorkerSpec.

(** ** The queue under its mutex *)
Module Queue.
(** Where a worker is in the lambda [resume]: outside it, at the test of its
    loop with the lock held, running an entry with the lock released, or
    blocked at [lock_guard.lock()]. *)
Inductive WorkerPc : Type :=
| Outside
| AtTest
| Running (x : Entry)
| Relocking.

#[global] Instance WorkerPc_eq_dec : EqDecision WorkerPc.
Proof. solve_decision. Defined.

(** [s_owner] is the thread that holds [handle_mutex_]; [pushed], [popped] and
    [ended] record the entries queued, taken and run so far. *)
Record QueueState : Type := mkQueueState {
  s_handles : list Entry;
  s_owner : option tid;
  s_pc : tid -> WorkerPc;
  s_end : tid -> bool;
  pushed : list Entry;
  popped : list Entry;
  ended : list Entry;
}.

Definition set_pc (t : tid) (p : WorkerPc) (f : tid -> WorkerPc) : tid -> WorkerPc :=
  fun t' => if decide (t' = t) then p else f t'.

Definition queue_init (flags : tid -> bool) : QueueState :=
  mkQueueState [] None (fun _ => Outside) flags [] [] [].

(** The critical sections of [wake], [spawn_impl] and [register_future] are
    one push; a failed [try_lock] changes nothing. *)
Inductive queue_step : QueueState -> QueueState -> Prop :=
| step_push s x :
    s_owner s = None ->
    queue_step s (mkQueueState (x :: s_handles s) None (s_pc s) (s_end s)
              (pushed s ++ [x]) (popped s) (ended s))
| step_try_lock s t :
    s_pc s t = Outside -> s_owner s = None ->
    queue_step s (mkQueueState (s_handles s) (Some t) (set_pc t AtTest (s_pc s)) (s_end s)
              (pushed s) (popped s) (ended s))
| step_leave s t :
    s_pc s t = AtTest -> s_end s t = true \/ s_handles s = [] ->
    queue_step s (mkQueueState (s_handles s) None (set_pc t Outside (s_pc s)) (s_end s)
              (pushed s) (popped s) (ended s))
| step_pop s t l x :
    s_pc s t = AtTest -> s_end s t = false -> unsnoc (s_handles s) = Some (l, x) ->
    queue_step s (mkQueueState l None (set_pc t (Running x) (s_pc s)) (s_end s)
              (pushed s) (popped s ++ [x]) (ended s))
| step_run s t x :
    s_pc s t = Running x ->
    queue_step s (mkQueueState (s_handles s) (s_owner s) (set_pc t Relocking (s_pc s)) (s_end s)
              (pushed s) (popped s) (ended s ++ [x]))
| step_relock s t :
    s_pc s t = Relocking -> s_owner s = None ->
    queue_step s (mkQueueState (s_handles s) (Some t) (set_pc t AtTest (s_pc s)) (s_end s)
              (pushed s) (popped s) (ended s))
| step_suspend s t b :
    queue_step s (mkQueueState (s_handles s) (s_owner s) (s_pc s)
              (fun t' => if decide (t' = t) then b else s_end s t')
              (pushed s) (popped s) (ended s)).

Definition queue_reachable (s : QueueState) : Prop :=
  exists flags, rtc queue_step (queue_init flags) s.

(** The lock is held by the worker at the test and by no other; the queue is
    what was pushed and not popped. *)
Record queue_inv (s : QueueState) : Prop := {
  inv_lock : forall t, s_pc s t = AtTest <-> s_owner s = Some t;
  inv_fifo : pushed s = popped s ++ fifo (s_handles s);
  inv_running : forall t x, s_pc s t = Running x -> x ∈ popped s;
}.

Lemma inv_init flags : queue_inv (queue_init flags).
Proof. by constructor. Qed.

Lemma set_pc_lock t p f owner :
  (forall t', f t' = AtTest <-> owner = Some t') -> owner = None \/ owner = Some t ->
  p <> AtTest -> forall t', set_pc t p f t' = AtTest <-> None = Some t'.
Proof.
  intros Hl Ho Hp t'. unfold set_pc. case_decide as Ht; [naive_solver|].
  rewrite Hl. destruct Ho as [->| ->]; naive_solver.
Qed.

Lemma inv_step s s' : queue_inv s -> queue_step s s' -> queue_inv s'.
Proof.
  intros [Hl Hf Hr] Hstep. destruct Hstep; constructor; cbn; try done.
  - by rewrite H in Hl.
  - rewrite Hf, <- (assoc (++)). done.
  - intros t'. unfold set_pc. case_decide as Ht; [by subst|].
    rewrite Hl, H0. naive_solver.
  - intros t' x. unfold set_pc. case_decide; [done|]. apply Hr.
  - eapply set_pc_lock; [done| |done]. right. by apply Hl.
  - intros t' x. unfold set_pc. case_decide; [done|]. apply Hr.
  - eapply set_pc_lock; [done| |done]. right. by apply Hl.
  - pose proof (unsnoc_spec (s_handles s)) as Hu. rewrite H1 in Hu. rewrite Hf, Hu.
    unfold fifo. rewrite rev_app_distr. cbn. by rewrite <- (assoc (++)).
  - intros t' y. unfold set_pc. case_decide as Ht; [intros [= ->]; set_solver|].
    intros Hy. apply Hr in Hy. set_solver.
  - intros t'. unfold set_pc. case_decide as Ht; [subst|apply Hl].
    split; [done|]. intros Ho. apply Hl in Ho. congruence.
  - intros t' y. unfold set_pc. case_decide; [done|]. apply Hr.
  - intros t'. unfold set_pc. case_decide as Ht; [by subst|].
    rewrite Hl, H0. naive_solver.
  - intros t' x. unfold set_pc. case_decide; [done|]. apply Hr.
Qed.

Lemma reachable_inv s : queue_reachable s -> queue_inv s.
Proof. intros [flags Hr]. eapply rtc_invariant; [exact inv_step|apply inv_init|done]. Qed.

(** C8.  However the threads interleave, at most one worker is inside the
    critical section of the queue, and the entries are taken in exactly the
    order they were pushed, each once: what was taken is a prefix of what was
    pushed and the rest is still queued. *)
Theorem queue_is_fifo s (Hs : queue_reachable s) :
  (forall t1 t2, s_pc s t1 = AtTest -> s_pc s t2 = AtTest -> t1 = t2) /\
  pushed s = popped s ++ fifo (s_handles s).
Proof.
  apply reachable_inv in Hs as [Hl Hf _]. split; [|done].
  intros t1 t2 H1%Hl H2%Hl. congruence.
Qed.

(** C25.  The oldest entry cannot be stuck: when the queue is not empty and a worker [t] is
    neither suspended nor inside a coroutine, there are steps after which the oldest entry
    is taken, and it is [t] that takes it, unless another worker that is not suspended
    holds the lock: then that one does.  A suspended worker that holds the lock leaves it
    to [t]. *)
Theorem queue_makes_progress s t x q
    (Hs : queue_reachable s) (Hq : fifo (s_handles s) = x :: q)
    (Hpc : forall y, s_pc s t <> Running y) (Hend : s_end s t = false) :
  exists s' t', rtc queue_step s s' /\ s_pc s' t' = Running x /\ popped s' = popped s ++ [x] /\
    (t' = t \/ (s_owner s = Some t' /\ s_end s t' = false)).
Proof.
  apply reachable_inv in Hs as [Hl Hf Hr].
  assert (unsnoc (s_handles s) = Some (rev q, x)) as Hu.
  { apply (f_equal (@rev _)) in Hq. unfold fifo in Hq. rewrite rev_involutive in Hq.
    rewrite Hq. cbn. apply unsnoc_snoc. }
  assert (forall s0 t0, s_pc s0 t0 = AtTest -> s_end s0 t0 = false -> s_handles s0 = s_handles s ->
    popped s0 = popped s ->
    exists s', queue_step s0 s' /\ s_pc s' t0 = Running x /\ popped s' = popped s ++ [x]) as Hpop.
  { intros s0 t0 Hp He Hh Hpp. eexists. split.
    - eapply step_pop; [done|done|by rewrite Hh].
    - cbn. rewrite Hpp. split; [|done]. unfold set_pc. by rewrite decide_True. }
  assert (forall s0, s_owner s0 = None -> s_pc s0 t = Outside \/ s_pc s0 t = Relocking ->
    s_end s0 t = false -> s_handles s0 = s_handles s -> popped s0 = popped s ->
    exists s', rtc queue_step s0 s' /\ s_pc s' t = Running x /\ popped s' = popped s ++ [x]) as Htake.
  { intros s0 Ho Hp He Hh Hpp.
    assert (exists s1, queue_step s0 s1 /\ s_pc s1 t = AtTest /\ s_end s1 t = false /\
      s_handles s1 = s_handles s /\ popped s1 = popped s) as (s1 & Hst & Hp1 & He1 & Hh1 & Hpp1).
    { destruct Hp; eexists.
      - split; [by apply (step_try_lock s0 t)|]. cbn. unfold set_pc. by rewrite decide_True.
      - split; [by apply (step_relock s0 t)|]. cbn. unfold set_pc. by rewrite decide_True. }
    destruct (Hpop s1 t) as (s' & Hst' & ? & ?); [done..|]. exists s'.
    split; [by eapply rtc_l; [|apply rtc_once]|done]. }
  assert (s_owner s <> Some t -> s_pc s t = Outside \/ s_pc s t = Relocking) as Hout.
  { intros Hne. destruct (s_pc s t) eqn:Hp; [by left|by apply Hl in Hp|by edestruct Hpc|by right]. }
  destruct (s_owner s) as [o|] eqn:Ho.
  - destruct (s_end s o) eqn:He.
    + assert (o <> t) as Hne by congruence.
      destruct (Htake (mkQueueState (s_handles s) None (set_pc o Outside (s_pc s)) (s_end s)
        (pushed s) (popped s) (ended s))) as (s' & Hst & Hp' & Hpp); try done.
      { cbn. unfold set_pc. rewrite decide_False by done. apply Hout. congruence. }
      exists s', t. split_and!; [|done..|by left]. eapply rtc_l; [|done].
      apply step_leave; [by apply Hl|by left].
    + destruct (Hpop s o) as (s' & Hst & Hp' & Hpp); [by apply Hl|done..|].
      exists s', o. split_and!; [by apply rtc_once|done..|by right].
  - destruct (Htake s) as (s' & Hst & Hp' & Hpp); [done|by apply Hout|done..|].
    exists s', t. split_and!; [done..|by left].
Qed.
End Queue.

(** ** The start-up barrier *)
Module Barrier.
(** A worker thread in [init_in_thread]: not yet in the critical section,
    blocked in [worker_launch_cv_.wait], about to call [notify_all], or past
    the barrier and in [run_in_place].  The critical section itself
    ([add_thread] and the increment, with [worker_launch_mutex_] held) is one
    step. *)
Inductive InitPc : Type := Starting | Waiting | Notifying | Passed.

#[global] Instance InitPc_eq_dec : EqDecision InitPc.
Proof. solve_decision. Defined.

(** [i_main] is whether the thread that builds the runtime has left the
    constructor; [i_pc] has one element per worker thread. *)
Record InitState : Type := mkInitState {
  init_worker_num_ : nat;
  i_pc : list InitPc;
  i_main : bool;
}.

(** [worker_num_] threads are created by the constructor. *)
Definition init_start (worker_num_ : nat) : InitState :=
  mkInitState 0 (replicate worker_num_ Starting) false.

Definition wake_waiter (p : InitPc) : InitPc :=
  match p with Waiting => Passed | p => p end.

(** [spurious] is whether [wait] may return without a notification. *)
Inductive init_step (spurious : bool) : InitState -> InitState -> Prop :=
| init_last s t :
    i_pc s !! t = Some Starting ->
    S (init_worker_num_ s) = length (i_pc s) ->
    init_step spurious s
      (mkInitState (S (init_worker_num_ s)) (<[t := Notifying]> (i_pc s)) (i_main s))
| init_wait s t :
    i_pc s !! t = Some Starting ->
    S (init_worker_num_ s) <> length (i_pc s) ->
    init_step spurious s
      (mkInitState (S (init_worker_num_ s)) (<[t := Waiting]> (i_pc s)) (i_main s))
| init_notify s t :
    i_pc s !! t = Some Notifying ->
    init_step spurious s
      (mkInitState (init_worker_num_ s)
         (wake_waiter <$> <[t := Passed]> (i_pc s)) (i_main s))
| init_spurious s t :
    spurious = true -> i_pc s !! t = Some Waiting ->
    init_step spurious s
      (mkInitState (init_worker_num_ s) (<[t := Passed]> (i_pc s)) (i_main s))
| init_built s :
    init_step spurious s (mkInitState (init_worker_num_ s) (i_pc s) true).

Definition init_reachable (spurious : bool) (n : nat) (s : InitState) : Prop :=
  rtc (init_step spurious) (init_start n) s.

(** Workers still to run [add_thread]. *)
Definition is_starting (p : InitPc) : nat := match p with Starting => 1 | _ => 0 end.
Definition starting : list InitPc -> nat :=
  sum_list_with is_starting.

Lemma starting_insert l t p q :
  l !! t = Some p -> starting (<[t := q]> l) + is_starting p =
    starting l + is_starting q.
Proof. apply sum_list_insert. Qed.

Lemma starting_wake l : starting (wake_waiter <$> l) = starting l.
Proof. unfold starting. induction l as [|[] l IH]; cbn; by rewrite ?IH. Qed.

Lemma starting_pos l : 0 < starting l -> Starting ∈ l.
Proof.
  unfold starting. induction l as [|[] l IH]; cbn; [lia|by left|right; by apply IH..].
Qed.

Lemma starting_replicate n : starting (replicate n Starting) = n.
Proof. unfold starting. induction n as [|n IH]; cbn; [done|]. by rewrite IH. Qed.

(** Every worker is counted once; without spurious wake-ups a worker is past
    the barrier only when every one is counted, and while all are counted and
    one still waits, the last one has yet to notify. *)
Record init_inv (n : nat) (s : InitState) : Prop := {
  ii_len : length (i_pc s) = n;
  ii_count : init_worker_num_ s + starting (i_pc s) = n;
  ii_passed : forall t p, i_pc s !! t = Some p -> p = Passed \/ p = Notifying ->
    init_worker_num_ s = n;
  ii_notify : Waiting ∈ i_pc s -> init_worker_num_ s = n -> Notifying ∈ i_pc s;
}.

Lemma init_inv_start n : init_inv n (init_start n).
Proof.
  constructor; cbn; [apply length_replicate|by rewrite starting_replicate| |].
  - intros t p [-> _]%lookup_replicate. naive_solver.
  - intros [? _]%elem_of_replicate. done.
Qed.

Lemma init_inv_step n s s' : init_inv n s -> init_step false s s' -> init_inv n s'.
Proof.
  intros [Hlen Hcnt Hpass Hnot] Hstep.
  destruct Hstep as [s t Ht Hlast|s t Ht Hlast|s t Ht|s t Hsp Ht|s]; [| | |done|done].
  - pose proof (starting_insert _ t Starting Notifying Ht) as Hst. cbn in Hst.
    constructor; cbn; [by rewrite length_insert|lia|lia|].
    intros _ _. eapply list_elem_of_lookup_2, (list_lookup_insert_eq _ t).
    by eapply lookup_lt_Some.
  - pose proof (starting_insert _ t Starting Waiting Ht) as Hst. cbn in Hst.
    constructor; cbn; [by rewrite length_insert|lia| |lia].
    intros t' p Hp Hpp. destruct (decide (t' = t)) as [->|].
    + rewrite list_lookup_insert_eq in Hp by (by eapply lookup_lt_Some). naive_solver.
    + rewrite list_lookup_insert_ne in Hp by done. specialize (Hpass t' p Hp Hpp). lia.
  - pose proof (starting_insert _ t Notifying Passed Ht) as Hst. cbn in Hst.
    assert (init_worker_num_ s = n) as Hn by eauto.
    constructor; cbn; [by rewrite length_fmap, length_insert|rewrite starting_wake; lia|done|].
    intros (p & Hp & _)%list_elem_of_fmap. by destruct p.
Qed.

Lemma init_inv_reachable n s : init_reachable false n s -> init_inv n s.
Proof. intros Hr. eapply rtc_invariant; [exact (init_inv_step n)|apply init_inv_start|done]. Qed.

(** C26.  The barrier: if [wait] returns only when notified, a worker enters its
    loop only after every worker of the runtime has run [add_thread] exactly
    once, and until all of them are in their loops some worker can move. *)
Theorem barrier_waits_for_all n s (Hs : init_reachable false n s) :
  (forall t, i_pc s !! t = Some Passed ->
     init_worker_num_ s = n /\ Starting ∉ i_pc s) /\
  ((exists t, i_pc s !! t <> Some Passed /\ t < n) ->
     exists s', init_step false s s' /\ i_pc s' <> i_pc s).
Proof.
  apply init_inv_reachable in Hs as [Hlen Hcnt Hpass Hnot]. split.
  - intros t Ht. assert (init_worker_num_ s = n) as Hn by eauto. split; [done|].
    intros (t' & Hin)%list_elem_of_lookup. pose proof (starting_insert _ t' Starting Passed Hin).
    cbn in *. lia.
  - intros (t & Ht & Hlt). destruct (lookup_lt_is_Some_2 (i_pc s) t) as [p Hp]; [lia|].
    assert (forall t' q r, i_pc s !! t' = Some q -> q <> r -> <[t' := r]> (i_pc s) <> i_pc s) as Hne.
    { intros t' q r Hq Hqr E. apply (f_equal (.!! t')) in E.
      rewrite list_lookup_insert_eq in E by (by eapply lookup_lt_Some). congruence. }
    assert (Notifying ∈ i_pc s -> exists s', init_step false s s' /\ i_pc s' <> i_pc s) as Hgo.
    { intros (t' & Hin)%list_elem_of_lookup. eexists. split; [by apply (init_notify false s t')|].
      cbn. intros E. apply (f_equal (.!! t')) in E. rewrite list_lookup_fmap, Hin in E.
      rewrite list_lookup_insert_eq in E by (by eapply lookup_lt_Some). done. }
    destruct p; [| | |congruence].
    + destruct (decide (S (init_worker_num_ s) = length (i_pc s))).
      * eexists. split; [by apply (init_last false s t)|]. by eapply Hne.
      * eexists. split; [by apply (init_wait false s t)|]. by eapply Hne.
    + destruct (decide (init_worker_num_ s = n)) as [Hn|Hn].
      { apply Hgo, Hnot; [by eapply list_elem_of_lookup_2|done]. }
      assert (Starting ∈ i_pc s) as (t' & Hin)%list_elem_of_lookup.
      { apply starting_pos. lia. }
      destruct (decide (S (init_worker_num_ s) = length (i_pc s))).
      * eexists. split; [by apply (init_last false s t')|]. by eapply Hne.
      * eexists. split; [by apply (init_wait false s t')|]. by eapply Hne.
    + apply Hgo. by eapply list_elem_of_lookup_2.
Qed.

(** Two holes of the barrier, for any number of workers above one: with a
    spurious wake-up of [wait], which has no predicate, a worker enters its
    loop while another has still to run [add_thread]; and the thread that
    built the runtime never waits, so it can poll the driver while the
    workers are adding themselves to it. *)
Theorem barrier_holes n (Hn : 2 <= n) :
  (exists s, init_reachable true n s /\ i_pc s !! 0 = Some Passed /\ Starting ∈ i_pc s) /\
  (exists s, init_reachable false n s /\ i_main s = true /\ Starting ∈ i_pc s).
Proof.
  destruct n as [|[|n]]; [lia..|]. split.
  - eexists. split; [|split].
    + eapply rtc_l; [apply (init_wait true _ 0); cbn; [done|rewrite length_replicate; lia]|].
      eapply rtc_l; [by apply (init_spurious true _ 0)|]. apply rtc_refl.
    + done.
    + cbn. right. left.
  - exists (mkInitState 0 (replicate (S (S n)) Starting) true). split_and!; [|done|cbn; left].
    apply rtc_once. apply (init_built false (init_start (S (S n)))).
Qed.
End Barrier.
