(* ===== verification/RuntimeWitness.v ===== *)
(** Concrete runs of the theorems on futures, workers and the scheduler. *)
From stdpp Require Import base gmap list sets relations.
From Stdlib Require Import ZArith Lia.
From S2P Require Import Prelude Errors Events Wheel Futures FuturesSpec Core Driver TimeRegistry Worker WorkerSpec Scheduler.

(** ** Futures *)

(** Coroutine 1, a [Future<void>], awaits coroutine 2 through future 20. *)
Definition awaited : FutureObj nat := mkFuture false None None (Some 2) (Some 1) None false.
Definition awaiting : FutureObj nat := mkFuture true None None (Some 1) None (Some 2) false.
Definition await_heap : Heap nat :=
  mkHeap (<[10 := awaiting]> (<[20 := awaited]> ∅))
    (<[1 := mkFrame true (Some 10) false]> (<[2 := mkFrame false (Some 20) false]> ∅)).

(** A coroutine that has just been called. *)
Definition called_heap : Heap nat :=
  mkHeap {[5 := mkFuture false None None (Some 4) None None false]}
    {[4 := mkFrame false (Some 5) false]}.

Lemma called_reachable : rtc life_step (mkHeap ∅ ∅) called_heap.
Proof.
  apply rtc_once. apply (life_call (mkHeap ∅ ∅) 4 5 false); [done|done|]. vm_compute. reflexivity.
Qed.

Lemma promises_never_dangle_witness :
  (Promise_final_suspend 4 called_heap).1 <> Undef /\
  (Promise_return_value 4 9 called_heap).1 <> Undef.
Proof.
  destruct (promises_never_dangle called_heap 4 (mkFrame false (Some 5) false) 9 CancelException None
    called_reachable eq_refl) as (H1 & H2 & _). split; [exact H1|exact H2].
Defined.

(** Two coroutines that have just been called; the future of the second is assigned to
    the future of the first. *)
Definition called_twice : Heap nat :=
  mkHeap (<[6 := mkFuture false None None (Some 3) None None false]> (futures called_heap))
    (<[3 := mkFrame false (Some 6) false]> (frames called_heap)).

Lemma called_twice_linked : linked called_twice.
Proof.
  split; cbn.
  - intros c fr f [[<- <-]|[_ [<- <-]%lookup_singleton_Some]]%lookup_insert_Some [= <-];
      eexists; (split; [reflexivity|done]).
  - intros f fo c [[<- <-]|[_ [<- <-]%lookup_singleton_Some]]%lookup_insert_Some [= <-];
      eexists; (split; [reflexivity|done]).
  - intros c fr [[<- <-]|[_ [<- <-]%lookup_singleton_Some]]%lookup_insert_Some; done.
Qed.

Lemma move_assign_strands_coroutine_witness :
  exists h2, (Future_move_assign 5 6 ;;; Future_dtor 5) called_twice = (Done tt, h2) /\
    (Promise_final_suspend 4 h2).1 = Undef.
Proof.
  eexists. split; [vm_compute; reflexivity|].
  eapply (move_assign_strands_coroutine called_twice 5 6 _ _ 4 _ _ called_twice_linked);
    [reflexivity|reflexivity|done|reflexivity|reflexivity|vm_compute; reflexivity|vm_compute; reflexivity].
Defined.

Lemma result_reaches_awaiter_witness :
  exists h1, finish 2 (inl 42) await_heap = (Done tt, h1) /\
    Promise_final_suspend 2 h1 = (Done (Some 1), h1) /\
    (Awaitable_await_resume 20 h1).1 = Done (Some 42).
Proof.
  apply (result_reaches_awaiter await_heap 2 (mkFrame false (Some 20) false) 20 awaited (inl 42)
    eq_refl eq_refl eq_refl eq_refl).
  intros fo c Hfo Hw. injection Hfo as <-. injection Hw as <-.
  exists (mkFrame true (Some 10) false). split; [reflexivity|]. split; [done|]. by eexists.
Defined.

Lemma poll_wrapper_outcome_witness :
  exists h2, Future_poll_wrapper (fun h => h) (fun h _ => h)
    (fun _ _ h => (Thrown RuntimeError, h)) 20 await_heap = (Done true, h2) /\
  (Awaitable_await_resume 20 h2).1 = Thrown RuntimeError.
Proof.
  apply (poll_wrapper_outcome (fun h => h) (fun h _ => h)
    (fun _ _ h => (Thrown RuntimeError, h)) 20 awaited await_heap (Thrown RuntimeError) await_heap
    awaited (fun _ _ => eq_refl) (fun _ => eq_refl) eq_refl eq_refl eq_refl eq_refl eq_refl).
  intros fo c Hfo Hw. injection Hfo as <-. injection Hw as <-.
  exists (mkFrame true (Some 10) false). split; [reflexivity|]. split; [done|]. by eexists.
Defined.

(** Coroutine 1 awaits coroutine 2, which awaits the object 30. *)
Definition nested_heap : Heap nat :=
  mkHeap (<[10 := mkFuture true None None (Some 1) None None false]>
      (<[20 := mkFuture false None None (Some 2) None None false]>
      (<[30 := mkFuture false None None None None None false]> ∅)))
    (<[1 := mkFrame true (Some 10) false]> (<[2 := mkFrame false (Some 20) false]> ∅)).

Lemma nested_heap_linked : linked nested_heap.
Proof.
  split; cbn.
  - intros c fr f [[<- <-]|[_ [[<- <-]|[_ []%lookup_empty_Some]]%lookup_insert_Some]]%lookup_insert_Some [= <-];
      eexists; (split; [reflexivity|done]).
  - intros f fo c [[<- <-]|[_ [[<- <-]|[_ [[<- <-]|[_ []%lookup_empty_Some]]%lookup_insert_Some]]%lookup_insert_Some]]%lookup_insert_Some;
      intros [= <-]; eexists; (split; [reflexivity|done]).
  - intros c fr [[<- <-]|[_ [[<- <-]|[_ []%lookup_empty_Some]]%lookup_insert_Some]]%lookup_insert_Some; done.
Qed.

Lemma cancel_marks_chain_witness :
  exists h1, await_nested (fun _ _ => ret Pending) [(2, 20)] 30 1 nested_heap = (Done true, h1) /\
    Future_cancel 2 10 h1 = (Done tt, cancel_all [10; 20] h1).
Proof.
  destruct (cancel_marks_chain (fun _ _ => ret Pending) [(2, 20)] 30
    (mkFuture false None None None None None false) 1 10 nested_heap nested_heap_linked
    (fun _ _ => eq_refl) eq_refl eq_refl) as (h1 & Hrun & Hc & _).
  - repeat constructor; eexists; (split; [reflexivity|reflexivity]).
  - repeat constructor; set_solver.
  - exists h1. split; [exact Hrun|exact Hc].
Defined.

(** ** A worker alone *)

Definition idle_world (queue : list Entry) : World Wheel nat :=
  mkWorld (mkHeap ∅ ∅) ∅ queue (mkWorker false []) ∅ (mkDriver [] ∅) ∅ ∅ 0 None.

Definition no_poll (_ : fid) (_ : option hid) : M (World Wheel nat) (Poll nat) := ret Pending.

(** Coroutine 8 does nothing; coroutine 9 stores 42 as the result of future 0 and
    suspends the in-place worker. *)
Definition bodies (c : hid) : M (World Wheel nat) unit :=
  if decide (c = 9) then
    in_heap (set_fut 0 (mkFuture false (Some 42) None None None None false)) ;;;
    modify (set_in_place (mkWorker true []))
  else ret tt.

Lemma resume_queue_terminates_witness :
  exists w', resume_queue no_poll bodies 2 (InPlace 0) GlobalQueue
      (idle_world [(Some 8, None); (Some 8, None)]) = (Done true, w') /\
    (w_handles_ w' = [] \/ flag (InPlace 0) w' = Some true).
Proof.
  apply (resume_queue_terminates no_poll bodies (fun x => x = (Some 8, None)) (fun _ => 1)
    (InPlace 0) 2 (idle_world [(Some 8, None); (Some 8, None)])).
  - by eexists.
  - intros x w -> Hk. exists w, []. split_and!; [reflexivity|reflexivity|constructor|cbn; lia|done].
  - repeat constructor.
  - cbn. lia.
Defined.

Lemma run_in_place_needs_suspend_witness :
  fst (Worker_run_in_place no_poll (fun _ => ret tt) 5 [fun _ => 0%Z; fun _ => 0%Z] (InPlace 0)
    (idle_world [(Some 8, None)])) <> Done true.
Proof.
  intros Hdone. eapply (run_in_place_needs_suspend no_poll (fun _ => ret tt) 5
    [fun _ => 0%Z; fun _ => 0%Z] 0 (idle_world [(Some 8, None)])).
  4: { rewrite <- Hdone. apply surjective_pairing. }
  - intros f h w Hw. exact Hw.
  - intros c w Hw. exact Hw.
  - reflexivity.
Defined.

Definition stored_result (w : World Wheel nat) : option nat :=
  futures (w_heap w) !! 0 ≫= f_return_.

Lemma block_on_returns_witness :
  exists w', Runtime_block_on no_poll bodies 2 [fun _ => 0%Z] 0 9 50 stored_result
      (idle_world [(Some 8, None)]) = (Done (Some 42), w') /\
    in_place_worker_ w' = mkWorker false [].
Proof.
  apply (block_on_returns no_poll bodies stored_result 42 9 50 (idle_world [(Some 8, None)])
    0 2 (fun _ => 0%Z) [] eq_refl eq_refl).
  - constructor; [|constructor]. intros w. exists w. split_and!; reflexivity.
  - intros w. eexists. split_and!; [reflexivity| |reflexivity].
    unfold stored_result. cbn. rewrite lookup_insert_eq. reflexivity.
  - intros k w. reflexivity.
  - cbn. lia.
Defined.

(** ** Many workers *)
Import Queue.

(** One entry pushed and taken by worker 1. *)
Definition running_state : QueueState :=
  mkQueueState [] None (set_pc 1 (Running (Some 8, None)) (set_pc 1 AtTest (fun _ => Outside)))
    (fun _ => false) [(Some 8, None)] [(Some 8, None)] [].

Lemma running_reachable : queue_reachable running_state.
Proof.
  exists (fun _ => false).
  eapply rtc_l; [by apply (step_push (queue_init (fun _ => false)) (Some 8, None))|].
  eapply rtc_l; [by apply (step_try_lock _ 1)|].
  eapply rtc_l; [by apply (step_pop _ 1 [] (Some 8, None))|]. apply rtc_refl.
Qed.

Lemma queue_is_fifo_witness : pushed running_state = popped running_state ++ [].
Proof. exact (proj2 (queue_is_fifo running_state running_reachable)). Defined.

Definition waiting_state : QueueState :=
  mkQueueState [(Some 8, None)] None (fun _ => Outside) (fun _ => false) [(Some 8, None)] [] [].

Lemma queue_makes_progress_witness :
  exists s' t', rtc queue_step waiting_state s' /\ s_pc s' t' = Running (Some 8, None).
Proof.
  destruct (queue_makes_progress waiting_state 1 (Some 8, None) []) as (s' & t' & H1 & H2 & _).
  - exists (fun _ => false). apply rtc_once.
    by apply (step_push (queue_init (fun _ => false)) (Some 8, None)).
  - reflexivity.
  - intros y. discriminate.
  - reflexivity.
  - exists s', t'. split; [exact H1|exact H2].
Defined.

Import Barrier.

Definition passed_state : InitState := mkInitState 1 [Passed] false.

Lemma barrier_waits_for_all_witness : init_worker_num_ passed_state = 1 /\ Starting ∉ i_pc passed_state.
Proof.
  refine (proj1 (barrier_waits_for_all 1 passed_state _) 0 eq_refl).
  eapply rtc_l; [by apply (init_last false (init_start 1) 0)|].
  eapply rtc_l; [by apply (init_notify false _ 0)|]. apply rtc_refl.
Defined.

Lemma barrier_holes_witness :
  exists s, init_reachable true 2 s /\ i_pc s !! 0 = Some Passed /\ Starting ∈ i_pc s.
Proof. exact (proj1 (barrier_holes 2 (le_n 2))). Defined.
