(* ===== verification/Oneshot.v ===== *)
(** The one-shot channel: [include/xyco/sync/oneshot.ccm].

    [registered] is the sequence of the futures the channel has passed to
    [RuntimeCtx::register_future]. *)
From stdpp Require Import base list relations.
From Stdlib Require Import ZArith.
From S2P Require Import Prelude Errors Futures.

Definition os_sender_closed : Z := 1.
Definition os_receiver_closed : Z := 2.

(** [Shared]. *)
Record OneshotShared (V : Type) : Type := mkOneshotShared {
  os_state_ : Z;
  os_value_ : option V;
  os_receiver_ : option fid;
}.
Arguments mkOneshotShared {V}.
Arguments os_state_ {V}.
Arguments os_value_ {V}.
Arguments os_receiver_ {V}.

(** A channel: the shared block and whether the [shared_] of the sender and of
    the receiver still point to it. *)
Record Oneshot (V : Type) : Type := mkOneshot {
  os_shared : OneshotShared V;
  os_sender : bool;
  os_recv : bool;
  os_registered : list fid;
}.
Arguments mkOneshot {V}.
Arguments os_shared {V}.
Arguments os_sender {V}.
Arguments os_recv {V}.
Arguments os_registered {V}.

Section Oneshot.
Context {V : Type}.
Implicit Types c : Oneshot V.

Definition oneshot_channel : Oneshot V := mkOneshot (mkOneshotShared 0 None None) true true [].

Definition set_state (z : Z) (s : OneshotShared V) : OneshotShared V :=
  mkOneshotShared z (os_value_ s) (os_receiver_ s).

(** [Sender::close]. *)
Definition OneshotSender_close c : Oneshot V :=
  if os_sender c
  then mkOneshot (set_state os_sender_closed (os_shared c)) false (os_recv c) (os_registered c)
  else c.

(** [Receiver::close]. *)
Definition OneshotReceiver_close c : Oneshot V :=
  if os_recv c
  then mkOneshot (set_state os_receiver_closed (os_shared c)) (os_sender c) false (os_registered c)
  else c.

(** [Sender::send]. *)
Definition OneshotSender_send (value : V) c : Expected V unit * Oneshot V :=
  if negb (os_sender c) || (os_state_ (os_shared c) =? os_receiver_closed)%Z
  then (Unexpected value, c)
  else
    let s := os_shared c in
    let s := mkOneshotShared (os_state_ s) (Some value) (os_receiver_ s) in
    let reg := match os_receiver_ s with
               | Some f => os_registered c ++ [f]
               | None => os_registered c
               end in
    (Value tt, OneshotSender_close (mkOneshot s (os_sender c) (os_recv c) reg)).

(** [poll] of the future of [receive]; a moved-from [optional] still has a
    value. *)
Definition OneshotReceiver_poll (this : fid) c : Poll (Expected unit V) * Oneshot V :=
  if negb (os_recv c) then (Ready (Unexpected tt), c)
  else
    let s := os_shared c in
    match os_value_ s with
    | Some v => (Ready (Value v), c)
    | None =>
        if (os_state_ s =? os_sender_closed)%Z then (Ready (Unexpected tt), c)
        else (Pending, mkOneshot (mkOneshotShared (os_state_ s) (os_value_ s) (Some this))
                         (os_sender c) (os_recv c) (os_registered c))
    end.

(** [receive] when its future is polled: the channel is closed once the
    [co_await] has a result. *)
Definition OneshotReceiver_receive (this : fid) c : Poll (Expected unit V) * Oneshot V :=
  match OneshotReceiver_poll this c with
  | (Ready r, c') => (Ready r, OneshotReceiver_close c')
  | (Pending, c') => (Pending, c')
  end.

(** ** Histories of whole operations *)

(** [o_sent] is the value of a successful [send], [o_got] what [receive] has
    returned. *)
Record OneshotHistory : Type := mkHistory {
  o_chan : Oneshot V;
  o_sent : option V;
  o_got : list (Expected unit V);
}.

Inductive oneshot_step : OneshotHistory -> OneshotHistory -> Prop :=
| os_send c sent got v r c' :
    OneshotSender_send v c = (r, c') ->
    oneshot_step (mkHistory c sent got)
      (mkHistory c' (match r with Value _ => Some v | Unexpected _ => sent end) got)
| os_receive c sent got f r c' :
    OneshotReceiver_receive f c = (r, c') ->
    oneshot_step (mkHistory c sent got)
      (mkHistory c' sent (match r with Ready x => got ++ [x] | Pending => got end))
| os_drop_sender c sent got :
    oneshot_step (mkHistory c sent got) (mkHistory (OneshotSender_close c) sent got)
| os_drop_receiver c sent got :
    oneshot_step (mkHistory c sent got) (mkHistory (OneshotReceiver_close c) sent got).

Definition oneshot_reachable (h : OneshotHistory) : Prop :=
  rtc oneshot_step (mkHistory oneshot_channel None []) h.

Record oneshot_inv (h : OneshotHistory) : Prop := {
  oi_value : os_value_ (os_shared (o_chan h)) = o_sent h;
  oi_sender : os_sender (o_chan h) = true -> o_sent h = None /\
    os_state_ (os_shared (o_chan h)) = (if os_recv (o_chan h) then 0 else os_receiver_closed)%Z;
  oi_closed : os_sender (o_chan h) = false -> os_recv (o_chan h) = true ->
    os_state_ (os_shared (o_chan h)) = os_sender_closed;
  oi_recv : os_recv (o_chan h) = true -> o_got h = [];
  oi_got : forall v, Value v ∈ o_got h -> o_sent h = Some v;
  oi_once : forall l1 l2 v, o_got h = l1 ++ Value v :: l2 ->
    l1 = [] /\ Forall (eq (Unexpected tt)) l2;
  oi_woken : forall f, f ∈ os_registered (o_chan h) -> o_sent h <> None;
}.

Lemma oneshot_inv_init : oneshot_inv (mkHistory oneshot_channel None []).
Proof.
  constructor; cbn; try done; [intros v Hv|intros [|] l2 v|intros f Hf]; try done.
  - by apply elem_of_nil in Hv.
  - by apply elem_of_nil in Hf.
Qed.

Lemma once_snoc (got : list (Expected unit V)) l1 l2 v :
  (forall l1 l2 v, got = l1 ++ Value v :: l2 -> l1 = [] /\ Forall (eq (Unexpected tt)) l2) ->
  got ++ [Unexpected tt] = l1 ++ Value v :: l2 ->
  l1 = [] /\ Forall (eq (Unexpected tt)) l2.
Proof.
  intros Hgot E. destruct l2 as [|y l2 _] using rev_ind; [by apply app_inj_tail in E as [_ [=]]|].
  rewrite app_comm_cons, (assoc (++)) in E. apply app_inj_tail in E as [E <-].
  destruct (Hgot _ _ _ E) as [-> Hl]. split; [done|]. apply Forall_app. by auto.
Qed.

Lemma oneshot_inv_step h h' : oneshot_inv h -> oneshot_step h h' -> oneshot_inv h'.
Proof.
  intros [I1 I2 I3 I4 I5 I6 I7] Hstep.
  destruct Hstep as [c sent got v r c' Hs|c sent got f r c' Hr|c sent got|c sent got]; cbn in *.
  - unfold OneshotSender_send in Hs. destruct (os_sender c) eqn:Hsd; cbn in Hs.
    2:{ injection Hs as <- <-. constructor; cbn; rewrite ?Hsd; done. }
    destruct I2 as [-> Hst]; [done|]. rewrite Hst in Hs.
    destruct (os_recv c) eqn:Hrc; cbn in Hs; injection Hs as <- <-.
    + specialize (I4 eq_refl) as ->.
      constructor; cbn; rewrite ?Hrc; try done.
      intros v' Hv. by apply elem_of_nil in Hv.
    + constructor; cbn; rewrite ?Hsd, ?Hrc; done.
  - unfold OneshotReceiver_receive, OneshotReceiver_poll, OneshotReceiver_close in Hr.
    destruct (os_recv c) eqn:Hrc; cbn in Hr.
    2:{ rewrite Hrc in Hr. injection Hr as <- <-. constructor; cbn; rewrite ?Hrc; try done.
        - intros v. rewrite elem_of_app, list_elem_of_singleton. intros [?|[=]]. by apply I5.
        - intros l1 l2 v E. by eapply once_snoc. }
    specialize (I4 eq_refl) as ->. rewrite I1 in Hr. destruct sent as [v|].
    + rewrite Hrc in Hr. injection Hr as <- <-. constructor; cbn; rewrite ?Hrc; try done.
      * intros Hsd. by destruct (I2 Hsd).
      * intros v'. rewrite list_elem_of_singleton. by intros [= ->].
      * intros [|? [|]] l2 v' [= <- <-]. by split.
    + destruct (os_sender c) eqn:Hsd.
      * destruct (I2 eq_refl) as [_ Hst]. rewrite Hst in Hr. cbn in Hr. injection Hr as <- <-.
        constructor; cbn; rewrite ?Hrc, ?Hsd; done.
      * rewrite (I3 eq_refl eq_refl) in Hr. cbn in Hr. rewrite Hrc in Hr.
        injection Hr as <- <-. constructor; cbn; rewrite ?Hrc, ?Hsd; try done.
        -- intros v'. rewrite list_elem_of_singleton. done.
        -- intros [|? [|]] l2 v' [=].
  - unfold OneshotSender_close. destruct (os_sender c) eqn:Hsd; [|constructor; cbn; rewrite ?Hsd; done].
    by constructor.
  - unfold OneshotReceiver_close. destruct (os_recv c) eqn:Hrc; [|constructor; cbn; rewrite ?Hrc; done].
    constructor; cbn; try done. intros Hsd. by destruct (I2 Hsd).
Qed.

Lemma oneshot_inv_reachable h : oneshot_reachable h -> oneshot_inv h.
Proof.
  intros Hr. eapply rtc_invariant; [exact oneshot_inv_step|apply oneshot_inv_init|done].
Qed.

(** C16.  The channel carries one value, once.  In every history of whole
    operations, [send] succeeds exactly while both ends are open and gives the
    value back otherwise; what [receive] returned is at most one value, the
    first thing it returned and the value that was sent; and the next
    [receive] returns the value if one was sent, suspends while the sender is
    open, and reports the closed channel otherwise. *)
Theorem oneshot_delivers_once h (Hh : oneshot_reachable h) :
  (forall v, (OneshotSender_send v (o_chan h)).1 =
     if os_sender (o_chan h) && os_recv (o_chan h) then Value tt else Unexpected v) /\
  (forall l1 l2 v, o_got h = l1 ++ Value v :: l2 ->
     l1 = [] /\ Forall (eq (Unexpected tt)) l2 /\ o_sent h = Some v) /\
  (forall f, (OneshotReceiver_receive f (o_chan h)).1 =
     if os_recv (o_chan h) then
       match o_sent h with
       | Some v => Ready (Value v)
       | None => if os_sender (o_chan h) then Pending else Ready (Unexpected tt)
       end
     else Ready (Unexpected tt)).
Proof.
  apply oneshot_inv_reachable in Hh as [I1 I2 I3 I4 I5 I6 I7]. split_and!.
  - intros v. unfold OneshotSender_send. destruct (os_sender (o_chan h)); [|done].
    destruct I2 as [_ ->]; [done|]. by destruct (os_recv (o_chan h)).
  - intros l1 l2 v E. destruct (I6 _ _ _ E). split_and!; [done..|]. apply I5. rewrite E.
    apply elem_of_app. right. by left.
  - intros f. unfold OneshotReceiver_receive, OneshotReceiver_poll. rewrite I1.
    destruct (os_recv (o_chan h)); [|done]. cbn. destruct (o_sent h); [done|].
    destruct (os_sender (o_chan h)).
    + by destruct I2 as [_ ->].
    + by rewrite I3.
Qed.

(** A receiver that suspended is woken by the [send]: the send registers
    the suspended future, once, and the future is ready when polled again. *)
Theorem oneshot_send_wakes h f v c1 c2
    (Hh : oneshot_reachable h)
    (Hr : OneshotReceiver_receive f (o_chan h) = (Pending, c1))
    (Hs : OneshotSender_send v c1 = (Value tt, c2)) :
  os_registered c2 = os_registered (o_chan h) ++ [f] /\
  (OneshotReceiver_receive f c2).1 = Ready (Value v).
Proof.
  unfold OneshotReceiver_receive, OneshotReceiver_poll, OneshotReceiver_close in Hr.
  destruct (os_recv (o_chan h)) eqn:Hrc; cbn in Hr; [|done].
  destruct (os_value_ _); [done|].
  destruct (os_state_ _ =? os_sender_closed)%Z; [done|]. injection Hr as <-.
  unfold OneshotSender_send in Hs. cbn in Hs.
  destruct (negb _ || _) eqn:Hb in Hs; [done|]. injection Hs as <-.
  apply orb_false_iff in Hb as [Hb _]. apply negb_false_iff in Hb.
  unfold OneshotSender_close. cbn. rewrite Hb. cbn. split; [done|].
  unfold OneshotReceiver_receive, OneshotReceiver_poll. cbn. by rewrite ?Hrc.
Qed.

Lemma closed_sender_registers_nothing h h' :
  os_sender (o_chan h) = false -> oneshot_step h h' ->
  os_sender (o_chan h') = false /\ os_registered (o_chan h') = os_registered (o_chan h).
Proof.
  intros Hs Hst. destruct Hst as [c sent got v r c' H|c sent got f r c' H|c sent got|c sent got];
    cbn in *.
  - unfold OneshotSender_send in H. rewrite Hs in H. cbn in H. by injection H as <- <-.
  - unfold OneshotReceiver_receive, OneshotReceiver_poll, OneshotReceiver_close in H.
    repeat split_match; done.
  - unfold OneshotSender_close. by rewrite Hs.
  - unfold OneshotReceiver_close. by destruct (os_recv c).
Qed.

(** Dropping the sender strands a suspended receiver: nothing is
    registered when it happens nor ever after, although the receiver's future
    would be ready with the closed-channel error if it were polled. *)
Theorem oneshot_drop_strands_receiver f c1 h'
    (Hr : OneshotReceiver_receive f oneshot_channel = (Pending, c1))
    (Hrun : rtc oneshot_step (mkHistory (OneshotSender_close c1) None []) h') :
  (OneshotReceiver_receive f (OneshotSender_close c1)).1 = Ready (Unexpected tt) /\
  os_registered (o_chan h') = [].
Proof.
  injection Hr as <-. split; [done|].
  assert (os_sender (o_chan h') = false /\ os_registered (o_chan h') = []) as [_ ?]; [|done].
  refine (rtc_invariant oneshot_step
    (fun h => os_sender (o_chan h) = false /\ os_registered (o_chan h) = []) _ _ _ _ Hrun);
    [|done].
  intros a b [H1 H2] Hst. destruct (closed_sender_registers_nothing a b H1 Hst) as [? ->]. done.
Qed.
End Oneshot.

(** ** [send] and [poll] on two threads

    Neither runs under a lock: the steps are the single accesses to the shared
    block in program order. *)
Section Race.
Context {V : Type}.

(** [send]: before [value_ = value], before the test of [receiver_], before
    [close], returned. *)
Inductive SendPc : Type := SendValue | SendTest | SendClose | SendDone.
(** [poll]: before the test of [value_], before the test of [state_], before
    [receiver_ = this], returned. *)
Inductive PollPc : Type := PollValue | PollState | PollStore | PollDone (r : Poll (Expected unit V)).

Record RaceState : Type := mkRace {
  ra_shared : OneshotShared V;
  ra_send : SendPc;
  ra_poll : PollPc;
  ra_registered : list fid;
}.

Inductive race_step (v : V) (this : fid) : RaceState -> RaceState -> Prop :=
| race_value s p reg :
    race_step v this (mkRace s SendValue p reg)
      (mkRace (mkOneshotShared (os_state_ s) (Some v) (os_receiver_ s)) SendTest p reg)
| race_test s p reg :
    race_step v this (mkRace s SendTest p reg)
      (mkRace s SendClose p
         (match os_receiver_ s with Some f => reg ++ [f] | None => reg end))
| race_close s p reg :
    race_step v this (mkRace s SendClose p reg)
      (mkRace (set_state os_sender_closed s) SendDone p reg)
| race_poll_value s q reg :
    race_step v this (mkRace s q PollValue reg)
      (mkRace s q (match os_value_ s with
                   | Some x => PollDone (Ready (Value x))
                   | None => PollState
                   end) reg)
| race_poll_state s q reg :
    race_step v this (mkRace s q PollState reg)
      (mkRace s q (if (os_state_ s =? os_sender_closed)%Z
                   then PollDone (Ready (Unexpected tt)) else PollStore) reg)
| race_poll_store s q reg :
    race_step v this (mkRace s q PollStore reg)
      (mkRace (mkOneshotShared (os_state_ s) (os_value_ s) (Some this)) q
         (PollDone Pending) reg).

(** With the two ends on different threads the wake-up can be lost: a
    [send] that runs between the last test of [poll] and its store of
    [receiver_] finds no receiver to register, and the poll suspends with the
    value already in the channel. *)
Theorem oneshot_lost_wakeup (v : V) (this : fid) :
  exists s, rtc (race_step v this)
      (mkRace (mkOneshotShared 0 None None) SendValue PollValue []) s /\
    ra_send s = SendDone /\ ra_poll s = PollDone Pending /\
    os_value_ (ra_shared s) = Some v /\ ra_registered s = [].
Proof.
  eexists. split_and!.
  - eapply rtc_l; [apply race_poll_value|]. eapply rtc_l; [apply race_poll_state|].
    eapply rtc_l; [apply race_value|]. eapply rtc_l; [apply race_test|].
    eapply rtc_l; [apply race_close|]. eapply rtc_l; [apply race_poll_store|]. apply rtc_refl.
  - done.
  - done.
  - done.
  - done.
Qed.
End Race.
