(* ===== verification/Mpsc.v ===== *)
(** The bounded channel: [include/xyco/sync/mpsc.ccm].

    The operations are split at the boundaries of their critical sections, and
    the two [poll] functions compose the pieces as the source does. *)
From stdpp Require Import base gmap list relations.
From Stdlib Require Import ZArith Lia.
From S2P Require Import Prelude Errors Events Futures Core.

Definition mpsc_sender_closed : Z := 1.
Definition mpsc_receiver_closed : Z := 2.

(** [Shared]; [ms_reg_receivers] and [ms_reg_senders] are the futures passed to
    [RuntimeCtx::register_future] that have not been run since. *)
Record MpscShared (V : Type) : Type := mkMpscShared {
  ms_state_ : Z;
  ms_receiver_ : option fid;
  ms_senders_ : list fid;
  ms_queue_ : list V;
  ms_reg_receivers : list fid;
  ms_reg_senders : list fid;
}.
Arguments mkMpscShared {V}.
Arguments ms_state_ {V}.
Arguments ms_receiver_ {V}.
Arguments ms_senders_ {V}.
Arguments ms_queue_ {V}.
Arguments ms_reg_receivers {V}.
Arguments ms_reg_senders {V}.

Section Mpsc.
Context {V : Type} (Size : nat).
Implicit Types s : MpscShared V.

Definition mpsc_channel : MpscShared V := mkMpscShared 0 None [] [] [] [].

(** [state_ == receiver_closed]. *)
Definition MpscSender_closed s : bool := (ms_state_ s =? mpsc_receiver_closed)%Z.

(** The critical section of [queue_mutex_] in the sender's [poll]: [true] when
    the value went in. *)
Definition MpscSender_try_push (value : V) s : bool * MpscShared V :=
  if decide (length (ms_queue_ s) < Size) then
    (true, mkMpscShared (ms_state_ s) (ms_receiver_ s) (ms_senders_ s)
             (ms_queue_ s ++ [value])
             (match ms_receiver_ s with
              | Some r => ms_reg_receivers s ++ [r]
              | None => ms_reg_receivers s
              end) (ms_reg_senders s))
  else (false, s).

(** The critical section of [senders_mutex_]. *)
Definition MpscSender_park (this : fid) s : MpscShared V :=
  mkMpscShared (ms_state_ s) (ms_receiver_ s) (ms_senders_ s ++ [this])
    (ms_queue_ s) (ms_reg_receivers s) (ms_reg_senders s).

(** [poll] of the future of [send]. *)
Definition MpscSender_poll (this : fid) (value : V) s
    : Poll (Expected V unit) * MpscShared V :=
  if MpscSender_closed s then (Ready (Unexpected value), s)
  else match MpscSender_try_push value s with
       | (true, s') => (Ready (Value tt), s')
       | (false, s') => (Pending, MpscSender_park this s')
       end.

(** What the critical section of [queue_mutex_] in the receiver's [poll]
    decides: a value was taken, or the poll returns. *)
Inductive Taken : Type := Took (v : V) | Returns (r : Poll (option V)).

Definition MpscReceiver_take (this : fid) s : Taken * MpscShared V :=
  match ms_queue_ s with
  | v :: q =>
      (Took v, mkMpscShared (ms_state_ s) (ms_receiver_ s) (ms_senders_ s) q
                 (ms_reg_receivers s) (ms_reg_senders s))
  | [] =>
      if (ms_state_ s =? mpsc_sender_closed)%Z then (Returns (Ready None), s)
      else (Returns Pending,
            mkMpscShared (ms_state_ s) (Some this) (ms_senders_ s) (ms_queue_ s)
              (ms_reg_receivers s) (ms_reg_senders s))
  end.

(** The critical section of [senders_mutex_] in the receiver's [poll]. *)
Definition MpscReceiver_notify s : MpscShared V :=
  match ms_senders_ s with
  | sender :: rest =>
      mkMpscShared (ms_state_ s) (ms_receiver_ s) rest (ms_queue_ s)
        (ms_reg_receivers s) (ms_reg_senders s ++ [sender])
  | [] => s
  end.

(** [poll] of the future of [receive]. *)
Definition MpscReceiver_poll (this : fid) s : Poll (option V) * MpscShared V :=
  match MpscReceiver_take this s with
  | (Took v, s') => (Ready (Some v), MpscReceiver_notify s')
  | (Returns r, s') => (r, s')
  end.

Definition mpsc_set_state (z : Z) s : MpscShared V :=
  mkMpscShared z (ms_receiver_ s) (ms_senders_ s) (ms_queue_ s)
    (ms_reg_receivers s) (ms_reg_senders s).

(** [Sender::close] of one of the handles, when [use_count] point to the
    shared block. *)
Definition MpscSender_close (use_count : Z) s : MpscShared V :=
  let owner_num :=
    if (ms_state_ s =? mpsc_receiver_closed)%Z then use_count else (use_count - 1)%Z in
  if (owner_num =? 1)%Z then mpsc_set_state mpsc_sender_closed s else s.

(** [Receiver::close]. *)
Definition MpscReceiver_close s : MpscShared V := mpsc_set_state mpsc_receiver_closed s.

(** ** Threads: one step per critical section *)

Inductive SenderPc : Type :=
| SPoll (v : V) | SQueue (v : V) | SPark (v : V) | SWait (v : V) | SDone (ok : bool).
Inductive ReceiverPc : Type :=
| RIdle | RPoll (r : fid) | RNotify (r : fid) (v : V) | RWait (r : fid).

(** [m_accepted] and [m_got] are the values [send] took and [receive] gave. *)
Record MpscState : Type := mkMpscState {
  m_shared : MpscShared V;
  m_senders : gmap fid SenderPc;
  m_receiver : ReceiverPc;
  m_accepted : list V;
  m_got : list V;
}.

Definition mpsc_start : MpscState := mkMpscState mpsc_channel ∅ RIdle [] [].

Definition run_sender (f : fid) s : MpscShared V :=
  mkMpscShared (ms_state_ s) (ms_receiver_ s) (ms_senders_ s) (ms_queue_ s)
    (ms_reg_receivers s) (erase_first f (ms_reg_senders s)).
Definition run_receiver (f : fid) s : MpscShared V :=
  mkMpscShared (ms_state_ s) (ms_receiver_ s) (ms_senders_ s) (ms_queue_ s)
    (erase_first f (ms_reg_receivers s)) (ms_reg_senders s).

Inductive mpsc_step : MpscState -> MpscState -> Prop :=
| ms_send s ss r acc got f v :
    ss !! f = None ->
    mpsc_step (mkMpscState s ss r acc got) (mkMpscState s (<[f := SPoll v]> ss) r acc got)
| ms_check s ss r acc got f v :
    ss !! f = Some (SPoll v) ->
    mpsc_step (mkMpscState s ss r acc got)
      (mkMpscState s (<[f := if MpscSender_closed s then SDone false else SQueue v]> ss) r acc got)
| ms_push s ss r acc got f v s' :
    ss !! f = Some (SQueue v) -> MpscSender_try_push v s = (true, s') ->
    mpsc_step (mkMpscState s ss r acc got)
      (mkMpscState s' (<[f := SDone true]> ss) r (acc ++ [v]) got)
| ms_full s ss r acc got f v s' :
    ss !! f = Some (SQueue v) -> MpscSender_try_push v s = (false, s') ->
    mpsc_step (mkMpscState s ss r acc got) (mkMpscState s' (<[f := SPark v]> ss) r acc got)
| ms_park s ss r acc got f v :
    ss !! f = Some (SPark v) ->
    mpsc_step (mkMpscState s ss r acc got)
      (mkMpscState (MpscSender_park f s) (<[f := SWait v]> ss) r acc got)
| ms_rerun s ss r acc got f v :
    ss !! f = Some (SWait v) -> f ∈ ms_reg_senders s ->
    mpsc_step (mkMpscState s ss r acc got)
      (mkMpscState (run_sender f s) (<[f := SPoll v]> ss) r acc got)
| ms_receive s ss acc got f :
    mpsc_step (mkMpscState s ss RIdle acc got) (mkMpscState s ss (RPoll f) acc got)
| ms_take s ss acc got f v s' :
    MpscReceiver_take f s = (Took v, s') ->
    mpsc_step (mkMpscState s ss (RPoll f) acc got)
      (mkMpscState s' ss (RNotify f v) acc (got ++ [v]))
| ms_none s ss acc got f o s' :
    MpscReceiver_take f s = (Returns o, s') ->
    mpsc_step (mkMpscState s ss (RPoll f) acc got)
      (mkMpscState s' ss (match o with Pending => RWait f | Ready _ => RIdle end) acc got)
| ms_notify s ss acc got f v :
    mpsc_step (mkMpscState s ss (RNotify f v) acc got)
      (mkMpscState (MpscReceiver_notify s) ss RIdle acc got)
| ms_rereceive s ss acc got f :
    f ∈ ms_reg_receivers s ->
    mpsc_step (mkMpscState s ss (RWait f) acc got)
      (mkMpscState (run_receiver f s) ss (RPoll f) acc got)
| ms_close_sender s ss r acc got n :
    mpsc_step (mkMpscState s ss r acc got) (mkMpscState (MpscSender_close n s) ss r acc got)
| ms_close_receiver s ss acc got :
    mpsc_step (mkMpscState s ss RIdle acc got)
      (mkMpscState (MpscReceiver_close s) ss RIdle acc got).

Definition mpsc_reachable (m : MpscState) : Prop := rtc mpsc_step mpsc_start m.
End Mpsc.
