(* ===== verification/MpscSpec.v ===== *)
(** The bounded channel is a bounded queue in every interleaving; on one thread
    no wake-up is lost; on several one can be, and a finished [receive] leaves
    a pointer to its dead future behind. *)
From stdpp Require Import base gmap list relations sets.
From Stdlib Require Import ZArith Lia.
From S2P Require Import Prelude Errors Events Futures Core Mpsc.

Section Fifo.
Context {V : Type} (Size : nat).
Implicit Types s : MpscShared V.

Lemma try_push_spec v s b s' :
  MpscSender_try_push Size v s = (b, s') ->
  if b then length (ms_queue_ s) < Size /\ ms_queue_ s' = ms_queue_ s ++ [v] /\
            ms_senders_ s' = ms_senders_ s /\ ms_reg_senders s' = ms_reg_senders s /\
            ms_receiver_ s' = ms_receiver_ s /\
            ms_reg_receivers s' = ms_reg_receivers s ++ option_list (ms_receiver_ s)
  else Size <= length (ms_queue_ s) /\ s' = s.
Proof.
  unfold MpscSender_try_push. case_decide; intros [= <- <-]; cbn.
  - split_and!; try done. destruct (ms_receiver_ s); cbn; [done|by rewrite app_nil_r].
  - split; [lia|done].
Qed.

Lemma take_spec f s t s' :
  MpscReceiver_take f s = (t, s') ->
  ms_senders_ s' = ms_senders_ s /\ ms_reg_senders s' = ms_reg_senders s /\
  ms_reg_receivers s' = ms_reg_receivers s /\
  match t with
  | Took v => ms_queue_ s = v :: ms_queue_ s' /\ ms_receiver_ s' = ms_receiver_ s
  | Returns (Ready o) => o = None /\ s' = s /\ ms_queue_ s = []
  | Returns Pending => ms_queue_ s = [] /\ ms_queue_ s' = [] /\ ms_receiver_ s' = Some f
  end.
Proof.
  unfold MpscReceiver_take. intros Ht. repeat split_match; by split_and!.
Qed.

Lemma notify_queue s : ms_queue_ (MpscReceiver_notify s) = ms_queue_ s.
Proof. unfold MpscReceiver_notify. by destruct (ms_senders_ s). Qed.

Lemma close_queue n s : ms_queue_ (MpscSender_close n s) = ms_queue_ s.
Proof. unfold MpscSender_close. by repeat split_match. Qed.

Definition fifo_inv (m : MpscState (V := V)) : Prop :=
  m_accepted m = m_got m ++ ms_queue_ (m_shared m) /\
  length (ms_queue_ (m_shared m)) <= Size.

Lemma fifo_inv_step (m m' : MpscState (V := V)) :
  fifo_inv m -> mpsc_step Size m m' -> fifo_inv m'.
Proof.
  unfold fifo_inv. intros [Hq Hb] Hst. destruct Hst; cbn in *; try done.
  - apply try_push_spec in H0 as (Hlt & -> & _). rewrite Hq, length_app. cbn.
    rewrite (assoc (++)). split; [done|lia].
  - by apply try_push_spec in H0 as (_ & ->).
  - apply take_spec in H as (_ & _ & _ & Ht & _). rewrite Hq, Ht, <- (assoc (++)).
    split; [done|]. rewrite Ht in Hb. cbn in Hb. lia.
  - apply take_spec in H as (_ & _ & _ & Ht). destruct o.
    + by destruct Ht as (_ & -> & _).
    + destruct Ht as (Hn & -> & _). rewrite Hn in Hq. cbn. split; [done|lia].
  - by rewrite notify_queue.
  - by rewrite close_queue.
Qed.

(** C7.  In every interleaving of any number of senders and the receiver, the
    channel is a first-in-first-out queue of at most [Size] values: the values
    [send] accepted are those [receive] took, in the same order, followed by
    those still queued; none is lost, duplicated or reordered. *)
Theorem mpsc_is_bounded_fifo m (Hm : mpsc_reachable (V := V) Size m) :
  m_accepted m = m_got m ++ ms_queue_ (m_shared m) /\
  length (ms_queue_ (m_shared m)) <= Size.
Proof.
  refine (rtc_invariant (mpsc_step Size) fifo_inv _ _ fifo_inv_step _ Hm).
  split; cbn; [done|lia].
Qed.
End Fifo.

(** ** Lost wake-ups *)

(** Between the test that finds the queue full and the push to [senders_] no
    lock is held: if the receiver drains the queue there, it finds no sender to
    wake, the sender then parks, and the next [receive] suspends on an empty
    queue: both ends wait, nothing is registered, and the value is never sent. *)
Theorem mpsc_park_race_deadlocks (V : Type) (v1 v2 : V) :
  exists m, mpsc_reachable 1 m /\
    m_senders m !! 2 = Some (SWait v2) /\ m_receiver m = RWait 11 /\
    ms_queue_ (m_shared m) = [] /\
    ms_reg_senders (m_shared m) = [] /\ ms_reg_receivers (m_shared m) = [].
Proof.
  eexists. split.
  { eapply rtc_l; [by apply (ms_send 1 _ _ _ _ _ 1 v1)|].
    eapply rtc_l; [by apply (ms_check 1 _ _ _ _ _ 1 v1)|].
    eapply rtc_l; [by apply (ms_push 1 _ _ _ _ _ 1 v1)|].
    eapply rtc_l; [by apply (ms_send 1 _ _ _ _ _ 2 v2)|].
    eapply rtc_l; [by apply (ms_check 1 _ _ _ _ _ 2 v2)|].
    eapply rtc_l; [by apply (ms_full 1 _ _ _ _ _ 2 v2)|].
    eapply rtc_l; [apply (ms_receive 1 _ _ _ _ 10)|].
    eapply rtc_l; [by apply (ms_take 1 _ _ _ _ 10 v1)|].
    eapply rtc_l; [apply ms_notify|].
    eapply rtc_l; [by apply (ms_park 1 _ _ _ _ _ 2 v2)|].
    eapply rtc_l; [apply (ms_receive 1 _ _ _ _ 11)|].
    eapply rtc_l; [by apply (ms_none 1 _ _ _ _ 11 Pending)|]. apply rtc_refl. }
  by split_and!.
Qed.

(** ** One thread: a [poll] runs to its end *)
Section Atomic.
Context {V : Type} (Size : nat).
Implicit Types s : MpscShared V.

(** The suspended senders with their values, and the suspended receiver. *)
Record MpscTasks : Type := mkMpscTasks {
  a_shared : MpscShared V;
  a_waiting : gmap fid V;
  a_receiving : option fid;
}.

(** The suspension of [send] after a poll, or its end. *)
Definition after_send (f : fid) (v : V) (r : Poll (Expected V unit)) (ws : gmap fid V)
    : gmap fid V :=
  match r with Pending => <[f := v]> ws | Ready _ => delete f ws end.

Definition after_receive (f : fid) (r : Poll (option V)) : option fid :=
  match r with Pending => Some f | Ready _ => None end.

Inductive atomic_step : MpscTasks -> MpscTasks -> Prop :=
| at_send s ws rc f v r s' :
    ws !! f = None -> MpscSender_poll Size f v s = (r, s') ->
    atomic_step (mkMpscTasks s ws rc) (mkMpscTasks s' (after_send f v r ws) rc)
| at_rerun s ws rc f v r s' :
    ws !! f = Some v -> f ∈ ms_reg_senders s ->
    MpscSender_poll Size f v (run_sender f s) = (r, s') ->
    atomic_step (mkMpscTasks s ws rc) (mkMpscTasks s' (after_send f v r ws) rc)
| at_receive s ws f r s' :
    MpscReceiver_poll f s = (r, s') ->
    atomic_step (mkMpscTasks s ws None) (mkMpscTasks s' ws (after_receive f r))
| at_rereceive s ws f r s' :
    f ∈ ms_reg_receivers s -> MpscReceiver_poll f (run_receiver f s) = (r, s') ->
    atomic_step (mkMpscTasks s ws (Some f)) (mkMpscTasks s' ws (after_receive f r)).

Definition atomic_reachable (a : MpscTasks) : Prop :=
  rtc atomic_step (mkMpscTasks mpsc_channel ∅ None) a.

(** A free slot of the queue has a registered sender for it or no sender
    waits for one; a suspended sender waits in [senders_] or is registered; a
    suspended receiver is known to the channel, and registered if the queue
    has a value. *)
Record atomic_inv (a : MpscTasks) : Prop := {
  ai_open : ms_state_ (a_shared a) = 0%Z;
  ai_slots : ms_senders_ (a_shared a) = [] \/
    Size <= length (ms_queue_ (a_shared a)) + length (ms_reg_senders (a_shared a));
  ai_waiting : forall f v, a_waiting a !! f = Some v ->
    f ∈ ms_senders_ (a_shared a) \/ f ∈ ms_reg_senders (a_shared a);
  ai_receiver : forall f, a_receiving a = Some f ->
    ms_receiver_ (a_shared a) = Some f /\
    (ms_queue_ (a_shared a) = [] \/ f ∈ ms_reg_receivers (a_shared a));
}.

Lemma erase_first_length x l : x ∈ l -> length l = S (length (erase_first x l)).
Proof. intros Hx. by rewrite (erase_first_perm x l Hx) at 1. Qed.

Lemma erase_first_other x y l : y ∈ l -> y <> x -> y ∈ erase_first x l.
Proof.
  intros Hy Hne. destruct (decide (x ∈ l)) as [Hx|Hx].
  - rewrite (erase_first_perm x l Hx) in Hy. set_solver.
  - by rewrite erase_first_notin.
Qed.

Lemma try_push_state v s : ms_state_ (MpscSender_try_push Size v s).2 = ms_state_ s.
Proof. unfold MpscSender_try_push. by case_decide. Qed.

(** A [send] polled when the futures registered and not yet run are [reg]. *)
Lemma send_inv f v s r s' ws rc :
  MpscSender_poll Size f v s = (r, s') ->
  (ms_senders_ s = [] \/ Size <= length (ms_queue_ s) + S (length (ms_reg_senders s))) ->
  (forall g w, ws !! g = Some w -> g <> f -> g ∈ ms_senders_ s \/ g ∈ ms_reg_senders s) ->
  (forall g, rc = Some g -> ms_receiver_ s = Some g /\
     (ms_queue_ s = [] \/ g ∈ ms_reg_receivers s)) ->
  ms_state_ s = 0%Z ->
  atomic_inv (mkMpscTasks s' (after_send f v r ws) rc).
Proof.
  unfold MpscSender_poll. intros Hp Hsl Hws Hrc Hop.
  assert (MpscSender_closed s = false) as Hcl by (unfold MpscSender_closed; by rewrite Hop).
  rewrite Hcl in Hp.
  destruct (MpscSender_try_push Size v s) as [[] s1] eqn:Htp;
    pose proof (try_push_state v s) as Hst; rewrite Htp in Hst; cbn in Hst;
    apply try_push_spec in Htp; cbn in Htp; injection Hp as <- <-.
  - destruct Htp as (Hlt & Hq & Hsd & Hrs & Hr & Hrr). constructor; cbn; [congruence|..].
    + rewrite Hsd, Hq, Hrs, length_app. cbn. destruct Hsl; [by left|right; lia].
    + intros g w [Hg Hgw]%lookup_delete_Some. rewrite Hsd, Hrs. by eapply Hws.
    + intros g Hg. destruct (Hrc g Hg) as [Hrg _]. rewrite Hr. split; [done|]. right.
      rewrite Hrr, Hrg. set_solver.
  - destruct Htp as [Hfull ->]. constructor; cbn; [done|..].
    + right. lia.
    + intros g w [[-> ->]|[Hg Hgw]]%lookup_insert_Some; [left; set_solver|].
      destruct (Hws g w Hgw); [done|left; set_solver|by right].
    + done.
Qed.

(** A [receive] polled when no registration of its own is left. *)
Lemma receive_inv f s r s' ws :
  MpscReceiver_poll f s = (r, s') -> ms_state_ s = 0%Z ->
  (ms_senders_ s = [] \/ Size <= length (ms_queue_ s) + length (ms_reg_senders s)) ->
  (forall g w, ws !! g = Some w -> g ∈ ms_senders_ s \/ g ∈ ms_reg_senders s) ->
  atomic_inv (mkMpscTasks s' ws (after_receive f r)).
Proof.
  unfold MpscReceiver_poll, MpscReceiver_take. intros Hp Ho Hsl Hws. rewrite Ho in Hp. cbn in Hp.
  destruct (ms_queue_ s) as [|v q] eqn:Hq; injection Hp as <- <-.
  - constructor; cbn; rewrite ?Hq; try done. intros g [= ->]. by auto.
  - unfold MpscReceiver_notify. cbn. destruct (ms_senders_ s) as [|sd rest] eqn:Hsd;
      constructor; cbn; try done; rewrite ?Hsd, ?length_app; cbn; try (by left).
    + destruct Hsl as [|Hsl]; [done|]. right. cbn in Hsl. lia.
    + intros g w Hg. destruct (Hws g w Hg) as [E|E].
      * apply elem_of_cons in E as [->|E]; [|by left].
        right. apply elem_of_app. right. by left.
      * right. apply elem_of_app. by left.
Qed.

Lemma atomic_inv_step a a' : atomic_inv a -> atomic_step a a' -> atomic_inv a'.
Proof.
  intros [Ho Hsl Hws Hrc] Hst.
  destruct Hst as [s ws rc f v r s' Hf Hp|s ws rc f v r s' Hf Hr Hp|s ws f r s' Hp|s ws f r s' Hf Hp];
    cbn in *.
  - eapply send_inv; [done| | |done|done].
    + destruct Hsl; [by left|right; lia].
    + intros g w Hg _. by eapply Hws.
  - eapply send_inv; [done| | |done|done]; cbn.
    + pose proof (erase_first_length f _ Hr). destruct Hsl; [by left|right; lia].
    + intros g w Hg Hne. destruct (Hws g w Hg); [by left|right]. by apply erase_first_other.
  - by eapply receive_inv.
  - by eapply receive_inv.
Qed.

Lemma atomic_inv_init : atomic_inv (mkMpscTasks mpsc_channel ∅ None).
Proof. constructor; cbn; try done. by left. Qed.

(** C24.  On one thread no wake-up is lost: in every reachable state of the open
    channel with room for at least one value, if the receiver is suspended
    and a sender is suspended then one of them has been registered and will
    run; and a suspended receiver with a value in the queue is itself
    registered. *)
Theorem mpsc_no_lost_wakeup a r (HS : 0 < Size) (Ha : atomic_reachable a)
    (Hr : a_receiving a = Some r) :
  (a_waiting a <> ∅ -> r ∈ ms_reg_receivers (a_shared a) \/ ms_reg_senders (a_shared a) <> []) /\
  (ms_queue_ (a_shared a) <> [] -> r ∈ ms_reg_receivers (a_shared a)).
Proof.
  assert (atomic_inv a) as [Ho Hsl Hws Hrc].
  { refine (rtc_invariant atomic_step atomic_inv _ _ atomic_inv_step atomic_inv_init Ha). }
  destruct (Hrc r Hr) as [_ [Hq|Hin]]; [|by auto]. split; [|done].
  intros (f & v & Hf)%map_choose. right. rewrite Hq in Hsl. cbn in Hsl.
  destruct (Hws f v Hf) as [Hin|Hin].
  - destruct Hsl as [Hn|Hsl]; [rewrite Hn in Hin; by apply elem_of_nil in Hin|].
    intros E. rewrite E in Hsl. cbn in Hsl. lia.
  - intros E. rewrite E in Hin. by apply elem_of_nil in Hin.
Qed.
End Atomic.

(** [receiver_] is never reset.  After a [receive] that suspended as future
    [f] has been woken and has returned, every later [send] registers [f]
    again; when the future has been destroyed meanwhile, the registration
    reads freed memory. *)
Theorem mpsc_stale_receiver_registered {R V : Type} (f sd1 sd2 : fid) (v1 v2 : V) (w : World R V)
    (Hdead : futures (w_heap w) !! f = None) :
  exists s1 s2 s3 s4,
    MpscReceiver_poll f (mpsc_channel (V := V)) = (Pending, s1) /\
    MpscSender_poll 2 sd1 v1 s1 = (Ready (Value tt), s2) /\ ms_reg_receivers s2 = [f] /\
    MpscReceiver_poll f (run_receiver f s2) = (Ready (Some v1), s3) /\
    MpscSender_poll 2 sd2 v2 s3 = (Ready (Value tt), s4) /\ ms_reg_receivers s4 = [f] /\
    (RuntimeCore_register_future f w).1 = Undef.
Proof.
  eexists _, _, _, _. split_and!; [done|done|done| | | |].
  - by unfold MpscReceiver_poll, run_receiver.
  - done.
  - cbn. by rewrite decide_True.
  - unfold RuntimeCore_register_future, in_heap, Future_get_handle, get_fut. mred. by rewrite Hdead.
Qed.
