(* ===== verification/Blocking.v ===== *)
(** Blocking tasks: [include/xyco/task/registry.ccm], [src/task/registry.cc],
    [include/xyco/task/blocking_task.ccm].

    A closure is named by a number; [before_extra_] of an event holds the name
    of the closure that runs the user's function and stores its result in
    [after_extra_] of that event. *)
From stdpp Require Import base gmap list sets relations.
From Stdlib Require Import ZArith Lia.
From S2P Require Import Prelude Errors Events Futures Core Driver DriverSpec.

(** ** Data *)

Record BlockingWorker : Type := mkBlockingWorker {
  bw_tasks_ : list nat;
  bw_end_ : bool;
}.

(** [BlockingRegistryImpl] with its [BlockingPool]. *)
Record BlockingRegistryImpl : Type := mkBlockingRegistry {
  br_events_ : list eid;
  br_workers_ : list BlockingWorker;
}.

(** ** Operations *)

Definition BlockingRegistryImpl_new (worker_num : nat) : BlockingRegistryImpl :=
  mkBlockingRegistry [] (replicate worker_num (mkBlockingWorker [] false)).

(** [std::min_element] by [tasks_.size()]: the first of the smallest, none for
    the empty range. *)
Fixpoint min_worker (l : list BlockingWorker) : option nat :=
  match l with
  | [] => None
  | k :: l' =>
      match min_worker l' with
      | None => Some 0
      | Some i =>
          match l' !! i with
          | Some k' => if length (bw_tasks_ k') <? length (bw_tasks_ k) then Some (S i) else Some 0
          | None => Some 0
          end
      end
  end.

(** [BlockingPool::spawn]. *)
Definition BlockingPool_spawn (task : nat) (ws : list BlockingWorker)
    : outcome (list BlockingWorker) :=
  match min_worker ws with
  | None => Undef
  | Some i => Done (alter (fun k => mkBlockingWorker (bw_tasks_ k ++ [task]) (bw_end_ k)) i ws)
  end.

(** [~BlockingPool] up to the joins. *)
Definition BlockingPool_end (ws : list BlockingWorker) : list BlockingWorker :=
  (fun k => mkBlockingWorker (bw_tasks_ k) true) <$> ws.

Definition BlockingRegistryImpl_Register (event : eid)
    : M (BlockingRegistryImpl * EventStore) (Result unit) :=
  let! (r, es) := get in
  put (mkBlockingRegistry (br_events_ r ++ [event]) (br_workers_ r), es) ;;;
  let! x := deref (blocking_extra es event) in
  match BlockingPool_spawn (before_extra_ x) (br_workers_ r) with
  | Done ws => put (mkBlockingRegistry (br_events_ r ++ [event]) ws, es) ;;; ret (Value tt)
  | _ => undef
  end.

Definition BlockingRegistryImpl_reregister (event : eid)
    : M (BlockingRegistryImpl * EventStore) (Result unit) := ret (Value tt).
Definition BlockingRegistryImpl_deregister (event : eid)
    : M (BlockingRegistryImpl * EventStore) (Result unit) := ret (Value tt).

(** The predicate of [copy_if]: whether [after_extra_] is set. *)
Definition finished (es : EventStore) (e : eid) : bool :=
  match blocking_extra es e with
  | Some x => match after_extra_ x with Some _ => true | None => false end
  | None => false
  end.

Definition BlockingRegistryImpl_select (timeout : Z)
    : M (BlockingRegistryImpl * EventStore * list eid) (Result unit) :=
  fun s =>
    let '(r, es, events) := s in
    if decide (Forall (fun e => is_Some (blocking_extra es e)) (br_events_ r)) then
      (Done (Value tt),
       (mkBlockingRegistry (filter (fun e => finished es e = false) (br_events_ r)) (br_workers_ r),
        es, events ++ filter (fun e => finished es e = true) (br_events_ r)))
    else (Undef, s).

(** The body of the inner loop of [BlockingWorker::run] on worker [i]: take the
    oldest task and run it; [result] is the object the closure of [e] makes. *)
Definition BlockingWorker_run_task (i : nat) (result : nat -> nat)
    : M (BlockingRegistryImpl * EventStore) bool :=
  let! (r, es) := get in
  let! k := deref (br_workers_ r !! i) in
  match bw_tasks_ k with
  | [] => ret false
  | task :: rest =>
      put (mkBlockingRegistry (br_events_ r)
             (<[i := mkBlockingWorker rest (bw_end_ k)]> (br_workers_ r)),
           map_imap (fun e ev => Some
             match extra_ ev with
             | Some (EBlocking x) =>
                 if decide (before_extra_ x = task)
                 then set_extra (EBlocking (mkBlockingExtra (before_extra_ x) (Some (result task)))) ev
                 else ev
             | _ => ev
             end) es) ;;;
      ret true
  end.

(** [BlockingTask]: [poll]; [read] reads the object [after_extra_] points to. *)
Record BlockingTask : Type := mkBlockingTask { bt_ready_ : bool; bt_event_ : eid }.

(** [BlockingExtra::BlockingExtra]. *)
Definition BlockingExtra_new (before_extra : nat) : BlockingExtra := mkBlockingExtra before_extra None.

(** The constructor of the task at [this]: [f_] is the closure named [f], [event] the
    address of the event it makes. *)
Definition BlockingTask_new (this : fid) (f : nat) (event : eid) (es : EventStore)
    : BlockingTask * EventStore :=
  (mkBlockingTask false event,
   <[event := mkEvent (Some this) (Some (EBlocking (BlockingExtra_new f)))]> es).

(** [typeid(BlockingRegistry).hash_code()]. *)
Definition BlockingRegistry_hash : nat := 2.

Section Task.
Context {R V Env : Type} `{Registry R Env}.

Definition BlockingTask_poll {A} (read : nat -> A) (env : Env) (t : tid)
    : M (BlockingTask * World R V) (Poll A) :=
  let! (b, w) := get in
  if bt_ready_ b then
    let! x := deref (blocking_extra (w_events w) (bt_event_ b)) in
    let! ret_ := deref (after_extra_ x) in
    zoom snd (fun w b => (b.1, w))
      (Driver_deregister env t BlockingRegistry_hash (bt_event_ b)) ;;;
    ret (Ready (read ret_))
  else
    put (mkBlockingTask true (bt_event_ b), w) ;;;
    zoom snd (fun w b => (b.1, w))
      (Driver_Register env t BlockingRegistry_hash (bt_event_ b)) ;;;
    ret Pending.
End Task.

#[export] Instance BlockingRegistry : Registry BlockingRegistryImpl unit := {
  Register _ := BlockingRegistryImpl_Register;
  reregister _ := BlockingRegistryImpl_reregister;
  deregister _ := BlockingRegistryImpl_deregister;
  select _ := BlockingRegistryImpl_select;
}.

(** ** The interface the driver relies on *)

Lemma filter_partition {A} (f : A -> bool) (l : list A) :
  l ≡ₚ filter (fun x => f x = true) l ++ filter (fun x => f x = false) l.
Proof.
  induction l as [|x l IH]; [done|]. rewrite !filter_cons.
  destruct (f x); repeat case_decide; try done; cbn.
  - by rewrite <- IH.
  - rewrite <- Permutation_middle. by rewrite <- IH.
Qed.

Lemma blocking_extra_ext es es' e :
  extra_of es' e = extra_of es e -> blocking_extra es' e = blocking_extra es e.
Proof.
  unfold blocking_extra, extra_of.
  destruct (es' !! e) as [[f' [[]|]]|], (es !! e) as [[f [[]|]]|]; cbn; congruence.
Qed.

#[export] Program Instance BlockingRegistry_laws : RegistryLaws BlockingRegistryImpl unit := {
  pending := br_events_;
  ready _ r es := Forall (fun e => is_Some (blocking_extra es e)) (br_events_ r);
}.
Next Obligation.
  intros env r es es' Hext Hall. rewrite Forall_forall in *. intros e He.
  rewrite (blocking_extra_ext es es'); auto.
Qed.
Next Obligation.
  intros env timeout r es evs Hall. cbn [select BlockingRegistry].
  unfold BlockingRegistryImpl_select. rewrite decide_True by done.
  do 3 eexists. split_and!; [done| |done|done]. apply filter_partition.
Qed.
