(* ===== verification/BlockingSpec.v ===== *)
(** The pool and the registry of blocking tasks: tasks go to a shortest queue, a
    registered task is run and its event handed out.  [PoolLife.v] has the threads. *)
From stdpp Require Import base gmap list sets relations.
From Stdlib Require Import ZArith Lia.
From S2P Require Import Prelude Errors Events Futures Core Driver DriverSpec Blocking.

Lemma min_worker_spec l i :
  min_worker l = Some i ->
  exists k, l !! i = Some k /\
    (forall j k', l !! j = Some k' -> length (bw_tasks_ k) <= length (bw_tasks_ k')) /\
    (forall j k', l !! j = Some k' -> j < i -> length (bw_tasks_ k) < length (bw_tasks_ k')).
Proof.
  revert i. induction l as [|k0 l IH]; intros i Hi; [done|]. cbn [min_worker] in Hi.
  destruct (min_worker l) as [m|] eqn:Hm.
  - destruct (IH m eq_refl) as (k & Hk & Hle & Hlt). rewrite Hk in Hi. revert Hi.
    destruct (Nat.ltb_spec (length (bw_tasks_ k)) (length (bw_tasks_ k0))) as [H|H];
      intros Hi; injection Hi as Hi; subst i.
    + exists k. split; [done|]. split; intros [|j] k' Hj; cbn in Hj; simplify_eq.
      * lia.
      * by eapply Hle.
      * done.
      * intros ?. eapply Hlt; [done|lia].
    + exists k0. split; [done|]. split; intros [|j] k' Hj; cbn in Hj; simplify_eq; try lia.
      specialize (Hle j k' Hj). lia.
  - injection Hi as <-. exists k0. destruct l as [|k1 l].
    + split; [done|]. split; intros [|j] k' Hj; cbn in Hj; simplify_eq; lia.
    + cbn in Hm. repeat split_match.
Qed.

Lemma min_worker_some l : l <> [] -> is_Some (min_worker l).
Proof.
  destruct l as [|k l]; [done|]. intros _. cbn. repeat split_match; eauto.
Qed.

(** A task spawned on a pool with at least one worker goes to the back of a
    shortest queue (the first of them), every other queue is untouched; a pool
    with no workers makes the call undefined. *)
Theorem spawn_balances task ws :
  match BlockingPool_spawn task ws with
  | Done ws' => exists i k, ws !! i = Some k /\
      ws' = <[i := mkBlockingWorker (bw_tasks_ k ++ [task]) (bw_end_ k)]> ws /\
      (forall j k', ws !! j = Some k' -> length (bw_tasks_ k) <= length (bw_tasks_ k')) /\
      (forall j k', ws !! j = Some k' -> j < i -> length (bw_tasks_ k) < length (bw_tasks_ k'))
  | Thrown _ => False
  | Undef => ws = []
  end.
Proof.
  unfold BlockingPool_spawn. destruct (min_worker ws) as [i|] eqn:Hm.
  - destruct (min_worker_spec ws i Hm) as (k & Hk & Hle & Hlt). exists i, k.
    split_and!; [done| |done|done]. apply list_eq. intros j.
    destruct (decide (j = i)) as [->|].
    + rewrite list_lookup_alter_eq, Hk, list_lookup_insert_eq by (by eapply lookup_lt_Some). done.
    + by rewrite list_lookup_alter_ne, list_lookup_insert_ne.
  - destruct ws as [|k ws]; [done|]. destruct (min_worker_some (k :: ws)) as [? ?]; [done|].
    congruence.
Qed.

(** ** A task from [Register] to [select] *)

(** Worker [i] runs [n] tasks. *)
Fixpoint run_tasks (n i : nat) (result : nat -> nat)
    : M (BlockingRegistryImpl * EventStore) unit :=
  match n with
  | O => ret tt
  | S n => let! _ := BlockingWorker_run_task i result in run_tasks n i result
  end.

(** The events after the closure [task] has run. *)
Definition store_result (result : nat -> nat) (task : nat) (ev : Event) : Event :=
  match extra_ ev with
  | Some (EBlocking x) =>
      if decide (before_extra_ x = task)
      then set_extra (EBlocking (mkBlockingExtra (before_extra_ x) (Some (result task)))) ev
      else ev
  | _ => ev
  end.

Lemma store_result_extra result task es e x :
  blocking_extra es e = Some x ->
  exists x', blocking_extra (map_imap (fun _ ev => Some (store_result result task ev)) es) e = Some x' /\
    before_extra_ x' = before_extra_ x /\
    after_extra_ x' = if decide (before_extra_ x = task) then Some (result task) else after_extra_ x.
Proof.
  unfold blocking_extra. rewrite map_lookup_imap.
  destruct (es !! e) as [[f [[| y | |]|]]|]; cbn; try done. intros [= <-].
  unfold store_result. cbn. case_decide; cbn; eauto.
Qed.

Lemma run_tasks_spec result i l rest k r es :
  br_workers_ r !! i = Some k -> bw_tasks_ k = l ++ rest ->
  exists r' es', run_tasks (length l) i result (r, es) = (Done tt, (r', es')) /\
    br_events_ r' = br_events_ r /\
    br_workers_ r' = <[i := mkBlockingWorker rest (bw_end_ k)]> (br_workers_ r) /\
    (forall e x, blocking_extra es e = Some x -> exists x',
       blocking_extra es' e = Some x' /\ before_extra_ x' = before_extra_ x /\
       after_extra_ x' = if decide (before_extra_ x ∈ l) then Some (result (before_extra_ x))
                         else after_extra_ x).
Proof.
  revert k r es. induction l as [|task l IH]; intros k r es Hk Hl.
  - exists r, es. split_and!; [done|done| |eauto]. cbn in Hl. rewrite <- Hl.
    rewrite list_insert_id; [done|]. by destruct k.
  - cbn [length run_tasks].
    set (r1 := mkBlockingRegistry (br_events_ r)
                 (<[i := mkBlockingWorker (l ++ rest) (bw_end_ k)]> (br_workers_ r))).
    set (es1 := map_imap (fun _ ev => Some (store_result result task ev)) es).
    assert (BlockingWorker_run_task i result (r, es) = (Done true, (r1, es1))) as Hrun.
    { unfold BlockingWorker_run_task. mred. rewrite Hk, Hl. done. }
    rewrite (bind_done _ _ _ _ _ Hrun).
    assert (i < length (br_workers_ r)) as Hi by (by eapply lookup_lt_Some).
    destruct (IH (mkBlockingWorker (l ++ rest) (bw_end_ k)) r1 es1)
      as (r' & es' & Hr & He & Hw & Hx); [by apply list_lookup_insert_eq|done|].
    exists r', es'. split_and!; [done|done| |].
    + rewrite Hw. cbn. by rewrite list_insert_insert_eq.
    + intros e x Hex. destruct (store_result_extra result task es e x Hex) as (x1 & Hx1 & Hb1 & Ha1).
      destruct (Hx e x1 Hx1) as (x2 & Hx2 & Hb2 & Ha2). exists x2. split; [done|].
      rewrite Hb2, Ha2, Hb1, Ha1. split; [done|].
      repeat case_decide; subst; set_solver.
Qed.

(** A registered blocking task completes: [Register] queues its closure on a
    worker; once that worker has run the tasks of its queue, the event holds
    the closure's result; the next [select] hands the event out and forgets
    it. *)
Theorem blocking_task_completes result timeout r es e x evs
    (Hx : blocking_extra es e = Some x) (Hne : br_workers_ r <> [])
    (Hall : Forall (fun e => is_Some (blocking_extra es e)) (br_events_ r)) :
  exists r1 i k r2 es2 r3 out,
    BlockingRegistryImpl_Register e (r, es) = (Done (Value tt), (r1, es)) /\
    br_workers_ r1 !! i = Some k /\
    run_tasks (length (bw_tasks_ k)) i result (r1, es) = (Done tt, (r2, es2)) /\
    blocking_extra es2 e =
      Some (mkBlockingExtra (before_extra_ x) (Some (result (before_extra_ x)))) /\
    BlockingRegistryImpl_select timeout (r2, es2, evs) =
      (Done (Value tt), (r3, es2, evs ++ out)) /\
    e ∈ out /\ e ∉ br_events_ r3.
Proof.
  pose proof (min_worker_some _ Hne) as [i Hi].
  destruct (min_worker_spec _ _ Hi) as (k & Hk & _ & _).
  set (k1 := mkBlockingWorker (bw_tasks_ k ++ [before_extra_ x]) (bw_end_ k)).
  set (r1 := mkBlockingRegistry (br_events_ r ++ [e])
    (alter (fun k => mkBlockingWorker (bw_tasks_ k ++ [before_extra_ x]) (bw_end_ k)) i (br_workers_ r))).
  assert (br_workers_ r1 !! i = Some k1) as Hk1 by (cbn; by rewrite list_lookup_alter_eq, Hk).
  destruct (run_tasks_spec result i (bw_tasks_ k1) [] k1 r1 es Hk1) as (r2 & es2 & Hrun & Hev & _ & Hb);
    [by rewrite app_nil_r|].
  destruct (Hb e x Hx) as (x' & Hx' & Hb' & Ha').
  rewrite decide_True in Ha' by (cbn; set_solver).
  assert (Forall (fun e => is_Some (blocking_extra es2 e)) (br_events_ r2)) as Hall2.
  { rewrite Hev. apply Forall_app. rewrite Forall_singleton. split; [|by eauto].
    eapply Forall_impl; [exact Hall|]. intros e0 [x0 Hx0]. destruct (Hb e0 x0 Hx0) as (? & ? & _).
    by eauto. }
  assert (finished es2 e = true) as Hfin by (unfold finished; by rewrite Hx', Ha').
  eexists r1, i, k1, r2, es2, _, _. split_and!; [|done|done| | | |].
  - unfold BlockingRegistryImpl_Register. mred. rewrite Hx. unfold BlockingPool_spawn.
    by rewrite Hi.
  - rewrite Hx'. destruct x'. cbn in *. congruence.
  - unfold BlockingRegistryImpl_select. by rewrite decide_True.
  - apply list_elem_of_filter. split; [done|]. rewrite Hev. cbn. set_solver.
  - cbn. rewrite list_elem_of_filter. intros [? _]. congruence.
Qed.
