(* ===== verification/BlockingFlow.v ===== *)
(** A blocking task through the layers: the future's first poll, the registry and its
    pool, the driver's poll, the runtime's queue, and the poll that takes the result. *)
From stdpp Require Import base gmap list sets.
From Stdlib Require Import ZArith Lia.
From S2P Require Import Prelude Errors Events Futures Core Driver DriverSpec Blocking BlockingSpec.

(** Of a queue that ends with [y], the first [m] entries have it when they are all. *)
Lemma elem_take_last (y : nat) l m :
  y ∉ l -> m <= S (length l) -> y ∈ take m (l ++ [y]) <-> m = S (length l).
Proof.
  intros Hy Hm. split.
  - intros Hin. destruct (decide (m = S (length l))) as [|Hne]; [done|].
    rewrite take_app_le in Hin by lia. exfalso. apply Hy. rewrite <- (take_drop m l). set_solver.
  - intros ->. rewrite take_ge by (rewrite length_app; cbn; lia). set_solver.
Qed.

Section Flow.
Context {V A : Type}.
Implicit Types (w : World BlockingRegistryImpl V) (t : tid) (this : fid).

(** Running tasks binds no event. *)
Lemma run_tasks_future result n i r es o r' es' e :
  run_tasks n i result (r, es) = (o, (r', es')) -> future_of es' e = future_of es e.
Proof.
  revert r es. induction n as [|n IH]; intros r es Hrun; [by injection Hrun as _ _ <-|].
  cbn [run_tasks] in Hrun. unfold bind at 1 in Hrun.
  destruct (BlockingWorker_run_task i result (r, es)) as [o1 [r1 es1]] eqn:E.
  assert (future_of es1 e = future_of es e) as <-.
  { unfold BlockingWorker_run_task, bind, get, put, deref, ret, undef in E. cbn in E. destruct (br_workers_ r !! i) as [k|]; [|by injection E as _ _ <-].
    destruct (bw_tasks_ k) as [|task rest]; [by injection E as _ _ <-|]. injection E as _ _ <-.
    unfold future_of. rewrite map_lookup_imap. destruct (es !! e) as [[f [[]|]]|]; cbn; try done.
    by case_decide. }
  destruct o1; [by eapply IH|by injection Hrun as _ _ <-..].
Qed.

(** The registry [r] of thread [t], at [a], is the only one; its events are distinct,
    belong to blocking tasks and are bound. *)
Record polls_blocking t (a : nat) w (r : BlockingRegistryImpl) : Prop := {
  pb_local : local_registries_ (driver_ w) !! t = Some [(BlockingRegistry_hash, a)];
  pb_registry : w_registries w !! a = Some r;
  pb_distinct : NoDup (br_events_ r);
  pb_events : forall e, e ∈ br_events_ r -> is_Some (blocking_extra (w_events w) e) /\
    is_Some (entry_of (w_heap w) (w_events w) e);
}.

(** A poll of the driver queues the finished tasks. *)
Lemma blocking_poll_run t a w r :
  polls_blocking t a w r ->
  exists w' xs, Driver_poll (fun _ => tt) t w = (Done tt, w') /\
    fifo (w_handles_ w') = fifo (w_handles_ w) ++ xs /\
    Forall2 (fun e y => entry_of (w_heap w) (w_events w) e = Some y)
      (filter (fun e => finished (w_events w) e = true) (br_events_ r)) xs /\
    (forall e, blocking_extra (w_events w') e = blocking_extra (w_events w) e) /\
    local_registries_ (driver_ w') = local_registries_ (driver_ w) /\ is_Some (w_registries w' !! a).
Proof.
  intros [Hl Hr Hnd Hev]. set (out := filter (fun e => finished (w_events w) e = true) (br_events_ r)).
  assert (NoDup out) as Hno by (by apply NoDup_filter).
  destruct (mapM_entries (w_heap w) (w_events w) out) as [xs Hxs].
  { intros e [_ He]%list_elem_of_filter. by apply Hev. }
  set (r' := mkBlockingRegistry (filter (fun e => finished (w_events w) e = false) (br_events_ r)) (br_workers_ r)).
  set (w1 := set_events (w_events w) (set_registries (<[a := r']> (w_registries w)) (per_runtime_registry_ w) w)).
  eexists _, xs. split_and!.
  - unfold Driver_poll. rewrite (bind_done _ _ _ w w) by done.
    rewrite (bind_done _ _ _ [(BlockingRegistry_hash, a)] w) by (by mred; rewrite Hl).
    cbn [Driver_poll_loop]. rewrite (bind_done _ _ _ out w1).
    2:{ unfold Driver_select, on_registry. mred. rewrite Hr. cbn [select BlockingRegistry].
        unfold BlockingRegistryImpl_select. rewrite decide_True; [done|].
        apply Forall_forall. intros e He. by apply Hev. }
    unfold RuntimeCore_wake. rewrite (bind_done _ _ _ [] (set_handles (rev xs ++ w_handles_ w1)
      (set_events (foldr unbind (w_events w1) out) w1))); [done|].
    by rewrite (bind_done _ _ _ _ _ (mfor_wake_event_run out xs w1 Hno Hxs)).
  - cbn. unfold fifo. by rewrite rev_app_distr, rev_involutive.
  - by apply mapM_Some.
  - intros e. cbn. apply blocking_extra_ext. unfold extra_of. rewrite foldr_unbind_lookup.
    case_decide; [by destruct (w_events w !! e)|done].
  - done.
  - cbn. rewrite lookup_insert_eq. by eexists.
Qed.

(** The first poll registers the task with a worker. *)
Lemma first_poll_queues (read : nat -> A) t a w r b x :
  polls_blocking t a w r -> br_workers_ r <> [] -> bt_ready_ b = false ->
  blocking_extra (w_events w) (bt_event_ b) = Some x ->
  exists i k r1, BlockingTask_poll read tt t (b, w) =
      (Done Pending, (mkBlockingTask true (bt_event_ b),
        set_events (w_events w) (set_registries (<[a := r1]> (w_registries w)) (per_runtime_registry_ w) w))) /\
    br_events_ r1 = br_events_ r ++ [bt_event_ b] /\ br_workers_ r !! i = Some k /\
    br_workers_ r1 !! i = Some (mkBlockingWorker (bw_tasks_ k ++ [before_extra_ x]) (bw_end_ k)).
Proof.
  intros [Hl Hr _ _] Hne Hb Hx. pose proof (min_worker_some _ Hne) as [i Hi].
  destruct (min_worker_spec _ _ Hi) as (k & Hk & _ & _).
  eexists i, k, (mkBlockingRegistry (br_events_ r ++ [bt_event_ b]) _). split_and!; [|done|done|].
  - unfold BlockingTask_poll, Driver_Register, Driver_call, registry_of, on_registry. mred. rewrite Hb.
    cbn. rewrite Hl. cbn. rewrite decide_True by done. cbn. rewrite Hr. unfold BlockingRegistryImpl_Register. mred. rewrite Hx.
    unfold BlockingPool_spawn. by rewrite Hi.
  - cbn. by rewrite list_lookup_alter_eq, Hk.
Qed.

(** The last poll takes the result. *)
Lemma last_poll_takes (read : nat -> A) t a w e bx v :
  local_registries_ (driver_ w) !! t = Some [(BlockingRegistry_hash, a)] -> is_Some (w_registries w !! a) ->
  blocking_extra (w_events w) e = Some (mkBlockingExtra bx (Some v)) ->
  exists w', BlockingTask_poll read tt t (mkBlockingTask true e, w) =
    (Done (Ready (read v)), (mkBlockingTask true e, w')).
Proof.
  intros Hl [r Hr] Hx. unfold BlockingTask_poll, Driver_deregister, Driver_call, registry_of, on_registry.
  mred. cbn. rewrite Hx. cbn. rewrite Hl. cbn. rewrite decide_True by done. cbn. rewrite Hr. by eexists.
Qed.

(** The registry after the task was queued and [m] tasks of its worker have run. *)
Lemma polls_blocking_ran result t a w r r1 r2 es2 e x m i fo this :
  polls_blocking t a w r -> br_events_ r1 = br_events_ r ++ [e] -> e ∉ br_events_ r ->
  blocking_extra (w_events w) e = Some x -> future_of (w_events w) e = Some this ->
  futures (w_heap w) !! this = Some fo ->
  run_tasks m i result (r1, w_events w) = (Done tt, (r2, es2)) -> br_events_ r2 = br_events_ r1 ->
  (forall e x, blocking_extra (w_events w) e = Some x -> is_Some (blocking_extra es2 e)) ->
  polls_blocking t a (set_events es2 (set_registries (<[a := r2]> (w_registries w))
    (per_runtime_registry_ w) w)) r2.
Proof.
  intros [Hl Hr Hnd Hev] Hr1 Hni Hx Hf Hfo Hrun Hr2 Hex. rewrite Hr1 in Hr2.
  constructor; cbn; [done|apply lookup_insert_eq| |].
  - rewrite Hr2. apply NoDup_app. split_and!; [done| |apply NoDup_singleton].
    intros e' He' ->%list_elem_of_singleton. done.
  - rewrite Hr2. intros e' He'.
    rewrite (entry_of_future _ (w_events w)) by (by eapply run_tasks_future).
    apply elem_of_app in He' as [He'| ->%list_elem_of_singleton].
    + destruct (Hev e' He') as [[y Hy] ?]. split; [by eapply Hex|done].
    + split; [by eapply Hex|]. rewrite (entry_of_for _ _ _ this fo) by done. by eexists.
Qed.

(** C10.  A blocking task from its first poll to its result.  The poll queues the closure,
    last, on one of the pool's workers and suspends; after [m] tasks of that worker have
    run, the driver's next poll puts the future into the runtime's queue if and only if
    the closure was among them; polled again then, the future is ready with the
    closure's result. *)
Theorem blocking_task_end_to_end (read : nat -> A) result t a w r this fo b x
    (Hp : polls_blocking t a w r) (Hne : br_workers_ r <> []) (Hb : bt_ready_ b = false)
    (Hx : blocking_extra (w_events w) (bt_event_ b) = Some x) (Ha : after_extra_ x = None)
    (Hf : future_of (w_events w) (bt_event_ b) = Some this) (Hfo : futures (w_heap w) !! this = Some fo)
    (Hni : bt_event_ b ∉ br_events_ r)
    (Hown : forall e, e ∈ br_events_ r -> future_of (w_events w) e <> Some this)
    (Hclosure : forall i k, br_workers_ r !! i = Some k -> before_extra_ x ∉ bw_tasks_ k) :
  exists i tasks w1,
    BlockingTask_poll read tt t (b, w) = (Done Pending, (mkBlockingTask true (bt_event_ b), w1)) /\
    (exists r1 k, w_registries w1 !! a = Some r1 /\ br_workers_ r1 !! i = Some k /\
       bw_tasks_ k = tasks ++ [before_extra_ x]) /\
    forall m, m <= S (length tasks) -> exists w2 w3 xs,
      on_registry a (run_tasks m i result) w1 = (Done tt, w2) /\
      Driver_poll (fun _ => tt) t w2 = (Done tt, w3) /\
      fifo (w_handles_ w3) = fifo (w_handles_ w) ++ xs /\
      (entry_for this fo ∈ xs <-> m = S (length tasks)) /\
      (m = S (length tasks) -> exists w4,
         BlockingTask_poll read tt t (mkBlockingTask true (bt_event_ b), w3) =
           (Done (Ready (read (result (before_extra_ x)))), (mkBlockingTask true (bt_event_ b), w4))).
Proof.
  destruct (first_poll_queues read t a w r b x Hp Hne Hb Hx) as (i & k & r1 & Hpoll & He1 & Hk & Hk1).
  set (e := bt_event_ b) in *. set (l := bw_tasks_ k ++ [before_extra_ x]) in Hk1.
  eexists i, (bw_tasks_ k), _. split; [exact Hpoll|]. split.
  { exists r1, (mkBlockingWorker l (bw_end_ k)). cbn. by rewrite lookup_insert_eq. }
  intros m Hm. destruct (run_tasks_spec result i (take m l) (drop m l) (mkBlockingWorker l (bw_end_ k)) r1 (w_events w) Hk1)
    as (r2 & es2 & Hrun & He2 & _ & Hex); [by rewrite take_drop|].
  rewrite length_take_le in Hrun by (unfold l; rewrite length_app; cbn; lia).
  assert (before_extra_ x ∈ take m l <-> m = S (length (bw_tasks_ k))) as Hin
    by (apply elem_take_last; [by eapply Hclosure|done]).
  set (w2 := set_events es2 (set_registries (<[a := r2]> (w_registries w)) (per_runtime_registry_ w) w)).
  assert (polls_blocking t a w2 r2) as Hp2.
  { eapply (polls_blocking_ran result t a w r r1 r2 es2 e x m i fo this); try done.
    intros e0 x0 Hx0. destruct (Hex e0 x0 Hx0) as (y & Hy & _). by exists y. }
  destruct (blocking_poll_run t a w2 r2 Hp2) as (w3 & xs & Hrun3 & Hq & Hxs & Hext & Hl3 & Hr3).
  destruct (Hex e x Hx) as (x2 & Hx2 & Hbx & Hax). rewrite Ha in Hax.
  exists w2, w3, xs. split_and!; [|done|done| |].
  - unfold on_registry. cbn. rewrite lookup_insert_eq, Hrun. unfold w2, set_events, set_registries. cbn.
    by rewrite insert_insert_eq.
  - assert (finished es2 e = true <-> m = S (length (bw_tasks_ k))) as <-.
    { unfold finished. rewrite Hx2, Hax, <- Hin. by case_decide. }
    assert (forall e', future_of es2 e' = future_of (w_events w) e') as Hfut
      by (intros; by eapply run_tasks_future).
    cbn [w_events w_heap w2 set_events set_registries] in Hxs. split.
    + intros [n Hn]%list_elem_of_lookup. destruct (Forall2_lookup_r _ _ _ _ _ Hxs Hn) as (e' & He' & Hee).
      apply list_elem_of_lookup_2, list_elem_of_filter in He' as [Hfin He']. rewrite He2, He1 in He'.
      apply elem_of_app in He' as [He'| ->%list_elem_of_singleton]; [|done]. exfalso. apply (Hown e' He').
      rewrite <- Hfut. by eapply entry_of_bound.
    + intros Hfin. assert (e ∈ filter (fun e => finished es2 e = true) (br_events_ r2)) as [n Hn]%list_elem_of_lookup.
      { apply list_elem_of_filter. split; [done|]. rewrite He2, He1. set_solver. }
      destruct (Forall2_lookup_l _ _ _ _ _ Hxs Hn) as (y & Hy & Hey).
      rewrite (entry_of_for _ _ _ this fo) in Hey; [|done|by rewrite Hfut].
      injection Hey as <-. by eapply list_elem_of_lookup_2.
  - intros Hm'. apply (last_poll_takes read t a w3 e (before_extra_ x) (result (before_extra_ x))); [|done|].
    + rewrite Hl3. apply Hp.
    + rewrite Hext. cbn. rewrite Hx2. destruct x2 as [bx ax]. cbn in *.
      rewrite decide_True in Hax by (by apply Hin). congruence.
Qed.
End Flow.
