(* ===== verification/PoolLife.v ===== *)
(** The threads of a blocking pool: [BlockingPool], [BlockingWorker::run] and the clients
    of the registry, [src/task/registry.cc], with their mutexes and condition variables.

    A worker's program counter says which statement of [run] it executes next; every
    access to shared state is a step of its own. *)
From stdpp Require Import base list relations.
From Stdlib Require Import Lia.
From S2P Require Import Prelude Blocking BlockingSpec.

Module PoolLife.

(** Where a worker is in [BlockingWorker::run]. *)
Inductive PoolWorkerPc : Type :=
  | AtLoop        (* [while (!end_)] *)
  | ToLock        (* to acquire [mutex_] *)
  | ToRegistry    (* to acquire the registry's mutex *)
  | InDrain       (* [while (!tasks_.empty())], both mutexes held *)
  | InTask (task : nat)  (* [task()], the registry's mutex held *)
  | ToRelock      (* to acquire [mutex_] again *)
  | AtPredicate   (* the predicate of [cv_.wait], [mutex_] held *)
  | ToBlock       (* the predicate was false *)
  | Blocked       (* in [cv_.wait], [mutex_] released *)
  | Notified      (* to acquire [mutex_] after the wake-up *)
  | Ended.

#[export] Instance PoolWorkerPc_eq_dec : EqDecision PoolWorkerPc.
Proof. solve_decision. Defined.

Record PoolWorker : Type := mkPoolWorker {
  wpc : PoolWorkerPc;
  tasks_ : list nat;
  mutex_ : bool;
  end_ : bool;
}.

(** A thread of the runtime in [Register] of the event with closure [task], or in
    [select]. *)
Inductive ClientPc : Type :=
  | Idle
  | ToRegister (task : nat) | Registering (task : nat)
  | Choosing (task : nat)
  | ToPush (i task : nat) | Pushing (i task : nat) | Notifying (i : nat)
  | ToSelect | Selecting.

#[export] Instance ClientPc_eq_dec : EqDecision ClientPc.
Proof. solve_decision. Defined.

(** The owner of the pool: in [~BlockingPool] at worker [i]. *)
Inductive PoolOwnerPc : Type :=
  | Alive | SettingEnd (i : nat) | NotifyingEnd (i : nat) | Joining (i : nat) | Destroyed.

Record Pool : Type := mkPool {
  workers_ : list PoolWorker;
  clients : list ClientPc;
  registry_mutex_ : bool;
  owner : PoolOwnerPc;
  submitted : list nat;
  executed : list nat;
}.

Definition put_worker (i : nat) (k : PoolWorker) (s : Pool) : Pool :=
  mkPool (<[i := k]> (workers_ s)) (clients s) (registry_mutex_ s) (owner s) (submitted s) (executed s).
Definition set_client (j : nat) (c : ClientPc) (s : Pool) : Pool :=
  mkPool (workers_ s) (<[j := c]> (clients s)) (registry_mutex_ s) (owner s) (submitted s) (executed s).
Definition set_registry (b : bool) (s : Pool) : Pool :=
  mkPool (workers_ s) (clients s) b (owner s) (submitted s) (executed s).
Definition set_owner (o : PoolOwnerPc) (s : Pool) : Pool :=
  mkPool (workers_ s) (clients s) (registry_mutex_ s) o (submitted s) (executed s).
Definition set_submitted (l : list nat) (s : Pool) : Pool :=
  mkPool (workers_ s) (clients s) (registry_mutex_ s) (owner s) l (executed s).
Definition set_executed (l : list nat) (s : Pool) : Pool :=
  mkPool (workers_ s) (clients s) (registry_mutex_ s) (owner s) (submitted s) l.

(** [BlockingPool::BlockingPool] and [BlockingPool::run]: [worker_num] workers, each on a
    thread of its own; [client_num] threads use the registry. *)
Definition BlockingPool_run (worker_num client_num : nat) : Pool :=
  mkPool (replicate worker_num (mkPoolWorker AtLoop [] false false)) (replicate client_num Idle)
    false Alive [] [].

(** The next step of worker [i] in [BlockingWorker::run]; [None] when it waits. *)
Definition BlockingWorker_run (i : nat) (s : Pool) : option Pool :=
  k ← workers_ s !! i;
  match wpc k with
  | AtLoop =>
      Some (put_worker i (mkPoolWorker (if end_ k then Ended else ToLock) (tasks_ k) (mutex_ k) (end_ k)) s)
  | ToLock =>
      if mutex_ k then None else Some (put_worker i (mkPoolWorker ToRegistry (tasks_ k) true (end_ k)) s)
  | ToRegistry =>
      if registry_mutex_ s then None
      else Some (set_registry true (put_worker i (mkPoolWorker InDrain (tasks_ k) (mutex_ k) (end_ k)) s))
  | InDrain =>
      match tasks_ k with
      | task :: rest => Some (put_worker i (mkPoolWorker (InTask task) rest false (end_ k)) s)
      | [] => Some (set_registry false (put_worker i (mkPoolWorker AtPredicate [] (mutex_ k) (end_ k)) s))
      end
  | InTask task =>
      Some (set_executed (executed s ++ [task])
              (put_worker i (mkPoolWorker ToRelock (tasks_ k) (mutex_ k) (end_ k)) s))
  | ToRelock =>
      if mutex_ k then None else Some (put_worker i (mkPoolWorker InDrain (tasks_ k) true (end_ k)) s)
  | AtPredicate =>
      if bool_decide (tasks_ k <> []) || end_ k
      then Some (put_worker i (mkPoolWorker AtLoop (tasks_ k) false (end_ k)) s)
      else Some (put_worker i (mkPoolWorker ToBlock (tasks_ k) (mutex_ k) (end_ k)) s)
  | ToBlock => Some (put_worker i (mkPoolWorker Blocked (tasks_ k) false (end_ k)) s)
  | Notified =>
      if mutex_ k then None else Some (put_worker i (mkPoolWorker AtPredicate (tasks_ k) true (end_ k)) s)
  | Blocked | Ended => None
  end.

(** [cv_.notify_one()] of worker [i]. *)
Definition notify_one (i : nat) (s : Pool) : Pool :=
  match workers_ s !! i with
  | Some k => match wpc k with
              | Blocked => put_worker i (mkPoolWorker Notified (tasks_ k) (mutex_ k) (end_ k)) s
              | _ => s
              end
  | None => s
  end.

(** The next step of client [j] in [Register], [BlockingPool::spawn] or [select].  The
    sizes [min_element] compares are read without the workers' mutexes: [choice] is
    whichever worker they give. *)
Definition client_run (j choice : nat) (s : Pool) : option Pool :=
  c ← clients s !! j;
  match c with
  | Idle => None
  | ToRegister task =>
      if registry_mutex_ s then None else Some (set_registry true (set_client j (Registering task) s))
  | Registering task => Some (set_registry false (set_client j (Choosing task) s))
  | Choosing task =>
      if decide (choice < length (workers_ s)) then Some (set_client j (ToPush choice task) s) else None
  | ToPush i task =>
      k ← workers_ s !! i;
      if mutex_ k then None
      else Some (set_client j (Pushing i task)
                   (put_worker i (mkPoolWorker (wpc k) (tasks_ k) true (end_ k)) s))
  | Pushing i task =>
      k ← workers_ s !! i;
      Some (set_client j (Notifying i)
              (put_worker i (mkPoolWorker (wpc k) (tasks_ k ++ [task]) false (end_ k)) s))
  | Notifying i => Some (set_client j Idle (notify_one i s))
  | ToSelect =>
      if registry_mutex_ s then None else Some (set_registry true (set_client j Selecting s))
  | Selecting => Some (set_registry false (set_client j Idle s))
  end.

(** The next step of [~BlockingPool]. *)
Definition BlockingPool_dtor (s : Pool) : option Pool :=
  match owner s with
  | Alive | Destroyed => None
  | SettingEnd i =>
      match workers_ s !! i with
      | Some k => Some (set_owner (NotifyingEnd i)
                    (put_worker i (mkPoolWorker (wpc k) (tasks_ k) (mutex_ k) true) s))
      | None => Some (set_owner (Joining 0) s)
      end
  | NotifyingEnd i => Some (set_owner (SettingEnd (S i)) (notify_one i s))
  | Joining i =>
      match workers_ s !! i with
      | Some k => match wpc k with
                  | Ended => Some (set_owner (Joining (S i)) s)
                  | _ => None
                  end
      | None => Some (set_owner Destroyed s)
      end
  end.

(** A step of some thread. *)
Inductive pool_step : Pool -> Pool -> Prop :=
  | worker_moves i s s' : BlockingWorker_run i s = Some s' -> pool_step s s'
  | client_moves j choice s s' : client_run j choice s = Some s' -> pool_step s s'
  | owner_moves s s' : BlockingPool_dtor s = Some s' -> pool_step s s'.

(** What comes from outside: a call of [Register] or [select], the call of the
    destructor, after the last use of the registry, and a spurious wake-up. *)
Inductive outside_step (spurious : bool) : Pool -> Pool -> Prop :=
  | call_register j task s :
      owner s = Alive -> clients s !! j = Some Idle ->
      outside_step spurious s
        (set_submitted (submitted s ++ [task]) (set_client j (ToRegister task) s))
  | call_select j s :
      owner s = Alive -> clients s !! j = Some Idle ->
      outside_step spurious s (set_client j ToSelect s)
  | call_dtor s :
      owner s = Alive -> Forall (fun c => c = Idle) (clients s) ->
      outside_step spurious s (set_owner (SettingEnd 0) s)
  | wake_spuriously i k s :
      spurious = true -> workers_ s !! i = Some k -> wpc k = Blocked ->
      outside_step spurious s (notify_one i s).

Definition any_step (spurious : bool) (s s' : Pool) : Prop :=
  pool_step s s' \/ outside_step spurious s s'.
Definition pool_reachable (spurious : bool) (n m : nat) (s : Pool) : Prop :=
  rtc (any_step spurious) (BlockingPool_run n m) s.

(** ** The invariant *)

(** Who holds a worker's mutex, and the registry's. *)
Definition worker_holds (p : PoolWorkerPc) : nat :=
  match p with ToRegistry | InDrain | AtPredicate | ToBlock => 1 | _ => 0 end.
Definition client_holds (i : nat) (c : ClientPc) : nat :=
  match c with Pushing i' _ => if decide (i' = i) then 1 else 0 | _ => 0 end.
Definition worker_in_registry (k : PoolWorker) : nat :=
  match wpc k with InDrain | InTask _ | ToRelock => 1 | _ => 0 end.
Definition client_in_registry (c : ClientPc) : nat :=
  match c with Registering _ | Selecting => 1 | _ => 0 end.

(** The tasks a worker or a client still has. *)
Definition one (x task : nat) : nat := if decide (task = x) then 1 else 0.
Definition worker_task (x : nat) (k : PoolWorker) : nat :=
  match wpc k with InTask task => one x task | _ => 0 end + sum_list_with (one x) (tasks_ k).
Definition client_task (x : nat) (c : ClientPc) : nat :=
  match c with
  | ToRegister task | Registering task | Choosing task | ToPush _ task | Pushing _ task => one x task
  | _ => 0
  end.

(** The worker a client is about to push to or to notify. *)
Definition target (c : ClientPc) : option nat :=
  match c with ToPush i _ | Pushing i _ | Notifying i => Some i | _ => None end.

Definition locked (b : bool) : nat := if b then 1 else 0.

Record pool_inv (n m : nat) (s : Pool) : Prop := {
  pi_workers : length (workers_ s) = n;
  pi_clients : length (clients s) = m;
  pi_target : forall j c i, clients s !! j = Some c -> target c = Some i -> i < n;
  (** a mutex is locked when exactly one thread holds it *)
  pi_mutex : forall i k, workers_ s !! i = Some k ->
    worker_holds (wpc k) + sum_list_with (client_holds i) (clients s) = locked (mutex_ k);
  pi_registry :
    sum_list_with worker_in_registry (workers_ s) + sum_list_with client_in_registry (clients s)
      = locked (registry_mutex_ s);
  (** no task is lost and none is run twice *)
  pi_tasks : forall x,
    sum_list_with (one x) (submitted s) =
      sum_list_with (client_task x) (clients s) + sum_list_with (worker_task x) (workers_ s)
      + sum_list_with (one x) (executed s);
  (** a worker does not block over a task *)
  pi_block : forall i k, workers_ s !! i = Some k -> wpc k = ToBlock -> tasks_ k = [];
  pi_wait : forall i k, workers_ s !! i = Some k -> wpc k = Blocked -> tasks_ k <> [] ->
    Notifying i ∈ clients s;
  pi_end : forall i k, workers_ s !! i = Some k -> owner s = Alive -> end_ k = false /\ wpc k <> Ended;
}.

Lemma pool_inv_start n m : pool_inv n m (BlockingPool_run n m).
Proof.
  assert (forall f : ClientPc -> nat, f Idle = 0 -> sum_list_with f (replicate m Idle) = 0) as Hc.
  { intros f Hf. clear n. induction m as [|m' IH]; cbn; [done|]. by rewrite Hf. }
  assert (forall f : PoolWorker -> nat, f (mkPoolWorker AtLoop [] false false) = 0 ->
    sum_list_with f (replicate n (mkPoolWorker AtLoop [] false false)) = 0) as Hw.
  { intros f Hf. clear Hc. induction n as [|n' IH]; cbn; [done|]. by rewrite Hf. }
  constructor; cbn; rewrite ?length_replicate; try done.
  - by intros j c i [-> _]%lookup_replicate.
  - intros i k [-> _]%lookup_replicate. by apply Hc.
  - by rewrite Hw, Hc.
  - intros x. by rewrite Hw, Hc.
  - by intros i k [-> _]%lookup_replicate.
  - by intros i k [-> _]%lookup_replicate.
  - by intros i k [-> _]%lookup_replicate.
Qed.

Lemma elem_insert_client (j : nat) (c c' x : ClientPc) (l : list ClientPc) :
  l !! j = Some c -> x ∈ l -> x <> c -> x ∈ <[j := c']> l.
Proof.
  intros Hj [j' Hj']%list_elem_of_lookup Hne. apply list_elem_of_lookup. exists j'.
  rewrite list_lookup_insert_ne; [done|]. intros ->. congruence.
Qed.

(** A step of worker [i] alone. *)
Lemma inv_worker n m s i k k' reg' ex' :
  pool_inv n m s -> workers_ s !! i = Some k ->
  worker_holds (wpc k') + locked (mutex_ k) = worker_holds (wpc k) + locked (mutex_ k') ->
  worker_in_registry k' + locked (registry_mutex_ s) = worker_in_registry k + locked reg' ->
  (forall x, worker_task x k' + sum_list_with (one x) ex' =
     worker_task x k + sum_list_with (one x) (executed s)) ->
  (wpc k' = ToBlock -> tasks_ k' = []) ->
  (wpc k' = Blocked -> tasks_ k' <> [] -> Notifying i ∈ clients s) ->
  (owner s = Alive -> end_ k' = false /\ wpc k' <> Ended) ->
  pool_inv n m (mkPool (<[i := k']> (workers_ s)) (clients s) reg' (owner s) (submitted s) ex').
Proof.
  intros [Hn Hm Ht Hmx Hr Hx Hb Hw He] Hi C1 C2 C3 C4 C5 C6.
  constructor; cbn; rewrite ?length_insert; try done.
  - intros i' k0 [(<-&<-&_)|[_ Hk]]%list_lookup_insert_Some; [|by apply Hmx].
    specialize (Hmx i k Hi). lia.
  - pose proof (sum_list_insert worker_in_registry _ i k k' Hi). lia.
  - intros x. specialize (Hx x). specialize (C3 x).
    pose proof (sum_list_insert (worker_task x) _ i k k' Hi). lia.
  - intros i' k0 [(<-&<-&_)|[_ Hk]]%list_lookup_insert_Some; [done|by eapply Hb].
  - intros i' k0 [(<-&<-&_)|[_ Hk]]%list_lookup_insert_Some; [done|by eapply Hw].
  - intros i' k0 [(<-&<-&_)|[_ Hk]]%list_lookup_insert_Some; [done|by eapply He].
Qed.

(** A step of client [j] alone. *)
Lemma inv_client n m s j c c' reg' sub' :
  pool_inv n m s -> clients s !! j = Some c ->
  (forall i, client_holds i c' = client_holds i c) ->
  client_in_registry c' + locked (registry_mutex_ s) = client_in_registry c + locked reg' ->
  (forall x, client_task x c' + sum_list_with (one x) (submitted s) =
     client_task x c + sum_list_with (one x) sub') ->
  (forall i, target c' = Some i -> i < n) -> (forall i, c <> Notifying i) ->
  pool_inv n m (mkPool (workers_ s) (<[j := c']> (clients s)) reg' (owner s) sub' (executed s)).
Proof.
  intros [Hn Hm Ht Hmx Hr Hx Hb Hw He] Hj C1 C2 C3 C4 C5.
  constructor; cbn; rewrite ?length_insert; try done.
  - intros j' c0 i [(<-&<-&_)|[_ Hc]]%list_lookup_insert_Some; [apply C4|by eapply Ht].
  - intros i k Hk. pose proof (sum_list_insert (client_holds i) _ j c c' Hj).
    specialize (Hmx i k Hk). specialize (C1 i). lia.
  - pose proof (sum_list_insert client_in_registry _ j c c' Hj). lia.
  - intros x. specialize (Hx x). specialize (C3 x).
    pose proof (sum_list_insert (client_task x) _ j c c' Hj). lia.
  - intros i k Hk Hp Hne. eapply elem_insert_client; [done|by eapply Hw|by apply not_eq_sym].
Qed.

(** A step of client [j] on worker [i]. *)
Lemma inv_both n m s i k k' j c c' :
  pool_inv n m s -> workers_ s !! i = Some k -> clients s !! j = Some c ->
  target c = Some i -> (target c' = Some i \/ target c' = None) ->
  wpc k' = wpc k \/ (wpc k = Blocked /\ wpc k' = Notified) ->
  client_holds i c' + locked (mutex_ k) = client_holds i c + locked (mutex_ k') ->
  client_in_registry c' = client_in_registry c ->
  (forall x, client_task x c' + worker_task x k' = client_task x c + worker_task x k) ->
  (tasks_ k' = tasks_ k \/ client_holds i c = 1) ->
  (wpc k' = Blocked -> c' = Notifying i \/ (tasks_ k' = tasks_ k /\ c <> Notifying i)) ->
  end_ k' = end_ k ->
  pool_inv n m (set_client j c' (put_worker i k' s)).
Proof.
  intros [Hn Hm Ht Hmx Hr Hx Hb Hw He] Hi Hj T1 T2 P C1 C2 C3 C4 C5 C6.
  assert (i < n) as Hlt by (by eapply Ht).
  constructor; cbn; rewrite ?length_insert; try done.
  - intros j' c0 i' [(<-&<-&_)|[_ Hc]]%list_lookup_insert_Some; [|by eapply Ht].
    destruct T2 as [->| ->]; [by intros [= <-]|done].
  - intros i' k0 [(<-&<-&_)|[Hne Hk]]%list_lookup_insert_Some.
    + pose proof (sum_list_insert (client_holds i) _ j c c' Hj). specialize (Hmx i k Hi).
      assert (worker_holds (wpc k') = worker_holds (wpc k)) by (destruct P as [->|[-> ->]]; done). lia.
    + pose proof (sum_list_insert (client_holds i') _ j c c' Hj). specialize (Hmx i' k0 Hk).
      assert (client_holds i' c = 0 /\ client_holds i' c' = 0); [|lia].
      split; [destruct c|destruct c']; cbn in *; try done; case_decide; try done; naive_solver.
  - pose proof (sum_list_insert client_in_registry _ j c c' Hj).
    pose proof (sum_list_insert worker_in_registry _ i k k' Hi).
    assert (worker_in_registry k' = worker_in_registry k)
      by (unfold worker_in_registry; destruct P as [->|[-> ->]]; done). lia.
  - intros x. specialize (Hx x). specialize (C3 x).
    pose proof (sum_list_insert (client_task x) _ j c c' Hj).
    pose proof (sum_list_insert (worker_task x) _ i k k' Hi). lia.
  - intros i' k0 [(<-&<-&_)|[_ Hk]]%list_lookup_insert_Some; [|by eapply Hb].
    intros Hp. destruct P as [P|[_ P]]; [|congruence]. rewrite Hp in P. symmetry in P.
    destruct C4 as [->|Hc]; [by eapply Hb|]. specialize (Hmx i k Hi). rewrite P in Hmx. cbn in Hmx.
    pose proof (sum_list_insert (client_holds i) _ j c Idle Hj). cbn in *.
    destruct (mutex_ k); cbn in *; lia.
  - intros i' k0 [(<-&<-&_)|[Hne Hk]]%list_lookup_insert_Some Hp Hnil.
    + destruct (C5 Hp) as [->|[Htk Hc]].
      { apply list_elem_of_lookup. exists j. apply list_lookup_insert_eq. by eapply lookup_lt_Some. }
      eapply elem_insert_client; [done| |by apply not_eq_sym]. rewrite Htk in Hnil.
      destruct P as [P|[_ P]]; [|congruence]. eapply Hw; [done|congruence|done].
    + eapply elem_insert_client; [done|by eapply Hw|]. intros <-. cbn in T1. congruence.
  - intros i' k0 [(<-&<-&_)|[_ Hk]]%list_lookup_insert_Some Ho; [|by eapply He].
    destruct (He i k Hi Ho) as [He1 He2]. rewrite C6. split; [done|].
    destruct P as [->|[_ ->]]; done.
Qed.

Lemma one_snoc x l task : sum_list_with (one x) (l ++ [task]) = sum_list_with (one x) l + one x task.
Proof. rewrite sum_list_with_app. cbn. lia. Qed.

Lemma inv_worker_step n m i s s' : pool_inv n m s -> BlockingWorker_run i s = Some s' -> pool_inv n m s'.
Proof.
  intros Hinv Hs. unfold BlockingWorker_run in Hs.
  destruct (workers_ s !! i) as [k|] eqn:Hi; [|done]. cbn in Hs.
  pose proof (pi_mutex n m s Hinv i k Hi) as Hmx. pose proof (pi_registry n m s Hinv) as Hrg.
  pose proof (sum_list_insert worker_in_registry _ i k (mkPoolWorker AtLoop [] false false) Hi) as Hin.
  pose proof (pi_end n m s Hinv i k Hi) as He. pose proof (pi_block n m s Hinv i k Hi) as Hbl.
  destruct k as [p ts mx e]. cbn in *.
  destruct p; try done; cbn in *;
    repeat match type of Hs with
    | (if ?b then _ else _) = _ => destruct b eqn:?
    | match ts with _ => _ end = _ => destruct ts
    end; try done; injection Hs as <-;
    apply (inv_worker n m s i _ _ _ _ Hinv Hi); cbn; try done; try naive_solver.
  all: unfold worker_in_registry in *; cbn in *;
    repeat match goal with b : bool |- _ => destruct b end;
    destruct (registry_mutex_ s); cbn in *; try done; try lia; try naive_solver.
  all: try (intros x; unfold worker_task; cbn; rewrite ?one_snoc; lia).
  all: intros _; try (by rewrite (Hbl eq_refl)).
  all: rewrite orb_false_r in Heqb; apply bool_decide_eq_false in Heqb; by destruct ts; [|destruct Heqb].
Qed.

Lemma inv_notify n m i s : pool_inv n m s -> pool_inv n m (notify_one i s).
Proof.
  intros Hinv. unfold notify_one. destruct (workers_ s !! i) as [k|] eqn:Hi; [|done].
  destruct (wpc k) eqn:Hp; try done. pose proof (pi_end n m s Hinv i k Hi) as He.
  apply (inv_worker n m s i _ _ _ _ Hinv Hi); cbn; try done; rewrite ?Hp; try done.
  - unfold worker_in_registry. cbn. by rewrite Hp.
  - intros x. unfold worker_task. cbn. by rewrite Hp.
  - naive_solver.
Qed.
Lemma inv_notifying n m s j i :
  pool_inv n m s -> clients s !! j = Some (Notifying i) ->
  pool_inv n m (set_client j Idle (notify_one i s)).
Proof.
  intros Hinv Hj. assert (i < length (workers_ s)) as [k Hi]%lookup_lt_is_Some.
  { rewrite (pi_workers n m s Hinv). by eapply (pi_target n m s Hinv). }
  unfold notify_one. rewrite Hi.
  assert (wpc k <> Blocked -> pool_inv n m (set_client j Idle s)) as Hother.
  { intros Hp. replace s with (put_worker i k s) by (unfold put_worker; rewrite list_insert_id by done; by destruct s).
    eapply (inv_both n m s i k k j (Notifying i) Idle); eauto. }
  destruct (wpc k) eqn:Hp; try (by apply Hother).
  eapply (inv_both n m s i k _ j (Notifying i) Idle); cbn; eauto; rewrite ?Hp; try done.
  intros x. unfold worker_task. cbn. by rewrite Hp.
Qed.

Lemma inv_client_step n m j choice s s' :
  pool_inv n m s -> client_run j choice s = Some s' -> pool_inv n m s'.
Proof.
  intros Hinv Hs. unfold client_run in Hs.
  destruct (clients s !! j) as [c|] eqn:Hj; [|done]. cbn in Hs.
  pose proof (pi_registry n m s Hinv) as Hrg.
  pose proof (sum_list_insert client_in_registry _ j c Idle Hj) as Hin.
  destruct c as [|task|task|task|i task|i task|i| |]; try done; cbn in *.
  1,2,3,7,8: repeat match type of Hs with (if ?b then _ else _) = _ => destruct b eqn:? end; try done;
    injection Hs as <-; apply (inv_client n m s j _ _ _ _ Hinv Hj); cbn; try done; try naive_solver;
    rewrite ?Heqb; cbn; try done;
    first [intros ? [= <-]; by rewrite <- (pi_workers n m s Hinv) | destruct (registry_mutex_ s); cbn in *; lia].
  - destruct (workers_ s !! i) as [k|] eqn:Hi; [|done]. cbn in Hs. destruct (mutex_ k) eqn:Hmx; [done|].
    injection Hs as <-. eapply (inv_both n m s i k _ j (ToPush i task) (Pushing i task)); cbn; eauto.
    rewrite decide_True by done. by rewrite Hmx.
  - destruct (workers_ s !! i) as [k|] eqn:Hi; [|done]. cbn in Hs. injection Hs as <-.
    pose proof (pi_mutex n m s Hinv i k Hi) as Hmx.
    pose proof (sum_list_insert (client_holds i) _ j _ Idle Hj) as Hh. cbn in Hh.
    rewrite decide_True in Hh by done.
    eapply (inv_both n m s i k _ j (Pushing i task) (Notifying i)); cbn; eauto.
    + rewrite decide_True by done. destruct (mutex_ k); cbn in *; lia.
    + intros x. unfold worker_task. cbn. rewrite one_snoc. lia.
    + rewrite decide_True by done. by right.
  - injection Hs as <-. by apply inv_notifying.
Qed.

Lemma inv_owner n m s o :
  pool_inv n m s -> o <> Alive -> pool_inv n m (set_owner o s).
Proof. intros [Hn Hm Ht Hmx Hr Hx Hb Hw He] Ho. by constructor. Qed.

Lemma inv_owner_step n m s s' : pool_inv n m s -> BlockingPool_dtor s = Some s' -> pool_inv n m s'.
Proof.
  intros Hinv Hs. unfold BlockingPool_dtor in Hs. destruct (owner s) as [|i|i|i|] eqn:Ho; try done.
  - destruct (workers_ s !! i) as [k|] eqn:Hi; injection Hs as <-; apply inv_owner; try done.
    apply (inv_worker n m s i _ _ _ _ Hinv Hi); cbn; try done.
    + intros Hp. by apply (pi_block n m s Hinv i k Hi).
    + intros Hp. by apply (pi_wait n m s Hinv i k Hi).
    + by rewrite Ho.
  - injection Hs as <-. apply inv_owner; [by apply inv_notify|done].
  - destruct (workers_ s !! i) as [k|] eqn:Hi; [destruct (wpc k); try done|];
      injection Hs as <-; by apply inv_owner.
Qed.

Lemma inv_outside_step n m spurious s s' : pool_inv n m s -> outside_step spurious s s' -> pool_inv n m s'.
Proof.
  intros Hinv Hs. destruct Hs as [j task s0 Ho Hj|j s0 Ho Hj|s0 Ho _|i k s0 _ Hi Hp].
  - apply (inv_client n m s0 j _ _ _ _ Hinv Hj); cbn; try done. intros x. rewrite one_snoc. lia.
  - by apply (inv_client n m s0 j _ _ _ _ Hinv Hj).
  - by apply inv_owner.
  - by apply inv_notify.
Qed.

Lemma pool_step_inv n m s s' : pool_inv n m s -> pool_step s s' -> pool_inv n m s'.
Proof.
  intros Hinv Hst. destruct Hst as [i s0 s1 Hs|j ch s0 s1 Hs|s0 s1 Hs];
    [by eapply inv_worker_step|by eapply inv_client_step|by eapply inv_owner_step].
Qed.

Lemma pool_reachable_inv spurious n m s : pool_reachable spurious n m s -> pool_inv n m s.
Proof.
  apply rtc_invariant; [|apply pool_inv_start].
  intros a b Ha [Hs|Hs]; [by eapply pool_step_inv|by eapply inv_outside_step].
Qed.

(** ** Progress *)

Lemma sum_list_elem {A} (f : A -> nat) l i x : l !! i = Some x -> f x <= sum_list_with f l.
Proof.
  revert i. induction l as [|y l IH]; intros [|i] Hi; [done..| |]; cbn in *.
  - injection Hi as ->. lia.
  - specialize (IH i Hi). lia.
Qed.

Lemma sum_list_pos {A} (f : A -> nat) l : 0 < sum_list_with f l -> exists i x, l !! i = Some x /\ 0 < f x.
Proof.
  induction l as [|y l IH]; cbn; intros Hp; [lia|]. destruct (f y) eqn:E.
  - destruct IH as (i & x & Hi & Hx); [lia|]. by exists (S i), x.
  - exists 0, y. split; [done|lia].
Qed.

(** Whoever holds a worker's mutex without the registry's being held can move. *)
Lemma client_holder_moves n m s i :
  pool_inv n m s -> 0 < sum_list_with (client_holds i) (clients s) -> exists s', pool_step s s'.
Proof.
  intros Hinv (j & c & Hj & Hc)%sum_list_pos. destruct c as [|?|?|?|?|i' task|?| |]; cbn in Hc; try lia.
  assert (i' < length (workers_ s)) as [k Hk]%lookup_lt_is_Some.
  { rewrite (pi_workers n m s Hinv). by eapply (pi_target n m s Hinv). }
  eexists. apply (client_moves j 0). unfold client_run. rewrite Hj. cbn. by rewrite Hk.
Qed.

Lemma registry_holder_moves n m s :
  pool_inv n m s -> registry_mutex_ s = true -> exists s', pool_step s s'.
Proof.
  intros Hinv Hr. pose proof (pi_registry n m s Hinv) as Hrg. rewrite Hr in Hrg. cbn in Hrg.
  destruct (decide (0 < sum_list_with client_in_registry (clients s))) as [Hc|Hc].
  - apply sum_list_pos in Hc as (j & c & Hj & Hc). destruct c; cbn in Hc; try lia;
      eexists; apply (client_moves j 0); unfold client_run; by rewrite Hj.
  - assert (0 < sum_list_with worker_in_registry (workers_ s)) as (i & k & Hi & Hk)%sum_list_pos by lia.
    pose proof (pi_mutex n m s Hinv i k Hi) as Hmx.
    unfold worker_in_registry in Hk. destruct (wpc k) eqn:Hp; try lia.
    + destruct (tasks_ k) eqn:Ht; eexists; apply (worker_moves i); unfold BlockingWorker_run; rewrite Hi;
        cbn; by rewrite Hp, Ht.
    + eexists. apply (worker_moves i). unfold BlockingWorker_run. rewrite Hi. cbn. by rewrite Hp.
    + destruct (mutex_ k) eqn:Hm; cbn in Hmx.
      * apply (client_holder_moves n m s i); [done|lia].
      * eexists. apply (worker_moves i). unfold BlockingWorker_run. rewrite Hi. cbn. by rewrite Hp, Hm.
Qed.

Lemma mutex_holder_moves n m s i k :
  pool_inv n m s -> workers_ s !! i = Some k -> mutex_ k = true -> exists s', pool_step s s'.
Proof.
  intros Hinv Hi Hm. pose proof (pi_mutex n m s Hinv i k Hi) as Hmx. rewrite Hm in Hmx. cbn in Hmx.
  destruct (decide (0 < sum_list_with (client_holds i) (clients s))); [by eapply client_holder_moves|].
  destruct (registry_mutex_ s) eqn:Hr; [by eapply registry_holder_moves|].
  destruct (wpc k) eqn:Hp; cbn in Hmx; try lia.
  - eexists. apply (worker_moves i). unfold BlockingWorker_run. rewrite Hi. cbn. by rewrite Hp, Hr.
  - destruct (tasks_ k) eqn:Ht; eexists; apply (worker_moves i); unfold BlockingWorker_run; rewrite Hi;
      cbn; by rewrite Hp, Ht.
  - destruct (bool_decide (tasks_ k <> []) || end_ k) eqn:Hb; eexists; apply (worker_moves i);
      unfold BlockingWorker_run; rewrite Hi; cbn; by rewrite Hp, Hb.
  - eexists. apply (worker_moves i). unfold BlockingWorker_run. rewrite Hi. cbn. by rewrite Hp.
Qed.

(** Everything has been done: the clients have returned, every worker waits with an
    empty queue. *)
Definition quiet (s : Pool) : Prop :=
  Forall (fun c => c = Idle) (clients s) /\ Forall (fun k => wpc k = Blocked /\ tasks_ k = []) (workers_ s).

Lemma client_progress n m s j c :
  pool_inv n m s -> 0 < n -> clients s !! j = Some c -> c <> Idle -> exists s', pool_step s s'.
Proof.
  intros Hinv Hn Hj Hc.
  destruct (registry_mutex_ s) eqn:Hr; [by eapply registry_holder_moves|].
  destruct c as [|task|task|task|i task|i task|i| |] eqn:Ec; [done|..].
  1,2,6-8: eexists; apply (client_moves j 0); unfold client_run; rewrite Hj; cbn; by rewrite ?Hr.
  - eexists. apply (client_moves j 0). unfold client_run. rewrite Hj. cbn.
    by rewrite decide_True by (by rewrite (pi_workers n m s Hinv)).
  - assert (i < length (workers_ s)) as [k Hk]%lookup_lt_is_Some.
    { rewrite (pi_workers n m s Hinv). by eapply (pi_target n m s Hinv). }
    destruct (mutex_ k) eqn:Hm; [by eapply mutex_holder_moves|].
    eexists. apply (client_moves j 0). unfold client_run. rewrite Hj. cbn. rewrite Hk. cbn. by rewrite Hm.
  - eapply (client_holder_moves n m s i); [done|].
    pose proof (sum_list_elem (client_holds i) _ j _ Hj) as He. cbn in He.
    rewrite decide_True in He by done. lia.
Qed.

Lemma worker_progress n m s i k :
  pool_inv n m s -> owner s = Alive -> workers_ s !! i = Some k -> wpc k <> Blocked ->
  exists s', pool_step s s'.
Proof.
  intros Hinv Ho Hi Hp. destruct (registry_mutex_ s) eqn:Hr; [by eapply registry_holder_moves|].
  destruct (mutex_ k) eqn:Hm; [by eapply mutex_holder_moves|].
  pose proof (pi_mutex n m s Hinv i k Hi) as Hmx. rewrite Hm in Hmx. cbn in Hmx.
  destruct (pi_end n m s Hinv i k Hi Ho) as [_ He].
  destruct (wpc k) eqn:E; cbn in Hmx; try done; try lia;
    eexists; apply (worker_moves i); unfold BlockingWorker_run; rewrite Hi; cbn; by rewrite E, ?Hm.
Qed.

Lemma pool_progress n m s :
  pool_inv n m s -> 0 < n -> owner s = Alive -> (exists s', pool_step s s') \/ quiet s.
Proof.
  intros Hinv Hn Ho.
  destruct (decide (Forall (fun c => c = Idle) (clients s))) as [Hc|Hc].
  2:{ left. apply not_Forall_Exists in Hc; [|intros; apply _].
      apply Exists_exists in Hc as (c & [j Hj]%list_elem_of_lookup & Hne). by eapply client_progress. }
  destruct (decide (Forall (fun k => wpc k = Blocked) (workers_ s))) as [Hw|Hw].
  2:{ left. apply not_Forall_Exists in Hw; [|intros; apply _].
      apply Exists_exists in Hw as (k & [i Hi]%list_elem_of_lookup & Hne). by eapply worker_progress. }
  right. split; [done|]. apply Forall_lookup. intros i k Hi. rewrite Forall_lookup in Hw.
  split; [by eapply Hw|]. destruct (tasks_ k) as [|x l] eqn:Ht; [done|].
  assert (Notifying i ∈ clients s) as Hin by (eapply (pi_wait n m s Hinv); [done|by eapply Hw|by rewrite Ht]).
  rewrite Forall_forall in Hc. by specialize (Hc _ Hin).
Qed.

(** ** Termination *)

(** How many steps a worker has to go until it waits, and a client until it returns,
    with what their steps make others do. *)
Definition pc_cost (empty : bool) (p : PoolWorkerPc) : nat :=
  match p with
  | Blocked | Ended => 0
  | ToBlock => 1
  | AtPredicate => if empty then 2 else 7
  | Notified => if empty then 3 else 8
  | InDrain => 3
  | ToRegistry | ToRelock => 4
  | ToLock | InTask _ => 5
  | AtLoop => 6
  end.
Definition worker_cost (k : PoolWorker) : nat :=
  pc_cost (bool_decide (tasks_ k = [])) (wpc k) + 3 * length (tasks_ k).
Definition client_cost (c : ClientPc) : nat :=
  match c with
  | Idle => 0
  | ToRegister _ => 22 | Registering _ => 21 | Choosing _ => 20
  | ToPush _ _ => 19 | Pushing _ _ => 18 | Notifying _ => 9
  | ToSelect => 2 | Selecting => 1
  end.
Definition pool_work (s : Pool) : nat :=
  sum_list_with worker_cost (workers_ s) + sum_list_with client_cost (clients s).

Lemma worker_step_work i s s' :
  (forall k, workers_ s !! i = Some k -> end_ k = false) -> BlockingWorker_run i s = Some s' ->
  pool_work s' < pool_work s /\ owner s' = owner s /\ submitted s' = submitted s.
Proof.
  unfold BlockingWorker_run, pool_work. intros Hend Hs. destruct (workers_ s !! i) as [k|] eqn:Hi; [|done].
  specialize (Hend k eq_refl). cbn in Hs. destruct k as [p ts mx e]. cbn in Hend. subst e. pose proof (fun k' => sum_list_insert worker_cost _ i _ k' Hi) as Hsum.
  unfold worker_cost at 2 in Hsum. cbn in Hsum, Hs.
  destruct p; try done; cbn in *;
    repeat match type of Hs with
    | (if ?b then _ else _) = _ => destruct b eqn:?
    | match ts with _ => _ end = _ => destruct ts
    end; try done; injection Hs as <-; cbn; (split; [|done]);
    match goal with |- context [<[i := ?k']> _] => specialize (Hsum k') end;
    unfold worker_cost in *; cbn in *; repeat case_bool_decide; cbn in *; try done; try lia.
  all: destruct ts; cbn in *; try done; lia.
Qed.

Lemma notify_work i s :
  sum_list_with worker_cost (workers_ (notify_one i s)) <= sum_list_with worker_cost (workers_ s) + 8.
Proof.
  unfold notify_one. destruct (workers_ s !! i) as [k|] eqn:Hi; [|lia].
  destruct (wpc k) eqn:Hp; try lia. cbn.
  pose proof (sum_list_insert worker_cost _ i k (mkPoolWorker Notified (tasks_ k) (mutex_ k) (end_ k)) Hi) as Hsum.
  unfold worker_cost in Hsum at 2 4. cbn in Hsum. rewrite Hp in Hsum. cbn in Hsum.
  case_bool_decide; lia.
Qed.

Lemma notify_rest i s :
  clients (notify_one i s) = clients s /\ owner (notify_one i s) = owner s /\
  submitted (notify_one i s) = submitted s.
Proof. unfold notify_one. destruct (workers_ s !! i) as [k|]; [|done]. by destruct (wpc k). Qed.

Lemma push_cost k task b :
  worker_cost (mkPoolWorker (wpc k) (tasks_ k ++ [task]) b (end_ k)) <= worker_cost k + 8.
Proof.
  unfold worker_cost. cbn. rewrite length_app. cbn. rewrite bool_decide_eq_false_2 by (by destruct (tasks_ k)).
  case_bool_decide; destruct (wpc k); cbn; lia.
Qed.

Lemma client_step_work j choice s s' :
  client_run j choice s = Some s' ->
  pool_work s' < pool_work s /\ owner s' = owner s /\ submitted s' = submitted s.
Proof.
  unfold client_run, pool_work. intros Hs. destruct (clients s !! j) as [c|] eqn:Hj; [|done].
  cbn in Hs. pose proof (fun c' => sum_list_insert client_cost _ j c c' Hj) as Hsum.
  destruct c as [|task|task|task|i task|i task|i| |]; try done; cbn in Hs.
  1-3,7,8: repeat match type of Hs with (if ?b then _ else _) = _ => destruct b end; try done;
    injection Hs as <-; cbn; (split; [|done]);
    match goal with |- context [<[_ := ?c']> _] => specialize (Hsum c') end; cbn in Hsum; lia.
  - destruct (workers_ s !! i) as [k|] eqn:Hi; [|done]. cbn in Hs. destruct (mutex_ k); [done|].
    injection Hs as <-. cbn. split; [|done]. specialize (Hsum (Pushing i task)). cbn in Hsum.
    pose proof (sum_list_insert worker_cost _ i k (mkPoolWorker (wpc k) (tasks_ k) true (end_ k)) Hi) as Hw.
    unfold worker_cost at 2 4 in Hw. cbn in Hw. lia.
  - destruct (workers_ s !! i) as [k|] eqn:Hi; [|done]. injection Hs as <-. cbn. split; [|done].
    specialize (Hsum (Notifying i)). cbn in Hsum. pose proof (push_cost k task false) as Hpush.
    pose proof (sum_list_insert worker_cost _ i k
      (mkPoolWorker (wpc k) (tasks_ k ++ [task]) false (end_ k)) Hi) as Hw. lia.
  - injection Hs as <-. destruct (notify_rest i s) as (Hc&Ho&Hsub). cbn. rewrite Hc. split; [|done].
    specialize (Hsum Idle). cbn in Hsum. pose proof (notify_work i s). lia.
Qed.

Lemma pool_step_work n m s s' :
  pool_inv n m s -> owner s = Alive -> pool_step s s' ->
  pool_work s' < pool_work s /\ owner s' = Alive /\ submitted s' = submitted s.
Proof.
  intros Hinv Ho Hst. destruct Hst as [i s s1 Hs|j ch s s1 Hs|s s1 Hs].
  - apply worker_step_work in Hs; [by rewrite Ho in Hs|].
    intros k Hk. by apply (pi_end n m s Hinv i k Hk).
  - apply client_step_work in Hs. by rewrite Ho in Hs.
  - unfold BlockingPool_dtor in Hs. by rewrite Ho in Hs.
Qed.

Lemma sum_one_count x l : sum_list_with (one x) l = count_occ Nat.eq_dec l x.
Proof.
  induction l as [|y l IH]; cbn; [done|]. rewrite IH. unfold one. by destruct (Nat.eq_dec y x), (decide (y = x)).
Qed.

Lemma quiet_executed n m s : pool_inv n m s -> quiet s -> executed s ≡ₚ submitted s.
Proof.
  intros Hinv [Hc Hw]. apply (Permutation_count_occ Nat.eq_dec). intros x. rewrite <- !sum_one_count.
  rewrite (pi_tasks n m s Hinv x).
  assert (sum_list_with (client_task x) (clients s) = 0) as ->.
  { induction Hc as [|c l -> _ IH]; [done|]. cbn. exact IH. }
  assert (sum_list_with (worker_task x) (workers_ s) = 0) as ->; [|lia].
  induction Hw as [|k l [Hp Ht] _ IH]; [done|]. cbn. rewrite IH. unfold worker_task. by rewrite Hp, Ht.
Qed.

(** ** Theorems *)

(** C9.  A blocking pool runs every task.  In any interleaving of the workers and of the
    threads that call [Register] and [select], with spurious wake-ups or without: from
    the last call on, every run of the threads is finite, some thread can move until the
    calls have returned and all workers wait with empty queues (no wake-up is lost, and
    the two mutexes never deadlock), and by then every task that was registered has been
    run, each exactly once. *)
Theorem pool_runs_every_task spurious n m s
    (Hs : pool_reachable spurious n m s) (Hn : 0 < n) (Ho : owner s = Alive) :
  (forall k s', nsteps pool_step k s s' -> k <= pool_work s) /\
  (forall s', rtc pool_step s s' ->
     (exists s'', pool_step s' s'') \/ (quiet s' /\ executed s' ≡ₚ submitted s)).
Proof.
  apply pool_reachable_inv in Hs. split.
  - intros k s' Hk. revert Hs Ho. induction Hk as [s|k s s1 s' Hst Hk IH]; intros Hs Ho; [lia|].
    pose proof (pool_step_work n m _ _ Hs Ho Hst) as (Hlt & Ho1 & _).
    specialize (IH (pool_step_inv n m _ _ Hs Hst) Ho1). lia.
  - intros s' Hrun. induction Hrun as [s|s s1 s' Hst Hrun IH].
    + destruct (pool_progress n m s Hs Hn Ho) as [?|Hq]; [by left|right].
      split; [done|]. by eapply quiet_executed.
    + pose proof (pool_step_work n m _ _ Hs Ho Hst) as (_ & Ho1 & Hsub). rewrite <- Hsub.
      apply IH; [by eapply pool_step_inv|done].
Qed.

Lemma registry_mutual_exclusion n m s i k :
  pool_inv n m s -> workers_ s !! i = Some k -> worker_in_registry k = 1 ->
  registry_mutex_ s = true /\ sum_list_with client_in_registry (clients s) = 0 /\
  (forall j k', workers_ s !! j = Some k' -> worker_in_registry k' = 1 -> j = i).
Proof.
  intros Hinv Hi Hk. pose proof (pi_registry n m s Hinv) as Hrg.
  pose proof (sum_list_elem worker_in_registry _ i k Hi) as Hle.
  destruct (registry_mutex_ s); cbn in Hrg; [|lia]. split_and!; [done|lia|].
  intros j k' Hj Hk'. destruct (decide (j = i)) as [|Hne]; [done|].
  pose proof (sum_list_insert worker_in_registry _ i k (mkPoolWorker AtLoop [] false false) Hi) as Hins.
  pose proof (sum_list_elem worker_in_registry (<[i := mkPoolWorker AtLoop [] false false]> (workers_ s)) j k') as Hle'.
  rewrite list_lookup_insert_ne in Hle' by done. specialize (Hle' Hj). cbn in Hins. lia.
Qed.

(** The tasks of a registry never overlap, however many workers its pool has, and while
    one runs no thread gets into [Register] or [select]: a runtime worker that polls the
    registry waits for the running task. *)
Theorem blocking_tasks_are_serialized spurious n m s i k task
    (Hs : pool_reachable spurious n m s)
    (Hi : workers_ s !! i = Some k) (Hrun : wpc k = InTask task) :
  (forall j k' task', workers_ s !! j = Some k' -> wpc k' = InTask task' -> j = i) /\
  (forall j x, clients s !! j <> Some (Registering x)) /\ (forall j, clients s !! j <> Some Selecting) /\
  (forall j choice, clients s !! j = Some ToSelect -> client_run j choice s = None).
Proof.
  apply pool_reachable_inv in Hs.
  destruct (registry_mutual_exclusion n m s i k Hs Hi) as (Hr & Hc & Hw);
    [unfold worker_in_registry; by rewrite Hrun|].
  split_and!.
  - intros j k' task' Hj Hk'. eapply Hw; [done|]. unfold worker_in_registry. by rewrite Hk'.
  - intros j x Hj. pose proof (sum_list_elem client_in_registry _ j _ Hj) as Hle. cbn in Hle. lia.
  - intros j Hj. pose proof (sum_list_elem client_in_registry _ j _ Hj) as Hle. cbn in Hle. lia.
  - intros j choice Hj. unfold client_run. rewrite Hj. cbn. by rewrite Hr.
Qed.

(** The destructor can hang: it sets [end_] and notifies without the worker's mutex, so
    when the worker has just found the predicate of [cv_.wait] false the notification is
    lost; the worker waits for ever, and the destructor for it. *)
Theorem pool_destructor_hangs :
  exists s, pool_reachable false 1 1 s /\ owner s = Joining 0 /\ (forall s', ~ pool_step s s').
Proof.
  exists (mkPool [mkPoolWorker Blocked [] false true] [Idle] false (Joining 0) [] []).
  split_and!; [|done|].
  - assert (forall s s', BlockingWorker_run 0 s = Some s' -> any_step false s s') as Hw
      by (intros; left; by eapply worker_moves).
    assert (forall s s', BlockingPool_dtor s = Some s' -> any_step false s s') as Hd
      by (intros; left; by eapply owner_moves).
    do 5 (eapply rtc_l; [apply Hw; vm_compute; reflexivity|]).
    eapply rtc_l; [right; apply call_dtor; [done|by repeat constructor]|].
    cbn. do 3 (eapply rtc_l; [apply Hd; vm_compute; reflexivity|]).
    eapply rtc_l; [apply Hw; vm_compute; reflexivity|]. apply rtc_refl.
  - intros s' Hst. inversion Hst as [i ? ? Hs|j ch ? ? Hs|? ? Hs]; subst.
    + by destruct i as [|i].
    + by destruct j as [|j].
    + done.
Qed.
End PoolLife.
