(* ===== verification/JoinSelect.v ===== *)
(** Waiting for several futures: [include/xyco/task/join.ccm],
    [include/xyco/task/select.ccm], [include/xyco/time/timeout.ccm].

    The branches are a list; a branch holds the [optional] of its result, a
    value or the exception it ended with.  The arguments of a constructor call
    are evaluated from left to right, as the compiler does. *)
From stdpp Require Import base list relations.
From Stdlib Require Import Lia.
From S2P Require Import Prelude Errors Futures.

Section Branches.
Context {V : Type}.

#[local] Abbreviation BranchResult := (option (Expected exn V)).

(** ** [join] *)

(** [j_wakes] counts the calls of [register_future]. *)
Record JoinFuture : Type := mkJoin {
  j_ready_ : bool;
  j_registered_ : bool;
  j_branches_ : list BranchResult;
  j_wakes : nat;
}.

Definition JoinFuture_new (n : nat) : JoinFuture := mkJoin false false (replicate n None) 0.

(** [extract_result(branch.second.value())...]. *)
Fixpoint join_extract (l : list BranchResult) : outcome (list V) :=
  match l with
  | [] => Done []
  | None :: _ => Thrown BadOptionalAccess
  | Some (Unexpected e) :: _ => Thrown e
  | Some (Value v) :: l' =>
      match join_extract l' with
      | Done vs => Done (v :: vs)
      | Thrown e => Thrown e
      | Undef => Undef
      end
  end.

(** [poll]: the first call spawns one coroutine per branch. *)
Definition JoinFuture_poll (j : JoinFuture) : outcome (Poll (list V)) * list nat * JoinFuture :=
  if j_ready_ j then
    (match join_extract (j_branches_ j) with
     | Done vs => Done (Ready vs)
     | Thrown e => Thrown e
     | Undef => Undef
     end, [], j)
  else (Done Pending, seq 0 (length (j_branches_ j)),
        mkJoin true (j_registered_ j) (j_branches_ j) (j_wakes j)).

(** [run_single_branch]: the assignment of the result, outside the lock. *)
Definition join_store (i : nat) (r : Expected exn V) (j : JoinFuture) : JoinFuture :=
  mkJoin (j_ready_ j) (j_registered_ j) (<[i := Some r]> (j_branches_ j)) (j_wakes j).

Definition all_completed (l : list BranchResult) : bool :=
  forallb (fun b => match b with Some _ => true | None => false end) l.

(** The critical section of [run_single_branch]. *)
Definition join_check (j : JoinFuture) : JoinFuture :=
  if j_registered_ j then j
  else if all_completed (j_branches_ j)
       then mkJoin (j_ready_ j) true (j_branches_ j) (S (j_wakes j))
       else j.

Definition JoinFuture_run_single_branch (i : nat) (r : Expected exn V) (j : JoinFuture) : JoinFuture :=
  join_check (join_store i r j).

(** The branches on their threads: running, past the assignment, past the
    critical section. *)
Inductive BranchPc : Type := JRun | JStored | JDone.

#[global] Instance BranchPc_eq_dec : EqDecision BranchPc.
Proof. solve_decision. Defined.

Record JoinState : Type := mkJoinState { js_join : JoinFuture; js_pc : list BranchPc }.

Definition join_start (n : nat) : JoinState :=
  mkJoinState (JoinFuture_new n) (replicate n JRun).

Inductive join_step : JoinState -> JoinState -> Prop :=
| js_store s i r :
    js_pc s !! i = Some JRun ->
    join_step s (mkJoinState (join_store i r (js_join s)) (<[i := JStored]> (js_pc s)))
| js_check s i :
    js_pc s !! i = Some JStored ->
    join_step s (mkJoinState (join_check (js_join s)) (<[i := JDone]> (js_pc s))).

(** ** [select] *)

(** [BranchShared]; [se_self_] is whether [self_] is not null. *)
Record BranchShared : Type := mkShared {
  se_registered_ : bool;
  se_self_ : bool;
  se_branches_ : list BranchResult;
  se_wakes : nat;
}.

Definition BranchShared_new (n : nat) : BranchShared := mkShared false true (replicate n None) 0.

(** The end of [run_single_branch], from the result of the [co_await] on. *)
Definition SelectFuture_run_single_branch (i : nat) (r : Expected exn V) (s : BranchShared)
    : BranchShared :=
  match r with
  | Unexpected CancelException => s
  | _ =>
      let s := mkShared (se_registered_ s) (se_self_ s) (<[i := Some r]> (se_branches_ s)) (se_wakes s) in
      if negb (se_registered_ s) && se_self_ s
      then mkShared true (se_self_ s) (se_branches_ s) (S (se_wakes s))
      else s
  end.

(** [~SelectFuture]. *)
Definition SelectFuture_dtor (s : BranchShared) : BranchShared :=
  mkShared (se_registered_ s) false (se_branches_ s) (se_wakes s).

(** [CoOutput(cancel(handle, result)...)]: the values and the branches whose
    futures were cancelled, before an exception stops the evaluation. *)
Fixpoint select_extract (i : nat) (l : list BranchResult)
    : outcome (list (option V)) * list nat :=
  match l with
  | [] => (Done [], [])
  | None :: l' =>
      let '(o, cancelled) := select_extract (S i) l' in
      (match o with Done vs => Done (None :: vs) | Thrown e => Thrown e | Undef => Undef end,
       i :: cancelled)
  | Some (Unexpected e) :: _ => (Thrown e, [])
  | Some (Value v) :: l' =>
      let '(o, cancelled) := select_extract (S i) l' in
      (match o with Done vs => Done (Some v :: vs) | Thrown e => Thrown e | Undef => Undef end,
       cancelled)
  end.

(** [poll] with [ready_]; the lists are the branches it spawns and cancels. *)
Definition SelectFuture_poll (ready_ : bool) (s : BranchShared)
    : outcome (Poll (list (option V))) * list nat * list nat :=
  if ready_ then
    let '(o, cancelled) := select_extract 0 (se_branches_ s) in
    (match o with Done vs => Done (Ready vs) | Thrown e => Thrown e | Undef => Undef end,
     [], cancelled)
  else (Done Pending, seq 0 (length (se_branches_ s)), []).

(** Histories: each branch ends at most once ([ended]), the future may be
    destroyed. *)
Inductive select_step : BranchShared * list nat -> BranchShared * list nat -> Prop :=
| sel_end s ended i r :
    i < length (se_branches_ s) -> i ∉ ended ->
    select_step (s, ended) (SelectFuture_run_single_branch i r s, i :: ended)
| sel_destroy s ended :
    select_step (s, ended) (SelectFuture_dtor s, ended).

(** ** Lemmas *)

Lemma all_completed_spec l : all_completed l = true <-> Forall is_Some l.
Proof.
  unfold all_completed. rewrite forallb_forall, Forall_forall. split; intros Hl b Hb.
  - apply list_elem_of_In in Hb. specialize (Hl b Hb). destruct b; [by eexists|done].
  - apply list_elem_of_In in Hb. by destruct (Hl b Hb) as [? ->].
Qed.

(** The exceptions and the values of ended branches, in order. *)
Definition errors (rs : list (Expected exn V)) : list exn :=
  omap (fun r => match r with Unexpected e => Some e | Value _ => None end) rs.
Definition values (rs : list (Expected exn V)) : list V :=
  omap (fun r => match r with Value v => Some v | Unexpected _ => None end) rs.

Lemma join_extract_spec rs :
  join_extract (Some <$> rs) =
    match errors rs with e :: _ => Thrown e | [] => Done (values rs) end.
Proof.
  induction rs as [|[v|e] rs IH]; [done| |done].
  change (errors (Value v :: rs)) with (errors rs).
  change (values (Value v :: rs)) with (v :: values rs).
  cbn [fmap list_fmap join_extract]. change (list_fmap _ _ Some rs) with (Some <$> rs).
  rewrite IH. by destruct (errors rs).
Qed.

Record join_inv (n : nat) (s : JoinState) : Prop := {
  ji_len : length (js_pc s) = n /\ length (j_branches_ (js_join s)) = n;
  ji_stored : forall i p, js_pc s !! i = Some p -> p <> JRun ->
    exists r, j_branches_ (js_join s) !! i = Some (Some r);
  ji_wakes : j_wakes (js_join s) = if j_registered_ (js_join s) then 1 else 0;
  ji_registered : j_registered_ (js_join s) = true ->
    Forall is_Some (j_branches_ (js_join s));
  ji_last : j_registered_ (js_join s) = false -> n = 0 \/
    exists i p, js_pc s !! i = Some p /\ p <> JDone;
}.

Lemma join_inv_start n : join_inv n (join_start n).
Proof.
  constructor; cbn; try done.
  - by rewrite !length_replicate.
  - intros i p [-> _]%lookup_replicate. done.
  - intros _. destruct n; [by left|]. right. exists 0, JRun. done.
Qed.

Lemma join_check_cases j :
  join_check j = j \/
  (j_registered_ j = false /\ Forall is_Some (j_branches_ j) /\
   join_check j = mkJoin (j_ready_ j) true (j_branches_ j) (S (j_wakes j))).
Proof.
  unfold join_check. destruct (j_registered_ j); [by left|].
  destruct (all_completed (j_branches_ j)) eqn:Hc; [|by left].
  right. by apply all_completed_spec in Hc.
Qed.

(** When some branch has no result, some branch is still running. *)
Lemma join_waits_for_running (s : JoinState) :
  length (j_branches_ (js_join s)) = length (js_pc s) ->
  (forall i p, js_pc s !! i = Some p -> p <> JRun ->
    exists r, j_branches_ (js_join s) !! i = Some (Some r)) ->
  ~ Forall is_Some (j_branches_ (js_join s)) -> exists i, js_pc s !! i = Some JRun.
Proof.
  intros Hlen Hst Hn. apply not_Forall_Exists in Hn; [|apply _].
  apply Exists_exists in Hn as (b & Hb & Hnb). apply list_elem_of_lookup_1 in Hb as [i Hi].
  destruct (lookup_lt_is_Some_2 (js_pc s) i) as [p Hp].
  { rewrite <- Hlen. by eapply lookup_lt_Some. }
  exists i. destruct (decide (p = JRun)) as [->|Hne]; [done|].
  destruct (Hst i p Hp Hne) as [r Hr]. injection (eq_trans (eq_sym Hi) Hr) as ->.
  exfalso. apply Hnb. by eexists.
Qed.

Lemma join_inv_step n s s' : join_inv n s -> join_step s s' -> join_inv n s'.
Proof.
  intros [[Hl1 Hl2] Hst Hw Hr Hla] Hstep. destruct Hstep as [s i r Hi|s i Hi].
  - assert (i < n) as Hin by (rewrite <- Hl1; by eapply lookup_lt_Some).
    constructor; cbn; rewrite ?length_insert; try done.
    + intros k p Hk Hp. destruct (decide (k = i)) as [->|].
      * rewrite list_lookup_insert_eq by lia. by eauto.
      * rewrite list_lookup_insert_ne in Hk by done. rewrite list_lookup_insert_ne by done.
        by eapply Hst.
    + intros Hreg. specialize (Hr Hreg). by apply Forall_insert.
    + intros _. right. exists i, JStored. by rewrite list_lookup_insert_eq by lia.
  - assert (i < n) as Hin by (rewrite <- Hl1; by eapply lookup_lt_Some).
    assert (forall k p, <[i := JDone]> (js_pc s) !! k = Some p -> p <> JRun ->
      exists r, j_branches_ (js_join s) !! k = Some (Some r)) as Hst'.
    { intros k p Hk Hp. destruct (decide (k = i)) as [->|].
      - by eapply Hst.
      - rewrite list_lookup_insert_ne in Hk by done. by eapply Hst. }
    destruct (join_check_cases (js_join s)) as [E|(Hreg & Hall & E)].
    + constructor; cbn; rewrite ?length_insert, ?E; try done. intros Hreg. right.
      assert (exists k, js_pc s !! k = Some JRun) as [k Hk].
      { apply join_waits_for_running; [lia|done|].
        intros Hall. unfold join_check in E. rewrite Hreg in E.
        apply all_completed_spec in Hall. rewrite Hall in E.
        apply (f_equal j_registered_) in E. cbn in E. congruence. }
      exists k, JRun. split; [|done]. rewrite list_lookup_insert_ne; [done|]. intros <-. congruence.
    + constructor; cbn; rewrite ?length_insert, ?E; cbn; try done. by rewrite Hw, Hreg.
Qed.

Lemma join_inv_reachable n s : rtc join_step (join_start n) s -> join_inv n s.
Proof. intros Hs. exact (rtc_invariant join_step (join_inv n) _ _ (join_inv_step n) (join_inv_start n) Hs). Qed.

Lemma all_some_fmap (l : list BranchResult) :
  Forall is_Some l -> exists rs, l = Some <$> rs.
Proof.
  induction 1 as [|b l [r ->] _ [rs ->]]; [by exists []|]. by exists (r :: rs).
Qed.

(** C14.  [join] on any interleaving of its branches: the joined future is
    registered exactly once, by the time the last branch has gone through its
    critical section and never before every branch has ended; polled then, it
    yields the values of all branches in order, or throws the exception of the
    first branch, from the left, that ended with one. *)
Theorem join_waits_for_all n s (Hn : 0 < n) (Hs : rtc join_step (join_start n) s) :
  j_wakes (js_join s) <= 1 /\
  (Forall (eq JDone) (js_pc s) -> j_wakes (js_join s) = 1) /\
  (j_wakes (js_join s) = 1 -> exists rs, length rs = n /\
     j_branches_ (js_join s) = Some <$> rs /\
     forall j, j_ready_ j = true -> j_branches_ j = j_branches_ (js_join s) ->
       JoinFuture_poll j =
         (match errors rs with e :: _ => Thrown e | [] => Done (Ready (values rs)) end, [], j)).
Proof.
  apply join_inv_reachable in Hs as [[Hl1 Hl2] Hst Hw Hr Hla]. rewrite Hw. split_and!.
  - destruct (j_registered_ (js_join s)); lia.
  - intros Hd. destruct (j_registered_ (js_join s)) eqn:Hreg; [done|].
    destruct (Hla eq_refl) as [->|(i & p & Hi & Hp)]; [lia|].
    rewrite Forall_lookup in Hd. by apply Hd in Hi.
  - intros Hreg. destruct (j_registered_ (js_join s)) eqn:E; [|done].
    destruct (all_some_fmap _ (Hr eq_refl)) as [rs Hrs]. exists rs. rewrite Hrs in Hl2.
    rewrite length_fmap in Hl2. split_and!; [done..|]. intros j Hj Hb. unfold JoinFuture_poll.
    rewrite Hj, Hb, Hrs, join_extract_spec. by destruct (errors rs).
Qed.

(** ** [select] *)

Record select_inv (n : nat) (st : BranchShared * list nat) : Prop := {
  si_len : length (se_branches_ st.1) = n;
  si_wakes : se_wakes st.1 = if se_registered_ st.1 then 1 else 0;
  si_some : se_registered_ st.1 = true -> exists i r, se_branches_ st.1 !! i = Some (Some r);
  si_woken : se_self_ st.1 = true -> (exists i r, se_branches_ st.1 !! i = Some (Some r)) ->
    se_registered_ st.1 = true;
}.

Lemma select_inv_step n st st' : select_inv n st -> select_step st st' -> select_inv n st'.
Proof.
  intros [Hl Hw Hs Hk] Hst. destruct Hst as [s ended i r Hi He|s ended]; cbn in *.
  - assert (forall s', s' = mkShared (se_registered_ s) (se_self_ s)
        (<[i := Some r]> (se_branches_ s)) (se_wakes s) ->
      select_inv n (if negb (se_registered_ s') && se_self_ s'
        then mkShared true (se_self_ s') (se_branches_ s') (S (se_wakes s')) else s', i :: ended)) as Hgo.
    { intros s' ->. cbn. assert (<[i := Some r]> (se_branches_ s) !! i = Some (Some r)) as Hlk
        by (by apply list_lookup_insert_eq).
      destruct (se_registered_ s) eqn:Hr; cbn; [|destruct (se_self_ s) eqn:Hself; cbn].
      all: constructor; cbn; rewrite ?length_insert, ?Hr, ?Hself, ?Hw; eauto; done. }
    unfold SelectFuture_run_single_branch.
    destruct r as [v|e]; [by apply Hgo|]. destruct e; try (by apply Hgo). by constructor.
  - by constructor.
Qed.

Lemma select_inv_reachable n st :
  rtc select_step (BranchShared_new n, []) st -> select_inv n st.
Proof.
  intros Hs. refine (rtc_invariant select_step (select_inv n) _ _ (select_inv_step n) _ Hs).
  constructor; cbn; try done.
  - apply length_replicate.
  - intros _ (i & r & Hi). by apply lookup_replicate in Hi as [? _].
Qed.

(** What [select] returns for a branch, and that it ended without an exception. *)
Definition branch_value (b : BranchResult) : option V :=
  match b with Some (Value v) => Some v | _ => None end.
Definition clean (b : BranchResult) : Prop :=
  match b with Some (Unexpected _) => False | _ => True end.

Lemma select_extract_app k l rest o c :
  Forall clean l -> select_extract (k + length l) rest = (o, c) ->
  exists c1, select_extract k (l ++ rest) =
      (match o with
       | Done vs => Done ((branch_value <$> l) ++ vs) | Thrown e => Thrown e | Undef => Undef end,
       c1 ++ c) /\
    forall i, i ∈ c1 <-> k <= i /\ l !! (i - k) = Some None.
Proof.
  intros Hl. revert k. induction Hl as [|b l Hb Hl IH]; intros k Hr.
  { exists []. cbn in *. rewrite Nat.add_0_r in Hr. rewrite Hr. split; [by destruct o|].
    intros i. split; [by intros ?%elem_of_nil|]. intros [_ ?]. done. }
  cbn [length] in Hr. replace (k + S (length l)) with (S k + length l) in Hr by lia.
  destruct (IH (S k) Hr) as (c1 & He & Hc1).
  assert (forall i, k <= i -> i <> k -> (b :: l) !! (i - k) = l !! (i - S k)) as Hlk.
  { intros i Hi Hne. by replace (i - k) with (S (i - S k)) by lia. }
  destruct b as [[v|e]|]; [|done|]; cbn [app select_extract]; rewrite He.
  - exists c1. split; [by destruct o|]. intros i. rewrite Hc1.
    destruct (decide (i = k)) as [->|]; [rewrite Nat.sub_diag; cbn; split; [lia|naive_solver]|].
    split; intros [Hi Hn]; (split; [lia|]); [by rewrite Hlk by lia|by rewrite Hlk in Hn by lia].
  - exists (k :: c1). split; [by destruct o|]. intros i. rewrite elem_of_cons, Hc1.
    destruct (decide (i = k)) as [->|].
    + rewrite Nat.sub_diag. cbn. split; [by auto|by left].
    + split; [intros [?|[Hi Hn]]; [done|]|intros [Hi Hn]; right].
      * split; [lia|]. by rewrite Hlk by lia.
      * split; [lia|]. by rewrite Hlk in Hn by lia.
Qed.

(** C15.  [select] on any order in which its branches end: while it is alive it is
    registered exactly once, when the first branch ends otherwise than by
    cancellation.  Polled then, and when no branch has thrown, it returns one
    optional per branch, at least one of them full, and cancels exactly the
    branches that have not ended; when branches have thrown, it throws the
    exception of the leftmost one and cancels only the unfinished branches to
    the left of it. *)
Theorem select_returns_first n s ended (Hs : rtc select_step (BranchShared_new n, []) (s, ended)) :
  se_wakes s <= 1 /\
  (se_self_ s = true -> (exists i r, se_branches_ s !! i = Some (Some r)) -> se_wakes s = 1) /\
  (se_wakes s = 1 -> Forall clean (se_branches_ s) ->
     exists cancelled, SelectFuture_poll true s =
         (Done (Ready (branch_value <$> se_branches_ s)), [], cancelled) /\
       (forall i, i ∈ cancelled <-> se_branches_ s !! i = Some None) /\
       exists i v, (branch_value <$> se_branches_ s) !! i = Some (Some v)) /\
  (forall l1 e l2, se_branches_ s = l1 ++ Some (Unexpected e) :: l2 -> Forall clean l1 ->
     exists cancelled, SelectFuture_poll true s = (Thrown e, [], cancelled) /\
       (forall i, i ∈ cancelled <-> l1 !! i = Some None)).
Proof.
  apply select_inv_reachable in Hs as [Hl Hw Hsome Hk]. cbn in *. rewrite Hw. split_and!.
  - destruct (se_registered_ s); lia.
  - intros Hself Hb. by rewrite Hk.
  - intros Hreg Hcl. destruct (se_registered_ s); [|done].
    destruct (select_extract_app 0 (se_branches_ s) [] (Done []) [] Hcl eq_refl) as (c & Hx & Hc).
    rewrite app_nil_r in Hx. exists (c ++ []). unfold SelectFuture_poll. rewrite Hx.
    rewrite !app_nil_r. split_and!; [done| |].
    + intros i. rewrite Hc, Nat.sub_0_r. naive_solver lia.
    + destruct (Hsome eq_refl) as (i & r & Hi). exists i. rewrite list_lookup_fmap, Hi. cbn.
      rewrite Forall_lookup in Hcl. specialize (Hcl i _ Hi). destruct r as [v|]; [by eexists|done].
  - intros l1 e l2 Hb Hcl.
    destruct (select_extract_app 0 l1 (Some (Unexpected e) :: l2) (Thrown e) [] Hcl eq_refl)
      as (c & Hx & Hc).
    exists (c ++ []). unfold SelectFuture_poll. rewrite Hb, Hx. split; [done|].
    intros i. rewrite app_nil_r, Hc, Nat.sub_0_r. naive_solver lia.
Qed.

(** A [select] all of whose branches end with [CancelException] is never
    registered: it stays suspended with no branch left to wake it. *)
Theorem select_all_cancelled_hangs n :
  exists ended, rtc select_step (BranchShared_new n, []) (BranchShared_new n, ended) /\
    (forall i, i < n -> i ∈ ended) /\ se_wakes (BranchShared_new n) = 0.
Proof.
  assert (forall k, k <= n -> exists ended,
    rtc select_step (BranchShared_new n, []) (BranchShared_new n, ended) /\
    forall i, i ∈ ended <-> i < k) as Hk.
  { induction k as [|k IH]; intros Hle.
    - exists []. split; [done|]. intros i. split; [by intros ?%elem_of_nil|lia].
    - destruct IH as (ended & Hr & He); [lia|]. exists (k :: ended). split.
      + eapply rtc_r; [done|].
        apply (sel_end (BranchShared_new n) ended k (Unexpected CancelException)).
        * cbn. rewrite length_replicate. lia.
        * rewrite He. lia.
      + intros i. rewrite elem_of_cons, He. lia. }
  destruct (Hk n) as (ended & Hr & He); [done|]. exists ended. split_and!; [done| |done].
  intros i Hi. by apply He.
Qed.
End Branches.
Arguments JoinFuture : clear implicits.
Arguments JoinState : clear implicits.
Arguments BranchShared : clear implicits.

(** ** [timeout] *)
Section Timeout.
Context {T : Type}.

(** A branch of the [select] of [timeout] yields the future's value or the
    [nullptr] of the sleep. *)
Definition timeout_result (o : outcome (Poll (list (option (T + unit)))))
    : outcome (Poll (Expected unit T)) :=
  match o with
  | Done (Ready [result; sleep_result]) =>
      match sleep_result with
      | Some _ => Done (Ready (Unexpected tt))
      | None =>
          match result with
          | Some (inl v) => Done (Ready (Value v))
          | Some (inr _) => Undef
          | None => Thrown BadOptionalAccess
          end
      end
  | Done (Ready _) => Undef
  | Done Pending => Done Pending
  | Thrown e => Thrown e
  | Undef => Undef
  end.

(** [timeout] when its [select] has been registered: it reports the timeout
    if the sleep has ended, even if the future has ended too; otherwise the
    future's value, or the exception it ended with; the unchecked [value()] of
    the result never throws. *)
Theorem timeout_reports fut slp ended s
    (Hs : rtc select_step (BranchShared_new 2, []) (s, ended)) (Hw : se_wakes s = 1)
    (Hb : se_branches_ s = [fut; slp])
    (Hfut : forall x, fut = Some (Value x) -> exists v, x = inl v)
    (Hslp : forall e, slp <> Some (Unexpected e)) :
  timeout_result (SelectFuture_poll true s).1.1 =
    match fut, slp with
    | Some (Unexpected e), _ => Thrown e
    | _, Some _ => Done (Ready (Unexpected tt))
    | Some (Value (inl v)), None => Done (Ready (Value v))
    | _, None => Undef
    end /\
  (fut <> None \/ slp <> None).
Proof.
  apply select_inv_reachable in Hs as [_ Hwk Hsome _]. cbn in *. rewrite Hwk in Hw.
  destruct (se_registered_ s); [|done]. destruct (Hsome eq_refl) as (i & r & Hi).
  rewrite Hb in Hi. unfold SelectFuture_poll. rewrite Hb. split.
  - destruct fut as [[x|e]|], slp as [[y|e']|]; cbn; try done; try (by destruct (Hslp e')).
    + by destruct (Hfut x eq_refl) as [v ->].
    + by destruct i as [|[|i]].
  - destruct i as [|[|i]]; cbn in Hi; [left|right|done]; congruence.
Qed.
End Timeout.
