(* ===== verification/SyncWitness.v ===== *)
(** Concrete runs of the theorems on channels, blocking tasks, [join], [select]
    and [timeout]. *)
From stdpp Require Import base gmap list sets relations.
From Stdlib Require Import ZArith Lia.
From S2P Require Import Prelude Errors Events Wheel Futures Core Driver Oneshot Mpsc MpscSpec Blocking BlockingSpec BlockingFlow PoolLife JoinSelect.

(** ** Channels *)

(** The value 5 has been sent. *)
Definition sent_history : OneshotHistory (V := nat) :=
  mkHistory (OneshotSender_send 5 oneshot_channel).2 (Some 5) [].

Lemma sent_reachable : oneshot_reachable sent_history.
Proof.
  apply rtc_once. apply (os_send oneshot_channel None [] 5 (Value tt)). reflexivity.
Qed.

Lemma oneshot_delivers_once_witness :
  (OneshotReceiver_receive 7 (o_chan sent_history)).1 = Ready (Value 5).
Proof. exact (proj2 (proj2 (oneshot_delivers_once sent_history sent_reachable)) 7). Defined.

Lemma oneshot_send_wakes_witness :
  exists c1 c2, OneshotReceiver_receive 7 (oneshot_channel (V := nat)) = (Pending, c1) /\
    OneshotSender_send 5 c1 = (Value tt, c2) /\ os_registered c2 = [7].
Proof.
  eexists _, _. split; [reflexivity|]. split; [reflexivity|].
  refine (proj1 (oneshot_send_wakes (mkHistory oneshot_channel None []) 7 5 _ _ _ eq_refl eq_refl)).
  apply rtc_refl.
Defined.

Lemma oneshot_drop_strands_receiver_witness :
  exists c1, OneshotReceiver_receive 7 (oneshot_channel (V := nat)) = (Pending, c1) /\
    (OneshotReceiver_receive 7 (OneshotSender_close c1)).1 = Ready (Unexpected tt) /\
    os_registered (OneshotSender_close c1) = [].
Proof.
  eexists. split; [reflexivity|].
  exact (oneshot_drop_strands_receiver 7 _ (mkHistory (OneshotSender_close _) None [])
    eq_refl (rtc_refl _ _)).
Defined.

(** The value 5 has been accepted. *)
Lemma mpsc_is_bounded_fifo_witness :
  exists m : MpscState (V := nat), mpsc_reachable 2 m /\ m_accepted m = [5] /\
    m_accepted m = m_got m ++ ms_queue_ (m_shared m).
Proof.
  assert (exists m : MpscState (V := nat), mpsc_reachable 2 m /\ m_accepted m = [5]) as (m & Hm & Ha).
  { eexists. split.
    - eapply rtc_l; [by apply (ms_send 2 _ _ _ _ _ 1 5)|].
      eapply rtc_l; [by apply (ms_check 2 _ _ _ _ _ 1 5)|].
      eapply rtc_l; [by apply (ms_push 2 _ _ _ _ _ 1 5)|]. apply rtc_refl.
    - reflexivity. }
  exists m. split; [exact Hm|]. split; [exact Ha|]. exact (proj1 (mpsc_is_bounded_fifo 2 m Hm)).
Defined.

(** The receiver waits, then a sender sends. *)
Lemma mpsc_no_lost_wakeup_witness :
  exists a : MpscTasks (V := nat), atomic_reachable 1 a /\ ms_queue_ (a_shared a) = [5] /\
    9 ∈ ms_reg_receivers (a_shared a).
Proof.
  assert (exists a : MpscTasks (V := nat), atomic_reachable 1 a /\ ms_queue_ (a_shared a) = [5] /\
    a_receiving a = Some 9) as (a & Ha & Hq & Hr).
  { eexists. split.
    - eapply rtc_l; [by apply (at_receive 1 _ _ 9 Pending)|].
      eapply rtc_l; [by apply (at_send 1 _ _ _ 1 5 (Ready (Value tt)))|]. apply rtc_refl.
    - split; reflexivity. }
  exists a. split; [exact Ha|]. split; [exact Hq|].
  apply (proj2 (mpsc_no_lost_wakeup 1 a 9 (le_n 1) Ha Hr)). by rewrite Hq.
Defined.

Definition empty_world : World Wheel nat :=
  mkWorld (mkHeap ∅ ∅) ∅ [] (mkWorker false []) ∅ (mkDriver [] ∅) ∅ ∅ 0 None.

Lemma mpsc_stale_receiver_registered_witness :
  exists s4 : MpscShared nat, ms_reg_receivers s4 = [9] /\
    (RuntimeCore_register_future 9 empty_world).1 = Undef.
Proof.
  destruct (mpsc_stale_receiver_registered 9 1 2 5 6 empty_world (lookup_empty 9)) as (s1 & s2 & s3 & s4 & _ & _ & _ & _ & _ & Hreg & Hu).
  exists s4. split; [exact Hreg|exact Hu].
Defined.

(** ** Blocking tasks *)

(** A world with one thread, 0, whose registry, at 5, has a pool of two workers; the task
    at 7 has the closure 30 and the event 1, coroutine 9 awaits it. *)
Definition task_world : World BlockingRegistryImpl nat :=
  mkWorld (mkHeap {[7 := mkFuture false None None None (Some 9) None false]} ∅)
    (snd (BlockingTask_new 7 30 1 ∅)) [] (mkWorker false []) ∅
    (mkDriver [] {[0 := [(BlockingRegistry_hash, 5)]]}) {[5 := BlockingRegistryImpl_new 2]} ∅ 0 None.

Lemma blocking_task_end_to_end_witness :
  exists (i : nat) (tasks : list nat) (w1 : World BlockingRegistryImpl nat),
    BlockingTask_poll (fun v => v) tt 0 (fst (BlockingTask_new 7 30 1 ∅), task_world) =
      (Done Pending, (mkBlockingTask true 1, w1)) /\
    forall m, m <= S (length tasks) -> exists w2 w3 xs,
      on_registry 5 (run_tasks m i (fun t => t + 70)) w1 = (Done tt, w2) /\
      Driver_poll (fun _ => tt) 0 w2 = (Done tt, w3) /\
      fifo (w_handles_ w3) = xs /\ ((Some 9, Some 7) ∈ xs <-> m = S (length tasks)) /\
      (m = S (length tasks) -> exists w4,
         BlockingTask_poll (fun v => v) tt 0 (mkBlockingTask true 1, w3) =
           (Done (Ready 100), (mkBlockingTask true 1, w4))).
Proof.
  destruct (blocking_task_end_to_end (fun v => v) (fun t => t + 70) 0 5 task_world (BlockingRegistryImpl_new 2)
    7 (mkFuture false None None None (Some 9) None false) (mkBlockingTask false 1) (BlockingExtra_new 30))
    as (i & tasks & w1 & Hp & _ & Hm).
  - constructor; [done|done|constructor|by intros e ?%not_elem_of_nil].
  - done.
  - done.
  - done.
  - done.
  - done.
  - done.
  - apply not_elem_of_nil.
  - by intros e ?%not_elem_of_nil.
  - intros [|[|j]] k Hk; [injection Hk as <-..|done]; apply not_elem_of_nil.
  - exists i, tasks, w1. split; [exact Hp|exact Hm].
Defined.

(** One worker; a client has called [Register] with the task 7. *)
Definition pool_called : PoolLife.Pool :=
  PoolLife.mkPool [PoolLife.mkPoolWorker PoolLife.AtLoop [] false false] [PoolLife.ToRegister 7]
    false PoolLife.Alive [7] [].

Lemma pool_runs_every_task_witness :
  PoolLife.pool_reachable false 1 1 pool_called /\
  (forall k s', nsteps PoolLife.pool_step k pool_called s' -> k <= 28) /\
  (forall s', rtc PoolLife.pool_step pool_called s' ->
     (exists s'', PoolLife.pool_step s' s'') \/ PoolLife.executed s' ≡ₚ [7]).
Proof.
  assert (PoolLife.pool_reachable false 1 1 pool_called) as Hs.
  { apply rtc_once. right. by apply (PoolLife.call_register false 0 7 (PoolLife.BlockingPool_run 1 1)). }
  pose proof (PoolLife.pool_runs_every_task false 1 1 pool_called Hs ltac:(lia) eq_refl) as [H1 H2].
  split; [exact Hs|]. split; [exact H1|]. intros s' Hr. destruct (H2 s' Hr) as [H|[_ H]]; [by left|by right].
Defined.

(** ** [join], [select] and [timeout] *)

(** The single branch has ended with 5. *)
Lemma join_waits_for_all_witness :
  exists s : JoinState nat, rtc join_step (join_start 1) s /\ j_wakes (js_join s) = 1.
Proof.
  assert (exists s : JoinState nat, rtc join_step (join_start 1) s /\ Forall (eq JDone) (js_pc s))
    as (s & Hs & Hd).
  { eexists. split.
    - eapply rtc_l; [by apply (js_store (join_start 1) 0 (Value 5))|].
      eapply rtc_l; [by apply (js_check _ 0)|]. apply rtc_refl.
    - repeat constructor. }
  exists s. split; [exact Hs|].
  exact (proj1 (proj2 (join_waits_for_all 1 s (le_n 1) Hs)) Hd).
Defined.

(** The left branch has ended, the right one has not. *)
Definition half_selected {A} (v : A) : BranchShared A :=
  SelectFuture_run_single_branch 0 (Value v) (BranchShared_new 2).

Lemma half_selected_reachable {A} (v : A) :
  rtc select_step (BranchShared_new 2, []) (half_selected v, [0]).
Proof.
  apply rtc_once. apply (sel_end (BranchShared_new 2) [] 0 (Value v)); [cbn; lia|apply not_elem_of_nil].
Qed.

Lemma select_returns_first_witness :
  exists cancelled, SelectFuture_poll true (half_selected 5) =
      (Done (Ready [Some 5; None]), [], cancelled) /\ 1 ∈ cancelled.
Proof.
  destruct (select_returns_first 2 (half_selected 5) [0] (half_selected_reachable 5))
    as (_ & _ & Hok & _).
  destruct (Hok eq_refl ltac:(repeat constructor)) as (c & Hp & Hc & _).
  exists c. split; [exact Hp|]. by apply Hc.
Defined.

Lemma timeout_reports_witness :
  timeout_result (SelectFuture_poll true (half_selected (inl 5))).1.1 = Done (Ready (Value 5)).
Proof.
  refine (proj1 (timeout_reports (Some (Value (inl 5))) None [0] (half_selected (inl 5))
    (half_selected_reachable (inl 5)) eq_refl eq_refl _ _)).
  - intros x [= <-]. by exists 5.
  - intros e. discriminate.
Defined.
