(* ===== verification/BufferIO.v ===== *)
(** Buffered reading and complete writing: [include/xyco/io/buffer_reader.ccm],
    [include/xyco/io/read.ccm], [include/xyco/io/write.ccm].

    Iterators into [buffer_] are indices.  The reader behind a [BufferReader]
    and the writer of [write_all] are template parameters of the source: here
    they are classes with the laws their concepts stand for. *)
From stdpp Require Import base list.
From Stdlib Require Import ZArith Lia.
From S2P Require Import Prelude Errors.

(** [DEFAULT_BUFFER_SIZE]. *)
Definition DEFAULT_BUFFER_SIZE : nat := 8 * 1024.

(** [Readable]: [reader.read(begin, end)] on a range of [n] bytes gives the
    bytes it stored at the beginning of the range. *)
Class Readable (R : Type) : Type := reader_read : nat -> M R (Result (list Z)).

(** A reader of a byte stream whose reads do not fail: a read takes the next bytes of
    the stream, as many as the range has at most, and none only at its end.  A reader that
    fails is outside this class: the code dereferences its error. *)
Class StreamReader (R : Type) `{Readable R} : Type := {
  stream : R -> list Z;
  read_takes : forall n r, 0 < n -> exists bytes r',
    reader_read n r = (Done (Value bytes), r') /\ length bytes <= n /\
    stream r = bytes ++ stream r' /\ (bytes = [] -> stream r = []);
}.

Record BufferReader : Type := mkBufferReader {
  buffer_ : list Z;
  pos_ : nat;
  cap_ : nat;
}.

Definition BufferReader_new : BufferReader := mkBufferReader (replicate DEFAULT_BUFFER_SIZE 0%Z) 0 0.

(** [std::copy(begin(buffer_) + i, begin(buffer_) + j, ...)]; reading past the
    end of the buffer is undefined. *)
Definition copy_range {S} (buffer : list Z) (i j : nat) : M S (list Z) :=
  if decide (j <= length buffer) then ret (take (j - i) (drop i buffer)) else undef.

Section Reading.
Context {R : Type} `{Readable R}.

Definition get_reader : M (R * BufferReader) BufferReader :=
  let! s := get in ret s.2.
Definition set_reader (b : BufferReader) : M (R * BufferReader) unit :=
  modify (fun s => (s.1, b)).

(** [consume]: the argument is a [uint16_t]. *)
Definition BufferReader_consume (amt : nat) : M (R * BufferReader) unit :=
  let! b := get_reader in
  set_reader (mkBufferReader (buffer_ b)
    (Nat.min (pos_ b + Z.to_nat (to_uint16 (Z.of_nat amt))) (cap_ b)) (cap_ b)).

(** [fill_buffer]: the result is the range of the buffered bytes. *)
Definition BufferReader_fill_buffer : M (R * BufferReader) (Result (nat * nat)) :=
  let! b := get_reader in
  if decide (pos_ b = cap_ b) then
    let! res := zoom fst (fun r s => (r, s.2)) (reader_read (length (buffer_ b))) in
    match res with
    | Unexpected e => ret (Unexpected e)
    | Value bytes =>
        set_reader (mkBufferReader (bytes ++ drop (length bytes) (buffer_ b)) 0 (length bytes)) ;;;
        ret (Value (0, length bytes))
    end
  else ret (Value (pos_ b, cap_ b)).

(** [read] into a range of [len] bytes: the bytes copied. *)
Definition BufferReader_read (len : nat) : M (R * BufferReader) (Result (list Z)) :=
  let! b := get_reader in
  if decide (len <= cap_ b - pos_ b) then
    let! bytes := copy_range (buffer_ b) (pos_ b) (pos_ b + len) in
    BufferReader_consume len ;;;
    ret (Value bytes)
  else
    let! res := BufferReader_fill_buffer in
    match res with
    | Unexpected e => ret (Unexpected e)
    | Value _ =>
        let! b := get_reader in
        let len := Nat.min len (cap_ b - pos_ b) in
        let! bytes := copy_range (buffer_ b) 0 len in
        BufferReader_consume len ;;;
        ret (Value bytes)
    end.

(** [read_to_end]; the result is [None] when [fuel] turns were not enough. *)
Fixpoint BufferReadExt_read_to_end_loop (fuel : nat) (content : list Z)
    : M (R * BufferReader) (option (Result (list Z))) :=
  match fuel with
  | O => ret None
  | S fuel =>
      let! res := BufferReader_fill_buffer in
      let! (begin, end_) := deref_expected res in
      if decide (begin = end_) then ret (Some (Value content))
      else
        let! b := get_reader in
        let! bytes := copy_range (buffer_ b) begin end_ in
        BufferReader_consume (end_ - begin) ;;;
        BufferReadExt_read_to_end_loop fuel (content ++ bytes)
  end.

Definition BufferReadExt_read_to_end (fuel : nat) := BufferReadExt_read_to_end_loop fuel [].

(** [std::find]: the index of the first occurrence, the length if there is
    none. *)
Fixpoint find_index (c : Z) (l : list Z) : nat :=
  match l with
  | [] => 0
  | x :: l' => if (x =? c)%Z then 0 else S (find_index c l')
  end.

(** [read_until]. *)
Fixpoint BufferReadExt_read_until_loop (fuel : nat) (character : Z) (content : list Z)
    : M (R * BufferReader) (option (Result (list Z))) :=
  match fuel with
  | O => ret None
  | S fuel =>
      let! res := BufferReader_fill_buffer in
      let! (begin, end_) := deref_expected res in
      if decide (begin = end_) then ret (Some (Value content))
      else
        let! b := get_reader in
        let pos := begin + find_index character (take (end_ - begin) (drop begin (buffer_ b))) in
        let! bytes := copy_range (buffer_ b) begin (pos + 1) in
        BufferReader_consume (pos + 1 - begin) ;;;
        if decide (pos = end_) then BufferReadExt_read_until_loop fuel character (content ++ bytes)
        else ret (Some (Value (content ++ bytes)))
  end.

Definition BufferReadExt_read_until (fuel : nat) (character : Z) :=
  BufferReadExt_read_until_loop fuel character [].

(** [read_line]. *)
Definition BufferReadExt_read_line (fuel : nat) := BufferReadExt_read_until fuel 10.
End Reading.

(** ** [write_all] *)

(** [Writable]: [writer.write(begin, end)] on the bytes given. *)
Class Writable (W : Type) : Type := writer_write : list Z -> M W (Result nat).

(** A writer to a byte sink: a successful write appends a prefix of the bytes,
    a failed one appends nothing. *)
Class StreamWriter (W : Type) `{Writable W} : Type := {
  sink : W -> list Z;
  write_appends : forall bytes w, exists res w', writer_write bytes w = (Done res, w') /\
    match res with
    | Value n => n <= length bytes /\ sink w' = sink w ++ take n bytes
    | Unexpected _ => sink w' = sink w
    end;
}.

(** The errors after which [write_all] tries again. *)
Definition retryable (e : Error) : bool :=
  (errno_ e =? EAGAIN)%Z || (errno_ e =? EWOULDBLOCK)%Z || (errno_ e =? EINTR)%Z.

Section Writing.
Context {W : Type} `{Writable W}.

(** The loop of [write_all]; [None] when [fuel] writes were not enough. *)
Fixpoint WriteExt_write_all_loop (fuel : nat) (buffer : list Z) (total_write : nat)
    : M W (option (Result unit)) :=
  if decide (total_write = length buffer) then ret (Some (Value tt))
  else match fuel with
       | O => ret None
       | S fuel =>
           let! res := writer_write (drop total_write buffer) in
           match res with
           | Value nbytes => WriteExt_write_all_loop fuel buffer (total_write + nbytes)
           | Unexpected error =>
               if retryable error then WriteExt_write_all_loop fuel buffer total_write
               else ret (Some (Unexpected error))
           end
       end.

Definition WriteExt_write_all (fuel : nat) (buffer : list Z) : M W (option (Result unit)) :=
  WriteExt_write_all_loop fuel buffer 0.
End Writing.
