(* ===== verification/BufferIOSpec.v ===== *)
(** What buffered reading and [write_all] deliver: the bytes of the stream, all
    and in order, where the code does so, and the exact bytes where it does
    not. *)
From stdpp Require Import base list.
From Stdlib Require Import ZArith Lia.
From S2P Require Import Prelude Errors BufferIO.

Lemma buffer_size_bounds : 0 < DEFAULT_BUFFER_SIZE /\ (Z.of_nat DEFAULT_BUFFER_SIZE < 65536)%Z.
Proof. split; [unfold DEFAULT_BUFFER_SIZE; lia|reflexivity]. Qed.

Lemma buffer_size_u16 n :
  n <= S DEFAULT_BUFFER_SIZE -> Z.to_nat (to_uint16 (Z.of_nat n)) = n.
Proof.
  intros Hn. pose proof buffer_size_bounds as [_ Hb]. rewrite wrap_u_id; [lia|].
  change (2 ^ 16)%Z with 65536%Z. assert (Z.of_nat DEFAULT_BUFFER_SIZE = 8192%Z) by reflexivity. lia.
Qed.

#[local] Opaque DEFAULT_BUFFER_SIZE.

(** A range that leaves a list at an index. *)
Lemma find_index_spec c l :
  (c ∈ l -> exists l1 l2, l = l1 ++ (c :: l2) /\ c ∉ l1 /\ find_index c l = length l1) /\
  (c ∉ l -> find_index c l = length l).
Proof.
  induction l as [|x l [IH1 IH2]]; cbn; [split; [by intros ?%elem_of_nil|done]|].
  destruct (Z.eqb_spec x c) as [->|Hne]; (split; intros Hc).
  - exists [], l. split_and!; [done|by intros ?%elem_of_nil|done].
  - exfalso. apply Hc. by left.
  - apply elem_of_cons in Hc as [?|Hc]; [done|].
    destruct (IH1 Hc) as (l1 & l2 & -> & Hn & Hf). exists (x :: l1), l2.
    split_and!; [done| |by rewrite Hf]. rewrite not_elem_of_cons. by split.
  - apply not_elem_of_cons in Hc as [_ Hc]. by rewrite IH2.
Qed.

Section Reading.
Context {R : Type} `{StreamReader R}.
Implicit Types (b : BufferReader) (r : R).

Record wf_reader b : Prop := {
  wr_size : length (buffer_ b) = DEFAULT_BUFFER_SIZE;
  wr_pos : pos_ b <= cap_ b;
  wr_cap : cap_ b <= DEFAULT_BUFFER_SIZE;
}.

(** The bytes that are buffered and not yet read. *)
Definition buffered b : list Z := take (cap_ b - pos_ b) (drop (pos_ b) (buffer_ b)).

Lemma wf_reader_new : wf_reader BufferReader_new.
Proof. constructor; cbn; [apply length_replicate|lia|lia]. Qed.

Lemma length_buffered b : wf_reader b -> length (buffered b) = cap_ b - pos_ b.
Proof.
  intros [Hs Hp Hc]. unfold buffered. rewrite length_take, length_drop. lia.
Qed.

Lemma consume_run n b r :
  wf_reader b -> n <= S DEFAULT_BUFFER_SIZE ->
  exists b', BufferReader_consume n (r, b) = (Done tt, (r, b')) /\ wf_reader b' /\
    b' = mkBufferReader (buffer_ b) (Nat.min (pos_ b + n) (cap_ b)) (cap_ b) /\
    buffered b' = drop n (buffered b).
Proof.
  intros [Hs Hp Hc] Hn. eexists. split_and!; [|..|reflexivity|].
  - unfold BufferReader_consume, get_reader, set_reader. mred. cbn. by rewrite buffer_size_u16.
  - constructor; cbn; [done|lia|done].
  - unfold buffered. cbn. rewrite List.skipn_firstn_comm, drop_drop.
    destruct (decide (pos_ b + n <= cap_ b)).
    + rewrite Nat.min_l by lia. f_equal. lia.
    + rewrite Nat.min_r by lia. rewrite Nat.sub_diag. cbn. symmetry. apply nil_length_inv.
      rewrite length_take. lia.
Qed.

Lemma fill_run b r :
  wf_reader b -> exists r' b',
    BufferReader_fill_buffer (r, b) = (Done (Value (pos_ b', cap_ b')), (r', b')) /\
    wf_reader b' /\ buffered b ++ stream r = buffered b' ++ stream r' /\
    (buffered b' = [] -> buffered b ++ stream r = []) /\
    (pos_ b <> cap_ b -> r' = r /\ b' = b).
Proof.
  intros Hwf. pose proof (length_buffered b Hwf) as Hlb. destruct Hwf as [Hs Hp Hc].
  unfold BufferReader_fill_buffer, get_reader, set_reader. mred. cbn [fst snd]. case_decide as Heq.
  - destruct (read_takes (length (buffer_ b)) r) as (bytes & r' & Hr & Hlen & Hst & Hend).
    { rewrite Hs. apply buffer_size_bounds. }
    cbn [fst]. rewrite Hr. exists r', (mkBufferReader (bytes ++ drop (length bytes) (buffer_ b)) 0 (length bytes)).
    assert (buffered b = []) as -> by (apply nil_length_inv; lia).
    assert (buffered (mkBufferReader (bytes ++ drop (length bytes) (buffer_ b)) 0 (length bytes))
      = bytes) as ->.
    { unfold buffered. cbn. rewrite Nat.sub_0_r, drop_0. by rewrite take_app_length. }
    split_and!; [done| |done|done|done].
    constructor; cbn; [|lia|lia]. rewrite length_app, length_drop. lia.
  - exists r, b. split_and!; [done|by constructor|done| |done].
    intros E. rewrite E in Hlb. cbn in Hlb. lia.
Qed.

Lemma copy_buffered b r :
  wf_reader b ->
  copy_range (buffer_ b) (pos_ b) (cap_ b) (r, b) = (Done (buffered b), (r, b)).
Proof. intros [Hs Hp Hc]. unfold copy_range. by rewrite decide_True by lia. Qed.

Lemma read_to_end_run fuel b r
    (Hwf : wf_reader b) (Hfuel : length (buffered b ++ stream r) < fuel) :
  exists r' b', BufferReadExt_read_to_end fuel (r, b) =
      (Done (Some (Value (buffered b ++ stream r))), (r', b')) /\ stream r' = [].
Proof.
  unfold BufferReadExt_read_to_end.
  assert (forall content, exists r' b', BufferReadExt_read_to_end_loop fuel content (r, b) =
    (Done (Some (Value (content ++ buffered b ++ stream r))), (r', b')) /\ stream r' = []) as Hgo.
  2:{ exact (Hgo []). }
  revert b r Hwf Hfuel. induction fuel as [|fuel IH]; intros b r Hwf Hfuel content; [lia|].
  destruct (fill_run b r Hwf) as (r1 & b1 & Hf & Hwf1 & Hst & Hend & _).
  pose proof (length_buffered b1 Hwf1) as Hl1.
  cbn [BufferReadExt_read_to_end_loop]. rewrite (bind_done _ _ _ _ _ Hf). cbn [deref_expected].
  unfold bind at 1. unfold ret at 1. case_decide as Heq.
  - assert (buffered b1 = []) as E by (apply nil_length_inv; lia).
    rewrite (Hend E), app_nil_r. exists r1, b1. split; [done|].
    rewrite Hst, E in Hend. by apply Hend.
  - rewrite (bind_done _ _ _ b1 (r1, b1)) by done.
    rewrite (bind_done _ _ _ _ _ (copy_buffered b1 r1 Hwf1)).
    destruct (consume_run (cap_ b1 - pos_ b1) b1 r1 Hwf1) as (b2 & Hc & Hwf2 & _ & Hb2).
    { destruct Hwf1. lia. }
    rewrite (bind_done _ _ _ _ _ Hc). rewrite <- Hl1, drop_all in Hb2.
    rewrite Hst in Hfuel. rewrite length_app in Hfuel.
    assert (cap_ b1 - pos_ b1 <> 0) by (destruct Hwf1; lia).
    destruct (IH b2 r1 Hwf2) with (content := content ++ buffered b1) as (r' & b' & Hrun & Hend').
    { rewrite Hb2. cbn. lia. }
    exists r', b'. rewrite Hrun, Hb2, Hst. cbn. by rewrite <- (assoc (++)).
Qed.

(** C22.  [read_to_end] returns: with one turn per byte and one more it yields
    exactly what was buffered followed by the whole rest of the stream, however
    the reader cuts the stream into reads. *)
Theorem read_to_end_complete fuel b r
    (Hwf : wf_reader b) (Hfuel : length (buffered b ++ stream r) < fuel) :
  exists r' b', BufferReadExt_read_to_end fuel (r, b) =
      (Done (Some (Value (buffered b ++ stream r))), (r', b')) /\ stream r' = [].
Proof. by apply read_to_end_run. Qed.

(** [read] of [len] bytes, when the buffer has that many or is empty,
    returns the next bytes of the stream: as many as asked for if they are
    buffered, otherwise what one read of the reader gives, and none only at the
    end of the stream. *)
Theorem buffered_read_next len b r
    (Hwf : wf_reader b) (Hlen : 0 < len) (Hfit : len <= cap_ b - pos_ b \/ pos_ b = cap_ b) :
  exists bytes r' b', BufferReader_read len (r, b) = (Done (Value bytes), (r', b')) /\
    wf_reader b' /\ buffered b ++ stream r = bytes ++ buffered b' ++ stream r' /\
    length bytes <= len /\ (bytes = [] -> buffered b ++ stream r = []).
Proof.
  unfold BufferReader_read. rewrite (bind_done _ _ _ b (r, b)) by done.
  pose proof (length_buffered b Hwf) as Hlb. case_decide as Hle.
  - destruct (consume_run len b r Hwf) as (b' & Hc & Hwf' & _ & Hb'); [destruct Hwf; lia|].
    assert (copy_range (buffer_ b) (pos_ b) (pos_ b + len) (r, b)
      = (Done (take len (buffered b)), (r, b))) as Hcp.
    { unfold copy_range, buffered. rewrite decide_True by (destruct Hwf; lia).
      rewrite take_take. unfold ret. do 3 f_equal. lia. }
    rewrite (bind_done _ _ _ _ _ Hcp), (bind_done _ _ _ _ _ Hc).
    eexists _, r, b'. split_and!; [done|done| | |].
    + by rewrite Hb', (assoc (++)), take_drop.
    + rewrite length_take. lia.
    + intros E. apply (f_equal length) in E. rewrite length_take in E. cbn in E. lia.
  - destruct Hfit as [?|Heq]; [lia|].
    destruct (fill_run b r Hwf) as (r1 & b1 & Hf & Hwf1 & Hst & Hend & _).
    assert (pos_ b1 = 0) as Hp0.
    { revert Hf. unfold BufferReader_fill_buffer, get_reader, set_reader. mred. cbn [fst snd].
      rewrite decide_True by done. repeat split_match; intros; by simplify_eq/=. }
    pose proof (length_buffered b1 Hwf1) as Hl1. rewrite Hp0, Nat.sub_0_r in Hl1.
    rewrite (bind_done _ _ _ _ _ Hf), (bind_done _ _ _ b1 (r1, b1)) by done.
    rewrite Hp0, Nat.sub_0_r. set (n := Nat.min len (cap_ b1)).
    destruct (consume_run n b1 r1 Hwf1) as (b2 & Hc & Hwf2 & _ & Hb2); [destruct Hwf1; lia|].
    assert (copy_range (buffer_ b1) 0 n (r1, b1) = (Done (take n (buffered b1)), (r1, b1))) as Hcp.
    { unfold copy_range, buffered. rewrite decide_True by (destruct Hwf1; lia).
      rewrite Hp0, take_take, !drop_0, !Nat.sub_0_r. unfold ret. do 3 f_equal. lia. }
    rewrite (bind_done _ _ _ _ _ Hcp), (bind_done _ _ _ _ _ Hc).
    eexists _, r1, b2. split_and!; [done|done| | |].
    + by rewrite Hst, Hb2, (assoc (++)), take_drop.
    + rewrite length_take. lia.
    + intros E. apply Hend, nil_length_inv. apply (f_equal length) in E.
      rewrite length_take in E. cbn in E. lia.
Qed.

(** [read] of more bytes than are buffered, when some are: it copies from the
    start of the buffer instead of the read position, so the caller gets the
    first bytes of the buffer (already read before) and the buffered ones are
    dropped unread. *)
Theorem buffered_read_repeats_old_bytes len b r
    (Hwf : wf_reader b) (Hsome : pos_ b < cap_ b) (Hmore : cap_ b - pos_ b < len) :
  exists b', BufferReader_read len (r, b) =
      (Done (Value (take (cap_ b - pos_ b) (buffer_ b))), (r, b')) /\ buffered b' = [].
Proof.
  unfold BufferReader_read. rewrite (bind_done _ _ _ b (r, b)) by done.
  rewrite decide_False by lia.
  destruct (fill_run b r Hwf) as (r1 & b1 & Hf & _ & _ & _ & Hsame).
  destruct Hsame as [-> ->]; [lia|].
  rewrite (bind_done _ _ _ _ _ Hf), (bind_done _ _ _ b (r, b)) by done.
  rewrite Nat.min_r by lia.
  destruct (consume_run (cap_ b - pos_ b) b r Hwf) as (b2 & Hc & _ & _ & Hb2); [destruct Hwf; lia|].
  rewrite (bind_done _ _ _ (take (cap_ b - pos_ b) (buffer_ b)) (r, b)).
  - rewrite (bind_done _ _ _ _ _ Hc). exists b2. split; [done|].
    rewrite Hb2. apply nil_length_inv. rewrite length_drop, length_buffered by done. lia.
  - unfold copy_range. rewrite decide_True by (destruct Hwf; lia). by rewrite Nat.sub_0_r, drop_0.
Qed.

(** A turn of [read_until] that finds the delimiter in the buffer it fills. *)
Lemma read_until_hit fuel c content l1 l2 b r r1 b1 :
  BufferReader_fill_buffer (r, b) = (Done (Value (pos_ b1, cap_ b1)), (r1, b1)) ->
  wf_reader b1 -> buffered b1 = l1 ++ (c :: l2) -> c ∉ l1 ->
  exists b', BufferReadExt_read_until_loop (S fuel) c content (r, b) =
      (Done (Some (Value (content ++ l1 ++ [c]))), (r1, b')) /\ wf_reader b' /\ buffered b' = l2 /\
    buffer_ b' = buffer_ b1 /\ cap_ b' = cap_ b1.
Proof.
  intros Hf Hwf Hb Hc.
  pose proof (length_buffered b1 Hwf) as Hlb. rewrite Hb, length_app in Hlb. cbn in Hlb.
  cbn [BufferReadExt_read_until_loop].
  rewrite (bind_done _ _ _ _ _ Hf). cbn [deref_expected]. unfold bind at 1. unfold ret at 1.
  rewrite decide_False by lia. rewrite (bind_done _ _ _ b1 (r1, b1)) by done.
  fold (buffered b1). rewrite Hb.
  assert (find_index c (l1 ++ (c :: l2)) = length l1) as ->.
  { clear -Hc. induction l1 as [|x l1 IH]; cbn; [by rewrite Z.eqb_refl|].
    apply not_elem_of_cons in Hc as [Hx Hc]. destruct (Z.eqb_spec x c); [by subst|]. by rewrite IH. }
  assert (copy_range (buffer_ b1) (pos_ b1) (pos_ b1 + length l1 + 1) (r1, b1)
    = (Done (l1 ++ [c]), (r1, b1))) as Hcp.
  { unfold copy_range. rewrite decide_True by (destruct Hwf; lia). unfold ret. do 2 f_equal.
    replace (l1 ++ [c]) with (take (S (length l1)) (buffered b1)).
    - unfold buffered. rewrite take_take. f_equal. lia.
    - rewrite Hb. replace (l1 ++ (c :: l2)) with ((l1 ++ [c]) ++ l2) by (by rewrite <- (assoc (++))).
      apply take_app_length'. rewrite length_app. cbn. lia. }
  rewrite (bind_done _ _ _ _ _ Hcp).
  destruct (consume_run (pos_ b1 + length l1 + 1 - pos_ b1) b1 r1 Hwf) as (b2 & Hcs & Hwf2 & Hb2' & Hb2);
    [destruct Hwf; lia|].
  rewrite (bind_done _ _ _ _ _ Hcs). rewrite decide_False by lia.
  exists b2. split_and!; [done|done| |by rewrite Hb2'|by rewrite Hb2']. rewrite Hb2, Hb.
  replace (l1 ++ (c :: l2)) with ((l1 ++ [c]) ++ l2) by (by rewrite <- (assoc (++))).
  apply drop_app_length'. rewrite length_app. cbn. lia.
Qed.

Lemma read_until_found fuel c l1 l2 b r r1 b1 :
  BufferReader_fill_buffer (r, b) = (Done (Value (pos_ b1, cap_ b1)), (r1, b1)) ->
  wf_reader b1 -> buffered b1 = l1 ++ (c :: l2) -> c ∉ l1 ->
  exists b', BufferReadExt_read_until (S fuel) c (r, b) =
      (Done (Some (Value (l1 ++ [c]))), (r1, b')) /\ wf_reader b' /\ buffered b' = l2 /\
    buffer_ b' = buffer_ b1 /\ cap_ b' = cap_ b1.
Proof. apply (read_until_hit fuel c []). Qed.

(** [read_until] at the end of the stream, with nothing buffered. *)
Lemma read_until_eof fuel c content b r :
  wf_reader b -> buffered b = [] -> stream r = [] ->
  exists r' b', BufferReadExt_read_until_loop (S fuel) c content (r, b) =
    (Done (Some (Value content)), (r', b')) /\ stream r' = [] /\ wf_reader b' /\ buffered b' = [].
Proof.
  intros Hwf Hb Hend. destruct (fill_run b r Hwf) as (r3 & b3 & Hf3 & Hwf3 & Hst3 & _ & _).
  rewrite Hb, Hend in Hst3. symmetry in Hst3. apply app_eq_nil in Hst3 as [Hb3 Hr3].
  pose proof (length_buffered b3 Hwf3) as Hl3. rewrite Hb3 in Hl3. cbn in Hl3.
  exists r3, b3. split; [|done]. cbn [BufferReadExt_read_until_loop].
  rewrite (bind_done _ _ _ _ _ Hf3). cbn [deref_expected]. unfold bind at 1. unfold ret at 1.
  by rewrite decide_True by (destruct Hwf3; lia).
Qed.

(** A turn of [read_until] that fills the buffer with bytes but finds no delimiter: one
    byte more is copied, or the copy runs past the end of the buffer. *)
Lemma read_until_miss fuel c content b r r1 b1 :
  BufferReader_fill_buffer (r, b) = (Done (Value (pos_ b1, cap_ b1)), (r1, b1)) ->
  wf_reader b1 -> pos_ b1 < cap_ b1 -> c ∉ buffered b1 ->
  if decide (cap_ b1 < DEFAULT_BUFFER_SIZE) then
    exists stray, buffer_ b1 !! cap_ b1 = Some stray /\
      BufferReadExt_read_until_loop (S fuel) c content (r, b) =
        BufferReadExt_read_until_loop fuel c (content ++ buffered b1 ++ [stray])
          (r1, mkBufferReader (buffer_ b1) (cap_ b1) (cap_ b1))
  else BufferReadExt_read_until_loop (S fuel) c content (r, b) = (Undef, (r1, b1)).
Proof.
  intros Hf Hwf Hsome Hc. pose proof (length_buffered b1 Hwf) as Hlb.
  assert (BufferReadExt_read_until_loop (S fuel) c content (r, b) =
    bind (copy_range (buffer_ b1) (pos_ b1) (cap_ b1 + 1)) (fun bytes =>
      BufferReader_consume (cap_ b1 + 1 - pos_ b1) ;;;
      BufferReadExt_read_until_loop fuel c (content ++ bytes)) (r1, b1)) as ->.
  { cbn [BufferReadExt_read_until_loop].
    rewrite (bind_done _ _ _ _ _ Hf). cbn [deref_expected]. unfold bind at 1. unfold ret at 1.
    rewrite decide_False by lia. rewrite (bind_done _ _ _ b1 (r1, b1)) by done.
    fold (buffered b1). rewrite (proj2 (find_index_spec c (buffered b1)) Hc), Hlb.
    replace (pos_ b1 + (cap_ b1 - pos_ b1)) with (cap_ b1) by (destruct Hwf; lia).
    unfold bind. destruct (copy_range _ _ _ _) as [[bytes|e|] s1]; [|done|done].
    destruct (BufferReader_consume _ s1) as [[[]|e|] s2]; [|done|done]. by rewrite decide_True. }
  destruct Hwf as [Hs Hp Hcap]. case_decide as Hlt; [|unfold copy_range; mred; by rewrite decide_False by lia].
  destruct (lookup_lt_is_Some_2 (buffer_ b1) (cap_ b1)) as [stray Hstray]; [lia|].
  exists stray. split; [done|]. rewrite (bind_done _ _ _ (buffered b1 ++ [stray]) (r1, b1)).
  2:{ unfold copy_range. rewrite decide_True by lia. unfold ret. do 2 f_equal.
      unfold buffered. replace (cap_ b1 + 1 - pos_ b1) with (S (cap_ b1 - pos_ b1)) by lia.
      apply take_S_r. rewrite lookup_drop. rewrite <- Hstray. f_equal. lia. }
  assert (wf_reader b1) as Hwf by (by constructor).
  destruct (consume_run (cap_ b1 + 1 - pos_ b1) b1 r1 Hwf) as (b2 & Hcs & _ & -> & _); [lia|].
  rewrite (bind_done _ _ _ _ _ Hcs). do 3 f_equal. lia.
Qed.

(** The buffer when everything has been consumed. *)
Lemma emptied_reader b : wf_reader b ->
  wf_reader (mkBufferReader (buffer_ b) (cap_ b) (cap_ b)) /\
  buffered (mkBufferReader (buffer_ b) (cap_ b) (cap_ b)) = [].
Proof.
  intros [Hs Hp Hc]. split; [by constructor; cbn|]. unfold buffered. cbn. by rewrite Nat.sub_diag.
Qed.

(** [read_until] when the buffer it fills has bytes but not the delimiter, and
    the stream ends behind them. *)
Lemma read_until_stray fuel c b r r1 b1 :
  BufferReader_fill_buffer (r, b) = (Done (Value (pos_ b1, cap_ b1)), (r1, b1)) ->
  wf_reader b1 -> pos_ b1 < cap_ b1 -> c ∉ buffered b1 -> stream r1 = [] ->
  if decide (cap_ b1 < DEFAULT_BUFFER_SIZE) then
    exists stray r' b', buffer_ b1 !! cap_ b1 = Some stray /\
      BufferReadExt_read_until (S (S fuel)) c (r, b) =
        (Done (Some (Value (buffered b1 ++ [stray]))), (r', b')) /\
      stream r' = [] /\ wf_reader b' /\ buffered b' = []
  else BufferReadExt_read_until (S (S fuel)) c (r, b) = (Undef, (r1, b1)).
Proof.
  intros Hf Hwf Hsome Hc Hend. destruct (emptied_reader b1 Hwf) as [Hwf2 Hb2].
  pose proof (read_until_miss (S fuel) c [] b r r1 b1 Hf Hwf Hsome Hc) as Hmiss.
  unfold BufferReadExt_read_until. case_decide; [|done]. destruct Hmiss as (stray & Hstray & ->).
  destruct (read_until_eof fuel c (buffered b1 ++ [stray]) _ r1 Hwf2 Hb2 Hend) as (r3 & b3 & Hrun & Hrest).
  by exists stray, r3, b3.
Qed.

(** What is buffered is filled by doing nothing. *)
Lemma fill_buffered b r :
  wf_reader b -> pos_ b <> cap_ b ->
  BufferReader_fill_buffer (r, b) = (Done (Value (pos_ b, cap_ b)), (r, b)).
Proof.
  intros Hwf Hne. destruct (fill_run b r Hwf) as (r1 & b1 & Hf & _ & _ & _ & Hsame).
  by destruct (Hsame Hne) as [-> ->].
Qed.

(** [read_until] when the delimiter is among the buffered bytes: it returns
    the bytes up to and including the first delimiter and leaves the rest for
    the next read. *)
Theorem read_until_delimiter fuel c l1 l2 b r
    (Hwf : wf_reader b) (Hb : buffered b = l1 ++ (c :: l2)) (Hc : c ∉ l1) :
  exists b', BufferReadExt_read_until (S fuel) c (r, b) =
      (Done (Some (Value (l1 ++ [c]))), (r, b')) /\ wf_reader b' /\ buffered b' = l2.
Proof.
  pose proof (length_buffered b Hwf) as Hlb. rewrite Hb, length_app in Hlb. cbn in Hlb.
  destruct (read_until_found fuel c l1 l2 b r r b) as (b' & Hrun & Hwf' & Hb' & _); [|done..|].
  - apply fill_buffered; [done|lia].
  - by exists b'.
Qed.

(** [read_until] when the stream ends without the delimiter: it copies one
    byte too many.  The result is the rest of the stream followed by the byte
    that happens to lie behind it in the buffer; when the buffer is full to its
    last byte the copy reads past its end. *)
Theorem read_until_reads_past_end fuel c b r
    (Hwf : wf_reader b) (Hsome : pos_ b < cap_ b) (Hc : c ∉ buffered b) (Hend : stream r = []) :
  if decide (cap_ b < DEFAULT_BUFFER_SIZE) then
    exists stray r' b', buffer_ b !! cap_ b = Some stray /\
      BufferReadExt_read_until (S (S fuel)) c (r, b) =
        (Done (Some (Value (buffered b ++ [stray]))), (r', b'))
  else BufferReadExt_read_until (S (S fuel)) c (r, b) = (Undef, (r, b)).
Proof.
  pose proof (read_until_stray fuel c b r r b) as Hrun.
  rewrite fill_buffered in Hrun by (done || lia).
  specialize (Hrun eq_refl Hwf Hsome Hc Hend). case_decide; [|done].
  destruct Hrun as (stray & r' & b' & Hs & Hr & _). eauto.
Qed.

(** A line that comes in two reads is not returned as it was sent: the byte that lies
    behind the first part in the buffer is put between the two. *)
Theorem read_until_splits_line fuel c l1 l2 b r r1
    (Hwf : wf_reader b) (Hsome : pos_ b < cap_ b) (Hcap : cap_ b < DEFAULT_BUFFER_SIZE)
    (Hc : c ∉ buffered b) (Hc1 : c ∉ l1)
    (Hread : reader_read DEFAULT_BUFFER_SIZE r = (Done (Value (l1 ++ (c :: l2))), r1)) :
  exists stray b', buffer_ b !! cap_ b = Some stray /\
    BufferReadExt_read_until (S (S fuel)) c (r, b) =
      (Done (Some (Value (buffered b ++ [stray] ++ l1 ++ [c]))), (r1, b')) /\ buffered b' = l2.
Proof.
  destruct (emptied_reader b Hwf) as [Hwf2 Hb2].
  pose proof (read_until_miss (S fuel) c [] b r r b (fill_buffered b r Hwf ltac:(lia)) Hwf Hsome Hc) as Hmiss.
  rewrite decide_True in Hmiss by done. destruct Hmiss as (stray & Hstray & Hrun).
  destruct (fill_run _ r Hwf2) as (r' & b3 & Hf & Hwf3 & _ & _ & _).
  assert (r' = r1 /\ buffered b3 = l1 ++ (c :: l2)) as [-> Hb3].
  { destruct Hwf as [Hs Hp Hcp].
    destruct (read_takes DEFAULT_BUFFER_SIZE r) as (bytes & r2 & Hr & Hlen & _); [apply buffer_size_bounds|].
    rewrite Hread in Hr. injection Hr as <- <-.
    revert Hf. unfold BufferReader_fill_buffer, get_reader, set_reader. mred. cbn [fst snd pos_ cap_ buffer_].
    rewrite decide_True by done. cbn [fst snd]. rewrite Hs, Hread. cbn [fst snd]. intros [= _ _ <- <-]. split; [done|].
    unfold buffered. cbn. rewrite Nat.sub_0_r, drop_0. by apply take_app_length. }
  destruct (read_until_hit fuel c (buffered b ++ [stray]) l1 l2 _ r r1 b3 Hf Hwf3 Hb3 Hc1)
    as (b' & Hrun' & _ & Hb' & _).
  exists stray, b'. split_and!; [done| |done]. unfold BufferReadExt_read_until. rewrite Hrun. cbn [app].
  rewrite Hrun'. by rewrite <- !(assoc (++)).
Qed.
End Reading.

(** ** Writing *)
Section Writing.
Context {W : Type} `{StreamWriter W}.

Lemma write_all_loop_run fuel buffer total w :
  total <= length buffer ->
  exists res w' n, WriteExt_write_all_loop fuel buffer total w = (Done res, w') /\
    total <= n <= length buffer /\
    sink w' = sink w ++ take (n - total) (drop total buffer) /\
    match res with
    | None => True
    | Some (Value _) => n = length buffer
    | Some (Unexpected e) => retryable e = false
    end.
Proof.
  revert total w. induction fuel as [|fuel IH]; intros total w Hle;
    cbn [WriteExt_write_all_loop]; case_decide as Heq.
  1,3: exists (Some (Value tt)), w, total; rewrite Nat.sub_diag, take_0, app_nil_r;
    split_and!; [done|lia|lia|done|lia].
  { exists None, w, total. rewrite Nat.sub_diag, take_0, app_nil_r. split_and!; [done|lia|lia|done|done]. }
  destruct (write_appends (drop total buffer) w) as (res & w1 & Hw & Hres).
  rewrite (bind_done _ _ _ _ _ Hw). destruct res as [n|e].
  - destruct Hres as [Hn Hs]. rewrite length_drop in Hn.
    destruct (IH (total + n) w1) as (res & w' & m & Hrun & Hm & Hs' & Hr); [lia|].
    exists res, w', m. split_and!; [done|lia|lia| |done].
    rewrite Hs', Hs, <- (assoc (++)). f_equal.
    replace (m - total) with (n + (m - (total + n))) by lia.
    by rewrite <- take_take_drop, drop_drop.
  - destruct (retryable e) eqn:He.
    + destruct (IH total w1) as (res & w' & m & Hrun & Hm & Hs' & Hr); [lia|].
      exists res, w', m. rewrite Hs', Hres. split_and!; [done|lia|lia|done|done].
    + exists (Some (Unexpected e)), w1, total. rewrite Nat.sub_diag, take_0, app_nil_r.
      split_and!; [done|lia|lia|done|done].
Qed.

(** Every write of a nonempty range succeeds and takes a byte of it. *)
Definition makes_progress : Prop := forall bytes (w : W), bytes <> [] ->
  exists n w', 0 < n /\ writer_write bytes w = (Done (Value n), w').

Lemma write_all_run fuel buffer w :
  makes_progress -> length buffer <= fuel ->
  exists w', WriteExt_write_all fuel buffer w = (Done (Some (Value tt)), w') /\
    sink w' = sink w ++ buffer.
Proof.
  intros Hprog Hfuel.
  assert (forall total w, total <= length buffer -> length buffer - total <= fuel ->
    exists w', WriteExt_write_all_loop fuel buffer total w = (Done (Some (Value tt)), w')) as Hgo.
  { clear w Hfuel. induction fuel as [|fuel IH]; intros total w Hle Hf;
      cbn [WriteExt_write_all_loop]; case_decide as Heq; [by eexists|lia|by eexists|].
    destruct (write_appends (drop total buffer) w) as (res & w1 & Hw & Hres).
    destruct (Hprog (drop total buffer) w) as (n & w2 & Hn & Hw2).
    { intros E. apply (f_equal length) in E. rewrite length_drop in E. cbn in E. lia. }
    rewrite Hw in Hw2. injection Hw2 as -> ->. rewrite length_drop in Hres.
    rewrite (bind_done _ _ _ _ _ Hw). apply IH; lia. }
  destruct (Hgo 0 w) as (w' & Hrun); [lia|lia|]. exists w'. split; [done|].
  destruct (write_all_loop_run fuel buffer 0 w) as (res & w2 & n & Hrun' & Hn & Hs & Hr); [lia|].
  rewrite Hrun in Hrun'. injection Hrun' as <- <-. rewrite Hs, Hr, Nat.sub_0_r, drop_0.
  by rewrite take_ge.
Qed.

(** What every write preserves, [write_all] preserves. *)
Lemma write_all_preserves (I : W -> Prop) fuel buffer w :
  (forall bytes w, I w -> I (snd (writer_write bytes w))) -> I w ->
  I (snd (WriteExt_write_all fuel buffer w)).
Proof.
  intros Hstep. unfold WriteExt_write_all. generalize 0 as total. revert w.
  induction fuel as [|fuel IH]; intros w total Hw; cbn [WriteExt_write_all_loop];
    case_decide; try done.
  specialize (Hstep (drop total buffer) w Hw). unfold bind.
  destruct (writer_write (drop total buffer) w) as [[[n|e]|e|] w'];
    cbn [snd] in Hstep; [by apply IH| |done|done].
  destruct (retryable e); [by apply IH|done].
Qed.

(** C23.  [write_all] writes each byte of the buffer once and in order: when it
    succeeds the sink has gained exactly the buffer, when it fails, with an
    error that is not one of those it retries, exactly a prefix of it; and if
    every write of a nonempty range makes progress, as many writes as the
    buffer has bytes are enough. *)
Theorem write_all_complete fuel buffer w :
  (exists res w' n, WriteExt_write_all fuel buffer w = (Done res, w') /\
     sink w' = sink w ++ take n buffer /\
     match res with
     | None => True
     | Some (Value _) => sink w' = sink w ++ buffer
     | Some (Unexpected e) => retryable e = false
     end) /\
  ((forall bytes w, bytes <> [] -> exists n w', 0 < n /\
      writer_write bytes w = (Done (Value n), w')) ->
   length buffer <= fuel ->
   exists w', WriteExt_write_all fuel buffer w = (Done (Some (Value tt)), w')).
Proof.
  split.
  - destruct (write_all_loop_run fuel buffer 0 w) as (res & w' & n & Hrun & Hn & Hs & Hr); [lia|].
    rewrite Nat.sub_0_r, drop_0 in Hs. exists res, w', n. split_and!; [done|done|].
    destruct res as [[|]|]; [|done|done]. rewrite Hs, Hr. by rewrite take_ge.
  - intros Hprog Hfuel. destruct (write_all_run fuel buffer w Hprog Hfuel) as (w' & Hrun & _).
    by exists w'.
Qed.
End Writing.
