(* ===== verification/IOWitness.v ===== *)
(** A reader and a writer over lists, and concrete runs of the theorems on
    buffered reading and complete writing. *)
From stdpp Require Import base list sets.
From Stdlib Require Import ZArith Lia.
From S2P Require Import Prelude Errors BufferIO BufferIOSpec.

(** A reader that gives at most three bytes at a time. *)
Definition slow_read (n : nat) : M (list Z) (Result (list Z)) :=
  fun l => (Done (Value (take (Nat.min n 3) l)), drop (Nat.min n 3) l).

#[export] Instance slow_readable : Readable (list Z) := slow_read.

#[export] Program Instance slow_stream : StreamReader (list Z) := {
  stream := fun l => l;
}.
Next Obligation.
  intros n l Hn. exists (take (Nat.min n 3) l), (drop (Nat.min n 3) l). split_and!.
  - reflexivity.
  - rewrite length_take. lia.
  - by rewrite take_drop.
  - intros E. apply (f_equal length) in E. rewrite length_take in E. cbn in E.
    apply nil_length_inv. lia.
Qed.

(** A writer that takes at most two bytes at a time. *)
Definition slow_write (bytes : list Z) : M (list Z) (Result nat) :=
  fun w => (Done (Value (Nat.min 2 (length bytes))), w ++ take (Nat.min 2 (length bytes)) bytes).

#[export] Instance slow_writable : Writable (list Z) := slow_write.

#[export] Program Instance slow_sink : StreamWriter (list Z) := {
  sink := fun w => w;
}.
Next Obligation.
  intros bytes w. eexists _, _. split; [reflexivity|]. split; [apply Nat.le_min_r|done].
Qed.

(** The buffer after reading 1 2 3 4 5, two of them consumed. *)
Definition partial_reader : BufferReader :=
  mkBufferReader ([1; 2; 3; 4; 5]%Z ++ replicate (DEFAULT_BUFFER_SIZE - 5) 0%Z) 2 5.

Lemma partial_reader_wf : wf_reader partial_reader.
Proof. constructor; [reflexivity|cbn; lia|apply Nat.leb_le; reflexivity]. Qed.

Lemma read_to_end_complete_witness :
  exists r' b', BufferReadExt_read_to_end 9 ([6; 7; 8; 9]%Z, partial_reader) =
    (Done (Some (Value [3; 4; 5; 6; 7; 8; 9]%Z)), (r', b')) /\ r' = [].
Proof.
  exact (read_to_end_complete 9 partial_reader [6; 7; 8; 9]%Z partial_reader_wf
    ltac:(apply Nat.ltb_lt; reflexivity)).
Defined.

Lemma buffered_read_next_witness :
  exists bytes r' b', BufferReader_read 2 ([6]%Z, partial_reader) = (Done (Value bytes), (r', b')) /\
    [3; 4; 5; 6]%Z = bytes ++ buffered b' ++ r'.
Proof.
  destruct (buffered_read_next 2 partial_reader [6]%Z partial_reader_wf ltac:(lia)
    ltac:(left; apply Nat.leb_le; reflexivity)) as (bytes & r' & b' & Hrun & _ & Hst & _).
  exists bytes, r', b'. split; [exact Hrun|exact Hst].
Defined.

(** Asking for four bytes yields 1 2 3, which were read before, and loses 4 5. *)
Lemma buffered_read_repeats_old_bytes_witness :
  exists b', BufferReader_read 4 ([6]%Z, partial_reader) =
    (Done (Value [1; 2; 3]%Z), ([6]%Z, b')) /\ buffered b' = [].
Proof.
  exact (buffered_read_repeats_old_bytes 4 partial_reader [6]%Z partial_reader_wf
    ltac:(apply Nat.ltb_lt; reflexivity) ltac:(apply Nat.ltb_lt; reflexivity)).
Defined.

Lemma read_until_delimiter_witness :
  exists b', BufferReadExt_read_until 1 4 ([6]%Z, partial_reader) =
    (Done (Some (Value [3; 4]%Z)), ([6]%Z, b')) /\ buffered b' = [5]%Z.
Proof.
  destruct (read_until_delimiter 0 4%Z [3]%Z [5]%Z partial_reader [6]%Z partial_reader_wf
    ltac:(reflexivity) ltac:(rewrite list_elem_of_singleton; lia)) as (b' & Hrun & _ & Hb).
  exists b'. split; [exact Hrun|exact Hb].
Defined.

(** The delimiter 9 does not occur: a stray 0 is appended. *)
Lemma read_until_reads_past_end_witness :
  exists r' b', BufferReadExt_read_until 2 9 ([], partial_reader) =
    (Done (Some (Value [3; 4; 5; 0]%Z)), (r', b')).
Proof.
  pose proof (read_until_reads_past_end 0 9%Z partial_reader [] partial_reader_wf
    ltac:(apply Nat.ltb_lt; reflexivity)
    ltac:(change (buffered partial_reader) with [3; 4; 5]%Z; set_solver) eq_refl) as H.
  rewrite decide_True in H by (apply Nat.ltb_lt; reflexivity).
  destruct H as (stray & r' & b' & Hs & Hrun).
  assert (stray = 0%Z) as -> by (injection Hs as <-; reflexivity).
  exists r', b'. exact Hrun.
Defined.

Lemma write_all_complete_witness :
  exists w', WriteExt_write_all 5 [1; 2; 3; 4; 5]%Z ([] : list Z) = (Done (Some (Value tt)), w').
Proof.
  refine (proj2 (write_all_complete 5 [1; 2; 3; 4; 5]%Z ([] : list Z)) _ (le_n 5)).
  intros bytes w Hne. exists (Nat.min 2 (length bytes)). eexists. split; [|reflexivity].
  destruct bytes; [done|cbn; lia].
Defined.
