(* ===== verification/Epoll.v ===== *)
(** The epoll registry: [include/xyco/io/epoll/registry.ccm],
    [src/io/epoll/registry.cc].

    The kernel's answers to [epoll_ctl] and [epoll_wait] are the registry's
    environment. *)
From stdpp Require Import base gmap list sets strings pretty.
From Stdlib Require Import ZArith Lia.
From S2P Require Import Prelude Errors Events.

(** ** [IoExtra::State]: a [uint8_t] of flags *)

Definition Registered : Z := 1.
Definition PendingBit : Z := 2.
Definition ReadableBit : Z := 4.
Definition WritableBit : Z := 8.
Definition ErrorBit : Z := 16.

(** [set_field<F, flag>] and [get_field<F>]. *)
Definition State_set_field (F : Z) (flag : bool) (field_ : Z) : Z :=
  if flag then to_uint8 (Z.lor field_ F) else to_uint8 (Z.land field_ (Z.lnot F)).
Definition State_get_field (F : Z) (field_ : Z) : bool := negb (Z.land field_ F =? 0)%Z.

(** ** The interface of the kernel *)

Definition EPOLLIN : Z := 1.
Definition EPOLLPRI : Z := 2.
Definition EPOLLOUT : Z := 4.
Definition EPOLLERR : Z := 8.
Definition EPOLLHUP : Z := 16.
Definition EPOLLRDHUP : Z := 8192.
Definition EPOLLONESHOT : Z := 1073741824.

(** The results of [epoll_ctl] and [epoll_wait] with the thread's [errno] after
    them, and the array [epoll_wait] filled: the event bits and [data.ptr]. *)
Record EpollEnv : Type := mkEpollEnv {
  ctl_return : Z;
  ctl_errno : Z;
  wait_return : Z;
  wait_errno : Z;
  wait_events : list (Z * eid);
}.

(** [to_sys]. *)
Definition to_sys (interest : Interest) : Z :=
  match interest with
  | InterestRead => Z.lor (Z.lor EPOLLIN EPOLLRDHUP) EPOLLONESHOT
  | InterestWrite => Z.lor (Z.lor EPOLLOUT EPOLLRDHUP) EPOLLONESHOT
  | InterestAll => Z.lor (Z.lor (Z.lor EPOLLIN EPOLLOUT) EPOLLRDHUP) EPOLLONESHOT
  end.

(** [to_state]; [events] is a [uint32_t]. *)
Definition to_state (events : Z) : Z :=
  let has F := State_get_field F events in
  let state := State_set_field Registered true 0 in
  if has EPOLLERR || has EPOLLHUP || has EPOLLRDHUP || has EPOLLPRI
  then State_set_field ErrorBit true state
  else
    let state := if has EPOLLIN then State_set_field ReadableBit true state else state in
    let state := if has EPOLLOUT then State_set_field WritableBit true state else state in
    if State_get_field EPOLLIN (Z.lnot events) && State_get_field EPOLLOUT (Z.lnot events)
    then State_set_field PendingBit true state else state.

(** [IoExtra::IoExtra]. *)
Definition EpollExtra_new (interest : Interest) (fd : Z) : EpollExtra := mkEpollExtra 0 interest fd.

(** [std::formatter<IoExtra>::format]. *)
Definition replace_last (s : string) : string :=
  String.append (String.substring 0 (String.length s - 1) s) "]".

Definition EpollExtra_format (x : EpollExtra) : string :=
  let flag F (name : string) := if State_get_field F (ep_state_ x) then name else ""%string in
  let state := replace_last ("[" +:+ flag Registered "Registered," +:+ flag PendingBit "Pending,"
                 +:+ flag ReadableBit "Readable," +:+ flag WritableBit "Writable,"
                 +:+ flag ErrorBit "Error,") in
  let interest := match interest_ x with
                  | InterestRead => "Read" | InterestWrite => "Write" | InterestAll => "All"
                  end in
  "IoExtra{state_=" +:+ state +:+ ", interest_=" +:+ interest +:+ ", fd_=" +:+ pretty (ep_fd_ x) +:+ "}".

(** ** [IoRegistryImpl] *)

(** [MAX_TIMEOUT], in milliseconds, and [MAX_EVENTS]. *)
Definition EPOLL_MAX_TIMEOUT : Z := 1.
Definition EPOLL_MAX_EVENTS : Z := 10000.

(** The calls the registry makes on [epfd_]: [epoll_ctl] with the operation, the
    descriptor and the [epoll_event] (its bits and [data.ptr]), and [epoll_wait]
    with its capacity and timeout; [close] in the destructor. *)
Inductive CtlOp : Type := CtlAdd | CtlMod | CtlDel.

Inductive Syscall : Type :=
| epoll_ctl (op : CtlOp) (fd : Z) (events : Z) (ptr : eid)
| epoll_wait (maxevents : Z) (timeout : Z)
| close_epfd.

(** [registered_events_], and the calls made on [epfd_], in order. *)
Record EpollRegistry : Type := mkEpollRegistry {
  ep_registered_events_ : list eid;
  ep_syscalls : list Syscall;
}.

Definition syscall (c : Syscall) (r : EpollRegistry) : EpollRegistry :=
  mkEpollRegistry (ep_registered_events_ r) (ep_syscalls r ++ [c]).

Definition set_registered (l : list eid) (r : EpollRegistry) : EpollRegistry :=
  mkEpollRegistry l (ep_syscalls r).

(** The constructor; [epfd] is the result of [epoll_create]. *)
Definition EpollRegistry_new {S} (epfd : Z) : M S EpollRegistry :=
  if (epfd =? -1)%Z then panic else ret (mkEpollRegistry [] []).

(** The destructor. *)
Definition EpollRegistry_dtor (r : EpollRegistry) : EpollRegistry := syscall close_epfd r.

Definition set_epoll_state (e : eid) (x : EpollExtra) (field : Z) (es : EventStore) : EventStore :=
  alter (set_extra (EEpoll (mkEpollExtra field (interest_ x) (ep_fd_ x)))) e es.

(** [erase(find(begin, end, event))]: erasing [end()] is undefined. *)
Definition erase_registered (e : eid) (l : list eid) : outcome (list eid) :=
  if decide (e ∈ l) then Done (erase_first e l) else Undef.

(** [registered_events_.erase(find(event))] of the failure branches. *)
Definition drop_registered (event : eid) : M (EpollRegistry * EventStore) unit :=
  let! (r, es) := get in
  match erase_registered event (ep_registered_events_ r) with
  | Done l => put (set_registered l r, es)
  | _ => undef
  end.

Definition Epoll_Register (env : EpollEnv) (event : eid) : M (EpollRegistry * EventStore) (Result unit) :=
  let! (r, es) := get in
  let! x := deref (epoll_extra es event) in
  let r := set_registered (ep_registered_events_ r ++ [event]) r in
  let es := set_epoll_state event x (State_set_field Registered true (ep_state_ x)) es in
  put (syscall (epoll_ctl CtlAdd (ep_fd_ x) (to_sys (interest_ x)) event) r, es) ;;;
  let result := into_sys_result (ctl_errno env) (ctl_return env) in
  (if has_value result then ret tt else drop_registered event) ;;;
  ret (transform (fun _ => tt) result).

Definition Epoll_reregister (env : EpollEnv) (event : eid) : M (EpollRegistry * EventStore) (Result unit) :=
  let! (r, es) := get in
  let! x := deref (epoll_extra es event) in
  let r := set_registered (ep_registered_events_ r ++ [event]) r in
  put (syscall (epoll_ctl CtlMod (ep_fd_ x) (to_sys (interest_ x)) event) r, es) ;;;
  let result := into_sys_result (ctl_errno env) (ctl_return env) in
  (if has_value result then ret tt else drop_registered event) ;;;
  ret (transform (fun _ => tt) result).

Definition Epoll_deregister (env : EpollEnv) (event : eid) : M (EpollRegistry * EventStore) (Result unit) :=
  let! (r, es) := get in
  let! x := deref (epoll_extra es event) in
  let r := syscall (epoll_ctl CtlDel (ep_fd_ x) (to_sys (interest_ x)) event) r in
  let result := into_sys_result (ctl_errno env) (ctl_return env) in
  put (set_registered (erase_first event (ep_registered_events_ r)) r,
       set_epoll_state event x (State_set_field Registered false (ep_state_ x)) es) ;;;
  ret (transform (fun _ => tt) result).

(** The loop over the events [epoll_wait] returned. *)
Fixpoint Epoll_select_loop (ready : list (Z * eid))
    : M (EpollRegistry * EventStore * list eid) unit :=
  match ready with
  | [] => ret tt
  | (bits, e) :: ready' =>
      let! s := get in
      let '(r, es, events) := s in
      if decide (e ∈ ep_registered_events_ r) then
        let! x := deref (epoll_extra es e) in
        put (set_registered (erase_first e (ep_registered_events_ r)) r,
             set_epoll_state e x (to_state bits) es, events ++ [e]) ;;;
        Epoll_select_loop ready'
      else undef
  end.

Definition Epoll_select (env : EpollEnv) (timeout : Z)
    : M (EpollRegistry * EventStore * list eid) (Result unit) :=
  let! s := get in
  let '(r, es, events) := s in
  put (syscall (epoll_wait EPOLL_MAX_EVENTS (Z.min timeout EPOLL_MAX_TIMEOUT)) r, es, events) ;;;
  match into_sys_result (wait_errno env) (wait_return env) with
  | Unexpected err =>
      if (errno_ err =? EINTR)%Z then ret (Value tt) else ret (Unexpected err)
  | Value ready_len =>
      Epoll_select_loop (take (Z.to_nat ready_len) (wait_events env)) ;;; ret (Value tt)
  end.

#[export] Instance EpollRegistry_ops : Registry EpollRegistry EpollEnv := {
  Register := Epoll_Register;
  reregister := Epoll_reregister;
  deregister := Epoll_deregister;
  select := Epoll_select;
}.

(** ** Lemmas *)

(** The events of a completed wait. *)
Definition ready_events (env : EpollEnv) : list (Z * eid) :=
  match into_sys_result (wait_errno env) (wait_return env) with
  | Value n => take (Z.to_nat n) (wait_events env)
  | Unexpected _ => []
  end.

Lemma set_epoll_state_future e x f es e' :
  future_of (set_epoll_state e x f es) e' = future_of es e'.
Proof. apply future_of_set_extra. Qed.

Lemma set_epoll_state_ne e x f es e' :
  e' <> e -> set_epoll_state e x f es !! e' = es !! e'.
Proof. intros Hne. unfold set_epoll_state. by rewrite lookup_alter_ne. Qed.

Lemma epoll_extra_set_ne e x f es e' :
  e' <> e -> epoll_extra (set_epoll_state e x f es) e' = epoll_extra es e'.
Proof. intros Hne. unfold epoll_extra. by rewrite set_epoll_state_ne. Qed.

Lemma epoll_extra_set_eq e x f es :
  epoll_extra es e = Some x ->
  epoll_extra (set_epoll_state e x f es) e = Some (mkEpollExtra f (interest_ x) (ep_fd_ x)).
Proof.
  unfold epoll_extra, set_epoll_state. rewrite lookup_alter_eq.
  by destruct (es !! e) as [[? [[]|]]|].
Qed.

Lemma select_loop_run ready r es events :
  NoDup ready.*2 ->
  (forall e, e ∈ ready.*2 -> e ∈ ep_registered_events_ r /\ is_Some (epoll_extra es e)) ->
  exists r' es', Epoll_select_loop ready (r, es, events) =
      (Done tt, (r', es', events ++ ready.*2)) /\
    ep_syscalls r' = ep_syscalls r /\
    ep_registered_events_ r ≡ₚ ready.*2 ++ ep_registered_events_ r' /\
    (forall e, future_of es' e = future_of es e) /\
    (forall e, e ∉ ready.*2 -> es' !! e = es !! e) /\
    (forall bits e, (bits, e) ∈ ready -> exists x, epoll_extra es e = Some x /\
       epoll_extra es' e = Some (mkEpollExtra (to_state bits) (interest_ x) (ep_fd_ x))).
Proof.
  revert r es events. induction ready as [|[bits e] ready IH]; intros r es events Hnd Hin.
  { exists r, es. cbn. rewrite app_nil_r. split_and!; try done.
    intros ? ? Hx. by apply elem_of_nil in Hx. }
  cbn in Hnd. apply NoDup_cons in Hnd as [Hne Hnd].
  destruct (Hin e) as [Hreg [x Hx]]; [by left|].
  set (es1 := set_epoll_state e x (to_state bits) es).
  destruct (IH (set_registered (erase_first e (ep_registered_events_ r)) r) es1 (events ++ [e]))
    as (r' & es' & Hrun & Hsys & Hperm & Hfut & Hfr & Hst); [done| |].
  { intros e' He'. assert (e' <> e) as Hd by (intros ->; done).
    destruct (Hin e') as [Hr' Hx']; [by right|]. cbn. split.
    - rewrite (erase_first_perm e _ Hreg) in Hr'. set_solver.
    - unfold es1. by rewrite epoll_extra_set_ne. }
  exists r', es'. split_and!.
  - cbn [Epoll_select_loop]. mred. rewrite decide_True by done. rewrite Hx.
    fold es1. rewrite Hrun. by rewrite <- (assoc (++)).
  - by rewrite Hsys.
  - cbn. rewrite (erase_first_perm e _ Hreg). by rewrite Hperm.
  - intros e'. rewrite Hfut. apply set_epoll_state_future.
  - intros e' He'. cbn in He'. apply not_elem_of_cons in He' as [He1 He2].
    rewrite Hfr by done. by apply set_epoll_state_ne.
  - intros b e' [[= -> ->]|Hin']%elem_of_cons.
    + exists x. split; [done|]. assert (epoll_extra es' e = epoll_extra es1 e) as ->.
      { unfold epoll_extra. by rewrite Hfr. }
      by apply epoll_extra_set_eq.
    + destruct (Hst b e' Hin') as (x' & Hx' & Hx''). exists x'. split; [|done].
      rewrite <- Hx'. symmetry. apply epoll_extra_set_ne. intros ->. apply Hne.
      apply list_elem_of_fmap. by exists (b, e).
Qed.

(** The kernel reports distinct events that are registered. *)
Definition epoll_ready (env : EpollEnv) (r : EpollRegistry) (es : EventStore) : Prop :=
  (wait_return env = -1 -> wait_errno env = EINTR)%Z /\
  (wait_return env <= Z.of_nat (length (wait_events env)))%Z /\
  NoDup (ready_events env).*2 /\
  (forall e, e ∈ (ready_events env).*2 ->
     e ∈ ep_registered_events_ r /\ is_Some (epoll_extra es e)).

Lemma epoll_extra_ext es es' e :
  extra_of es' e = extra_of es e -> epoll_extra es' e = epoll_extra es e.
Proof.
  unfold epoll_extra, extra_of.
  destruct (es' !! e) as [[f' [[]|]]|], (es !! e) as [[f [[]|]]|]; cbn; congruence.
Qed.

Lemma epoll_select_run env timeout r es evs :
  epoll_ready env r es -> exists r' es',
    Epoll_select env timeout (r, es, evs) =
      (Done (Value tt), (r', es', evs ++ (ready_events env).*2)) /\
    ep_syscalls r' = ep_syscalls r ++ [epoll_wait EPOLL_MAX_EVENTS (Z.min timeout EPOLL_MAX_TIMEOUT)] /\
    ep_registered_events_ r ≡ₚ (ready_events env).*2 ++ ep_registered_events_ r' /\
    (forall e, future_of es' e = future_of es e) /\
    (forall e, e ∉ (ready_events env).*2 -> es' !! e = es !! e) /\
    (forall bits e, (bits, e) ∈ ready_events env -> exists x, epoll_extra es e = Some x /\
       epoll_extra es' e = Some (mkEpollExtra (to_state bits) (interest_ x) (ep_fd_ x))).
Proof.
  intros (Hint & _ & Hnd & Hin).
  set (r1 := syscall (epoll_wait EPOLL_MAX_EVENTS (Z.min timeout EPOLL_MAX_TIMEOUT)) r).
  destruct (select_loop_run _ r1 es evs Hnd Hin) as (r' & es' & Hrun & Hsys & Hrest).
  exists r', es'. split; [|split; [exact Hsys|done]].
  unfold Epoll_select, ready_events in *. mred. fold r1.
  destruct (into_sys_result (wait_errno env) (wait_return env)) as [n|err] eqn:Hres.
  - by rewrite Hrun.
  - apply into_sys_result_error in Hres as [-> Hm]. cbn. rewrite (Hint Hm). cbn.
    cbn in Hrun. injection Hrun as <- <-. by rewrite app_nil_r.
Qed.

#[export] Program Instance EpollRegistry_laws : RegistryLaws EpollRegistry EpollEnv := {
  pending := ep_registered_events_;
  ready := epoll_ready;
}.
Next Obligation.
  intros env r es es' Hext (H1 & H2 & H3 & H4). split_and!; [done..|].
  intros e He. destruct (H4 e He) as [Hr Hx]. split; [done|].
  by rewrite (epoll_extra_ext es es') by auto.
Qed.
Next Obligation.
  intros env timeout r es evs Hr. destruct (epoll_select_run env timeout r es evs Hr)
    as (r' & es' & Hrun & _ & Hperm & Hfut & Hfr & _).
  exists r', es', (ready_events env).*2. split_and!; [done|done|done|].
  intros e He. apply Hfr. intros Hin. apply He. rewrite Hperm. set_solver.
Qed.

(** *** The flags *)

Lemma get_field_lnot F z : (exists n, 0 <= n /\ F = 2 ^ n)%Z ->
  State_get_field F (Z.lnot z) = negb (State_get_field F z).
Proof.
  intros (n & Hn & ->). unfold State_get_field.
  assert (forall y, (Z.land y (2 ^ n) =? 0) = negb (Z.testbit y n))%Z as Hbit.
  { intros y. destruct (Z.testbit y n) eqn:Hy; cbn.
    - apply Z.eqb_neq. intros Hz. apply (f_equal (fun v => Z.testbit v n)) in Hz.
      rewrite Z.land_spec, Z.pow2_bits_true, Hy, Z.bits_0 in Hz by done. done.
    - apply Z.eqb_eq. apply Z.bits_inj'. intros m Hm. rewrite Z.land_spec, Z.bits_0.
      destruct (Z.eq_dec m n) as [->|]; [by rewrite Hy|].
      rewrite Z.pow2_bits_false by lia. apply andb_false_r. }
  rewrite !Hbit, Z.lnot_spec by done. by destruct (Z.testbit z n).
Qed.

(** Whether a wait reported trouble on the descriptor. *)
Definition reports_error (events : Z) : bool :=
  State_get_field EPOLLERR events || State_get_field EPOLLHUP events
  || State_get_field EPOLLRDHUP events || State_get_field EPOLLPRI events.

Lemma to_state_flags events :
  let on F := State_get_field F (to_state events) in
  on Registered = true /\ on ErrorBit = reports_error events /\
  on ReadableBit = negb (reports_error events) && State_get_field EPOLLIN events /\
  on WritableBit = negb (reports_error events) && State_get_field EPOLLOUT events /\
  on PendingBit = negb (reports_error events) && negb (State_get_field EPOLLIN events)
                  && negb (State_get_field EPOLLOUT events).
Proof.
  cbv zeta. unfold to_state.
  rewrite !get_field_lnot by (first [by exists 0%Z | by exists 2%Z]).
  fold (reports_error events). destruct (reports_error events),
    (State_get_field EPOLLIN events), (State_get_field EPOLLOUT events); done.
Qed.

(** *** Registration *)

(** [Register] asks the kernel for the event's interest, with the event's
    address as the user data.  When the kernel accepts, the event is held at the
    end of the registered events; when it refuses, its error is returned and the
    events held are those of before.  In both cases no other event changes. *)
Theorem epoll_register_outcome env event r es x :
  epoll_extra es event = Some x ->
  event ∉ ep_registered_events_ r ->
  let call := epoll_ctl CtlAdd (ep_fd_ x) (to_sys (interest_ x)) event in
  let es' := set_epoll_state event x (State_set_field Registered true (ep_state_ x)) es in
  (ctl_return env <> -1 ->
     Register env event (r, es) =
       (Done (Value tt), (mkEpollRegistry (ep_registered_events_ r ++ [event])
                            (ep_syscalls r ++ [call]), es')) /\
     forall e, e <> event -> es' !! e = es !! e)%Z /\
  (ctl_return env = -1 ->
     Register env event (r, es) =
       (Done (Unexpected (from_sys_error (ctl_errno env))),
        (mkEpollRegistry (ep_registered_events_ r) (ep_syscalls r ++ [call]), es')))%Z.
Proof.
  intros Hx Hnin call es'. cbn [Register EpollRegistry_ops]. unfold Epoll_Register.
  split; intros Hret; [split; [|intros; by apply set_epoll_state_ne]|];
    mred; rewrite Hx; unfold into_sys_result.
  - by rewrite (proj2 (Z.eqb_neq _ _) Hret).
  - rewrite (proj2 (Z.eqb_eq _ _) Hret). cbn [has_value]. unfold drop_registered. mred.
    unfold erase_registered, syscall, set_registered. cbn [ep_registered_events_].
    rewrite decide_True by set_solver. by rewrite erase_first_app_snoc.
Qed.

(** C28.  A wait hands out exactly the events the kernel reported, in its order:
    they leave the registry, the others stay.  An event's state becomes the
    translation of the reported bits: [Error] when one of [EPOLLERR],
    [EPOLLHUP], [EPOLLRDHUP] and [EPOLLPRI] is set, else [Readable] and
    [Writable] as reported, and [Pending] when neither is.  The wait never
    exceeds [MAX_TIMEOUT]. *)
Theorem epoll_select_reports env timeout r es evs :
  epoll_ready env r es ->
  exists r' es', select env timeout (r, es, evs) =
      (Done (Value tt), (r', es', evs ++ (ready_events env).*2)) /\
    ep_registered_events_ r ≡ₚ (ready_events env).*2 ++ ep_registered_events_ r' /\
    ep_syscalls r' = ep_syscalls r ++ [epoll_wait EPOLL_MAX_EVENTS (Z.min timeout EPOLL_MAX_TIMEOUT)] /\
    forall bits e, (bits, e) ∈ ready_events env -> exists x, epoll_extra es' e = Some x /\
      State_get_field ErrorBit (ep_state_ x) = reports_error bits /\
      (reports_error bits = false ->
        State_get_field ReadableBit (ep_state_ x) = State_get_field EPOLLIN bits /\
        State_get_field WritableBit (ep_state_ x) = State_get_field EPOLLOUT bits /\
        State_get_field PendingBit (ep_state_ x) =
          negb (State_get_field EPOLLIN bits || State_get_field EPOLLOUT bits)).
Proof.
  intros Hr. destruct (epoll_select_run env timeout r es evs Hr)
    as (r' & es' & Hrun & Hsys & Hperm & _ & _ & Hst).
  exists r', es'. split_and!; [done..|]. intros bits e Hin.
  destruct (Hst bits e Hin) as (x & _ & Hx). eexists. split; [done|]. cbn [ep_state_].
  destruct (to_state_flags bits) as (_ & -> & -> & -> & ->). split; [done|]. intros ->.
  by destruct (State_get_field EPOLLIN bits), (State_get_field EPOLLOUT bits).
Qed.
