(* ===== verification/EpollRace.v ===== *)
(** The epoll registry shared by the threads of a runtime ([IoRegistry] is a
    [GlobalRegistry]): its operations interleave at their critical sections and
    system calls ([src/io/epoll/registry.cc]). *)
From stdpp Require Import base gmap list sets relations.
From Stdlib Require Import ZArith Lia.
From S2P Require Import Prelude Errors Events.

Module EpollRace.

(** [registered_events_]; the events that were pushed to it and are not yet given to
    [epoll_ctl]; those the kernel watches, each for one notification ([EPOLLONESHOT]);
    those in the array [epoll_events] that the loop of [select] has still to look up;
    those that [select] handed out; whether [find_if] gave [end()]. *)
Record RaceState : Type := mkRaceState {
  rs_registered_events_ : list eid;
  rs_arming : list eid;
  rs_armed : list eid;
  rs_fetched : list eid;
  rs_selected : list eid;
  rs_end_dereferenced : bool;
}.

Definition race_start : RaceState := mkRaceState [] [] [] [] [] false.

(** The kernel watches an event once, however often it is armed. *)
Definition arm_once (e : eid) (armed : list eid) : list eid :=
  if decide (e ∈ armed) then armed else e :: armed.

(** [deregisters] is whether any thread calls [deregister].  [select_mutex_] lets one
    [select] run at a time.  An event may be pushed while it is still registered, as a
    read does after one that was cancelled. *)
Inductive epoll_race_step (deregisters : bool) : RaceState -> RaceState -> Prop :=
| race_push s e :
    epoll_race_step deregisters s (mkRaceState (rs_registered_events_ s ++ [e]) (e :: rs_arming s)
      (rs_armed s) (rs_fetched s) (rs_selected s) (rs_end_dereferenced s))
| race_ctl s e :
    e ∈ rs_arming s ->
    epoll_race_step deregisters s (mkRaceState (rs_registered_events_ s) (erase_first e (rs_arming s))
      (arm_once e (rs_armed s)) (rs_fetched s) (rs_selected s) (rs_end_dereferenced s))
| race_ctl_fails s e :
    e ∈ rs_arming s ->
    epoll_race_step deregisters s (mkRaceState (erase_first e (rs_registered_events_ s))
      (erase_first e (rs_arming s)) (rs_armed s) (rs_fetched s) (rs_selected s)
      (rs_end_dereferenced s))
| race_wait s ready rest :
    rs_fetched s = [] -> rs_armed s ≡ₚ ready ++ rest ->
    epoll_race_step deregisters s (mkRaceState (rs_registered_events_ s) (rs_arming s) rest ready
      (rs_selected s) (rs_end_dereferenced s))
| race_take s e fetched :
    rs_fetched s = e :: fetched -> e ∈ rs_registered_events_ s ->
    epoll_race_step deregisters s (mkRaceState (erase_first e (rs_registered_events_ s)) (rs_arming s)
      (rs_armed s) fetched (rs_selected s ++ [e]) (rs_end_dereferenced s))
| race_take_end s e fetched :
    rs_fetched s = e :: fetched -> e ∉ rs_registered_events_ s ->
    epoll_race_step deregisters s (mkRaceState (rs_registered_events_ s) (rs_arming s)
      (rs_armed s) fetched (rs_selected s) true)
| race_ctl_del s e :
    deregisters = true ->
    epoll_race_step deregisters s (mkRaceState (rs_registered_events_ s) (rs_arming s)
      (erase_first e (rs_armed s)) (rs_fetched s) (rs_selected s) (rs_end_dereferenced s))
| race_erase s e :
    deregisters = true ->
    epoll_race_step deregisters s (mkRaceState (erase_first e (rs_registered_events_ s)) (rs_arming s)
      (rs_armed s) (rs_fetched s) (rs_selected s) (rs_end_dereferenced s)).

(** While nobody deregisters, the registered events are those on their way to the
    kernel, those it watches, those it has reported, and spare entries of events that
    were armed again before they were reported. *)
Definition race_inv (s : RaceState) : Prop :=
  (exists spare, rs_registered_events_ s ≡ₚ rs_arming s ++ rs_armed s ++ rs_fetched s ++ spare) /\
  rs_end_dereferenced s = false.

Lemma race_inv_step s s' : race_inv s -> epoll_race_step false s s' -> race_inv s'.
Proof.
  intros [[spare Hreg] Hend] Hstep.
  destruct Hstep as [s e|s e He|s e He|s ready rest Hf Ha|s e fetched Hf He|s e fetched Hf He
    |s e Hd|s e Hd]; try done; split; cbn; try done.
  - exists spare. rewrite Hreg, (comm (++) _ [e]). done.
  - rewrite (erase_first_perm e (rs_arming s) He) in Hreg. unfold arm_once. case_decide.
    + exists (e :: spare). rewrite Hreg. cbn. by rewrite !(assoc (++)), Permutation_middle.
    + exists spare. rewrite Hreg. cbn. by rewrite Permutation_middle.
  - exists spare. rewrite (erase_first_perm e (rs_arming s) He) in Hreg. cbn in Hreg.
    assert (e ∈ rs_registered_events_ s) as Hin by (rewrite Hreg; by left).
    rewrite (erase_first_perm e _ Hin) in Hreg. by apply Permutation_cons_inv in Hreg.
  - exists spare. rewrite Hreg, Hf, Ha. cbn. rewrite <- (comm (++) rest ready).
    by rewrite <- !(assoc (++)).
  - exists spare. rewrite Hf in Hreg. rewrite (erase_first_perm e _ He), !(assoc (++)) in Hreg.
    rewrite <- (assoc (++)) in Hreg. cbn in Hreg.
    rewrite <- Permutation_middle in Hreg. apply Permutation_cons_inv in Hreg.
    by rewrite Hreg, <- (assoc (++)).
  - exfalso. apply He. rewrite Hreg, Hf. set_solver.
  - exfalso. apply He. rewrite Hreg, Hf. set_solver.
Qed.

(** C30.  However the threads' calls of [Register], [reregister] and [select]
    interleave, the loop of [select] finds every event the kernel reports, and there is
    an entry of [registered_events_] of its own for every event on its way to the
    kernel, every one it watches and every one it has reported. *)
Theorem epoll_select_always_finds s :
  rtc (epoll_race_step false) race_start s ->
  rs_end_dereferenced s = false /\ (forall e, e ∈ rs_fetched s -> e ∈ rs_registered_events_ s) /\
  rs_arming s ++ rs_armed s ++ rs_fetched s ⊆+ rs_registered_events_ s.
Proof.
  intros Hs. assert (race_inv s) as [[spare Hreg] Hend].
  { eapply rtc_invariant; [exact race_inv_step| |exact Hs]. split; [by exists []|done]. }
  split_and!; [done|intros e He; rewrite Hreg; set_solver|].
  rewrite Hreg, !(assoc (++)). apply submseteq_inserts_r. done.
Qed.

(** A [deregister] between [epoll_wait] and the lookup, as a stream that is destroyed
    on another thread makes it, lets [select] dereference [end()]. *)
Theorem epoll_deregister_race (e : eid) :
  exists s, rtc (epoll_race_step true) race_start s /\ rs_end_dereferenced s = true.
Proof.
  eexists. split.
  - eapply rtc_l; [apply (race_push _ _ e)|]. cbn.
    eapply rtc_l; [apply (race_ctl _ _ e); cbn; by left|]. cbn. rewrite decide_True by done.
    eapply rtc_l; [by apply (race_wait _ _ [e] [])|]. cbn.
    eapply rtc_l; [by apply (race_ctl_del _ _ e)|]. cbn.
    eapply rtc_l; [by apply (race_erase _ _ e)|]. cbn. rewrite decide_True by done.
    eapply rtc_once, (race_take_end _ _ e []); cbn; [done|apply not_elem_of_nil].
  - done.
Qed.
End EpollRace.
