(* ===== verification/Uring.v ===== *)
(** The io_uring registry: [include/xyco/io/io_uring/registry.ccm],
    [src/io/io_uring/registry.cc].

    liburing is a parameter: the class [Uring] has the calls the registry makes
    and [UringLaws] what their manual pages promise. *)
From stdpp Require Import base gmap list sets strings pretty.
From Stdlib Require Import ZArith Lia.
From S2P Require Import Prelude Errors Events Epoll.

(** ** [IoExtra] *)

(** [State::Completed]; [State::Registered] and the field accessors are those of
    the epoll registry, declared again with the same bodies. *)
Definition Completed : Z := 2.

Definition Shutdown_format (s : Shutdown) : string :=
  let shutdown_type := match s with
                       | ShutRead => "Read" | ShutWrite => "Write" | ShutAll => "All"
                       end in
  "Shutdown{" +:+ shutdown_type +:+ "}".

(** The formatters of the argument classes and of [IoExtra].  [addr_text] reads
    the [sockaddr_in] at an address: the text [inet_ntop] gives and [sin_port]. *)
Definition UringArgs_format (addr_text : nat -> string * Z) (args : UringArgs) : string :=
  match args with
  | UringRead _ len offset => "Read{len_=" +:+ pretty len +:+ ", offset_=" +:+ pretty offset +:+ "}"
  | UringWrite _ len offset => "Write{len_=" +:+ pretty len +:+ ", offset_=" +:+ pretty offset +:+ "}"
  | UringClose => "Close{}"
  | UringAccept addr _ flags =>
      "Accept{addr_={" +:+ (addr_text addr).1 +:+ ":" +:+ pretty (addr_text addr).2 +:+
      "}, flags_=" +:+ pretty flags +:+ "}"
  | UringConnect addr _ =>
      "Connect{addr_={" +:+ (addr_text addr).1 +:+ ":" +:+ pretty (addr_text addr).2 +:+ "}}"
  | UringShutdown s => "Shutdown{shutdown_=" +:+ Shutdown_format s +:+ "}"
  end.

Definition UringExtra_format (addr_text : nat -> string * Z) (extra : UringExtra) : string :=
  "IoExtra{args_=" +:+ UringArgs_format addr_text (args_ extra) +:+ ", fd_=" +:+
  pretty (ur_fd_ extra) +:+ ", return_=" +:+ pretty (return_ extra) +:+ "}".

(** ** The calls of liburing *)

(** The requests the registry prepares, one per [io_uring_prep_] function. *)
Inductive SqeOp : Type :=
| prep_read (fd : Z) (buf : nat) (nbytes offset : Z)
| prep_write (fd : Z) (buf : nat) (nbytes offset : Z)
| prep_close (fd : Z)
| prep_accept (fd : Z) (addr addrlen : nat) (flags : Z)
| prep_connect (fd : Z) (addr : nat) (addrlen : Z)
| prep_shutdown (fd : Z) (how : Z)
| prep_cancel (user_data : eid) (flags : Z)
| unprepared.

Record Sqe : Type := mkSqe { sqe_op : SqeOp; sqe_data : option eid }.
Record Cqe : Type := mkCqe { cqe_data : option eid; cqe_res : Z }.

(** [U] is [struct io_uring], [K] what the kernel does during a wait.  A
    submission entry is named by its slot. *)
Class Uring (U K : Type) : Type := {
  io_uring_get_sqe : U -> option nat * U;
  io_uring_prep : nat -> SqeOp -> U -> U;
  io_uring_sqe_set_data : nat -> eid -> U -> U;
  io_uring_submit : U -> U;
  io_uring_wait_cqe_timeout : K -> Z * Z -> U -> Z * bool * U;
  io_uring_cqes : U -> list Cqe;
  io_uring_cq_advance : nat -> U -> U;
  io_uring_queue_exit : U -> U;
}.

(** The submission queue: [entries] its size, [reserved] the slots taken since the
    last submission, [sqe_at] the contents of a slot, [submitted] what the kernel
    was given.  A taken slot is submitted whether it was prepared or not;
    [io_uring_submit], whose result the code does not test, takes all of them. *)
Class UringLaws (U K : Type) `{Uring U K} : Type := {
  entries : U -> nat;
  reserved : U -> list nat;
  sqe_at : U -> nat -> Sqe;
  submitted : U -> list Sqe;
  entries_pos : forall u, 0 < entries u;
  get_sqe_room : forall u, length (reserved u) < entries u -> exists i u',
    io_uring_get_sqe u = (Some i, u') /\ ~ (i ∈ reserved u) /\
    reserved u' = reserved u ++ [i] /\ submitted u' = submitted u /\
    entries u' = entries u /\ (forall j, j ∈ reserved u -> sqe_at u' j = sqe_at u j);
  get_sqe_full : forall u, entries u <= length (reserved u) -> io_uring_get_sqe u = (None, u);
  prep_spec : forall i op u,
    reserved (io_uring_prep i op u) = reserved u /\
    submitted (io_uring_prep i op u) = submitted u /\
    (forall j, sqe_at (io_uring_prep i op u) j =
       if decide (j = i) then mkSqe op None else sqe_at u j);
  set_data_spec : forall i e u,
    reserved (io_uring_sqe_set_data i e u) = reserved u /\
    submitted (io_uring_sqe_set_data i e u) = submitted u /\
    (forall j, sqe_at (io_uring_sqe_set_data i e u) j =
       if decide (j = i) then mkSqe (sqe_op (sqe_at u j)) (Some e) else sqe_at u j);
  submit_spec : forall u,
    reserved (io_uring_submit u) = [] /\
    submitted (io_uring_submit u) = submitted u ++ (sqe_at u <$> reserved u) /\
    entries (io_uring_submit u) = entries u;
  cq_advance_spec : forall n u, io_uring_cqes (io_uring_cq_advance n u) = drop n (io_uring_cqes u);
}.

Definition ETIME : Z := 62.
Definition EBUSY : Z := 16.

(** ** [IoRegistryImpl] *)

Section Registry.
Context {U K : Type} `{Uring U K}.

Record UringRegistry : Type := mkUringRegistry {
  io_uring_ : U;
  ur_registered_events_ : list eid;
}.

(** The constructor; [result] is that of [io_uring_queue_init] on the ring [u]. *)
Definition UringRegistry_new {S} (u : U) (result : Z) : M S UringRegistry :=
  if (result =? 0)%Z then ret (mkUringRegistry u []) else panic.

(** The destructor releases the ring. *)
Definition UringRegistry_dtor (r : UringRegistry) : UringRegistry :=
  mkUringRegistry (io_uring_queue_exit (io_uring_ r)) (ur_registered_events_ r).

Abbreviation RS := (UringRegistry * EventStore)%type.

(** A call on [io_uring_]. *)
Definition on_ring {A} (f : U -> A * U) : M RS A :=
  fun s => let '(r, es) := s in
    let '(a, u) := f (io_uring_ r) in (Done a, (mkUringRegistry u (ur_registered_events_ r), es)).
Definition ring_do (f : U -> U) : M RS unit := on_ring (fun u => (tt, f u)).

Definition set_registered_events (l : list eid) : M RS unit :=
  modify (fun s => (mkUringRegistry (io_uring_ s.1) l, s.2)).

Definition set_uring_state (f : Z -> Z) (x : UringExtra) : UringExtra :=
  mkUringExtra (args_ x) (ur_fd_ x) (return_ x) (f (ur_state_ x)).
Definition set_return (res : Z) (x : UringExtra) : UringExtra :=
  mkUringExtra (args_ x) (ur_fd_ x) res (ur_state_ x).

Definition put_extra (e : eid) (x : UringExtra) : EventStore -> EventStore :=
  alter (set_extra (EUring x)) e.

(** The request [Register] prepares for an extra. *)
Definition sqe_of (extra : UringExtra) : SqeOp :=
  let fd := ur_fd_ extra in
  match args_ extra with
  | UringRead buf len offset => prep_read fd buf len offset
  | UringWrite buf len offset => prep_write fd buf len offset
  | UringClose => prep_close fd
  | UringAccept addr addrlen _ => prep_accept fd addr addrlen 0
  | UringConnect addr addrlen => prep_connect fd addr addrlen
  | UringShutdown s => prep_shutdown fd (Shutdown_underlying s)
  end.

(** The entry [Register] takes: a full queue is submitted first. *)
Definition get_sqe_or_flush : M RS (option nat) :=
  let! sqe := on_ring io_uring_get_sqe in
  match sqe with
  | Some i => ret (Some i)
  | None => ring_do io_uring_submit ;;; on_ring io_uring_get_sqe
  end.

Definition Uring_Register (event : eid) : M RS (Result unit) :=
  let! sqe := get_sqe_or_flush in
  match sqe with
  | Some i =>
      let! (r, es) := get in
      let! extra := deref (uring_extra es event) in
      (if State_get_field Registered (ur_state_ extra) then ret tt
       else set_registered_events (ur_registered_events_ r ++ [event]) ;;;
            modify (fun s => (s.1,
              put_extra event (set_uring_state (State_set_field Registered true) extra) s.2))) ;;;
      ring_do (io_uring_prep i (sqe_of extra)) ;;;
      ring_do (io_uring_sqe_set_data i event) ;;;
      ring_do io_uring_submit ;;;
      ret (Value tt)
  | None => ret (Unexpected (mkError 1 ""))
  end.

Definition Uring_reregister (event : eid) : M RS (Result unit) := ret (Value tt).

Definition Uring_deregister (event : eid) : M RS (Result unit) :=
  let! sqe := on_ring io_uring_get_sqe in
  (match sqe with Some _ => ret tt | None => ring_do io_uring_submit end) ;;;
  let! sqe := on_ring io_uring_get_sqe in
  match sqe with
  | Some i =>
      ring_do (io_uring_prep i (prep_cancel event 0)) ;;;
      let! (_r, es) := get in
      let! extra := deref (uring_extra es event) in
      ring_do io_uring_submit ;;;
      let! (r, _es) := get in
      match erase_registered event (ur_registered_events_ r) with
      | Done l =>
          set_registered_events l ;;;
          modify (fun s => (s.1,
            put_extra event (set_uring_state (State_set_field Registered false) extra) s.2)) ;;;
          ret (Value tt)
      | _ => undef
      end
  | None => ret (Unexpected (mkError 1 ""))
  end.

(** The body of [io_uring_for_each_cqe]; the state is [registered_events_], the
    events and the vector [events]. *)
Fixpoint Uring_select_loop (cqes : list Cqe) : M (list eid * EventStore * list eid) unit :=
  match cqes with
  | [] => ret tt
  | cqe :: cqes' =>
      match cqe_data cqe with
      | None => Uring_select_loop cqes'
      | Some data =>
          let! s := get in
          let '(reg, es, events) := s in
          let! extra := deref (uring_extra es data) in
          let extra := set_return (cqe_res cqe) extra in
          if decide (data ∈ reg) then
            let extra := set_uring_state (State_set_field Completed true) extra in
            let extra := set_uring_state (State_set_field Registered false) extra in
            put (erase_first data reg, put_extra data extra es, events ++ [data]) ;;;
            Uring_select_loop cqes'
          else undef
      end
  end.

(** [timespec] of [select]: [timeout] is in milliseconds. *)
Definition timespec_of (timeout : Z) : Z * Z :=
  (Z.quot timeout 1000, (Z.rem timeout 1000 * 1000000)%Z).

Definition Uring_select (k : K) (timeout : Z) : M (RS * list eid) (Result unit) :=
  let! s := get in
  let '(r, es, events) := s in
  let '(return_value, cqe_ptr, u) :=
    io_uring_wait_cqe_timeout k (timespec_of timeout) (io_uring_ r) in
  put (mkUringRegistry u (ur_registered_events_ r), es, events) ;;;
  if ((return_value <? 0) && ((- return_value =? ETIME) || (- return_value =? EBUSY)))%Z
  then ret (Value tt)
  else if (return_value <? 0)%Z then panic
  else if (cqe_ptr : bool) then
    let cqes := io_uring_cqes u in
    let '(o, (reg, es, events)) :=
      Uring_select_loop cqes (ur_registered_events_ r, es, events) in
    put (mkUringRegistry u reg, es, events) ;;;
    (fun s => (o, s)) ;;;
    put (mkUringRegistry (io_uring_cq_advance (length cqes) u) reg, es, events) ;;;
    ret (Value tt)
  else ret (Value tt).

#[export] Instance UringRegistry_ops : Registry UringRegistry K := {
  Register _ := Uring_Register;
  reregister _ := Uring_reregister;
  deregister _ := Uring_deregister;
  select := Uring_select;
}.
End Registry.
Arguments UringRegistry U : clear implicits.
