(* ===== verification/UringSpec.v ===== *)
(** What the io_uring registry guarantees: each registration hands the kernel
    one request that carries the event, each completion reaches its event, and
    the entries a cancellation submits. *)
From stdpp Require Import base gmap list sets strings.
From Stdlib Require Import ZArith Lia.
From S2P Require Import Prelude Errors Events Epoll Uring.

Section Spec.
Context {U K : Type} `{UringLaws U K}.

(** ** Taking a submission entry *)

(** The entries a call submits before its own: those still reserved. *)
Definition flushed (u : U) : list Sqe := sqe_at u <$> reserved u.

Lemma fmap_sqe_ext (f g : nat -> Sqe) (l : list nat) :
  (forall j, j ∈ l -> f j = g j) -> f <$> l = g <$> l.
Proof. intros Hfg. apply list_fmap_ext. intros i j Hj. apply Hfg. by eapply list_elem_of_lookup_2. Qed.

(** Preparing the entry taken last and submitting. *)
Lemma submit_prepared u i op data l :
  reserved u = l ++ [i] -> i ∉ l ->
  let u1 := io_uring_prep i op u in
  let u2 := match data with Some e => io_uring_sqe_set_data i e u1 | None => u1 end in
  reserved (io_uring_submit u2) = [] /\
  submitted (io_uring_submit u2) = submitted u ++ (sqe_at u <$> l) ++ [mkSqe op data].
Proof.
  intros Hres Hnin u1 u2.
  destruct (prep_spec i op u) as (Hr1 & Hs1 & Ha1). fold u1 in Hr1, Hs1, Ha1.
  assert (reserved u2 = l ++ [i] /\ submitted u2 = submitted u /\
    sqe_at u2 i = mkSqe op data /\ forall j, j ∈ l -> sqe_at u2 j = sqe_at u j)
    as (Hr2 & Hs2 & Hi2 & Hl2).
  { assert (forall j, j ∈ l -> j <> i) as Hne by (intros j Hj ->; done).
    unfold u2. destruct data as [e|].
    - destruct (set_data_spec i e u1) as (Hr & Hs & Ha).
      rewrite Hr, Hs, Ha, Ha1, !decide_True, Hr1, Hs1 by done. split_and!; [done..|].
      intros j Hj. by rewrite Ha, Ha1, !decide_False by auto.
    - rewrite Ha1, decide_True by done. split_and!; [congruence|done|done|].
      intros j Hj. by rewrite Ha1, decide_False by auto. }
  destruct (submit_spec u2) as (Hrs & Hss & _). split; [done|].
  rewrite Hss, Hs2, Hr2, fmap_app. cbn. rewrite Hi2. do 2 f_equal. by apply fmap_sqe_ext.
Qed.

(** [Register]'s entry: the queue is flushed first when it is full. *)
Lemma take_entry (r : UringRegistry U) es :
  exists i u l,
    get_sqe_or_flush (r, es) = (Done (Some i), (mkUringRegistry u (ur_registered_events_ r), es)) /\
    reserved u = l ++ [i] /\ (i ∉ l) /\
    submitted u ++ (sqe_at u <$> l) = submitted (io_uring_ r) ++ flushed (io_uring_ r).
Proof.
  destruct r as [u0 reg]. cbn [io_uring_ ur_registered_events_].
  destruct (decide (length (reserved u0) < entries u0)) as [Hlt|Hge].
  - destruct (get_sqe_room u0 Hlt) as (i & u & Hget & Hnin & Hres & Hsub & _ & Hat).
    exists i, u, (reserved u0). split_and!; [|done|done|].
    + unfold get_sqe_or_flush. mred. unfold on_ring. cbn [io_uring_ ur_registered_events_]. by rewrite Hget.
    + rewrite Hsub. unfold flushed. f_equal. by apply fmap_sqe_ext.
  - set (u1 := io_uring_submit u0). destruct (submit_spec u0) as (Hr1 & Hs1 & He1).
    fold u1 in Hr1, Hs1, He1.
    destruct (get_sqe_room u1) as (i & u & Hget & Hnin & Hres & Hsub & _ & _).
    { rewrite Hr1. apply entries_pos. }
    exists i, u, []. rewrite Hr1 in Hres. split_and!; [|done|set_solver|].
    + unfold get_sqe_or_flush. mred. unfold ring_do, on_ring. cbn [io_uring_ ur_registered_events_].
      rewrite get_sqe_full by lia. cbn [io_uring_ ur_registered_events_]. fold u1. by rewrite Hget.
    + rewrite Hsub, Hs1. by rewrite app_nil_r.
Qed.

Lemma uring_extra_put_ne e x es e' :
  e' <> e -> uring_extra (put_extra e x es) e' = uring_extra es e'.
Proof. intros Hne. unfold uring_extra, put_extra. by rewrite lookup_alter_ne. Qed.

Lemma uring_extra_put_eq e x x' es :
  uring_extra es e = Some x -> uring_extra (put_extra e x' es) e = Some x'.
Proof.
  unfold uring_extra, put_extra. rewrite lookup_alter_eq. by destruct (es !! e) as [[? [[]|]]|].
Qed.

(** ** Registration *)

(** [Register] never runs out of submission entries: it flushes a full queue
    and takes an entry again.  It then hands the kernel, after whatever was still
    reserved, exactly one request: the operation of the event's arguments on its
    descriptor, with the event as user data.  The event is held once, and marked
    registered. *)
Theorem uring_register_submits k event (r : UringRegistry U) es x :
  uring_extra es event = Some x ->
  exists u es', Register k event (r, es) =
      (Done (Value tt),
       (mkUringRegistry u (if State_get_field Registered (ur_state_ x)
                           then ur_registered_events_ r
                           else ur_registered_events_ r ++ [event]), es')) /\
    submitted u = submitted (io_uring_ r) ++ flushed (io_uring_ r)
                  ++ [mkSqe (sqe_of x) (Some event)] /\
    reserved u = [] /\
    (forall e, future_of es' e = future_of es e) /\
    (forall e, e <> event -> es' !! e = es !! e) /\
    uring_extra es' event = Some (if State_get_field Registered (ur_state_ x) then x
                                  else set_uring_state (State_set_field Registered true) x).
Proof.
  intros Hx. destruct (take_entry r es) as (i & u & l & Htake & Hres & Hnin & Hsub).
  destruct (submit_prepared u i (sqe_of x) (Some event) l Hres Hnin) as [Hr' Hs'].
  rewrite (assoc (++)), Hsub, <- (assoc (++)) in Hs'.
  eexists _, (if State_get_field Registered (ur_state_ x) then es
              else put_extra event (set_uring_state (State_set_field Registered true) x) es).
  split_and!; [|exact Hs'|exact Hr'|..].
  - cbn [Register UringRegistry_ops]. unfold Uring_Register.
    rewrite (bind_done _ _ _ _ _ Htake). mred. rewrite Hx.
    by destruct (State_get_field Registered (ur_state_ x)).
  - intros e. destruct (State_get_field _ _); [done|]. apply future_of_set_extra.
  - intros e He. destruct (State_get_field _ _); [done|]. unfold put_extra.
    by rewrite lookup_alter_ne.
  - destruct (State_get_field _ _); [done|]. by eapply uring_extra_put_eq.
Qed.

(** ** Cancellation *)

(** With two free entries, [deregister] submits two of them, of which it
    prepares only the second, the cancellation: the first goes to the kernel with
    whatever the slot [i] held.  The event is forgotten at once, although its
    operation is still in flight. *)
Theorem uring_deregister_submits_two k event (r : UringRegistry U) es x :
  uring_extra es event = Some x ->
  event ∈ ur_registered_events_ r ->
  S (length (reserved (io_uring_ r))) < entries (io_uring_ r) ->
  exists i j u1 u2 u es',
    io_uring_get_sqe (io_uring_ r) = (Some i, u1) /\ io_uring_get_sqe u1 = (Some j, u2) /\
    deregister k event (r, es) =
      (Done (Value tt), (mkUringRegistry u (erase_first event (ur_registered_events_ r)), es')) /\
    submitted u = submitted (io_uring_ r) ++ flushed (io_uring_ r)
                  ++ [sqe_at u2 i; mkSqe (prep_cancel event 0) None].
Proof.
  intros Hx Hin Hroom. destruct r as [u0 reg]. cbn [io_uring_ ur_registered_events_] in *.
  destruct (get_sqe_room u0) as (i & u1 & Hget1 & Hnin1 & Hres1 & Hsub1 & Hent1 & Hat1); [lia|].
  destruct (get_sqe_room u1) as (j & u2 & Hget2 & Hnin2 & Hres2 & Hsub2 & Hent2 & Hat2).
  { rewrite Hres1, length_app, Hent1. cbn. lia. }
  destruct (submit_prepared u2 j (prep_cancel event 0) None _ Hres2 Hnin2) as [Hr' Hs'].
  set (u := io_uring_submit _) in Hr', Hs'.
  eexists i, j, u1, u2, u, _. split; [done|]. split; [done|]. split.
  - cbn [deregister UringRegistry_ops]. unfold Uring_deregister. mred.
    unfold on_ring. cbn [io_uring_ ur_registered_events_]. rewrite Hget1.
    cbn [io_uring_ ur_registered_events_]. rewrite Hget2. unfold ring_do, on_ring.
    cbn [io_uring_ ur_registered_events_]. rewrite Hx. unfold erase_registered.
    rewrite decide_True by done. reflexivity.
  - rewrite Hs', Hsub2, Hsub1, Hres1, fmap_app. cbn. f_equal. rewrite <- (assoc (++)).
    cbn. f_equal. unfold flushed. apply fmap_sqe_ext. intros n Hn.
    rewrite Hat2 by (rewrite Hres1; set_solver). by apply Hat1.
Qed.

(** ** Completions *)

(** The events of a completion queue; a cancellation's completion has none. *)
Definition completed (u : U) : list eid := omap cqe_data (io_uring_cqes u).

(** What a wait must give for [select] to return: a timeout or a busy kernel, or
    completions of distinct registered events. *)
Definition uring_ready (k : K) (r : UringRegistry U) (es : EventStore) : Prop :=
  forall ts, let '(rc, cqe_ptr, u) := io_uring_wait_cqe_timeout k ts (io_uring_ r) in
    (rc < 0 -> - rc = ETIME \/ - rc = EBUSY)%Z /\
    (NoDup (completed u)) /\
    (forall e, e ∈ completed u -> e ∈ ur_registered_events_ r /\ is_Some (uring_extra es e)).

(** The events a wait with this timeout hands out. *)
Definition selected (k : K) (timeout : Z) (r : UringRegistry U) : list eid :=
  let '(rc, cqe_ptr, u) := io_uring_wait_cqe_timeout k (timespec_of timeout) (io_uring_ r) in
  if ((0 <=? rc)%Z && (cqe_ptr : bool))%bool then completed u else [].

Definition completed_extra (res : Z) (x : UringExtra) : UringExtra :=
  mkUringExtra (args_ x) (ur_fd_ x) res
    (State_set_field Registered false (State_set_field Completed true (ur_state_ x))).


Lemma elem_of_completions res e (cqes : list Cqe) :
  mkCqe (Some e) res ∈ cqes -> e ∈ omap cqe_data cqes.
Proof. intros Hin. apply list_elem_of_omap. by exists (mkCqe (Some e) res). Qed.

Lemma uring_loop_run cqes reg es events :
  NoDup (omap cqe_data cqes) ->
  (forall e, e ∈ omap cqe_data cqes -> e ∈ reg /\ is_Some (uring_extra es e)) ->
  exists reg' es', Uring_select_loop cqes (reg, es, events) =
      (Done tt, (reg', es', events ++ omap cqe_data cqes)) /\
    (reg ≡ₚ omap cqe_data cqes ++ reg') /\
    (forall e, future_of es' e = future_of es e) /\
    (forall e, e ∉ omap cqe_data cqes -> es' !! e = es !! e) /\
    (forall res e, mkCqe (Some e) res ∈ cqes -> exists x, uring_extra es e = Some x /\
       uring_extra es' e = Some (completed_extra res x)).
Proof.
  revert reg es events. induction cqes as [|[[e|] res] cqes IH]; intros reg es events Hnd Hin.
  { exists reg, es. cbn. rewrite app_nil_r. split_and!; try done.
    intros ? ? Hx. by apply elem_of_nil in Hx. }
  - cbn in Hnd, Hin |- *. apply NoDup_cons in Hnd as [Hne Hnd].
    destruct (Hin e) as [Hreg [x Hx]]; [by left|].
    set (es1 := put_extra e (completed_extra res x) es).
    destruct (IH (erase_first e reg) es1 (events ++ [e]))
      as (reg' & es' & Hrun & Hperm & Hfut & Hfr & Hst); [done| |].
    { intros e' He'. assert (e' <> e) as Hd by (intros ->; done).
      destruct (Hin e') as [Hr' Hx']; [by right|]. split.
      - rewrite (erase_first_perm e _ Hreg) in Hr'. set_solver.
      - unfold es1. by rewrite uring_extra_put_ne. }
    exists reg', es'. split_and!.
    + mred. rewrite Hx, decide_True by done. fold es1.
      change (put_extra e _ es) with es1. rewrite Hrun. by rewrite <- (assoc (++)).
    + by rewrite (erase_first_perm e _ Hreg), Hperm.
    + intros e'. rewrite Hfut. apply future_of_set_extra.
    + intros e' [He1 He2]%not_elem_of_cons. rewrite Hfr by done.
      unfold es1, put_extra. by rewrite lookup_alter_ne.
    + intros res' e' [[= -> ->]|Hin']%elem_of_cons.
      * exists x. split; [done|]. assert (uring_extra es' e = uring_extra es1 e) as ->.
        { unfold uring_extra. by rewrite Hfr. }
        by eapply uring_extra_put_eq.
      * destruct (Hst res' e' Hin') as (x' & Hx' & Hx''). exists x'. split; [|done].
        rewrite <- Hx'. symmetry. apply uring_extra_put_ne. intros ->.
        by apply Hne, (elem_of_completions res').
  - cbn in *. destruct (IH reg es events Hnd Hin) as (reg' & es' & Hrun & Hp & Hf & Hfr & Hst).
    exists reg', es'. split_and!; [done..|]. intros res' e' [?|Hin']%elem_of_cons; [done|auto].
Qed.

Lemma uring_select_run k timeout r es evs :
  uring_ready k r es -> exists r' es',
    select k timeout (r, es, evs) = (Done (Value tt), (r', es', evs ++ selected k timeout r)) /\
    (ur_registered_events_ r ≡ₚ selected k timeout r ++ ur_registered_events_ r') /\
    (forall e, future_of es' e = future_of es e) /\
    (forall e, e ∉ selected k timeout r -> es' !! e = es !! e) /\
    forall rc u, io_uring_wait_cqe_timeout k (timespec_of timeout) (io_uring_ r) = (rc, true, u) ->
      (0 <= rc)%Z -> io_uring_cqes (io_uring_ r') = [] /\
      forall res e, mkCqe (Some e) res ∈ io_uring_cqes u -> exists x,
        uring_extra es e = Some x /\ uring_extra es' e = Some (completed_extra res x).
Proof.
  intros Hready. specialize (Hready (timespec_of timeout)).
  cbn [select UringRegistry_ops]. unfold selected, Uring_select. mred.
  destruct (io_uring_wait_cqe_timeout k (timespec_of timeout) (io_uring_ r))
    as [[rc p] u]. destruct Hready as (Hrc & Hnd & Hin).
  destruct (Z.ltb_spec rc 0) as [Hneg|Hpos].
  - rewrite (proj2 (Z.leb_gt 0 rc)) by lia. cbn [andb].
    assert (((- rc =? ETIME) || (- rc =? EBUSY))%Z = true) as ->.
    { apply orb_true_iff. rewrite !Z.eqb_eq. auto. }
    eexists _, es. split; [by rewrite app_nil_r|]. split_and!; [done..|].
    intros rc' u' [= -> _ _] ?. lia.
  - rewrite (proj2 (Z.leb_le 0 rc)) by lia. cbn [andb]. destruct p.
    + destruct (uring_loop_run _ _ _ evs Hnd Hin) as (reg' & es' & Hrun & Hp & Hf & Hfr & Hst).
      rewrite Hrun. eexists _, es'. split; [done|]. cbn [ur_registered_events_ io_uring_].
      split_and!; [done..|]. intros rc' u' [= -> ->] _. split; [|done].
      rewrite cq_advance_spec. by apply drop_all.
    + eexists _, es. split; [by rewrite app_nil_r|]. split_and!; [done..|].
      by intros rc' u' [= -> _] ?.
Qed.

Lemma uring_extra_ext es es' e :
  extra_of es' e = extra_of es e -> uring_extra es' e = uring_extra es e.
Proof.
  unfold uring_extra, extra_of.
  destruct (es' !! e) as [[f' [[]|]]|], (es !! e) as [[f [[]|]]|]; cbn; congruence.
Qed.

#[export] Program Instance UringRegistry_laws : RegistryLaws (UringRegistry U) K := {
  pending := ur_registered_events_;
  ready := uring_ready;
}.
Next Obligation.
  intros k r es es' Hext Hr ts. specialize (Hr ts).
  destruct (io_uring_wait_cqe_timeout k ts (io_uring_ r)) as [[rc p] u].
  destruct Hr as (H1 & H2 & H3). split_and!; [done|done|].
  intros e He. destruct (H3 e He) as [Hreg Hx]. split; [done|].
  by rewrite (uring_extra_ext es es') by auto.
Qed.
Next Obligation.
  intros k timeout r es evs Hr. destruct (uring_select_run k timeout r es evs Hr)
    as (r' & es' & Hrun & Hperm & Hfut & Hfr & _).
  exists r', es', (selected k timeout r). split_and!; [done|done|done|].
  intros e He. apply Hfr. intros Hin. apply He. rewrite Hperm. set_solver.
Qed.

(** C29.  A wait that returned completions hands out their events, in order, and
    empties the completion queue.  Each event gets its operation's result in
    [return_], is marked completed and no longer registered. *)
Theorem uring_select_completes k timeout r es evs rc u :
  uring_ready k r es ->
  io_uring_wait_cqe_timeout k (timespec_of timeout) (io_uring_ r) = (rc, true, u) ->
  (0 <= rc)%Z ->
  exists r' es',
    select k timeout (r, es, evs) = (Done (Value tt), (r', es', evs ++ completed u)) /\
    (ur_registered_events_ r ≡ₚ completed u ++ ur_registered_events_ r') /\
    io_uring_cqes (io_uring_ r') = [] /\
    forall res e, mkCqe (Some e) res ∈ io_uring_cqes u -> exists x,
      uring_extra es e = Some x /\ uring_extra es' e = Some (completed_extra res x).
Proof.
  intros Hr Hw Hrc. destruct (uring_select_run k timeout r es evs Hr)
    as (r' & es' & Hrun & Hperm & _ & _ & Hres). exists r', es'.
  destruct (Hres rc u Hw Hrc) as [Hcq Hext].
  unfold selected in Hrun, Hperm. rewrite Hw in Hrun, Hperm.
  rewrite (proj2 (Z.leb_le 0 rc) Hrc) in Hrun, Hperm. by split_and!.
Qed.

(** A completion whose event is not held, such as that of an operation whose
    event was deregistered before it completed, makes [select] dereference
    [end()]. *)
Theorem uring_late_completion_undefined k timeout (r : UringRegistry U) es evs rc u e res rest :
  io_uring_wait_cqe_timeout k (timespec_of timeout) (io_uring_ r) = (rc, true, u) ->
  (0 <= rc)%Z ->
  io_uring_cqes u = mkCqe (Some e) res :: rest ->
  e ∉ ur_registered_events_ r ->
  fst (select k timeout (r, es, evs)) = Undef.
Proof.
  intros Hw Hrc Hcq Hnin. cbn [select UringRegistry_ops]. unfold Uring_select. mred.
  rewrite Hw, (proj2 (Z.ltb_ge rc 0) Hrc), Hcq. cbn [andb Uring_select_loop cqe_data]. mred.
  destruct (uring_extra es e); [|done]. by rewrite decide_False by done.
Qed.
End Spec.
