(* ===== verification/RegistryWitness.v ===== *)
(** The theorems on the epoll and io_uring registries at concrete inputs.  The
    ring is a small queue that satisfies the laws of [Uring]. *)
From stdpp Require Import base gmap list sets strings.
From Stdlib Require Import ZArith Lia.
From S2P Require Import Prelude Errors Events Epoll Uring UringSpec.

(** ** epoll: descriptor 5, waiting to read, held as event 1 *)

Definition ep_store : EventStore :=
  {[ 1 := mkEvent (Some 0) (Some (EEpoll (EpollExtra_new InterestRead 5))) ]}.
Definition ep_env (ctl wait : Z) : EpollEnv := mkEpollEnv ctl 17 wait EINTR [(EPOLLIN, 1)].

Lemma epoll_register_outcome_witness :
  Register (ep_env 0 0) 1 (mkEpollRegistry [] [], ep_store) =
    (Done (Value tt), (mkEpollRegistry [1] [epoll_ctl CtlAdd 5 (to_sys InterestRead) 1],
      set_epoll_state 1 (EpollExtra_new InterestRead 5) 1 ep_store)) /\
  fst (Register (ep_env (-1) 0) 1 (mkEpollRegistry [] [], ep_store)) =
    Done (Unexpected (mkError 17 "")).
Proof.
  split.
  - apply (epoll_register_outcome (ep_env 0 0) 1 (mkEpollRegistry [] []) ep_store
             (EpollExtra_new InterestRead 5)); [reflexivity| |discriminate].
    apply not_elem_of_nil.
  - pose proof (epoll_register_outcome (ep_env (-1) 0) 1 (mkEpollRegistry [] []) ep_store
             (EpollExtra_new InterestRead 5) eq_refl (not_elem_of_nil _)) as [_ H].
    by rewrite (H eq_refl).
Defined.

Lemma epoll_select_reports_witness :
  exists r' es', select (ep_env 0 1) 20 (mkEpollRegistry [1] [], ep_store, []) =
      (Done (Value tt), (r', es', [1])) /\
    ep_syscalls r' = [epoll_wait 10000 1].
Proof.
  destruct (epoll_select_reports (ep_env 0 1) 20 (mkEpollRegistry [1] []) ep_store [])
    as (r' & es' & Hrun & _ & Hsys & _).
  - split_and!; [done|done|apply NoDup_singleton|].
    intros e He. apply list_elem_of_singleton in He as ->. split; [by left|by eexists].
  - exists r', es'. split; [exact Hrun|exact Hsys].
Defined.

(** ** A ring *)

Record TestRing : Type := mkTestRing {
  tr_spare : nat;
  tr_head : nat;
  tr_taken : nat;
  tr_mem : gmap nat Sqe;
  tr_sent : list Sqe;
  tr_cq : list Cqe;
}.

Definition tr_at (u : TestRing) (i : nat) : Sqe := default (mkSqe unprepared None) (tr_mem u !! i).
Definition tr_reserved (u : TestRing) : list nat := seq (tr_head u) (tr_taken u).
Definition tr_set (i : nat) (q : Sqe) (u : TestRing) : TestRing :=
  mkTestRing (tr_spare u) (tr_head u) (tr_taken u) (<[i := q]> (tr_mem u)) (tr_sent u) (tr_cq u).

#[export] Instance TestRing_ops : Uring TestRing (Z * list Cqe) := {
  io_uring_get_sqe u :=
    if decide (tr_taken u < S (tr_spare u)) then
      (Some (tr_head u + tr_taken u),
       mkTestRing (tr_spare u) (tr_head u) (S (tr_taken u)) (tr_mem u) (tr_sent u) (tr_cq u))
    else (None, u);
  io_uring_prep i op u := tr_set i (mkSqe op None) u;
  io_uring_sqe_set_data i e u := tr_set i (mkSqe (sqe_op (tr_at u i)) (Some e)) u;
  io_uring_submit u :=
    mkTestRing (tr_spare u) (tr_head u + tr_taken u) 0 (tr_mem u)
      (tr_sent u ++ (tr_at u <$> tr_reserved u)) (tr_cq u);
  io_uring_wait_cqe_timeout k _ u :=
    (k.1, true, mkTestRing (tr_spare u) (tr_head u) (tr_taken u) (tr_mem u) (tr_sent u)
                  (tr_cq u ++ k.2));
  io_uring_cqes := tr_cq;
  io_uring_cq_advance n u :=
    mkTestRing (tr_spare u) (tr_head u) (tr_taken u) (tr_mem u) (tr_sent u) (drop n (tr_cq u));
  io_uring_queue_exit u := mkTestRing (tr_spare u) 0 0 (tr_mem u) [] [];
}.

Lemma tr_at_set i q u j : tr_at (tr_set i q u) j = if decide (j = i) then q else tr_at u j.
Proof.
  unfold tr_at, tr_set. cbn. case_decide; [subst; by rewrite lookup_insert_eq|].
  by rewrite lookup_insert_ne.
Qed.

#[export] Program Instance TestRing_laws : UringLaws TestRing (Z * list Cqe) := {
  entries u := S (tr_spare u);
  reserved := tr_reserved;
  sqe_at := tr_at;
  submitted := tr_sent;
}.
Next Obligation. intros u. cbn. lia. Qed.
Next Obligation.
  intros u Hlen. unfold tr_reserved in Hlen. rewrite length_seq in Hlen. do 2 eexists.
  split; [cbn; by rewrite decide_True by lia|]. unfold tr_reserved. cbn.
  split; [rewrite elem_of_seq; lia|]. split; [apply seq_S|done].
Qed.
Next Obligation.
  intros u Hlen. unfold tr_reserved in Hlen. rewrite length_seq in Hlen.
  cbn. by rewrite decide_False by lia.
Qed.
Next Obligation. intros i op u. split_and!; [done|done|apply tr_at_set]. Qed.
Next Obligation.
  intros i e u. split_and!; [done|done|]. intros j. cbn. rewrite tr_at_set.
  case_decide; by subst.
Qed.
Next Obligation. done. Qed.
Next Obligation. done. Qed.

(** ** io_uring: a read of 16 bytes on descriptor 5 *)

Definition ur_read (state : Z) : UringExtra := mkUringExtra (UringRead 9 16 0) 5 0 state.
Definition ur_store (state : Z) : EventStore :=
  {[ 1 := mkEvent (Some 0) (Some (EUring (ur_read state))) ]}.
Definition ur_ring (spare : nat) : TestRing := mkTestRing spare 0 0 ∅ [] [].

Lemma uring_register_submits_witness :
  exists u es', Register (0%Z, []) 1 (mkUringRegistry (ur_ring 3) [], ur_store 0) =
      (Done (Value tt), (mkUringRegistry u [1], es')) /\
    submitted u = [mkSqe (prep_read 5 9 16 0) (Some 1)].
Proof.
  destruct (uring_register_submits (0%Z, []) 1 (mkUringRegistry (ur_ring 3) []) (ur_store 0)
              (ur_read 0) eq_refl) as (u & es' & Hrun & Hsub & _).
  exists u, es'. split; [exact Hrun|exact Hsub].
Defined.

Lemma uring_deregister_submits_two_witness :
  exists u es', deregister (0%Z, []) 1 (mkUringRegistry (ur_ring 3) [1], ur_store 1) =
      (Done (Value tt), (mkUringRegistry u [], es')) /\
    submitted u = [mkSqe unprepared None; mkSqe (prep_cancel 1 0) None].
Proof.
  destruct (uring_deregister_submits_two (0%Z, []) 1 (mkUringRegistry (ur_ring 3) [1]) (ur_store 1)
              (ur_read 1) eq_refl) as (i & j & u1 & u2 & u & es' & H1 & H2 & Hrun & Hsub).
  - by left.
  - cbn. lia.
  - exists u, es'. split; [exact Hrun|]. rewrite Hsub.
    cbn in H1. injection H1 as <- <-. cbn in H2. by injection H2 as _ <-.
Defined.

Lemma uring_select_completes_witness :
  exists r' es', select (0%Z, [mkCqe (Some 1) 16]) 1
      (mkUringRegistry (ur_ring 3) [1], ur_store 1, []) = (Done (Value tt), (r', es', [1])) /\
    uring_extra es' 1 = Some (mkUringExtra (UringRead 9 16 0) 5 16 Completed).
Proof.
  destruct (uring_select_completes (0%Z, [mkCqe (Some 1) 16]) 1 (mkUringRegistry (ur_ring 3) [1])
    (ur_store 1) [] 0 (mkTestRing 3 0 0 ∅ [] [mkCqe (Some 1) 16])) as (r' & es' & Hrun & _ & _ & Hx).
  - intros ts. cbn. split_and!; [lia|apply NoDup_singleton|].
    intros e He. apply list_elem_of_singleton in He as ->. split; [by left|by eexists].
  - reflexivity.
  - lia.
  - exists r', es'. split; [exact Hrun|]. destruct (Hx 16%Z 1) as (x & Hx1 & Hx2); [by left|].
    rewrite Hx2. cbn in Hx1. by injection Hx1 as <-.
Defined.

Lemma uring_late_completion_undefined_witness :
  fst (select (0%Z, [mkCqe (Some 1) (-125)]) 1
         (mkUringRegistry (ur_ring 3) [], ur_store 0, [])) = Undef.
Proof.
  apply (uring_late_completion_undefined (0%Z, [mkCqe (Some 1) (-125)]) 1
    (mkUringRegistry (ur_ring 3) []) (ur_store 0) [] 0
    (mkTestRing 3 0 0 ∅ [] [mkCqe (Some 1) (-125)]) 1 (-125) []);
    [reflexivity|lia|reflexivity|apply not_elem_of_nil].
Defined.
