(* ===== verification/Net.v ===== *)
(** Addresses and descriptors: [include/xyco/net/socket.ccm],
    [src/net/socket.cc], and the descriptor [FileBase] of
    [include/xyco/fs/file_common.ccm] owns in the same way. *)
From stdpp Require Import base gmap list sets strings pretty relations.
From Stdlib Require Import ZArith Lia.
From S2P Require Import Prelude Errors.

(** ** Addresses *)

Definition AF_INET : Z := 2.
Definition AF_INET6 : Z := 10.
Definition INADDR_ANY : Z := 0.

(** [sizeof(sockaddr)]. *)
Definition sizeof_sockaddr : Z := 16.


(** [htons] and [ntohs] on a little-endian machine. *)
Definition swap16 (x : Z) : Z :=
  Z.lor (Z.shiftl (Z.land x 255) 8) (Z.land (Z.shiftr x 8) 255).
Definition htons (x : Z) : Z := swap16 x.
Definition ntohs (x : Z) : Z := swap16 x.

(** [htonl]. *)
Definition htonl (x : Z) : Z :=
  Z.lor (Z.shiftl (swap16 (Z.land x 65535)) 16) (swap16 (Z.land (Z.shiftr x 16) 65535)).

Record sockaddr_in : Type := mkSockaddrIn { sin_family : Z; sin_port : Z; sin_addr : Z }.
Record sockaddr_in6 : Type := mkSockaddrIn6 {
  sin6_family : Z; sin6_port : Z; sin6_flowinfo : Z; sin6_addr : list Z; sin6_scope_id : Z }.

(** [std::variant<SocketAddrV4, SocketAddrV6>]. *)
Inductive SocketAddr : Type :=
| SocketAddrV4 (inner_ : sockaddr_in)
| SocketAddrV6 (inner_ : sockaddr_in6).

Definition SocketAddrV4_get_port (inner : sockaddr_in) : Z := ntohs (sin_port inner).
Definition SocketAddrV6_get_port (inner : sockaddr_in6) : Z := sin6_port inner.

Definition get_port (a : SocketAddr) : Z :=
  match a with
  | SocketAddrV4 inner => SocketAddrV4_get_port inner
  | SocketAddrV6 inner => SocketAddrV6_get_port inner
  end.

Definition SocketAddr_new_v4 (ip_addr : Z) (port : Z) : SocketAddr :=
  SocketAddrV4 (mkSockaddrIn AF_INET (htons port) ip_addr).
Definition SocketAddr_new_v6 (ip_addr : list Z) (port : Z) : SocketAddr :=
  SocketAddrV6 (mkSockaddrIn6 AF_INET6 port 0 ip_addr 0).
Definition SocketAddr_is_v4 (a : SocketAddr) : bool :=
  match a with SocketAddrV4 _ => true | SocketAddrV6 _ => false end.

(** libc's text forms of an address. *)
Class InetText : Type := {
  inet_pton4 : string -> option Z;
  inet_pton6 : string -> option (list Z);
  inet_ntop4 : Z -> string;
  inet_ntop6 : list Z -> string;
}.

(** The constructor [Ipv4Addr]: [inner_] is zeroed first, so it stays zero when
    [inet_pton] rejects the text. *)
Definition Ipv4Addr_new `{InetText} (addr : option string) : Z :=
  match addr with
  | None => htonl INADDR_ANY
  | Some s => default 0%Z (inet_pton4 s)
  end.

(** The constructor [Ipv6Addr]. *)
Definition Ipv6Addr_new `{InetText} (addr : string) : list Z :=
  default (replicate 16 0%Z) (inet_pton6 addr).

(** The address the kernel reads through [into_c_addr]: the family, the port in
    network order and the address. *)
Definition wire_port (a : SocketAddr) : Z :=
  match a with
  | SocketAddrV4 inner => sin_port inner
  | SocketAddrV6 inner => sin6_port inner
  end.

(** [std::formatter<SocketAddr>::format]. *)
Definition SocketAddr_format `{InetText} (a : SocketAddr) : string :=
  let ip_addr := match a with
                 | SocketAddrV4 i => inet_ntop4 (sin_addr i)
                 | SocketAddrV6 i => inet_ntop6 (sin6_addr i)
                 end in
  "SocketAddr{ip=" +:+ ip_addr +:+ ",port=" +:+ pretty (get_port a) +:+ "}".

(** *** Lemmas *)

Lemma testbit_swap16 x n : (0 <= n)%Z ->
  Z.testbit (swap16 x) n =
    if (n <? 8)%Z then Z.testbit x (n + 8) else (n <? 16)%Z && Z.testbit x (n - 8).
Proof.
  intros Hn. unfold swap16. change 255%Z with (Z.ones 8).
  rewrite Z.lor_spec, Z.shiftl_spec by done.
  rewrite (Z.land_spec (Z.shiftr x 8)), Z.shiftr_spec by done.
  rewrite Z.testbit_ones_nonneg by lia. destruct (Z.ltb_spec n 8).
  - rewrite (Z.testbit_neg_r _ (n - 8)) by lia. cbn. apply andb_true_r.
  - rewrite andb_false_r, orb_false_r, Z.land_spec, Z.testbit_ones_nonneg by lia.
    rewrite andb_comm. f_equal. destruct (Z.ltb_spec (n - 8) 8), (Z.ltb_spec n 16); done || lia.
Qed.

(** Swapping the bytes of a [uint16_t] twice is the identity. *)
Lemma swap16_involutive x : (0 <= x < 2 ^ 16)%Z -> swap16 (swap16 x) = x.
Proof.
  intros Hx. apply Z.bits_inj'. intros n Hn.
  rewrite testbit_swap16 by done. destruct (Z.ltb_spec n 8).
  - rewrite testbit_swap16 by lia. rewrite (proj2 (Z.ltb_ge _ _)) by lia.
    rewrite (proj2 (Z.ltb_lt _ _)) by lia. cbn. f_equal. lia.
  - destruct (Z.ltb_spec n 16); cbn.
    + rewrite testbit_swap16 by lia. rewrite (proj2 (Z.ltb_lt _ _)) by lia. f_equal. lia.
    + symmetry. destruct (decide (x = 0)%Z) as [->|]; [apply Z.bits_0|].
      apply Z.bits_above_log2; [lia|]. apply Z.lt_le_trans with 16%Z; [|lia].
      apply Z.log2_lt_pow2; lia.
Qed.

(** An IPv4 address reports the port it was made with and puts it on the
    wire in network order.  An IPv6 address reports its port too, but puts it on
    the wire unswapped: the peer reads it byte-swapped. *)
Theorem socket_addr_ports ip4 ip6 port :
  (0 <= port < 2 ^ 16)%Z ->
  get_port (SocketAddr_new_v4 ip4 port) = port /\
  ntohs (wire_port (SocketAddr_new_v4 ip4 port)) = port /\
  get_port (SocketAddr_new_v6 ip6 port) = port /\
  ntohs (wire_port (SocketAddr_new_v6 ip6 port)) = swap16 port.
Proof.
  intros Hp. cbn. unfold SocketAddrV4_get_port, SocketAddrV6_get_port, ntohs, htons. cbn.
  by rewrite swap16_involutive.
Qed.

(** ** Owned descriptors

    [Socket] and [FileBase] own a descriptor [fd_], [-1] when they own none.
    [OwnerState] holds the objects by name and the descriptors that are open in
    the kernel. *)
Record OwnerState : Type := mkOwnerState {
  os_fd_ : gmap nat Z;
  os_open : gset Z;
}.

(** The constructor of [this] from a descriptor. *)
Definition Socket_new (this : nat) (fd : Z) : M OwnerState unit :=
  modify (fun s => mkOwnerState (<[this := fd]> (os_fd_ s)) (os_open s)).

(** [Socket(Socket &&)]. *)
Definition Socket_move_ctor (this other : nat) : M OwnerState unit :=
  let! s := get in
  let! fd := deref (os_fd_ s !! other) in
  put (mkOwnerState (<[other := (-1)%Z]> (<[this := fd]> (os_fd_ s))) (os_open s)).

(** [operator=(Socket &&)]. *)
Definition Socket_move_assign (this other : nat) : M OwnerState unit :=
  let! s := get in
  let! fd := deref (os_fd_ s !! other) in
  put (mkOwnerState (<[other := (-1)%Z]> (<[this := fd]> (os_fd_ s))) (os_open s)).

(** [close]: [EBADF] for a descriptor that is not open. *)
Definition close (fd : Z) : M OwnerState (Result unit) :=
  let! s := get in
  if decide (fd ∈ os_open s) then
    put (mkOwnerState (os_fd_ s) (os_open s ∖ {[fd]})) ;;; ret (Value tt)
  else ret (Unexpected (from_sys_error 9)).

(** The destructor of [Socket] dereferences the result of [close]. *)
Definition Socket_dtor (this : nat) : M OwnerState unit :=
  let! s := get in
  let! fd := deref (os_fd_ s !! this) in
  (if decide (fd = -1)%Z then ret tt
   else let! result := close fd in deref_expected result) ;;;
  modify (fun s => mkOwnerState (delete this (os_fd_ s)) (os_open s)).

(** What a program does with the objects: it wraps a descriptor the kernel just
    opened, moves an object into a new one, assigns to an object that owns
    nothing, and destroys objects. *)
Inductive owner_op : Type :=
| op_open (this : nat) (fd : Z)
| op_move (this other : nat)
| op_assign (this other : nat)
| op_destroy (this : nat).

Definition owner_run (op : owner_op) : M OwnerState unit :=
  match op with
  | op_open this fd =>
      modify (fun s => mkOwnerState (os_fd_ s) ({[fd]} ∪ os_open s)) ;;; Socket_new this fd
  | op_move this other => Socket_move_ctor this other
  | op_assign this other => Socket_move_assign this other
  | op_destroy this => Socket_dtor this
  end.

Definition owner_allowed (op : owner_op) (s : OwnerState) : Prop :=
  match op with
  | op_open this fd => os_fd_ s !! this = None /\ fd <> (-1)%Z /\ fd ∉ os_open s
  | op_move this other => os_fd_ s !! this = None /\ is_Some (os_fd_ s !! other)
  | op_assign this other =>
      os_fd_ s !! this = Some (-1)%Z /\ is_Some (os_fd_ s !! other) /\ this <> other
  | op_destroy this => is_Some (os_fd_ s !! this)
  end.

Inductive owner_step : OwnerState -> OwnerState -> Prop :=
| owner_step_intro op s s' :
    owner_allowed op s -> snd (owner_run op s) = s' -> owner_step s s'.

(** The open descriptors are the owned ones, and each has one owner. *)
Definition owner_inv (s : OwnerState) : Prop :=
  (forall o1 o2 fd, os_fd_ s !! o1 = Some fd -> os_fd_ s !! o2 = Some fd ->
     fd <> (-1)%Z -> o1 = o2) /\
  (forall fd, fd ∈ os_open s <-> fd <> (-1)%Z /\ exists o, os_fd_ s !! o = Some fd).

Lemma owner_inv_transfer s this other fd :
  owner_inv s -> this <> other -> os_fd_ s !! other = Some fd ->
  (forall x, os_fd_ s !! this = Some x -> x = (-1)%Z) ->
  owner_inv (mkOwnerState (<[other := (-1)%Z]> (<[this := fd]> (os_fd_ s))) (os_open s)).
Proof.
  intros (Huniq & Hopen) Hne Hfd Hthis. split; cbn.
  - intros o1 o2 x. rewrite !lookup_insert. repeat case_decide; subst; intros; simplify_eq; try done.
    + exfalso. naive_solver.
    + exfalso. naive_solver.
    + by eapply Huniq.
  - intros x. rewrite Hopen. split; intros [Hx (o & Ho)]; (split; [done|]).
    + destruct (decide (o = other)) as [->|].
      * exists this. rewrite lookup_insert_ne, lookup_insert_eq by done. congruence.
      * exists o. rewrite !lookup_insert_ne; [done| |done]. intros <-. by apply Hx, Hthis.
    + revert Ho. rewrite !lookup_insert. repeat case_decide; subst; intros; simplify_eq; eauto.
Qed.

(** Destroying an owner closes its descriptor and nothing else. *)
Lemma owner_dtor_run s this fd :
  owner_inv s -> os_fd_ s !! this = Some fd ->
  Socket_dtor this s = (Done tt, mkOwnerState (delete this (os_fd_ s)) (os_open s ∖ {[fd]})).
Proof.
  intros (Huniq & Hopen) Hfd. unfold Socket_dtor. mred. rewrite Hfd.
  case_decide as Hm.
  - do 2 f_equal. apply set_eq. intros x. rewrite elem_of_difference, not_elem_of_singleton.
    rewrite Hopen. subst. naive_solver.
  - unfold close. mred. rewrite decide_True; [done|]. apply Hopen. eauto.
Qed.

Lemma owner_inv_dtor s this fd :
  owner_inv s -> os_fd_ s !! this = Some fd ->
  owner_inv (mkOwnerState (delete this (os_fd_ s)) (os_open s ∖ {[fd]})).
Proof.
  intros (Huniq & Hopen) Hfd. split; cbn.
  - intros o1 o2 x [_ H1]%lookup_delete_Some [_ H2]%lookup_delete_Some. by eapply Huniq.
  - intros x. rewrite elem_of_difference, not_elem_of_singleton, Hopen. split.
    + intros [[Hx (o & Ho)] Hne]. split; [done|]. exists o.
      apply lookup_delete_Some. split; [|done]. intros <-. congruence.
    + intros [Hx (o & [Hne Ho]%lookup_delete_Some)]. split; [by eauto|]. intros ->.
      apply Hne. by eapply Huniq.
Qed.

Lemma owner_run_inv op s : owner_inv s -> owner_allowed op s ->
  exists s', owner_run op s = (Done tt, s') /\ owner_inv s'.
Proof.
  intros Hinv Hok. destruct op as [this fd|this other|this other|this];
    cbn [owner_allowed owner_run] in Hok |- *.
  - destruct Hok as (Hnone & Hfd & Hfresh), Hinv as (Huniq & Hopen). eexists. split; [done|].
    assert (forall o, os_fd_ s !! o <> Some fd) as Hno.
    { intros o Ho. apply Hfresh, Hopen. eauto. }
    split; cbn.
    + intros o1 o2 x. rewrite !lookup_insert. repeat case_decide; subst; intros; simplify_eq; try done.
      * exfalso. by eapply Hno.
      * exfalso. by eapply Hno.
      * by eapply Huniq.
    + intros x. rewrite elem_of_union, elem_of_singleton, Hopen. split.
      * intros [->|[Hx (o & Ho)]]; (split; [done|]).
        -- exists this. apply lookup_insert_eq.
        -- exists o. rewrite lookup_insert_ne; [done|congruence].
      * intros [Hx (o & Ho)]. revert Ho. rewrite lookup_insert.
        case_decide; intros; simplify_eq; eauto.
  - destruct Hok as (Hnone & [fd Hfd]). unfold Socket_move_ctor. mred. rewrite Hfd.
    eexists. split; [done|]. apply owner_inv_transfer; congruence.
  - destruct Hok as (Hnone & [fd Hfd] & Hne). unfold Socket_move_assign. mred. rewrite Hfd.
    eexists. split; [done|]. apply owner_inv_transfer; congruence.
  - destruct Hok as [fd Hfd]. rewrite (owner_dtor_run s this fd Hinv Hfd).
    eexists. split; [done|]. by apply owner_inv_dtor.
Qed.

(** C32.  However sockets are made, moved, assigned to moved-from sockets and
    destroyed: every operation returns (a destructor's [close] never fails), each
    open descriptor has exactly one owner, and a descriptor whose owner is
    destroyed is closed. *)
Theorem descriptors_have_one_owner s :
  rtc owner_step (mkOwnerState ∅ ∅) s ->
  (forall op, owner_allowed op s -> fst (owner_run op s) = Done tt) /\
  (forall fd, fd ∈ os_open s <-> fd <> (-1)%Z /\ exists o, os_fd_ s !! o = Some fd) /\
  (forall o1 o2 fd, os_fd_ s !! o1 = Some fd -> os_fd_ s !! o2 = Some fd ->
     fd <> (-1)%Z -> o1 = o2).
Proof.
  intros Hs. assert (owner_inv s) as Hinv.
  { refine (rtc_invariant owner_step owner_inv _ _ _ _ Hs).
    - intros a b Ha Hstep. destruct Hstep as [op a' b' Hok <-].
      by destruct (owner_run_inv op a' Ha Hok) as (s' & -> & Hs').
    - split; cbn; [by intros ? ? ? ?|]. intros fd. split; [set_solver|]. by intros [_ [? ?]]. }
  split; [|split; apply Hinv]. intros op Hok.
  by destruct (owner_run_inv op s Hinv Hok) as (s' & -> & _).
Qed.

(** Assigning to a socket that owns a descriptor leaks that descriptor: it
    is still open and no object owns it.  A self-move leaks the socket's own. *)
Theorem move_assign_leaks s this other fd fd' :
  owner_inv s -> os_fd_ s !! this = Some fd -> os_fd_ s !! other = Some fd' ->
  fd <> (-1)%Z ->
  exists s', Socket_move_assign this other s = (Done tt, s') /\
    fd ∈ os_open s' /\ (forall o, os_fd_ s' !! o <> Some fd).
Proof.
  intros (Huniq & Hopen) Hthis Hother Hfd. eexists. split.
  { unfold Socket_move_assign. mred. by rewrite Hother. }
  split; [apply Hopen; by eauto|]. intros o. cbn. rewrite !lookup_insert.
  repeat case_decide; intros Heq; simplify_eq.
  - by pose proof (Huniq _ _ _ Hthis Hother Hfd).
  - match goal with Ho : os_fd_ s !! o = Some _ |- _ =>
      by pose proof (Huniq _ _ _ Hthis Ho Hfd) end.
Qed.
