(* ===== verification/Format.v ===== *)
(** The text of events and of the objects that own descriptors: the formatters of
    [runtime/registry.ccm], [time/registry.ccm], [task/registry.ccm], [net/socket.ccm],
    [net/epoll/listener.ccm], [fs/file_common.ccm] and of [src/io/epoll/registry.cc], which
    the log messages print, and the virtual [Extra::print].  The calendar is that of
    [std::chrono]. *)
From stdpp Require Import base list strings pretty.
From Stdlib Require Import ZArith Lia Ascii String.
From S2P Require Import Prelude Errors Events Wheel Epoll Uring Net.
#[local] Open Scope Z_scope.

(** ** [std::chrono] *)

(** Ticks of [system_clock] in a second. *)
Definition ticks_per_s : Z := 1000 * ticks_per_ms.

(** [std::chrono::round<std::chrono::seconds>]: to the nearest, a tie to the even one. *)
Definition round_seconds (ticks : Z) : Z :=
  let d0 := ticks / ticks_per_s in
  let diff0 := ticks - d0 * ticks_per_s in
  let diff1 := (d0 + 1) * ticks_per_s - ticks in
  if diff0 =? diff1 then (if Z.odd d0 then d0 + 1 else d0)
  else if diff0 <? diff1 then d0 else d0 + 1.

(** [year_month_day(sys_days)] of the day [z], counted from 1970-01-01. *)
Definition civil_from_days (z : Z) : Z * Z * Z :=
  let z := z + 719468 in
  let era := z / 146097 in
  let doe := z - era * 146097 in
  let yoe := (doe - doe / 1460 + doe / 36524 - doe / 146096) / 365 in
  let y := yoe + era * 400 in
  let doy := doe - (365 * yoe + yoe / 4 - yoe / 100) in
  let mp := (5 * doy + 2) / 153 in
  let d := doy - (153 * mp + 2) / 5 + 1 in
  let m := if mp <? 10 then mp + 3 else mp - 9 in
  (if m <=? 2 then y + 1 else y, m, d).

(** [sys_days(year_month_day)]. *)
Definition days_from_civil (date : Z * Z * Z) : Z :=
  let '(y, m, d) := date in
  let y := if m <=? 2 then y - 1 else y in
  let era := y / 400 in
  let yoe := y - era * 400 in
  let mp := if 2 <? m then m - 3 else m + 9 in
  let doy := (153 * mp + 2) / 5 + d - 1 in
  let doe := yoe * 365 + yoe / 4 - yoe / 100 + doy in
  era * 146097 + doe - 719468.

Definition digit (n : Z) : ascii := ascii_of_nat (48 + Z.to_nat n).
Definition two_digits (n : Z) (rest : string) : string :=
  String (digit (n / 10)) (String (digit (n mod 10)) rest).

(** [std::format("{:%F %T}", s)] of the second [s], for a year of four digits. *)
Definition format_seconds (s : Z) : string :=
  let '(y, m, d) := civil_from_days (s / 86400) in
  let tod := s mod 86400 in
  two_digits (y / 100) (two_digits (y mod 100) ("-" +:+ two_digits m ("-" +:+ two_digits d (" " +:+
    two_digits (tod / 3600) (":" +:+ two_digits (tod / 60 mod 60) (":" +:+ two_digits (tod mod 60) "")))))).

(** ** The formatters *)

(** [std::formatter<TimeExtra>::format] and [std::formatter<BlockingExtra>::format]. *)
Definition TimeExtra_format (x : TimeExtra) : string :=
  "TimeExtra{expire_time_=" +:+ format_seconds (round_seconds (expire_time_ x)) +:+ "}".
Definition BlockingExtra_format : string := "BlockingExtra{}".

(** [print] of each class.  [addr_text] reads the [sockaddr_in] at an address: the text
    [inet_ntop] gives and [sin_port]. *)
Definition TimeExtra_print (x : TimeExtra) : string := TimeExtra_format x.
Definition BlockingExtra_print : string := BlockingExtra_format.
Definition EpollExtra_print (x : EpollExtra) : string := EpollExtra_format x.
Definition UringExtra_print (addr_text : nat -> string * Z) (x : UringExtra) : string :=
  UringExtra_format addr_text x.

(** The virtual function [Extra::print]. *)
Definition Extra_print (addr_text : nat -> string * Z) (x : Extra) : string :=
  match x with
  | ETime x => TimeExtra_print x
  | EBlocking _ => BlockingExtra_print
  | EEpoll x => EpollExtra_print x
  | EUring x => UringExtra_print addr_text x
  end.

(** [std::formatter<Event>::format]. *)
Definition Event_format (addr_text : nat -> string * Z) (event : Event) : string :=
  "Event{extra_=" +:+ match extra_ event with
                      | Some x => Extra_print addr_text x
                      | None => "nullptr"
                      end +:+ "}".

(** [{:x}] of a [uint32_t]. *)
Definition hex_digit (n : Z) : ascii := ascii_of_nat (if n <? 10 then 48 + Z.to_nat n else 87 + Z.to_nat n).
Fixpoint hex_go (fuel : nat) (n : Z) (acc : string) : string :=
  match fuel with
  | O => acc
  | S fuel =>
      let acc := String (hex_digit (n mod 16)) acc in
      if n / 16 =? 0 then acc else hex_go fuel (n / 16) acc
  end.
Definition hex (n : Z) : string := hex_go 8 n "".

(** [std::formatter<epoll_event>::format]; [data.ptr] is the event's address. *)
Definition epoll_event_format (addr_text : nat -> string * Z) (events : Z) (event : Event) : string :=
  "epoll_event{events=" +:+ hex events +:+ ",data=" +:+ Event_format addr_text event +:+ "}".

(** Objects that own a descriptor. *)
Definition Socket_format (fd : Z) : string := "Socket{fd_=" +:+ pretty fd +:+ "}".
Definition TcpSocket_format (fd : Z) : string := "TcpSocket{socket_=" +:+ Socket_format fd +:+ "}".
Definition TcpStream_format (fd : Z) : string := "TcpStream{socket_=" +:+ Socket_format fd +:+ "}".
Definition TcpListener_format (fd : Z) : string := "TcpListener{socket_=" +:+ Socket_format fd +:+ "}".
Definition File_format (path : string) : string := "File{path_=" +:+ path +:+ "}".

(** The texts the tests expect. *)
Example formats :
  let none := fun _ => ("", 0) in
  Event_format none (mkEvent None (Some (ETime (mkTimeExtra 1000)))) =
    "Event{extra_=TimeExtra{expire_time_=1970-01-01 00:00:00}}" /\
  Event_format none (mkEvent None (Some (EEpoll (mkEpollExtra 13 InterestAll 4)))) =
    "Event{extra_=IoExtra{state_=[Registered,Readable,Writable], interest_=All, fd_=4}}" /\
  Event_format (fun _ => ("127.0.0.1", 8888)) (mkEvent None (Some (EUring (mkUringExtra (UringConnect 0 16) 1 0 0)))) =
    "Event{extra_=IoExtra{args_=Connect{addr_={127.0.0.1:8888}}, fd_=1, return_=0}}" /\
  Socket_format (-1) = "Socket{fd_=-1}" /\
  format_seconds 1709210096 = "2024-02-29 12:34:56" /\
  hex (to_sys InterestRead) = "40002001".
Proof. split_and!; reflexivity. Qed.

(** ** The calendar *)

Lemma year_of_era doe :
  0 <= doe < 146097 ->
  let yoe := (doe - doe / 1460 + doe / 36524 - doe / 146096) / 365 in
  0 <= yoe < 400 /\ 0 <= doe - (365 * yoe + yoe / 4 - yoe / 100) < 366.
Proof.
  intros Hd yoe. subst yoe.
  assert (doe / 146096 = 0 \/ doe / 146096 = 1) as Hq by (Z.to_euclidean_division_equations; lia).
  assert (doe / 36524 = 0 \/ doe / 36524 = 1 \/ doe / 36524 = 2 \/ doe / 36524 = 3 \/ doe / 36524 = 4) as Hc
    by (Z.to_euclidean_division_equations; lia).
  destruct Hq as [Hq|Hq], Hc as [Hc|[Hc|[Hc|[Hc|Hc]]]]; rewrite Hq, Hc;
    Z.to_euclidean_division_equations; lia.
Qed.

Lemma month_of_year doy :
  0 <= doy < 366 -> let mp := (5 * doy + 2) / 153 in
  0 <= mp < 12 /\ 1 <= doy - (153 * mp + 2) / 5 + 1 <= 31.
Proof. intros Hd mp. subst mp. Z.to_euclidean_division_equations; lia. Qed.

(** The date of a day determines it, and its month and day are in their ranges. *)
Lemma civil_roundtrip z :
  days_from_civil (civil_from_days z) = z /\
  let '(y, m, d) := civil_from_days z in 1 <= m <= 12 /\ 1 <= d <= 31.
Proof.
  unfold civil_from_days. set (era := (z + 719468) / 146097). set (doe := z + 719468 - era * 146097).
  assert (0 <= doe < 146097) as Hdoe by (unfold doe, era; Z.to_euclidean_division_equations; lia).
  destruct (year_of_era doe Hdoe) as [Hyoe Hdoy]. set (yoe := (_ - _ / 1460 + _ - _) / 365) in *.
  set (doy := doe - (365 * yoe + yoe / 4 - yoe / 100)) in *.
  destruct (month_of_year doy Hdoy) as [Hmp Hd]. set (mp := (5 * doy + 2) / 153) in *.
  assert (forall y, (yoe + era * 400) - y = 0 -> y / 400 = era) as Hera
    by (intros y Hy; Z.to_euclidean_division_equations; lia).
  set (m := if mp <? 10 then mp + 3 else mp - 9).
  assert (1 <= m <= 12 /\ (if 2 <? m then m - 3 else m + 9) = mp) as [Hm Hmp'].
  { unfold m. destruct (Z.ltb_spec mp 10); split; [lia| |lia|];
      match goal with |- context [2 <? ?x] => destruct (Z.ltb_spec 2 x) end; lia. }
  split; [|lia]. unfold days_from_civil. rewrite Hmp'.
  assert ((if m <=? 2 then (if m <=? 2 then yoe + era * 400 + 1 else yoe + era * 400) - 1
    else (if m <=? 2 then yoe + era * 400 + 1 else yoe + era * 400)) = yoe + era * 400) as ->
    by (destruct (m <=? 2); lia).
  rewrite (Hera (yoe + era * 400)) by lia.
  replace (yoe + era * 400 - era * 400) with yoe by lia. unfold doy, doe. lia.
Qed.

(** ** What a text determines *)

Lemma digit_inj a b : 0 <= a < 10 -> 0 <= b < 10 -> digit a = digit b -> a = b.
Proof.
  intros Ha Hb E. apply (f_equal nat_of_ascii) in E. unfold digit in E.
  rewrite !nat_ascii_embedding in E by lia. lia.
Qed.

Lemma two_digits_inj a b r r' :
  0 <= a < 100 -> 0 <= b < 100 -> two_digits a r = two_digits b r' -> a = b /\ r = r'.
Proof.
  intros Ha Hb [= E1 E2 ->]. apply digit_inj in E1; [|Z.to_euclidean_division_equations; lia..].
  apply digit_inj in E2; [|Z.to_euclidean_division_equations; lia..].
  split; [|done]. Z.to_euclidean_division_equations; lia.
Qed.

(** The seconds whose year has four digits. *)
Definition four_digit_year (s : Z) : Prop := 0 <= (civil_from_days (s / 86400)).1.1 <= 9999.

Lemma format_seconds_inj s s' :
  four_digit_year s -> four_digit_year s' -> format_seconds s = format_seconds s' -> s = s'.
Proof.
  unfold four_digit_year, format_seconds. intros Hy Hy' E.
  destruct (civil_roundtrip (s / 86400)) as [Hr Hd], (civil_roundtrip (s' / 86400)) as [Hr' Hd'].
  destruct (civil_from_days (s / 86400)) as [[y m] d], (civil_from_days (s' / 86400)) as [[y' m'] d'].
  cbn in Hy, Hy'. assert (0 <= s mod 86400 < 86400) as Ht by (by apply Z.mod_pos_bound).
  assert (0 <= s' mod 86400 < 86400) as Ht' by (by apply Z.mod_pos_bound).
  set (tod := s mod 86400) in *. set (tod' := s' mod 86400) in *.
  apply two_digits_inj in E as [E1 E]; [|Z.to_euclidean_division_equations; lia..].
  apply two_digits_inj in E as [E2 E]; [|Z.to_euclidean_division_equations; lia..]. apply (inj (String.append _)) in E.
  apply two_digits_inj in E as [-> E]; [|lia..]. apply (inj (String.append _)) in E.
  apply two_digits_inj in E as [-> E]; [|lia..]. apply (inj (String.append _)) in E.
  apply two_digits_inj in E as [E3 E]; [|Z.to_euclidean_division_equations; lia..]. apply (inj (String.append _)) in E.
  apply two_digits_inj in E as [E4 E]; [|Z.to_euclidean_division_equations; lia..]. apply (inj (String.append _)) in E.
  apply two_digits_inj in E as [E5 _]; [|Z.to_euclidean_division_equations; lia..].
  assert (y = y') as -> by (Z.to_euclidean_division_equations; lia).
  assert (tod = tod') as Etod by (Z.to_euclidean_division_equations; lia).
  rewrite Hr in Hr'. unfold tod, tod' in Etod. Z.to_euclidean_division_equations; lia.
Qed.

(** Whether a character occurs in a text. *)
Fixpoint contains (c : ascii) (s : string) : bool :=
  match s with
  | EmptyString => false
  | String c' s => bool_decide (c = c') || contains c s
  end.

Lemma text_cons c s s' : String c s +:+ s' = String c (s +:+ s').
Proof. done. Qed.

Lemma contains_app c s s' : contains c (s +:+ s') = contains c s || contains c s'.
Proof. induction s as [|c' s IH]; [done|]. change (String c' s +:+ s') with (String c' (s +:+ s')).
  cbn [contains]. by rewrite IH, orb_assoc. Qed.

Lemma text_assoc (a b c : string) : (a +:+ b) +:+ c = a +:+ (b +:+ c).
Proof. induction a as [|x a IH]; [done|]. by rewrite !text_cons, IH. Qed.

(** A text is determined up to the first occurrence of a separator. *)
Lemma split_at c a a' b b' :
  contains c a = false -> contains c a' = false ->
  a +:+ String c b = a' +:+ String c b' -> a = a' /\ b = b'.
Proof.
  revert a'. induction a as [|x a IH]; intros [|x' a'] Ha Ha'; cbn in *.
  - by intros [= ->].
  - intros [= -> _]. by rewrite bool_decide_true in Ha'.
  - intros [= -> _]. by rewrite bool_decide_true in Ha.
  - apply orb_false_iff in Ha as [_ Ha], Ha' as [_ Ha']. intros [= -> E].
    by destruct (IH a' Ha Ha' E) as [-> ->].
Qed.

Lemma drop_last c a a' : a +:+ String c "" = a' +:+ String c "" -> a = a'.
Proof.
  revert a'. induction a as [|x a IH]; intros [|x' a']; cbn; [done| | |].
  - intros [= _ E]. by destruct a'.
  - intros [= _ E]. by destruct a.
  - intros [= -> E]. f_equal. by apply IH.
Qed.

(** A number contains digits and a sign only. *)
Lemma contains_pretty_N c (n : N) : (forall i, c <> pretty_N_char i) -> contains c (pretty n) = false.
Proof.
  intros Hc. unfold pretty, pretty_N. destruct (decide (n = 0)%N) as [->|Hn].
  { cbn. rewrite bool_decide_false; [done|]. apply (Hc 0%N). }
  assert (forall s, contains c s = false -> contains c (pretty_N_go n s) = false) as Hgo; [|by apply Hgo].
  clear Hn. induction n as [n IH] using (well_founded_induction N.lt_wf_0). intros s Hs.
  destruct (decide (n = 0)%N) as [->|Hn]; [by rewrite pretty_N_go_0|].
  rewrite pretty_N_go_step by lia. apply IH; [apply N.div_lt; lia|]. cbn. by rewrite bool_decide_false.
Qed.

Definition separator (c : ascii) : Prop := c = ","%char \/ c = " "%char \/ c = "}"%char.
Lemma contains_pretty c (z : Z) : separator c -> contains c (pretty z) = false.
Proof.
  intros Hc. assert (forall i, c <> pretty_N_char i) as Hd.
  { unfold pretty_N_char. intros i. destruct Hc as [->|[->| ->]]; by repeat case_match. }
  destruct z as [|p|p]; unfold pretty, pretty_Z.
  - cbn. rewrite bool_decide_false; [done|]. apply (Hd 0%N).
  - by apply (contains_pretty_N c (N.pos p)).
  - rewrite contains_app. change (pretty p) with (pretty (N.pos p)).
    rewrite (contains_pretty_N c (N.pos p) Hd). by destruct Hc as [->|[->| ->]].
Qed.

(** ** Events *)

(** What the text of an extra shows. *)
Definition shown_flags (state : Z) : list bool :=
  (fun F => State_get_field F state) <$> [Registered; PendingBit; ReadableBit; WritableBit; ErrorBit].

Definition shown_args (addr_text : nat -> string * Z) (x y : UringArgs) : Prop :=
  match x, y with
  | UringRead _ len offset, UringRead _ len' offset' => len = len' /\ offset = offset'
  | UringWrite _ len offset, UringWrite _ len' offset' => len = len' /\ offset = offset'
  | UringClose, UringClose => True
  | UringAccept a _ flags, UringAccept a' _ flags' =>
      (addr_text a).1 +:+ ":" +:+ pretty (addr_text a).2 = (addr_text a').1 +:+ ":" +:+ pretty (addr_text a').2 /\
      flags = flags'
  | UringConnect a _, UringConnect a' _ =>
      (addr_text a).1 +:+ ":" +:+ pretty (addr_text a).2 = (addr_text a').1 +:+ ":" +:+ pretty (addr_text a').2
  | UringShutdown s, UringShutdown s' => s = s'
  | _, _ => False
  end.

Definition same_shown (addr_text : nat -> string * Z) (x y : option Extra) : Prop :=
  match x, y with
  | None, None => True
  | Some (ETime x), Some (ETime y) => round_seconds (expire_time_ x) = round_seconds (expire_time_ y)
  | Some (EBlocking _), Some (EBlocking _) => True
  | Some (EEpoll x), Some (EEpoll y) =>
      shown_flags (ep_state_ x) = shown_flags (ep_state_ y) /\ interest_ x = interest_ y /\ ep_fd_ x = ep_fd_ y
  | Some (EUring x), Some (EUring y) =>
      shown_args addr_text (args_ x) (args_ y) /\ ur_fd_ x = ur_fd_ y /\ return_ x = return_ y
  | _, _ => False
  end.

(** The text of the state, from its flags. *)
Definition state_text (flags : list bool) : string :=
  let flag (i : nat) (name : string) := if default false (flags !! i) then name else ""%string in
  replace_last ("[" +:+ flag 0%nat "Registered," +:+ flag 1%nat "Pending," +:+ flag 2%nat "Readable,"
    +:+ flag 3%nat "Writable," +:+ flag 4%nat "Error,").

Definition interest_text (i : Interest) : string :=
  match i with InterestRead => "Read" | InterestWrite => "Write" | InterestAll => "All" end.

Lemma EpollExtra_text x :
  EpollExtra_format x = "IoExtra{state_=" +:+ state_text (shown_flags (ep_state_ x)) +:+ ", interest_=" +:+
    interest_text (interest_ x) +:+ ", fd_=" +:+ pretty (ep_fd_ x) +:+ "}".
Proof. done. Qed.

Lemma state_text_inj state state' :
  state_text (shown_flags state) = state_text (shown_flags state') -> shown_flags state = shown_flags state'.
Proof.
  unfold shown_flags. cbn [fmap list_fmap].
  generalize (State_get_field Registered state), (State_get_field PendingBit state),
    (State_get_field ReadableBit state), (State_get_field WritableBit state), (State_get_field ErrorBit state),
    (State_get_field Registered state'), (State_get_field PendingBit state'),
    (State_get_field ReadableBit state'), (State_get_field WritableBit state'), (State_get_field ErrorBit state').
  intros [] [] [] [] [] [] [] [] [] []; first [done | intros E; vm_compute in E; discriminate E].
Qed.

Lemma state_text_plain state : contains " " (state_text (shown_flags state)) = false.
Proof. unfold shown_flags. cbn [fmap list_fmap]. by repeat destruct (State_get_field _ state). Qed.

(** Cancels a common prefix. *)
Ltac strip E := apply (inj (String.append _)) in E.

Lemma EpollExtra_format_inj x y :
  EpollExtra_format x = EpollExtra_format y ->
  shown_flags (ep_state_ x) = shown_flags (ep_state_ y) /\ interest_ x = interest_ y /\ ep_fd_ x = ep_fd_ y.
Proof.
  rewrite !EpollExtra_text. intros E. strip E.
  assert (forall s r, s +:+ ", interest_=" +:+ r = (s +:+ ",") +:+ String " " ("interest_=" +:+ r)) as Hs
    by (intros; by rewrite text_assoc).
  rewrite !Hs in E. apply split_at in E as [E1 E]; [|by rewrite contains_app, state_text_plain..].
  apply drop_last, state_text_inj in E1. strip E.
  apply (split_at ",") in E as [E2 E]; [|by destruct (interest_ x)|by destruct (interest_ y)].
  apply (inj (String.append " fd_=")), drop_last, (inj pretty) in E.
  split_and!; [done| |done]. by destruct (interest_ x), (interest_ y).
Qed.

(** The end of the text of an [io_uring] extra. *)
Lemma uring_tail_inj (fd fd' ret_ ret' : Z) :
  ", fd_=" +:+ pretty fd +:+ ", return_=" +:+ pretty ret_ +:+ "}" =
    ", fd_=" +:+ pretty fd' +:+ ", return_=" +:+ pretty ret' +:+ "}" -> fd = fd' /\ ret_ = ret'.
Proof.
  intros E. strip E. apply (split_at ",") in E as [E1 E]; [|by apply contains_pretty; left..].
  apply (inj (String.append " return_=")), drop_last, (inj pretty) in E.
  apply (inj pretty) in E1. done.
Qed.

(** Addresses whose text has no brace. *)
Definition plain_addresses (addr_text : nat -> string * Z) : Prop :=
  forall a, contains "}" (addr_text a).1 = false.

(** The text of the length and offset of a transfer, followed by anything. *)
Lemma transfer_inj (len len' offset offset' : Z) rest rest' :
  (pretty len +:+ ", offset_=" +:+ pretty offset +:+ "}") +:+ rest =
    (pretty len' +:+ ", offset_=" +:+ pretty offset' +:+ "}") +:+ rest' ->
  (len = len' /\ offset = offset') /\ rest = rest'.
Proof.
  rewrite !text_assoc. intros E. apply (split_at ",") in E as [E1 E]; [|by apply contains_pretty; left..].
  apply (inj (String.append " offset_=")) in E.
  apply (split_at "}") in E as [E2 E]; [|by apply contains_pretty; right; right..].
  apply (inj pretty) in E1, E2. done.
Qed.

(** The text of an address ends at the first brace. *)
Lemma address_plain addr_text a :
  plain_addresses addr_text ->
  contains "}" ((addr_text a).1 +:+ ":" +:+ pretty (addr_text a).2) = false.
Proof. intros Hp. rewrite contains_app, Hp. by apply contains_pretty; right; right. Qed.

(** The text of the arguments, followed by anything. *)
Lemma UringArgs_format_inj addr_text x y rest rest' :
  plain_addresses addr_text ->
  UringArgs_format addr_text x +:+ rest = UringArgs_format addr_text y +:+ rest' ->
  shown_args addr_text x y /\ rest = rest'.
Proof.
  intros Hp.
  assert (forall a p f r, (a +:+ ":" +:+ p +:+ "}, flags_=" +:+ f +:+ "}") +:+ r =
    (a +:+ ":" +:+ p) +:+ String "}" (", flags_=" +:+ f +:+ String "}" r)) as Haccept
    by (intros; by rewrite !text_assoc).
  assert (forall a p r, (a +:+ ":" +:+ p +:+ "}}") +:+ r = (a +:+ ":" +:+ p) +:+ String "}" (String "}" r))
    as Hconnect by (intros; by rewrite !text_assoc).
  destruct x, y; cbn [UringArgs_format shown_args]; try (intros E; by exfalso; discriminate E).
  - rewrite !(text_assoc "Read{len_="). intros E. strip E. by apply transfer_inj.
  - rewrite !(text_assoc "Write{len_="). intros E. strip E. by apply transfer_inj.
  - intros E. strip E. done.
  - rewrite !(text_assoc "Accept{addr_={"), !Haccept. intros E. strip E.
    apply split_at in E as [E1 E]; [|by apply address_plain..]. strip E.
    apply (split_at "}") in E as [E2 E]; [|by apply contains_pretty; right; right..].
    apply (inj pretty) in E2. done.
  - rewrite !(text_assoc "Connect{addr_={"), !Hconnect. intros E. strip E.
    apply split_at in E as [E1 E]; [|by apply address_plain..]. by injection E as E.
  - destruct shutdown_, shutdown_0; intros E; try (by exfalso; discriminate E); strip E; done.
Qed.

(** A timer can be printed when its year has four digits. *)
Definition printable (x : option Extra) : Prop :=
  match x with Some (ETime x) => four_digit_year (round_seconds (expire_time_ x)) | _ => True end.

Lemma same_print addr_text x y :
  same_shown addr_text x y ->
  match x with Some x => Extra_print addr_text x | None => "nullptr" end =
  match y with Some y => Extra_print addr_text y | None => "nullptr" end.
Proof.
  assert (forall a p r, a +:+ ":" +:+ p +:+ r = (a +:+ ":" +:+ p) +:+ r) as Hcont
    by (intros; by rewrite !text_assoc).
  destruct x as [[x|x|x|x]|], y as [[y|y|y|y]|]; cbn [same_shown Extra_print]; try done.
  - intros E. unfold TimeExtra_print, TimeExtra_format. by rewrite E.
  - intros (E1 & E2 & E3). unfold EpollExtra_print. by rewrite !EpollExtra_text, E1, E2, E3.
  - intros (E1 & E2 & E3). unfold UringExtra_print, UringExtra_format. rewrite E2, E3. do 2 f_equal.
    destruct (args_ x), (args_ y); cbn [shown_args UringArgs_format] in *; try done.
    + by destruct E1 as [-> ->].
    + by destruct E1 as [-> ->].
    + destruct E1 as [E1 ->]. by rewrite !Hcont, E1.
    + by rewrite !Hcont, E1.
    + by subst.
Qed.

(** What a printed event shows: two events have the same text if and only if their extras
    are of the same class and agree, a timer on its time to the second, an epoll event
    on the flags of its state, its interest and its descriptor, an io_uring event on its
    operation, its descriptor and its result. *)
Theorem printed_event_shows addr_text ev ev' :
  plain_addresses addr_text -> printable (extra_ ev) -> printable (extra_ ev') ->
  Event_format addr_text ev = Event_format addr_text ev' <-> same_shown addr_text (extra_ ev) (extra_ ev').
Proof.
  intros Hp Hy Hy'. unfold Event_format. split.
  - intros E. strip E. apply drop_last in E. revert Hy Hy' E.
    destruct (extra_ ev) as [[x|x|x|x]|], (extra_ ev') as [[y|y|y|y]|]; cbn [same_shown Extra_print];
      intros Hy Hy' E; try done; try (by exfalso; discriminate E).
    + strip E. apply drop_last in E. by apply format_seconds_inj.
    + by apply EpollExtra_format_inj.
    + strip E. apply UringArgs_format_inj in E as [E1 E]; [|done].
      by apply uring_tail_inj in E as [E2 E3].
  - intros E. do 2 f_equal. by apply same_print.
Qed.

(** The text of a state without flags is the closing bracket alone: it takes the place of
    the opening one. *)
Example no_flags_text :
  EpollExtra_format (EpollExtra_new InterestAll 4) = "IoExtra{state_=], interest_=All, fd_=4}"%string.
Proof. reflexivity. Qed.
