(* ===== verification/Files.v ===== *)
(** Opening files: [include/xyco/fs/file_common.ccm] and [OpenOptions::open] of
    [src/fs/epoll/file.cc] and [src/fs/io_uring/file.cc], whose bodies agree. *)
From stdpp Require Import base list strings.
From Stdlib Require Import ZArith Lia.
From S2P Require Import Prelude Errors.

#[local] Open Scope Z_scope.

(** The flags of [open(2)] on Linux. *)
Definition O_RDONLY : Z := 0.
Definition O_WRONLY : Z := 1.
Definition O_RDWR : Z := 2.
Definition O_CREAT : Z := 64.
Definition O_EXCL : Z := 128.
Definition O_TRUNC : Z := 512.
Definition O_APPEND : Z := 1024.
Definition O_CLOEXEC : Z := 524288.

(** ** [OpenOptionsBase] *)

Record OpenOptions : Type := mkOpenOptions {
  read_ : bool;
  write_ : bool;
  append_ : bool;
  truncate_ : bool;
  create_ : bool;
  create_new_ : bool;
  mode_ : Z;
}.

(** [default_mode_] is [0666], in octal. *)
Definition default_mode_ : Z := 438.
Definition OpenOptions_new : OpenOptions :=
  mkOpenOptions false false false false false false default_mode_.

Definition set_read (b : bool) (o : OpenOptions) : OpenOptions :=
  mkOpenOptions b (write_ o) (append_ o) (truncate_ o) (create_ o) (create_new_ o) (mode_ o).
Definition set_write (b : bool) (o : OpenOptions) : OpenOptions :=
  mkOpenOptions (read_ o) b (append_ o) (truncate_ o) (create_ o) (create_new_ o) (mode_ o).
Definition set_truncate (b : bool) (o : OpenOptions) : OpenOptions :=
  mkOpenOptions (read_ o) (write_ o) (append_ o) b (create_ o) (create_new_ o) (mode_ o).
Definition set_append (b : bool) (o : OpenOptions) : OpenOptions :=
  mkOpenOptions (read_ o) (write_ o) b (truncate_ o) (create_ o) (create_new_ o) (mode_ o).
Definition set_create (b : bool) (o : OpenOptions) : OpenOptions :=
  mkOpenOptions (read_ o) (write_ o) (append_ o) (truncate_ o) b (create_new_ o) (mode_ o).
Definition set_create_new (b : bool) (o : OpenOptions) : OpenOptions :=
  mkOpenOptions (read_ o) (write_ o) (append_ o) (truncate_ o) (create_ o) b (mode_ o).
Definition set_mode (m : Z) (o : OpenOptions) : OpenOptions :=
  mkOpenOptions (read_ o) (write_ o) (append_ o) (truncate_ o) (create_ o) (create_new_ o) m.

Definition get_access_mode (o : OpenOptions) : Result Z :=
  if read_ o && negb (write_ o) && negb (append_ o) then Value O_RDONLY
  else if negb (read_ o) && write_ o && negb (append_ o) then Value O_WRONLY
  else if read_ o && write_ o && negb (append_ o) then Value O_RDWR
  else if negb (read_ o) && append_ o then Value (Z.lor O_WRONLY O_APPEND)
  else if read_ o && append_ o then Value (Z.lor O_RDWR O_APPEND)
  else Unexpected (mkError EINVAL "").

Definition get_creation_mode (o : OpenOptions) : Result Z :=
  if negb (write_ o) && negb (append_ o) && (truncate_ o || create_ o || create_new_ o)
  then Unexpected (mkError EINVAL "")
  else if append_ o && (truncate_ o && negb (create_new_ o))
  then Unexpected (mkError EINVAL "")
  else if negb (create_ o) && negb (truncate_ o) && negb (create_new_ o) then Value 0
  else if create_ o && negb (truncate_ o) && negb (create_new_ o) then Value O_CREAT
  else if negb (create_ o) && truncate_ o && negb (create_new_ o) then Value O_TRUNC
  else if create_ o && truncate_ o && negb (create_new_ o) then Value (Z.lor O_CREAT O_TRUNC)
  else Value (Z.lor O_CREAT O_EXCL).

(** ** [OpenOptions::open] *)

(** [FileBase]: the descriptor and the path. *)
Record File : Type := mkFile { f_fd_ : Z; f_path_ : string }.

(** The closure [open] hands to the blocking pool.  [sys_open path flags mode] is
    the result of [open(2)] and the thread's [errno] after it; the state is the
    list of the calls made. *)
Section Open.
Context (sys_open : string -> Z -> Z -> Z * Z).

Definition OpenOptions_open (o : OpenOptions) (path : string)
    : M (list (string * Z * Z)) (Result File) :=
  match get_access_mode o with
  | Unexpected e => ret (Unexpected e)
  | Value access_mode =>
      match get_creation_mode o with
      | Unexpected e => ret (Unexpected e)
      | Value creation_mode =>
          let flags := Z.lor (Z.lor O_CLOEXEC access_mode) creation_mode in
          modify (fun calls => calls ++ [(path, flags, mode_ o)]) ;;;
          let '(fd, errno) := sys_open path flags (mode_ o) in
          ret (transform (fun fd => mkFile fd path) (into_sys_result errno fd))
      end
  end.

(** [FileBase::create] and [FileBase::open]. *)
Definition File_create (path : string) : M (list (string * Z * Z)) (Result File) :=
  OpenOptions_open (set_truncate true (set_create true (set_write true OpenOptions_new))) path.
Definition File_open (path : string) : M (list (string * Z * Z)) (Result File) :=
  OpenOptions_open (set_read true OpenOptions_new) path.

(** ** What the options mean *)

(** The combinations [open] refuses: no access at all, asking to create or
    truncate without write access, and truncating a file opened to append. *)
Definition refused (o : OpenOptions) : bool :=
  negb (read_ o || write_ o || append_ o)
  || negb (write_ o || append_ o) && (truncate_ o || create_ o || create_new_ o)
  || append_ o && truncate_ o && negb (create_new_ o).

Definition has (flag flags : Z) : bool := negb (Z.land flags flag =? 0).

(** The flags say what was asked. *)
Definition flags_mean (o : OpenOptions) (flags : Z) : Prop :=
  has O_CLOEXEC flags = true /\
  Z.land flags 3 = (if write_ o || append_ o then if read_ o then O_RDWR else O_WRONLY
                    else O_RDONLY) /\
  has O_APPEND flags = append_ o /\
  has O_CREAT flags = create_ o || create_new_ o /\
  has O_EXCL flags = create_new_ o /\
  has O_TRUNC flags = truncate_ o && negb (create_new_ o).

Lemma modes_mean o :
  match get_access_mode o, get_creation_mode o with
  | Value a, Value c => refused o = false /\ flags_mean o (Z.lor (Z.lor O_CLOEXEC a) c)
  | Unexpected e, _ | Value _, Unexpected e => refused o = true /\ e = mkError EINVAL ""
  end.
Proof. destruct o as [[] [] [] [] [] [] m]; repeat split. Qed.

(** C31.  [open] refuses a meaningless combination of options with [EINVAL] and
    calls nothing.  Any other one is passed to [open(2)] once: the flags have the
    requested access mode, [O_CREAT], [O_EXCL], [O_TRUNC] and [O_APPEND] exactly as
    the options ask ([create_new] overrides [truncate]), and always [O_CLOEXEC].
    The file holds the descriptor the kernel returns and the path; the kernel's
    error is handed on. *)
Theorem open_passes_options o path calls :
  (refused o = true /\
   OpenOptions_open o path calls = (Done (Unexpected (mkError EINVAL "")), calls)) \/
  (refused o = false /\ exists flags fd errno, flags_mean o flags /\
   sys_open path flags (mode_ o) = (fd, errno) /\
   OpenOptions_open o path calls =
     (Done (if fd =? -1 then Unexpected (mkError errno "") else Value (mkFile fd path)),
      calls ++ [(path, flags, mode_ o)])).
Proof.
  pose proof (modes_mean o) as Hm. unfold OpenOptions_open.
  destruct (get_access_mode o) as [a|e]; [|destruct Hm as [Hr ->]; by left].
  destruct (get_creation_mode o) as [c|e]; [|destruct Hm as [Hr ->]; by left].
  destruct Hm as [Hr Hf]. right. split; [done|]. set (flags := Z.lor _ c) in *.
  destruct (sys_open path flags (mode_ o)) as [fd errno] eqn:Hopen.
  exists flags, fd, errno. split_and!; [done|done|].
  mred.
  unfold into_sys_result. by destruct (fd =? -1).
Qed.

End Open.
