(* ===== verification/Tcp.v ===== *)
(** TCP over epoll: the futures of [include/xyco/net/epoll/listener.ccm] and
    [src/net/epoll/listener.cc].

    A poll is given what the system call it makes would return: [(result, errno)]
    of [read], [write] or [accept4], the value [getsockopt] stores. *)
From stdpp Require Import base gmap list sets strings.
From Stdlib Require Import ZArith Lia.
From S2P Require Import Prelude Errors Events Futures Core Driver Epoll Net.

(** [typeid(io::epoll::IoRegistry).hash_code()]. *)
Definition EpollRegistry_hash : nat := 3.

(** [TcpStream] and [TcpListener]: the socket's descriptor and [event_]. *)
Record TcpStream : Type := mkTcpStream { ts_fd : Z; ts_event_ : eid }.
Record TcpListener : Type := mkTcpListener { tl_fd : Z; tl_event_ : eid }.

(** [TcpStream::TcpStream], with its event at [e]. *)
Definition TcpStream_new (e : eid) (fd : Z) (writable readable : bool) (es : EventStore)
    : TcpStream * EventStore :=
  let state := if writable then State_set_field WritableBit true 0 else 0%Z in
  let state := if readable then State_set_field ReadableBit true state else state in
  (mkTcpStream fd e, <[e := mkEvent None (Some (EEpoll (mkEpollExtra state InterestAll fd)))]> es).

(** [TcpListener::TcpListener]. *)
Definition TcpListener_new (e : eid) (fd : Z) (es : EventStore) : TcpListener * EventStore :=
  (mkTcpListener fd e,
   <[e := mkEvent None (Some (EEpoll (EpollExtra_new InterestRead fd)))]> es).

Section Tcp.
Context {R V Env : Type} `{Registry R Env} `{InetText}.
Implicit Types (w : World R V) (t : tid) (this : fid).

(** [dynamic_cast<IoExtra *>(event->extra_.get())], dereferenced. *)
Definition io_extra (e : eid) : M (World R V) EpollExtra :=
  let! w := get in deref (epoll_extra (w_events w) e).

(** [event->future_ = f]. *)
Definition bind_future (e : eid) (f : option fid) : M (World R V) unit :=
  modify (fun w => set_events (alter (set_future f) e (w_events w)) w).

(** Assignments to the extra's fields. *)
Definition set_interest (e : eid) (i : Interest) : M (World R V) unit :=
  let! x := io_extra e in
  modify (fun w => set_events
    (alter (set_extra (EEpoll (mkEpollExtra (ep_state_ x) i (ep_fd_ x)))) e (w_events w)) w).
Definition set_io_state (e : eid) (f : Z -> Z) : M (World R V) unit :=
  let! x := io_extra e in
  modify (fun w => set_events (set_epoll_state e x (f (ep_state_ x)) (w_events w)) w).

(** [poll] of the future of [TcpStream::read]. *)
Definition TcpStream_read_poll (io : Z * Z) (env : Env) t this (self : TcpStream)
    : M (World R V) (Poll (Result Z)) :=
  let e := ts_event_ self in
  let! extra := io_extra e in
  if negb (State_get_field Registered (ep_state_ extra)) then
    bind_future e (Some this) ;;;
    set_interest e InterestRead ;;;
    Driver_Register env t EpollRegistry_hash e ;;;
    ret Pending
  else
    let ready := State_get_field ErrorBit (ep_state_ extra)
                 || State_get_field ReadableBit (ep_state_ extra) in
    let '(read_bytes, errno) := io in
    if ready && negb (read_bytes =? -1)%Z then
      set_io_state e (State_set_field ReadableBit false) ;;;
      ret (Ready (Value read_bytes))
    else if ready && negb (errno =? EAGAIN)%Z then
      ret (Ready (Unexpected (from_sys_error errno)))
    else
      bind_future e (Some this) ;;;
      set_interest e InterestRead ;;;
      Driver_reregister env t EpollRegistry_hash e ;;;
      ret Pending.

(** [poll] of the future of [TcpStream::write]. *)
Definition TcpStream_write_poll (io : Z * Z) (env : Env) t this (self : TcpStream)
    : M (World R V) (Poll (Result Z)) :=
  let e := ts_event_ self in
  let! extra := io_extra e in
  if negb (State_get_field Registered (ep_state_ extra)) then
    bind_future e (Some this) ;;;
    set_interest e InterestWrite ;;;
    Driver_Register env t EpollRegistry_hash e ;;;
    ret Pending
  else if State_get_field ErrorBit (ep_state_ extra)
          || State_get_field WritableBit (ep_state_ extra) then
    ret (Ready (into_sys_result io.2 io.1))
  else
    bind_future e (Some this) ;;;
    set_interest e InterestWrite ;;;
    Driver_reregister env t EpollRegistry_hash e ;;;
    ret Pending.

(** The destructor of both futures. *)
Definition TcpStream_future_dtor (self : TcpStream) : M (World R V) unit :=
  bind_future (ts_event_ self) None.

(** [TcpStream::~TcpStream]. *)
Definition TcpStream_dtor (env : Env) t (self : TcpStream) : M (World R V) unit :=
  if (ts_fd self =? -1)%Z then ret tt
  else
    let! extra := io_extra (ts_event_ self) in
    if State_get_field Registered (ep_state_ extra)
    then Driver_deregister env t EpollRegistry_hash (ts_event_ self) else ret tt.

(** [poll] of the future of [TcpSocket::connect], once the non-blocking [connect]
    is in progress: [so_error] is what [getsockopt] stores, [strerror] its text,
    [e'] the address of the stream's event. *)
Definition TcpSocket_connect_poll (so_error : Z) (strerror : string) (env : Env) t this
    (fd : Z) (e e' : eid) : M (World R V) (Poll (Result TcpStream)) :=
  let! extra := io_extra e in
  if State_get_field ErrorBit (ep_state_ extra) || State_get_field WritableBit (ep_state_ extra) then
    if negb (so_error =? 0)%Z then
      Driver_deregister env t EpollRegistry_hash e ;;;
      ret (Ready (Unexpected (mkError so_error strerror)))
    else
      Driver_deregister env t EpollRegistry_hash e ;;;
      let! extra := io_extra e in
      let! w := get in
      let '(stream, es) := TcpStream_new e' fd
        (State_get_field WritableBit (ep_state_ extra))
        (State_get_field ReadableBit (ep_state_ extra)) (w_events w) in
      put (set_events es w) ;;;
      ret (Ready (Value stream))
  else
    bind_future e (Some this) ;;;
    Driver_Register env t EpollRegistry_hash e ;;;
    ret Pending.

(** [poll] of the future of [TcpListener::accept]; [peer] is what [accept4]
    stores in [addr_in_]. *)
Definition TcpListener_accept_poll (io : Z * Z) (peer : sockaddr_in) (env : Env) t this
    (self : TcpListener) (e' : eid) : M (World R V) (Poll (Result (TcpStream * SocketAddr))) :=
  let e := tl_event_ self in
  let! extra := io_extra e in
  if negb (State_get_field Registered (ep_state_ extra)) then
    bind_future e (Some this) ;;;
    Driver_Register env t EpollRegistry_hash e ;;;
    ret Pending
  else if State_get_field ErrorBit (ep_state_ extra) then
    ret (Ready (Unexpected (mkError 1 "epoll state error")))
  else if State_get_field ReadableBit (ep_state_ extra) then
    match into_sys_result io.2 io.1 with
    | Unexpected err =>
        if (errno_ err =? EAGAIN)%Z then
          bind_future e (Some this) ;;;
          Driver_reregister env t EpollRegistry_hash e ;;;
          ret Pending
        else ret (Ready (Unexpected err))
    | Value fd =>
        let sock_addr := SocketAddr_new_v4 (Ipv4Addr_new (Some (inet_ntop4 (sin_addr peer))))
                           (sin_port peer) in
        let! w := get in
        let '(stream, es) := TcpStream_new e' fd false false (w_events w) in
        put (set_events es w) ;;;
        ret (Ready (Value (stream, sock_addr)))
    end
  else ret Pending.

(** [TcpListener::~TcpListener]; a listener that was moved from has descriptor [-1]
    and no event. *)
Definition TcpListener_dtor (env : Env) t (fd : Z) (event : option eid) : M (World R V) unit :=
  if (fd =? -1)%Z then ret tt
  else
    match event with
    | None => ret tt
    | Some e =>
        let! extra := io_extra e in
        if State_get_field Registered (ep_state_ extra)
        then Driver_deregister env t EpollRegistry_hash e else ret tt
    end.
End Tcp.
