(* ===== verification/TcpSpec.v ===== *)
(** What the TCP futures over epoll guarantee: a future that returns [Pending]
    has its event armed, and a ready one returns what the system call returned. *)
From stdpp Require Import base gmap list sets strings.
From Stdlib Require Import ZArith Lia.
From S2P Require Import Prelude Errors Events Futures Core Driver Epoll Net Tcp.

Section Spec.
Context {V : Type} `{InetText}.
Implicit Types (w : World EpollRegistry V) (env : EpollEnv) (t : tid) (this : fid).

(** The event is held by the epoll registry of thread [t], whose last call asked
    the kernel for this interest, and it will resume [this]. *)
Definition armed t w (e : eid) this (op : CtlOp) (fd : Z) (i : Interest) : Prop :=
  exists a r, registry_of t EpollRegistry_hash w = Some a /\ w_registries w !! a = Some r /\
    e ∈ ep_registered_events_ r /\
    last (ep_syscalls r) = Some (epoll_ctl op fd (to_sys i) e) /\
    future_of (w_events w) e = Some this.

(** A call through the driver that returned. *)
Lemma driver_call_inv op env t hash e w u w' :
  Driver_call op env t hash e w = (Done u, w') ->
  exists a r r' es', registry_of t hash w = Some a /\ w_registries w !! a = Some r /\
    op env e (r, w_events w) = (Done (Value tt), (r', es')) /\
    w' = set_events es' (set_registries (<[a := r']> (w_registries w)) (per_runtime_registry_ w) w).
Proof.
  unfold Driver_call. mred. destruct (registry_of t hash w) as [a|] eqn:Ha; [|done].
  unfold on_registry. destruct (w_registries w !! a) as [r|] eqn:Hr; [|done].
  destruct (op env e (r, w_events w)) as [[res| |] [r' es']] eqn:Hop; [|done|done].
  unfold deref_expected. destruct res as [[]|]; [|done]. intros [= _ <-]. by exists a, r, r', es'.
Qed.

(** The extras and bindings of an event that is about to be registered. *)
Lemma arm_run e this i w x :
  epoll_extra (w_events w) e = Some x ->
  exists es, (bind_future e (Some this) ;;; set_interest e i) w = (Done tt, set_events es w) /\
    epoll_extra es e = Some (mkEpollExtra (ep_state_ x) i (ep_fd_ x)) /\
    future_of es e = Some this /\ (forall e', e' <> e -> es !! e' = w_events w !! e').
Proof.
  intros Hx. unfold set_interest, io_extra, bind_future. mred. cbn [w_events set_events].
  assert (epoll_extra (alter (set_future (Some this)) e (w_events w)) e = Some x) as Hx1.
  { revert Hx. unfold epoll_extra. rewrite lookup_alter_eq. by destruct (w_events w !! e) as [[? [[]|]]|]. }
  rewrite Hx1. eexists. split; [reflexivity|].
  rewrite (assoc and). split; [|intros e' Hne; cbn; by rewrite !lookup_alter_ne by done].
  unfold epoll_extra, future_of in *. rewrite !(lookup_alter_eq _ _ e).
  destruct (w_events w !! e) as [[f [[]|]]|] eqn:Hw; cbn in *; try discriminate Hx.
  by rewrite lookup_alter_eq, Hw.
Qed.

Lemma io_extra_run e w x : epoll_extra (w_events w) e = Some x -> io_extra e w = (Done x, w).
Proof. intros Hx. unfold io_extra. mred. by rewrite Hx. Qed.

Lemma future_of_set_state e x f es e' : future_of (set_epoll_state e x f es) e' = future_of es e'.
Proof. apply future_of_set_extra. Qed.

(** Registering an event bound to [this] arms it. *)
Lemma register_arms env t e this w w' x :
  Driver_Register env t EpollRegistry_hash e w = (Done tt, w') ->
  epoll_extra (w_events w) e = Some x -> future_of (w_events w) e = Some this ->
  armed t w' e this CtlAdd (ep_fd_ x) (interest_ x).
Proof.
  intros Hrun Hx Hf. apply driver_call_inv in Hrun as (a & r & r' & es' & Ha & Hr & Hop & ->).
  revert Hop. cbn [Register EpollRegistry_ops]. unfold Epoll_Register. mred. rewrite Hx.
  destruct (into_sys_result _ _) eqn:Hres; cbn [has_value transform].
  - intros [= <- <-]. exists a. eexists. cbn [w_registries set_events set_registries w_events].
    rewrite lookup_insert_eq. split_and!; [done|done|cbn; set_solver|apply last_snoc|].
    by rewrite future_of_set_state.
  - unfold drop_registered. mred. by destruct (erase_registered _ _).
Qed.

Lemma reregister_arms env t e this w w' x :
  Driver_reregister env t EpollRegistry_hash e w = (Done tt, w') ->
  epoll_extra (w_events w) e = Some x -> future_of (w_events w) e = Some this ->
  armed t w' e this CtlMod (ep_fd_ x) (interest_ x).
Proof.
  intros Hrun Hx Hf. apply driver_call_inv in Hrun as (a & r & r' & es' & Ha & Hr & Hop & ->).
  revert Hop. cbn [reregister EpollRegistry_ops]. unfold Epoll_reregister. mred. rewrite Hx.
  destruct (into_sys_result _ _) eqn:Hres; cbn [has_value transform].
  - intros [= <- <-]. exists a. eexists. cbn [w_registries set_events set_registries w_events].
    rewrite lookup_insert_eq. split_and!; [done|done|cbn; set_solver|apply last_snoc|done].
  - unfold drop_registered. mred. by destruct (erase_registered _ _).
Qed.

(** The tail of a poll that suspends. *)
Lemma suspend_inv {A} (call : M (World EpollRegistry V) unit) e this i w w' x (p : Poll A) :
  epoll_extra (w_events w) e = Some x ->
  (bind_future e (Some this) ;;; set_interest e i ;;; call ;;; ret Pending) w = (Done p, w') ->
  exists es, call (set_events es w) = (Done tt, w') /\
    epoll_extra es e = Some (mkEpollExtra (ep_state_ x) i (ep_fd_ x)) /\
    future_of es e = Some this.
Proof.
  intros Hx Hrun. destruct (arm_run e this i w x Hx) as (es & Harm & Hx' & Hf & _).
  exists es. split; [|done]. revert Hrun Harm. unfold bind_future. mred.
  destruct (set_interest e i _) as [[[]| |] w1]; intros Hrun Harm; simplify_eq.
  destruct (call (set_events es w)) as [[[]| |] w2]; by simplify_eq.
Qed.

(** A [read] that returns [Pending] is armed: the kernel was asked to report
    readability of the stream's descriptor, by a registration the first time and
    a modification later, the registry holds the event, and its future is the one
    suspended: the wait that reports the descriptor resumes it. *)
Theorem tcp_read_pending_armed io env t this self w w' x :
  epoll_extra (w_events w) (ts_event_ self) = Some x ->
  TcpStream_read_poll io env t this self w = (Done Pending, w') ->
  exists op, armed t w' (ts_event_ self) this op (ep_fd_ x) InterestRead /\
    (op = CtlAdd <-> State_get_field Registered (ep_state_ x) = false) /\ op <> CtlDel.
Proof.
  intros Hx. unfold TcpStream_read_poll. rewrite (bind_done _ _ _ _ _ (io_extra_run _ _ _ Hx)).
  destruct (State_get_field Registered (ep_state_ x)) eqn:Hreg; cbn [negb].
  - destruct io as [n errno].
    destruct (_ && negb (n =? -1)%Z); [|destruct (_ && negb (errno =? EAGAIN)%Z); [done|]].
    + unfold set_io_state. mred. rewrite (io_extra_run _ _ _ Hx). done.
    + intros Hrun. apply (suspend_inv _ _ _ _ _ _ _ _ Hx) in Hrun as (es & Hcall & Hx' & Hf).
      exists CtlMod. split; [exact (reregister_arms _ _ _ _ _ _ _ Hcall Hx' Hf)|naive_solver].
  - intros Hrun. apply (suspend_inv _ _ _ _ _ _ _ _ Hx) in Hrun as (es & Hcall & Hx' & Hf).
    exists CtlAdd. split; [exact (register_arms _ _ _ _ _ _ _ Hcall Hx' Hf)|naive_solver].
Qed.

(** The same of a [write] that returns [Pending], for writability. *)
Theorem tcp_write_pending_armed io env t this self w w' x :
  epoll_extra (w_events w) (ts_event_ self) = Some x ->
  TcpStream_write_poll io env t this self w = (Done Pending, w') ->
  exists op, armed t w' (ts_event_ self) this op (ep_fd_ x) InterestWrite /\
    (op = CtlAdd <-> State_get_field Registered (ep_state_ x) = false) /\ op <> CtlDel.
Proof.
  intros Hx. unfold TcpStream_write_poll. rewrite (bind_done _ _ _ _ _ (io_extra_run _ _ _ Hx)).
  destruct (State_get_field Registered (ep_state_ x)) eqn:Hreg; cbn [negb].
  - destruct (_ || _); [done|]. intros Hrun.
    apply (suspend_inv _ _ _ _ _ _ _ _ Hx) in Hrun as (es & Hcall & Hx' & Hf).
    exists CtlMod. split; [exact (reregister_arms _ _ _ _ _ _ _ Hcall Hx' Hf)|naive_solver].
  - intros Hrun. apply (suspend_inv _ _ _ _ _ _ _ _ Hx) in Hrun as (es & Hcall & Hx' & Hf).
    exists CtlAdd. split; [exact (register_arms _ _ _ _ _ _ _ Hcall Hx' Hf)|naive_solver].
Qed.

(** Whether a poll reported that [read] or [write] can be tried. *)
Definition can_try (bit : Z) (x : EpollExtra) : bool :=
  State_get_field Registered (ep_state_ x) &&
  (State_get_field ErrorBit (ep_state_ x) || State_get_field bit (ep_state_ x)).

Lemma read_ready_run io env t this self w x :
  epoll_extra (w_events w) (ts_event_ self) = Some x -> can_try ReadableBit x = true ->
  io.1 <> (-1)%Z -> exists w', TcpStream_read_poll io env t this self w =
    (Done (Ready (Value io.1)), w').
Proof.
  destruct io as [n errno]. intros Hx [Hreg Htry]%andb_true_iff Hn. eexists.
  unfold TcpStream_read_poll. rewrite (bind_done _ _ _ _ _ (io_extra_run _ _ _ Hx)), Hreg, Htry.
  cbn [negb andb]. rewrite (proj2 (Z.eqb_neq n (-1)) Hn). cbn [negb]. unfold set_io_state. mred.
  by rewrite (io_extra_run _ _ _ Hx).
Qed.

(** Once the event is reported, [read] returns the number of bytes the
    system call read and forgets the readiness, so that the next read waits; an
    error other than [EAGAIN] is returned to the caller.  [write] returns what
    the system call returned, [EAGAIN] included: the readiness is kept, so a
    stream whose buffer has filled up fails with [EAGAIN] instead of waiting. *)
Theorem tcp_ready_outcomes n errno env t this self w x :
  epoll_extra (w_events w) (ts_event_ self) = Some x ->
  (can_try ReadableBit x = true -> n <> -1 ->
     TcpStream_read_poll (n, errno) env t this self w =
       (Done (Ready (Value n)), set_events (set_epoll_state (ts_event_ self) x
          (State_set_field ReadableBit false (ep_state_ x)) (w_events w)) w))%Z /\
  (can_try ReadableBit x = true -> errno <> EAGAIN ->
     TcpStream_read_poll (-1, errno)%Z env t this self w =
       (Done (Ready (Unexpected (mkError errno ""))), w)) /\
  (can_try WritableBit x = true -> n <> -1 ->
     TcpStream_write_poll (n, errno) env t this self w = (Done (Ready (Value n)), w))%Z /\
  (can_try WritableBit x = true ->
     TcpStream_write_poll (-1, EAGAIN)%Z env t this self w =
       (Done (Ready (Unexpected (mkError EAGAIN ""))), w)).
Proof.
  intros Hx. unfold TcpStream_read_poll, TcpStream_write_poll, can_try.
  rewrite !(bind_done _ _ _ _ _ (io_extra_run _ _ _ Hx)).
  split_and!; intros [-> Htry]%andb_true_iff; cbn [negb]; rewrite Htry; cbn [andb].
  - intros Hn. rewrite (proj2 (Z.eqb_neq n (-1)) Hn). cbn [negb]. unfold set_io_state.
    mred. by rewrite (io_extra_run _ _ _ Hx).
  - intros He. by rewrite (proj2 (Z.eqb_neq errno EAGAIN) He).
  - intros Hn. cbn [fst snd]. unfold into_sys_result. by rewrite (proj2 (Z.eqb_neq n (-1)) Hn).
  - done.
Qed.

(** A successful [accept] returns a stream on the new descriptor and the
    peer's address, but the port of that address is byte-swapped once too often:
    [sin_port] is already in network order when it is given to [new_v4]. *)
Theorem accept_swaps_port fd errno ip port env t this self e' w x :
  epoll_extra (w_events w) (tl_event_ self) = Some x ->
  can_try ReadableBit x = true -> State_get_field ErrorBit (ep_state_ x) = false ->
  fd <> (-1)%Z -> (0 <= port < 2 ^ 16)%Z ->
  inet_pton4 (inet_ntop4 ip) = Some ip ->
  exists addr w',
    TcpListener_accept_poll (fd, errno) (mkSockaddrIn AF_INET (htons port) ip) env t this self e' w =
      (Done (Ready (Value (mkTcpStream fd e', addr))), w') /\
    addr = SocketAddrV4 (mkSockaddrIn AF_INET port ip) /\
    get_port addr = swap16 port.
Proof.
  intros Hx Htry Herr Hfd Hport Hip. unfold can_try in Htry.
  apply andb_true_iff in Htry as [Hreg Htry]. rewrite Herr in Htry. cbn in Htry.
  do 2 eexists. split_and!.
  - unfold TcpListener_accept_poll. rewrite (bind_done _ _ _ _ _ (io_extra_run _ _ _ Hx)).
    rewrite Hreg, Herr, Htry. cbn [negb fst snd]. unfold into_sys_result.
    rewrite (proj2 (Z.eqb_neq fd (-1)) Hfd). mred. reflexivity.
  - unfold SocketAddr_new_v4, Ipv4Addr_new. cbn [sin_addr sin_port]. rewrite Hip. cbn.
    unfold htons. by rewrite (swap16_involutive port).
  - cbn. unfold SocketAddrV4_get_port, ntohs, htons. cbn. by rewrite (swap16_involutive port).
Qed.
End Spec.
