(* ===== verification/TcpFlow.v ===== *)
(** A read of a TCP stream through the layers: the future's poll, the driver, the epoll
    registry, the kernel's report, the runtime's queue, and the poll that ends it. *)
From stdpp Require Import base gmap list sets strings.
From Stdlib Require Import ZArith Lia.
From S2P Require Import Prelude Errors Events Futures Core Driver DriverSpec Epoll Net Tcp TcpSpec.

Section Flow.
Context {V : Type} `{InetText}.
Implicit Types (w : World EpollRegistry V) (t : tid) (this : fid).

(** Thread [t] has the epoll registry [r], at [a], and no other one. *)
Definition polls_epoll t (a : nat) w (r : EpollRegistry) : Prop :=
  local_registries_ (driver_ w) !! t = Some [(EpollRegistry_hash, a)] /\
  w_registries w !! a = Some r.

(** A read that has nothing to try: the event is not registered yet, or nothing was
    reported since the last read. *)
Definition must_wait (x : EpollExtra) : Prop := can_try ReadableBit x = false.

(** A read that cannot finish: it has nothing to try, or [read(2)] would block. *)
Definition would_block (io : Z * Z) (x : EpollExtra) : Prop := must_wait x \/ io = ((-1)%Z, EAGAIN).

(** The registration of an event, first or repeated, that the kernel accepts. *)
Lemma arm_call_run (first : bool) env t a w r e x :
  polls_epoll t a w r -> epoll_extra (w_events w) e = Some x -> ctl_return env <> (-1)%Z ->
  exists w1 r1, (if first then Driver_Register env t EpollRegistry_hash e
                 else Driver_reregister env t EpollRegistry_hash e) w = (Done tt, w1) /\
    polls_epoll t a w1 r1 /\ ep_registered_events_ r1 = ep_registered_events_ r ++ [e] /\
    is_Some (epoll_extra (w_events w1) e) /\
    (forall e', future_of (w_events w1) e' = future_of (w_events w) e') /\
    (forall e', e' <> e -> w_events w1 !! e' = w_events w !! e') /\
    w_heap w1 = w_heap w /\ w_handles_ w1 = w_handles_ w /\ in_place_worker_ w1 = in_place_worker_ w.
Proof.
  intros [Hl Hr] Hx Hret.
  assert (registry_of t EpollRegistry_hash w = Some a) as Ha.
  { unfold registry_of. by rewrite Hl. }
  assert (into_sys_result (ctl_errno env) (ctl_return env) = Value (ctl_return env)) as Hok.
  { unfold into_sys_result. by rewrite (proj2 (Z.eqb_neq _ _) Hret). }
  destruct first; unfold Driver_Register, Driver_reregister, Driver_call; mred; rewrite Ha;
    unfold on_registry; rewrite Hr; cbn [Register reregister EpollRegistry_ops];
    unfold Epoll_Register, Epoll_reregister; mred; rewrite Hx, Hok; cbn [has_value transform];
    eexists _, _; (split; [reflexivity|]); unfold polls_epoll;
    cbn [driver_ w_registries w_events w_heap w_handles_ in_place_worker_ set_events set_registries];
    rewrite lookup_insert_eq; split_and!; try done.
  - rewrite (epoll_extra_set_eq _ _ _ _ Hx). done.
  - intros e'. apply set_epoll_state_future.
  - intros e' Hne. by apply set_epoll_state_ne.
Qed.

(** The poll of a read that has to wait. *)
Lemma read_suspends io env t a w r this self x :
  polls_epoll t a w r -> epoll_extra (w_events w) (ts_event_ self) = Some x ->
  would_block io x -> ctl_return env <> (-1)%Z ->
  exists w1 r1, TcpStream_read_poll io env t this self w = (Done Pending, w1) /\
    polls_epoll t a w1 r1 /\
    ep_registered_events_ r1 = ep_registered_events_ r ++ [ts_event_ self] /\
    is_Some (epoll_extra (w_events w1) (ts_event_ self)) /\
    future_of (w_events w1) (ts_event_ self) = Some this /\
    (forall e', e' <> ts_event_ self -> w_events w1 !! e' = w_events w !! e') /\
    w_heap w1 = w_heap w /\ w_handles_ w1 = w_handles_ w /\ in_place_worker_ w1 = in_place_worker_ w.
Proof.
  intros Hp Hx Hwait Hret. set (e := ts_event_ self) in *.
  destruct (arm_run e this InterestRead w x Hx) as (es & Harm & Hx' & Hf & Hfr).
  destruct (arm_call_run (negb (State_get_field Registered (ep_state_ x))) env t a (set_events es w) r e _
    Hp Hx' Hret) as (w1 & r1 & Hcall & Hp1 & Hreg1 & Hx1 & Hf1 & Hfr1 & Hheap & Hq & Hip).
  exists w1, r1. split_and!; try done.
  2:{ by rewrite Hf1. }
  2:{ intros e' Hne. rewrite Hfr1 by done. by apply Hfr. }
  revert Hwait Hcall Harm. unfold TcpStream_read_poll, would_block, must_wait, can_try. fold e.
  rewrite (bind_done _ _ _ _ _ (io_extra_run _ _ _ Hx)).
  intros Hwait Hcall Harm. apply bind_inv_done in Harm as ([] & w0 & Hb & Hs).
  destruct (State_get_field Registered (ep_state_ x)); cbn [negb andb] in *.
  - destruct io as [n errno]. remember (State_get_field ErrorBit _ || _) as ready eqn:Er. clear Er.
    assert (ready && negb (n =? -1)%Z = false /\ ready && negb (errno =? EAGAIN)%Z = false) as [-> ->]
      by (destruct Hwait as [->|[= -> ->]]; by rewrite ?andb_false_r).
    by rewrite (bind_done _ _ _ _ _ Hb), (bind_done _ _ _ _ _ Hs), (bind_done _ _ _ _ _ Hcall).
  - by rewrite (bind_done _ _ _ _ _ Hb), (bind_done _ _ _ _ _ Hs), (bind_done _ _ _ _ _ Hcall).
Qed.

(** The driver's poll of a thread whose only registry is the epoll one: the reported
    events, and no others, are queued in the order of the report. *)
Lemma epoll_poll_run env t a w r :
  polls_epoll t a w r -> epoll_ready (env a) r (w_events w) ->
  (forall e, e ∈ (ready_events (env a)).*2 -> is_Some (entry_of (w_heap w) (w_events w) e)) ->
  exists w' xs, Driver_poll env t w = (Done tt, w') /\
    Forall2 (fun e y => entry_of (w_heap w) (w_events w) e = Some y) (ready_events (env a)).*2 xs /\
    fifo (w_handles_ w') = fifo (w_handles_ w) ++ xs /\
    (forall bits e, (bits, e) ∈ ready_events (env a) -> exists x, epoll_extra (w_events w) e = Some x /\
       epoll_extra (w_events w') e = Some (mkEpollExtra (to_state bits) (interest_ x) (ep_fd_ x))) /\
    (exists r', polls_epoll t a w' r' /\
       ep_registered_events_ r ≡ₚ (ready_events (env a)).*2 ++ ep_registered_events_ r') /\
    (forall e, e ∉ (ready_events (env a)).*2 -> w_events w' !! e = w_events w !! e).
Proof.
  intros [Hl Hr] Hrdy Hbd.
  destruct (epoll_select_run (env a) MAX_TIMEOUT r (w_events w) [] Hrdy)
    as (r' & es' & Hs & _ & Hperm & Hfut & Hfr & Hst). rewrite app_nil_l in Hs.
  destruct (single_poll env t EpollRegistry_hash a w r r' es' (ready_events (env a)).*2)
    as (w' & xs & Hrun & Hxs & Hq & Hes & Hregs & Hdrv); [done..|apply Hrdy|done|done|].
  exists w', xs. split_and!; [done..| | |].
  - intros bits e Hin. destruct (Hst bits e Hin) as (x & Hx & Hx'). exists x. split; [done|].
    rewrite <- Hx'. apply epoll_extra_ext. unfold extra_of. rewrite Hes, foldr_unbind_lookup.
    case_decide; [by destruct (es' !! e)|done].
  - exists r'. split; [|done]. split; [by rewrite Hdrv|]. rewrite Hregs. apply lookup_insert_eq.
  - intros e He. rewrite Hes, foldr_unbind_lookup, decide_False by done. by apply Hfr.
Qed.

(** What the kernel may report to a thread whose registry [r] has just been given the
    event [e]: each event once, each of them [e] or one that was held, with its extra
    and bound to a living future. *)
Record kernel_reports (env : EpollEnv) w (r : EpollRegistry) (e : eid) : Prop := {
  kr_error : wait_return env = (-1)%Z -> wait_errno env = EINTR;
  kr_len : (wait_return env <= Z.of_nat (length (wait_events env)))%Z;
  kr_nodup : NoDup (ready_events env).*2;
  kr_held : forall e', e' ∈ (ready_events env).*2 -> e' <> e ->
    e' ∈ ep_registered_events_ r /\ is_Some (epoll_extra (w_events w) e') /\
    is_Some (entry_of (w_heap w) (w_events w) e');
}.

(** A read over epoll, from the first poll to its result.  A read that cannot
    finish suspends; after the driver's next poll its future is in the runtime's queue,
    behind the entries already there, if and only if the kernel has reported the
    stream's event; and when the report says that the descriptor is readable or in
    error, the future's next poll is ready with what [read(2)] returned. *)
Theorem tcp_read_end_to_end io ctl env io' ctl' t a w r this fo self x :
  polls_epoll t a w r -> epoll_extra (w_events w) (ts_event_ self) = Some x ->
  would_block io x -> ctl_return ctl <> (-1)%Z -> futures (w_heap w) !! this = Some fo ->
  kernel_reports (env a) w r (ts_event_ self) ->
  (forall e, e ∈ ep_registered_events_ r -> e <> ts_event_ self ->
     future_of (w_events w) e <> Some this) ->
  exists w1 w2 xs,
    TcpStream_read_poll io ctl t this self w = (Done Pending, w1) /\
    Driver_poll env t w1 = (Done tt, w2) /\
    fifo (w_handles_ w2) = fifo (w_handles_ w) ++ xs /\
    (entry_for this fo ∈ xs <-> ts_event_ self ∈ (ready_events (env a)).*2) /\
    (forall bits, (bits, ts_event_ self) ∈ ready_events (env a) ->
       reports_error bits || State_get_field EPOLLIN bits = true -> io'.1 <> (-1)%Z ->
       exists w3, TcpStream_read_poll io' ctl' t this self w2 = (Done (Ready (Value io'.1)), w3)).
Proof.
  intros Hp Hx Hwait Hret Hfo [Herr Hlen Hnd Hheld] Hown. set (e := ts_event_ self) in *.
  destruct (read_suspends io ctl t a w r this self x Hp Hx Hwait Hret)
    as (w1 & r1 & Hrun1 & Hp1 & Hreg1 & Hx1 & Hf1 & Hfr1 & Hheap & Hq & Hip). fold e in Hx1, Hf1, Hfr1.
  assert (entry_of (w_heap w1) (w_events w1) e = Some (entry_for this fo)) as He.
  { apply entry_of_for; [by rewrite Hheap|done]. }
  assert (forall e', e' <> e -> entry_of (w_heap w1) (w_events w1) e' =
    entry_of (w_heap w) (w_events w) e') as Hent.
  { intros e' Hne. rewrite Hheap. apply entry_of_future. unfold future_of. by rewrite Hfr1. }
  destruct (epoll_poll_run env t a w1 r1 Hp1) as (w2 & xs & Hrun2 & Hxs & Hq2 & Hst & _).
  { split_and!; [done..|]. intros e' He'. rewrite Hreg1. destruct (decide (e' = e)) as [->|Hne].
    - split; [set_solver|done].
    - destruct (Hheld e' He' Hne) as (Hr & [y Hy] & _). split; [set_solver|].
      exists y. rewrite <- Hy. unfold epoll_extra. by rewrite Hfr1. }
  { intros e' He'. destruct (decide (e' = e)) as [->|Hne]; [by rewrite He|].
    rewrite Hent by done. by apply Hheld. }
  exists w1, w2, xs. rewrite Hq2, Hq. split_and!; [done..| |].
  - split.
    + intros [n Hn]%list_elem_of_lookup. destruct (Forall2_lookup_r _ _ _ _ _ Hxs Hn) as (e' & He' & Hee).
      apply list_elem_of_lookup_2 in He'. destruct (decide (e' = e)) as [->|Hne]; [done|]. exfalso.
      destruct (Hheld e' He' Hne) as (Hr & _). apply (Hown e' Hr Hne).
      rewrite Hent in Hee by done. by eapply entry_of_bound.
    + intros [n Hn]%list_elem_of_lookup. destruct (Forall2_lookup_l _ _ _ _ _ Hxs Hn) as (y & Hy & Hey).
      rewrite He in Hey. injection Hey as <-. by eapply list_elem_of_lookup_2.
  - intros bits Hin Hok Hn. destruct (Hst bits e Hin) as (y & _ & Hy).
    eapply read_ready_run; [exact Hy| |done]. unfold can_try. cbn [ep_state_].
    destruct (to_state_flags bits) as (-> & -> & -> & _). revert Hok. by destruct (reports_error bits).
Qed.

(** *** Futures that are destroyed while they wait *)

(** The kernel reports one event. *)
Definition reports_one (env : EpollEnv) (bits : Z) (e : eid) : Prop :=
  wait_return env = 1%Z /\ wait_events env = [(bits, e)].

(** A report of an event that no future is bound to. *)
Lemma unbound_report_undefined env t a w r e bits :
  polls_epoll t a w r -> e ∈ ep_registered_events_ r -> is_Some (epoll_extra (w_events w) e) ->
  future_of (w_events w) e = None -> reports_one (env a) bits e ->
  exists w', Driver_poll env t w = (Undef, w').
Proof.
  intros [Hl Hr] Hin Hx Hf [Hret Hevs].
  assert (ready_events (env a) = [(bits, e)]) as Hre.
  { unfold ready_events, into_sys_result. by rewrite Hret, Hevs. }
  assert (epoll_ready (env a) r (w_events w)) as Hrdy.
  { split_and!; [by rewrite Hret|by rewrite Hret, Hevs|rewrite Hre; apply NoDup_singleton|].
    rewrite Hre. intros e' ->%list_elem_of_singleton. done. }
  destruct (epoll_select_run (env a) MAX_TIMEOUT r (w_events w) [] Hrdy)
    as (r' & es' & Hs & _ & _ & Hfut & _). rewrite app_nil_l, Hre in Hs.
  set (w1 := set_events es' (set_registries (<[a := r']> (w_registries w)) (per_runtime_registry_ w) w)).
  assert (Driver_select (env a) a [] w = (Done [e], w1)) as Hsel.
  { unfold Driver_select, on_registry. mred. rewrite Hr. cbn [select EpollRegistry_ops fst snd].
    by rewrite Hs. }
  destruct (wake_unbound_is_undefined e [] w1) as [w' Hw]; [cbn; by rewrite Hfut|].
  exists w'. unfold Driver_poll. mred. rewrite Hl. cbn [Driver_poll_loop].
  rewrite (bind_done _ _ _ _ _ Hsel). exact (bind_undef _ _ _ _ Hw).
Qed.

(** A read that is destroyed while it waits unbinds its event but leaves it armed: when
    the descriptor becomes ready before the stream is used again or destroyed, the
    driver's poll calls a member function of a null future. *)
Theorem dropped_read_report_undefined io ctl env t a w r this self x bits :
  polls_epoll t a w r -> epoll_extra (w_events w) (ts_event_ self) = Some x ->
  would_block io x -> ctl_return ctl <> (-1)%Z -> reports_one (env a) bits (ts_event_ self) ->
  exists w1 w2 w3,
    TcpStream_read_poll io ctl t this self w = (Done Pending, w1) /\
    TcpStream_future_dtor self w1 = (Done tt, w2) /\
    Driver_poll env t w2 = (Undef, w3).
Proof.
  intros Hp Hx Hwait Hret Hrep.
  destruct (read_suspends io ctl t a w r this self x Hp Hx Hwait Hret)
    as (w1 & r1 & Hrun1 & Hp1 & Hreg1 & [y Hy] & _).
  set (w2 := set_events (alter (set_future None) (ts_event_ self) (w_events w1)) w1).
  destruct (unbound_report_undefined env t a w2 r1 (ts_event_ self) bits) as [w3 Hrun3]; try done.
  - rewrite Hreg1. set_solver.
  - exists y. rewrite <- Hy. apply epoll_extra_ext. cbn. unfold extra_of. rewrite lookup_alter_eq.
    by destruct (w_events w1 !! ts_event_ self).
  - cbn. unfold future_of. rewrite lookup_alter_eq. by destruct (w_events w1 !! ts_event_ self).
  - by exists w1, w2, w3.
Qed.

(** An [accept] that finds its event registered and not ready returns [Pending] and
    does nothing: it neither binds its future nor arms the event, so that a report that
    an earlier [accept] asked for does not resume it. *)
Theorem second_accept_never_resumed io peer env ctl t a w r this self e' x bits :
  polls_epoll t a w r -> epoll_extra (w_events w) (tl_event_ self) = Some x ->
  State_get_field Registered (ep_state_ x) = true -> must_wait x ->
  tl_event_ self ∈ ep_registered_events_ r -> future_of (w_events w) (tl_event_ self) = None ->
  reports_one (env a) bits (tl_event_ self) ->
  TcpListener_accept_poll io peer ctl t this self e' w = (Done Pending, w) /\
  exists w', Driver_poll env t w = (Undef, w').
Proof.
  intros Hp Hx Hreg Hwait Hin Hf Hrep. split.
  - unfold TcpListener_accept_poll. rewrite (bind_done _ _ _ _ _ (io_extra_run _ _ _ Hx)), Hreg.
    revert Hwait. unfold must_wait, can_try. rewrite Hreg. cbn [andb negb].
    intros [-> ->]%orb_false_iff. done.
  - eapply unbound_report_undefined; try done.
Qed.
End Flow.
