(* ===== verification/BlockOnTcp.v ===== *)
(** [block_on(stream.read(...))] over epoll, from the call to its return: the coroutines
    of [BlockOn.v] with the future object of [TcpStream::read], the driver, the epoll
    registry and the kernel's reports. *)
From stdpp Require Import base gmap list sets.
From Stdlib Require Import ZArith Lia.
From S2P Require Import Prelude Errors Events Futures Core Driver DriverSpec Worker WorkerSpec BlockOn BlockOnSpec Epoll Net Tcp TcpSpec TcpFlow.

(** ** Waiting for an event of the epoll registry *)

Section Wait.
Context {V : Type}.
Implicit Types (w : World EpollRegistry V).
Variables (t : tid) (cw cb cu : hid) (fw fb fu fo : fid) (done : V).

(** The event, the object's constructor and destructor, and its polls. *)
Variables (e : eid) (create destroy : EventStore -> EventStore).
Variables (first_poll next_poll : M (World EpollRegistry V) (Poll V)).
Hypothesis Hfid : NoDup [fw; fb; fu; fo].
Hypothesis Hhid : NoDup [cw; cb; cu].
#[local] Abbreviation waiting := (waiting_heap cw cb cu fb fu fo false None).
#[local] Abbreviation call :=
  (block_on t cw cb cu fw fb fu fo done false create destroy first_poll next_poll).

(** An [epoll_wait] that reports nothing. *)
Definition quiet (env : EpollEnv) : Prop :=
  ready_events env = [] /\ (wait_return env = (-1)%Z -> wait_errno env = EINTR) /\
  (wait_return env <= Z.of_nat (length (wait_events env)))%Z.

(** The runtime while the coroutine waits for the event. *)
Record reading (a : nat) (h : Heap V) w (r : EpollRegistry) : Prop := {
  rd_polls : polls_epoll t a w r;
  rd_armed : e ∈ ep_registered_events_ r;
  rd_extra : is_Some (epoll_extra (w_events w) e);
  rd_bound : future_of (w_events w) e = Some fo;
  rd_heap : w_heap w = waiting h;
  rd_queue : w_handles_ w = [];
  rd_running : running w;
}.

Lemma waiting_entry h w :
  w_heap w = waiting h -> future_of (w_events w) e = Some fo ->
  entry_of (w_heap w) (w_events w) e = Some (Some cu, Some fo).
Proof.
  intros Hw Hf. rewrite (entry_of_for _ _ _ fo (object cu false None)); [done| |done].
  rewrite Hw. cbn. apply lookup_insert_eq.
Qed.

(** A poll of the driver with nothing reported leaves the coroutine waiting. *)
Lemma reading_quiet a h w r env :
  reading a h w r -> quiet (env a) ->
  exists w' r', Driver_poll env t w = (Done tt, w') /\ reading a h w' r'.
Proof.
  intros [Hp Ha Hx Hf Hw Hq Hk] (Hre & Herr & Hlen).
  destruct (epoll_poll_run env t a w r Hp) as (w' & xs & Hrun & Hxs & Hq' & _ & (r' & Hp' & Hperm) & Hfr).
  { split_and!; [done..| |]; rewrite Hre; [apply NoDup_nil_2|by intros ? ?%elem_of_nil]. }
  { rewrite Hre. by intros ? ?%elem_of_nil. }
  rewrite Hre in Hxs, Hfr, Hperm. apply Forall2_nil_inv_l in Hxs as ->.
  assert (w_events w' !! e = w_events w !! e) as Hev by (apply Hfr; apply not_elem_of_nil).
  pose proof (Driver_poll_rest env t w) as (Hh&Hi&_). rewrite Hrun in Hh, Hi. cbn in Hh, Hi.
  exists w', r'. split; [done|]. constructor; [done|by rewrite <- Hperm| | | | |].
  - unfold epoll_extra. by rewrite Hev.
  - unfold future_of. by rewrite Hev.
  - by rewrite Hh.
  - unfold fifo in Hq'. rewrite Hq, app_nil_r in Hq'. apply (f_equal (@rev _)) in Hq'.
    by rewrite rev_involutive in Hq'.
  - unfold running. by rewrite Hi.
Qed.

Lemma reading_idles a h envs w r :
  reading a h w r -> Forall (fun env => quiet (env a)) envs ->
  exists w' r', idles t envs w w' /\ reading a h w' r'.
Proof.
  intros Hr Hqs. revert w r Hr. induction Hqs as [|env envs Hq Hqs IH]; intros w r Hr.
  - exists w, r. split; [constructor|done].
  - destruct (reading_quiet a h w r env Hr Hq) as (w1 & r1 & Hrun & Hr1).
    destruct (IH w1 r1 Hr1) as (w2 & r2 & Hi & Hr2). exists w2, r2. split; [|done].
    econstructor; [apply Hr|done|done].
Qed.

(** The report of the stream's event queues the coroutine. *)
Lemma reading_reported a h w r env bits :
  reading a h w r -> reports_one (env a) bits e ->
  exists w' x, Driver_poll env t w = (Done tt, w') /\
    w_handles_ w' = [(Some cu, Some fo)] /\ w_heap w' = waiting h /\ running w' /\
    epoll_extra (w_events w') e = Some x /\ ep_state_ x = to_state bits /\
    exists r', polls_epoll t a w' r'.
Proof.
  intros [Hp Ha Hx Hf Hw Hq Hk] [Hret Hevs].
  assert (ready_events (env a) = [(bits, e)]) as Hre
    by (unfold ready_events, into_sys_result; by rewrite Hret, Hevs).
  pose proof (waiting_entry h w Hw Hf) as He.
  destruct (epoll_poll_run env t a w r Hp) as (w' & xs & Hrun & Hxs & Hq' & Hst & (r' & Hp' & _) & _).
  { split_and!; [by rewrite Hret|by rewrite Hret, Hevs|rewrite Hre; apply NoDup_singleton|].
    rewrite Hre. by intros ? ->%list_elem_of_singleton. }
  { rewrite Hre. intros ? ->%list_elem_of_singleton. cbn. by rewrite He. }
  rewrite Hre in Hxs, Hst. cbn in Hxs. destruct (Hst bits e) as (x & _ & Hx'); [by left|].
  apply Forall2_cons_inv_l in Hxs as (y & ys & Hy & Hys & ->). apply Forall2_nil_inv_l in Hys as ->.
  rewrite He in Hy. injection Hy as <-.
  pose proof (Driver_poll_rest env t w) as (Hh&Hi&_). rewrite Hrun in Hh, Hi. cbn in Hh, Hi.
  exists w', (mkEpollExtra (to_state bits) (interest_ x) (ep_fd_ x)). split_and!; try done.
  - unfold fifo in Hq'. rewrite Hq in Hq'. apply (f_equal (@rev _)) in Hq'. by rewrite rev_involutive in Hq'.
  - by rewrite Hh.
  - unfold running. by rewrite Hi.
  - by exists r'.
Qed.

(** What the poll after a report with the state [bits] has to find. *)
Record reported (a : nat) (h : Heap V) (bits : Z) w (x : EpollExtra) : Prop := {
  rp_queue : w_handles_ w = [];
  rp_heap : w_heap w = waiting h;
  rp_running : running w;
  rp_extra : epoll_extra (w_events w) e = Some x;
  rp_state : ep_state_ x = to_state bits;
  rp_polls : exists r, polls_epoll t a w r;
}.

(** A call whose object waits for the event does not return while nothing is reported, and
    returns the object's value in the turn after the report. *)
Lemma epoll_call fuel a w w1 r1 envs env env' rest bits v (Q : World EpollRegistry V -> Prop) :
  suspends cw cb cu fw fb fu fo false create first_poll w w1 -> reading a (w_heap w) w1 r1 ->
  Forall (fun env => quiet (env a)) envs -> reports_one (env a) bits e ->
  (forall w3 x3, reported a (w_heap w) bits w3 x3 -> exists w4, next_poll w3 = (Done (Ready v), w4) /\
     w_heap w4 = w_heap w3 /\ running w4 /\ Q w4) ->
  (envs <> [] -> exists w', call (S fuel) envs w = (Done None, w')) /\
  exists w4, call (S fuel) (envs ++ env :: env' :: rest) w =
    (Done (Some v), ended false destroy (w_heap w) v w4) /\ Q w4.
Proof.
  intros Hs Hr1 Hquiet Hrep Hnext.
  destruct (reading_idles a (w_heap w) envs w1 r1 Hr1 Hquiet) as (w2 & r2 & Hi & Hr2). split.
  - intros Hne. exists w2.
    exact (block_on_waits t cw cb cu fw fb fu fo done false create destroy first_poll next_poll Hfid Hhid
      fuel envs w w1 w2 Hs Hne Hi).
  - destruct (reading_reported a (w_heap w) w2 r2 env bits Hr2 Hrep)
      as (w3 & x3 & Hrun & Hq3 & Hh3 & Hk3 & Hx3 & Hst & Hp3).
    destruct (Hnext (set_handles [] w3) x3) as (w4 & Hfin & Hh4 & Hk4 & HQ); [done|].
    exists w4. split; [|done]. change (env :: env' :: rest) with ([env] ++ env' :: rest). rewrite app_assoc.
    apply (block_on_ends t cw cb cu fw fb fu fo done false create destroy first_poll next_poll Hfid Hhid
      fuel (envs ++ [env]) env' rest w w1 w3 w4); try done.
    + by destruct envs.
    + eapply idles_snoc; [done|apply Hr2|done].
Qed.
End Wait.

(** ** [TcpStream::read] *)

Section Read.
Context `{InetText}.
#[local] Abbreviation V := (Result Z).
Implicit Types (w : World EpollRegistry V).
Variables (t : tid) (cw cb cu : hid) (fw fb fu fo : fid) (done : V).

(** The stream, and what [read(2)] and [epoll_ctl(2)] answer at the first poll and at
    the next one. *)
Variables (self : TcpStream) (io io' : Z * Z) (ctl ctl' : EpollEnv).
#[local] Abbreviation e := (ts_event_ self).
#[local] Abbreviation first_poll := (TcpStream_read_poll io ctl t fo self).
#[local] Abbreviation next_poll := (TcpStream_read_poll io' ctl' t fo self).
#[local] Abbreviation destroy := (alter (set_future None) e).

(** [runtime->block_on(stream.read(begin, end))]: the coroutine [TcpStream::read] makes
    no event of its own; the destructor of its future is [TcpStream_future_dtor]. *)
Definition block_on_read : nat -> list (nat -> EpollEnv) -> M (World EpollRegistry V) (option V) :=
  block_on t cw cb cu fw fb fu fo done false id destroy first_poll next_poll.

Lemma destroy_is_dtor w : TcpStream_future_dtor self w = (Done tt, set_events (destroy (w_events w)) w).
Proof. done. Qed.

Hypothesis Hfid : NoDup [fw; fb; fu; fo].
Hypothesis Hhid : NoDup [cw; cb; cu].
#[local] Abbreviation waiting := (waiting_heap cw cb cu fb fu fo false None).

(** A poll that finds the stream ready and does not have to wait again returns what
    [read(2)] returned. *)
Lemma read_finishes (rw : Z * Z) env w x :
  epoll_extra (w_events w) e = Some x -> can_try ReadableBit x = true ->
  rw.1 <> (-1)%Z \/ rw.2 <> EAGAIN ->
  exists es, TcpStream_read_poll rw env t fo self w =
    (Done (Ready (into_sys_result rw.2 rw.1)), set_events es w).
Proof.
  destruct rw as [n errno]. cbn. intros Hx Htry Hio.
  destruct (tcp_ready_outcomes n errno env t fo self w x Hx) as (Hok & Herr & _).
  unfold into_sys_result. destruct (Z.eqb_spec n (-1)) as [->|Hn].
  - exists (w_events w). rewrite Herr by (done || naive_solver). by destruct w.
  - rewrite (Hok Htry Hn). by eexists.
Qed.

Lemma read_waits a w r x :
  polls_epoll t a w r -> epoll_extra (w_events w) e = Some x -> would_block io x ->
  ctl_return ctl <> (-1)%Z -> fresh_heap cw cb cu fw fb fu fo (w_heap w) ->
  w_handles_ w = [] -> running w ->
  exists w1 r1, suspends cw cb cu fw fb fu fo false id first_poll w w1 /\ reading t cw cb cu fb fu fo e a (w_heap w) w1 r1.
Proof.
  intros Hp Hx Hwait Hret Hh Hq Hk.
  set (w0 := first_state cw cb cu fb fu fo false id w).
  destruct (read_suspends io ctl t a w0 r fo self x) as
    (w1 & r1 & Hrun & Hp1 & Hreg & Hx1 & Hf1 & _ & Hheap & Hq1 & Hip); [done..|].
  exists w1, r1. split; constructor; try done; try (by rewrite ?Hheap, ?Hq1; unfold running; rewrite ?Hip).
  rewrite Hreg. set_solver.
Qed.

(** The kernel's report says that there is something to read, or an error. *)
Definition reports_input (bits : Z) : bool := reports_error bits || State_get_field EPOLLIN bits.

(** C4.  [block_on(stream.read(...))] returns what [read(2)] returned, as soon as it can.  If
    the stream was reported ready and [read(2)] does not say [EAGAIN], the call returns in
    the first turn.  Otherwise it does not return while the kernel reports nothing, and
    it returns in the turn after the first report of input or of an error.  After the
    call every frame and future it made is gone, the queue is empty, the stream's event
    is bound to no future and the worker is ready for the next call. *)
Theorem block_on_read_returns fuel a w r x envs env env' rest bits
    (Hp : polls_epoll t a w r) (Hx : epoll_extra (w_events w) e = Some x)
    (Hret : ctl_return ctl <> (-1)%Z)
    (Hh : fresh_heap cw cb cu fw fb fu fo (w_heap w)) (Hq : w_handles_ w = []) (Hk : running w)
    (Hquiet : Forall (fun env => quiet (env a)) envs)
    (Hrep : reports_one (env a) bits e) (Hbits : reports_input bits = true)
    (Hio' : io'.1 <> (-1)%Z \/ io'.2 <> EAGAIN) :
  let returns rw envs := exists w', block_on_read (S fuel) envs w =
      (Done (Some (into_sys_result rw.2 rw.1)), w') /\
    w_heap w' = w_heap w /\ w_handles_ w' = [] /\ future_of (w_events w') e = None /\ running w' in
  (would_block io x ->
     (envs <> [] -> exists w', block_on_read (S fuel) envs w = (Done None, w')) /\
     returns io' (envs ++ env :: env' :: rest)) /\
  (~ would_block io x -> returns io (env :: rest)).
Proof.
  intros returns. split.
  - intros Hwait. destruct (read_waits a w r x) as (w1 & r1 & Hs & Hr1); [done..|].
    destruct (epoll_call t cw cb cu fw fb fu fo done e id destroy first_poll next_poll Hfid Hhid fuel a w w1 r1
      envs env env' rest bits (into_sys_result io'.2 io'.1) (fun w4 => w_handles_ w4 = []) Hs Hr1 Hquiet Hrep)
      as [Hnone (w4 & Hrun & Hq4)].
    { intros w3 x3 [Hq3 Hh3 Hk3 Hx3 Hst _]. destruct (read_finishes io' ctl' w3 x3) as [es Hfin]; [done| |done|].
      - unfold can_try. rewrite Hst. destruct (to_state_flags bits) as (-> & -> & -> & _).
        revert Hbits. unfold reports_input. by destruct (reports_error bits).
      - by exists (set_events es w3). }
    split; [done|]. eexists. split; [exact Hrun|]. split_and!; [done|done| |done].
    cbn. unfold future_of. rewrite lookup_alter_eq. by destruct (w_events w4 !! e).
  - intros Hnow. set (w0 := first_state cw cb cu fb fu fo false id w).
    destruct (read_finishes io ctl w0 x) as [es Hfin]; [done| | |].
    { destruct (can_try ReadableBit x) eqn:E; [done|]. destruct Hnow. by left. }
    { destruct io as [n errno]. cbn. destruct (decide (n = -1)%Z) as [->|]; [right|by left].
      intros ->. destruct Hnow. by right. }
    exists (ended false destroy (w_heap w) (into_sys_result io.2 io.1) (set_events es w0)).
    split_and!; try done.
    + unfold block_on_read. by apply (block_on_ready t cw cb cu fw fb fu fo done false id destroy
        first_poll next_poll Hfid Hhid fuel env rest w (set_events es w0)).
    + cbn. unfold future_of. rewrite lookup_alter_eq. by destruct (es !! e).
Qed.
End Read.
