(* ===== verification/BlockOnAccept.v ===== *)
(** [block_on(listener.accept())] over epoll: a call waits for the kernel's report of a
    connection and leaves the listener ready for the next call. *)
From stdpp Require Import base gmap list sets strings.
From Stdlib Require Import ZArith Lia.
From S2P Require Import Prelude Errors Events Futures Core Driver DriverSpec Worker WorkerSpec BlockOn BlockOnSpec Epoll Net Tcp TcpSpec TcpFlow BlockOnTcp.

Section Accept.
Context `{InetText}.
#[local] Abbreviation V := (Result (TcpStream * SocketAddr)).
Implicit Types (w : World EpollRegistry V).
Variables (t : tid) (cw cb cu : hid) (fw fb fu fo : fid) (done : V).

(** The listener, the address of the new stream's event, and what [accept4(2)] and
    [epoll_ctl(2)] answer at the first poll and at the next one. *)
Variables (self : TcpListener) (e' : eid) (io io' : Z * Z) (peer peer' : sockaddr_in) (ctl ctl' : EpollEnv).
#[local] Abbreviation e := (tl_event_ self).
#[local] Abbreviation first_poll := (TcpListener_accept_poll io peer ctl t fo self e').
#[local] Abbreviation next_poll := (TcpListener_accept_poll io' peer' ctl' t fo self e').
#[local] Abbreviation destroy := (alter (set_future None) e).

(** [runtime->block_on(listener.accept())]. *)
Definition block_on_accept : nat -> list (nat -> EpollEnv) -> M (World EpollRegistry V) (option V) :=
  block_on t cw cb cu fw fb fu fo done false id destroy first_poll next_poll.

Hypothesis Hfid : NoDup [fw; fb; fu; fo].
Hypothesis Hhid : NoDup [cw; cb; cu].
Hypothesis Hnew : e' <> e.

(** The listener's event between two calls: it has not been registered yet, or its last
    report was of a connection. *)
Definition listening (x : EpollExtra) : Prop :=
  State_get_field Registered (ep_state_ x) = false \/
  (State_get_field Registered (ep_state_ x) = true /\ State_get_field ErrorBit (ep_state_ x) = false /\
   State_get_field ReadableBit (ep_state_ x) = true).

(** The result of a call for which [accept4(2)] returned a descriptor. *)
Definition accepted (rw : Z * Z) (p : sockaddr_in) : V :=
  Value (mkTcpStream rw.1 e',
    SocketAddr_new_v4 (Ipv4Addr_new (Some (inet_ntop4 (sin_addr p)))) (sin_port p)).

Lemma epoll_extra_bind es f x :
  epoll_extra es e = Some x -> epoll_extra (alter (set_future f) e es) e = Some x /\
    future_of (alter (set_future f) e es) e = f.
Proof.
  unfold epoll_extra, future_of. rewrite lookup_alter_eq.
  destruct (es !! e) as [[? [[]|]]|]; intros ?; by simplify_eq/=.
Qed.

(** A poll that cannot accept yet arms the event. *)
Lemma accept_suspends a w r x :
  polls_epoll t a w r -> epoll_extra (w_events w) e = Some x -> listening x ->
  (State_get_field Registered (ep_state_ x) = true -> io = ((-1)%Z, EAGAIN)) -> ctl_return ctl <> (-1)%Z ->
  exists w1 r1, first_poll w = (Done Pending, w1) /\ polls_epoll t a w1 r1 /\
    ep_registered_events_ r1 = ep_registered_events_ r ++ [e] /\
    is_Some (epoll_extra (w_events w1) e) /\ future_of (w_events w1) e = Some fo /\
    w_heap w1 = w_heap w /\ w_handles_ w1 = w_handles_ w /\ in_place_worker_ w1 = in_place_worker_ w.
Proof.
  intros Hp Hx Hl Hio Hret. destruct (epoll_extra_bind (w_events w) (Some fo) x Hx) as [Hx1 Hf1].
  set (w0 := set_events (alter (set_future (Some fo)) e (w_events w)) w).
  destruct (arm_call_run (negb (State_get_field Registered (ep_state_ x))) ctl t a w0 r e x Hp Hx1 Hret)
    as (w1 & r1 & Hcall & Hp1 & Hreg1 & Hx' & Hf & _ & Hh & Hq & Hi).
  exists w1, r1. split_and!; try done; [|by rewrite Hf].
  unfold TcpListener_accept_poll. rewrite (bind_done _ _ _ _ _ (io_extra_run _ _ _ Hx)).
  destruct Hl as [Hreg|(Hreg & Herr & Hrd)]; rewrite Hreg in *; cbn [negb] in *.
  - rewrite (bind_done _ _ _ tt w0) by done. by rewrite (bind_done _ _ _ _ _ Hcall).
  - rewrite (Hio eq_refl), Herr, Hrd. cbn [fst snd].
    change (into_sys_result EAGAIN (-1)) with (Unexpected (E := Error) (T := Z) (mkError EAGAIN "")).
    cbn [errno_]. rewrite Z.eqb_refl.
    rewrite (bind_done _ _ _ tt w0) by done. by rewrite (bind_done _ _ _ _ _ Hcall).
Qed.

(** A poll that finds a connection accepts it. *)
Lemma accept_finishes rw p env w x :
  epoll_extra (w_events w) e = Some x -> State_get_field Registered (ep_state_ x) = true ->
  State_get_field ErrorBit (ep_state_ x) = false -> State_get_field ReadableBit (ep_state_ x) = true ->
  rw.1 <> (-1)%Z ->
  exists es, TcpListener_accept_poll rw p env t fo self e' w = (Done (Ready (accepted rw p)), set_events es w) /\
    epoll_extra es e = Some x /\
    es !! e' = Some (mkEvent None (Some (EEpoll (mkEpollExtra 0 InterestAll rw.1)))).
Proof.
  intros Hx Hreg Herr Hrd Hfd. eexists. split_and!.
  - unfold TcpListener_accept_poll. rewrite (bind_done _ _ _ _ _ (io_extra_run _ _ _ Hx)), Hreg, Herr, Hrd.
    cbn [negb]. unfold into_sys_result. rewrite (proj2 (Z.eqb_neq _ _) Hfd). reflexivity.
  - cbn. unfold epoll_extra. rewrite lookup_insert_ne by done. exact Hx.
  - cbn. apply lookup_insert_eq.
Qed.

(** The report of a connection: input and no error. *)
Definition reports_connection (bits : Z) : bool := negb (reports_error bits) && State_get_field EPOLLIN bits.

Lemma accept_waits a w r x :
  polls_epoll t a w r -> epoll_extra (w_events w) e = Some x -> listening x ->
  (State_get_field Registered (ep_state_ x) = true -> io = ((-1)%Z, EAGAIN)) -> ctl_return ctl <> (-1)%Z ->
  fresh_heap cw cb cu fw fb fu fo (w_heap w) -> w_handles_ w = [] -> running w ->
  exists w1 r1, suspends cw cb cu fw fb fu fo false id first_poll w w1 /\
    reading t cw cb cu fb fu fo e a (w_heap w) w1 r1.
Proof.
  intros Hp Hx Hl Hio Hret Hh Hq Hk. set (w0 := first_state cw cb cu fb fu fo false id w).
  destruct (accept_suspends a w0 r x) as (w1 & r1 & Hrun & Hp1 & Hreg & Hx1 & Hf1 & Hheap & Hq1 & Hip); [done..|].
  exists w1, r1. split; constructor; try done; try (by rewrite ?Hheap, ?Hq1; unfold running; rewrite ?Hip).
  rewrite Hreg. set_solver.
Qed.

(** C5.  [block_on(listener.accept())] over epoll accepts one connection per call, for any
    number of calls.  On a listener that has not been used, or whose last report was of a
    connection: when [accept4(2)] has a connection the call returns it at once; when it
    says [EAGAIN], or the listener was not used yet, the call does not return while the
    kernel reports nothing and returns the connection in the turn after the report of
    one.  The stream is on the descriptor [accept4(2)] gave, with an event of its own;
    nothing else of the call is left, and the listener is again as the next call needs
    it. *)
Theorem block_on_accept_returns fuel a w r x envs env env' rest bits
    (Hp : polls_epoll t a w r) (Hx : epoll_extra (w_events w) e = Some x) (Hl : listening x)
    (Hret : ctl_return ctl <> (-1)%Z)
    (Hh : fresh_heap cw cb cu fw fb fu fo (w_heap w)) (Hq : w_handles_ w = []) (Hk : running w)
    (Hquiet : Forall (fun env => quiet (env a)) envs)
    (Hrep : reports_one (env a) bits e) (Hbits : reports_connection bits = true) (Hio' : io'.1 <> (-1)%Z) :
  let returns rw p envs := exists w' x', block_on_accept (S fuel) envs w = (Done (Some (accepted rw p)), w') /\
    w_heap w' = w_heap w /\ w_handles_ w' = [] /\ running w' /\
    w_events w' !! e' = Some (mkEvent None (Some (EEpoll (mkEpollExtra 0 InterestAll rw.1)))) /\
    future_of (w_events w') e = None /\ epoll_extra (w_events w') e = Some x' /\ listening x' in
  ((State_get_field Registered (ep_state_ x) = true -> io = ((-1)%Z, EAGAIN)) ->
     (envs <> [] -> exists w', block_on_accept (S fuel) envs w = (Done None, w')) /\
     returns io' peer' (envs ++ env :: env' :: rest)) /\
  (State_get_field Registered (ep_state_ x) = true -> io.1 <> (-1)%Z -> returns io peer (env :: rest)).
Proof.
  intros returns. split.
  - intros Hio. destruct (accept_waits a w r x) as (w1 & r1 & Hs & Hr1); [done..|].
    apply andb_true_iff in Hbits as [Hne Hin]. apply negb_true_iff in Hne.
    destruct (epoll_call t cw cb cu fw fb fu fo done e id destroy first_poll next_poll Hfid Hhid fuel a w w1 r1
      envs env env' rest bits (accepted io' peer') (fun w4 => w_handles_ w4 = [] /\
        w_events w4 !! e' = Some (mkEvent None (Some (EEpoll (mkEpollExtra 0 InterestAll io'.1)))) /\
        exists x4, epoll_extra (w_events w4) e = Some x4 /\ ep_state_ x4 = to_state bits) Hs Hr1 Hquiet Hrep)
      as [Hnone (w4 & Hrun & Hq4 & Hs4 & x4 & Hx4 & Hst4)].
    { intros w3 x3 [Hq3 Hh3 Hk3 Hx3 Hst _]. destruct (to_state_flags bits) as (Hreg & Herr & Hrd & _).
      rewrite <- Hst in Hreg, Herr, Hrd. rewrite Hne in Herr, Hrd. rewrite Hin in Hrd.
      destruct (accept_finishes io' peer' ctl' w3 x3) as (es & Hfin & Hx4 & Hs4); [done..|].
      exists (set_events es w3). split_and!; try done. by exists x3. }
    split; [done|]. eexists _, x4. split; [exact Hrun|].
    destruct (epoll_extra_bind (w_events w4) None x4 Hx4) as [Hx5 Hf5].
    split_and!; try done; [cbn; by rewrite lookup_alter_ne|].
    right. rewrite Hst4. destruct (to_state_flags bits) as (-> & -> & -> & _). by rewrite Hne, Hin.
  - intros Hreg Hfd. destruct Hl as [?|(_ & Herr & Hrd)]; [congruence|].
    set (w0 := first_state cw cb cu fb fu fo false id w).
    destruct (accept_finishes io peer ctl w0 x) as (es & Hfin & Hx4 & Hs4); [done..|].
    destruct (epoll_extra_bind es None x Hx4) as [Hx5 Hf5].
    exists (ended false destroy (w_heap w) (accepted io peer) (set_events es w0)), x.
    split_and!; try done; [|cbn; by rewrite lookup_alter_ne|by right].
    unfold block_on_accept. by apply (block_on_ready t cw cb cu fw fb fu fo done false id destroy
      first_poll next_poll Hfid Hhid fuel env rest w (set_events es w0)).
Qed.
End Accept.
