(* ===== verification/TcpUring.v ===== *)
(** TCP and file transfers over io_uring: the futures of
    [include/xyco/net/io_uring/listener.ccm], [src/net/io_uring/listener.cc] and
    [include/xyco/fs/io_uring/file.ccm].

    Every future submits its operation when it is polled first and returns the
    operation's result when it is polled after the completion. *)
From stdpp Require Import base gmap list sets strings.
From Stdlib Require Import ZArith Lia.
From S2P Require Import Prelude Errors Events Futures Core Driver Epoll Uring UringSpec Net Tcp.

(** [typeid(io::uring::IoRegistry).hash_code()]. *)
Definition UringRegistry_hash : nat := 4.

(** [std::make_unique<IoExtra>()]: every field is value-initialised. *)
Definition UringExtra_new : UringExtra := mkUringExtra (UringRead 0 0 0) 0 0 0.

(** [TcpStream::TcpStream] and [TcpListener::TcpListener]; the listener's extra
    gets its descriptor in [accept]. *)
Definition UringStream_new (e : eid) (fd : Z) (es : EventStore) : TcpStream * EventStore :=
  (mkTcpStream fd e,
   <[e := mkEvent None (Some (EUring (mkUringExtra (args_ UringExtra_new) fd 0 0)))]> es).
Definition UringListener_new (e : eid) (fd : Z) (es : EventStore) : TcpListener * EventStore :=
  (mkTcpListener fd e, <[e := mkEvent None (Some (EUring UringExtra_new))]> es).

Section Tcp.
Context {R V Env : Type} `{Registry R Env} `{InetText}.
Implicit Types (w : World R V) (t : tid) (this : fid).

Definition uring_io_extra (e : eid) : M (World R V) UringExtra :=
  let! w := get in deref (uring_extra (w_events w) e).

Definition assign_extra (e : eid) (x : UringExtra) : M (World R V) unit :=
  modify (fun w => set_events (put_extra e x (w_events w)) w).

(** The branch of an operation that has not completed: the event is bound to the
    future, the extra gets the arguments and, where the code sets it, the
    descriptor, and the event is registered. *)
Definition uring_start (args : UringArgs) (fd : option Z) (env : Env) t this (e : eid)
    : M (World R V) unit :=
  bind_future e (Some this) ;;;
  let! extra := uring_io_extra e in
  assign_extra e (mkUringExtra args (default (ur_fd_ extra) fd) (return_ extra) (ur_state_ extra)) ;;;
  Driver_Register env t UringRegistry_hash e.

(** The branch of a completed one: the flag is cleared, the result returned. *)
Definition uring_finish (e : eid) (extra : UringExtra) : M (World R V) Z :=
  assign_extra e (set_uring_state (State_set_field Completed false) extra) ;;;
  ret (return_ extra).

Definition uring_error {T} (return_value : Z) : Result T :=
  Unexpected (mkError (- return_value) "").

(** [poll] of the futures of [TcpStream::read] and [File::read]: [buf] and [len]
    are the address and the length of the range. *)
Definition uring_read_poll (buf : nat) (len : Z) (env : Env) t this (e : eid)
    : M (World R V) (Poll (Result Z)) :=
  let! extra := uring_io_extra e in
  if negb (State_get_field Completed (ur_state_ extra)) then
    uring_start (UringRead buf (to_uint32 len) 0) None env t this e ;;; ret Pending
  else
    let! n := uring_finish e extra in
    if (0 <=? n)%Z then ret (Ready (Value n)) else ret (Ready (uring_error n)).

(** [poll] of the futures of [TcpStream::write] and [File::write]. *)
Definition uring_write_poll (buf : nat) (len : Z) (env : Env) t this (e : eid)
    : M (World R V) (Poll (Result Z)) :=
  let! extra := uring_io_extra e in
  if negb (State_get_field Completed (ur_state_ extra)) then
    uring_start (UringWrite buf (to_uint32 len) 0) None env t this e ;;; ret Pending
  else
    let! n := uring_finish e extra in
    if (0 <=? n)%Z then ret (Ready (Value n)) else ret (Ready (uring_error n)).

(** [poll] of the future of [TcpSocket::connect]; [addr] is [into_c_addr()]. *)
Definition uring_connect_poll (addr : nat) (env : Env) t this (fd : Z) (e e' : eid)
    : M (World R V) (Poll (Result TcpStream)) :=
  let! extra := uring_io_extra e in
  if negb (State_get_field Completed (ur_state_ extra)) then
    uring_start (UringConnect addr sizeof_sockaddr) (Some fd) env t this e ;;; ret Pending
  else
    let! n := uring_finish e extra in
    if (n <? 0)%Z then ret (Ready (uring_error n))
    else
      let! w := get in
      let '(stream, es) := UringStream_new e' fd (w_events w) in
      put (set_events es w) ;;; ret (Ready (Value stream)).

(** [poll] of the future of [TcpStream::shutdown]. *)
Definition uring_shutdown_poll (shutdown : Shutdown) (env : Env) t this (self : TcpStream)
    : M (World R V) (Poll (Result unit)) :=
  let e := ts_event_ self in
  let! extra := uring_io_extra e in
  if negb (State_get_field Completed (ur_state_ extra)) then
    uring_start (UringShutdown shutdown) (Some (ts_fd self)) env t this e ;;; ret Pending
  else
    let! n := uring_finish e extra in
    if (n <? 0)%Z then ret (Ready (uring_error n)) else ret (Ready (Value tt)).

(** [poll] of the future of [TcpListener::accept]: [addr] and [addrlen] are the
    addresses of its members, [peer] what the kernel stored there. *)
Definition uring_accept_poll (addr addrlen : nat) (peer : sockaddr_in) (env : Env) t this
    (self : TcpListener) (e' : eid) : M (World R V) (Poll (Result (TcpStream * SocketAddr))) :=
  let e := tl_event_ self in
  let! extra := uring_io_extra e in
  if negb (State_get_field Completed (ur_state_ extra)) then
    uring_start (UringAccept addr addrlen 0) (Some (tl_fd self)) env t this e ;;; ret Pending
  else
    let! n := uring_finish e extra in
    if (n <? 0)%Z then ret (Ready (uring_error n))
    else
      let sock_addr := SocketAddr_new_v4 (Ipv4Addr_new (Some (inet_ntop4 (sin_addr peer))))
                         (sin_port peer) in
      let! w := get in
      let '(stream, es) := UringStream_new e' n (w_events w) in
      put (set_events es w) ;;; ret (Ready (Value (stream, sock_addr))).
End Tcp.

(** ** From the first poll to the result *)

Section Spec.
Context {U K V : Type} `{UringLaws U K}.
Implicit Types (w : World (UringRegistry U) V) (k : K) (t : tid) (this : fid).

Lemma uring_io_extra_run e w x :
  uring_extra (w_events w) e = Some x -> uring_io_extra e w = (Done x, w).
Proof. intros Hx. unfold uring_io_extra. mred. by rewrite Hx. Qed.

Lemma uring_extra_bind e f es x :
  uring_extra es e = Some x -> uring_extra (alter (set_future f) e es) e = Some x /\
    future_of (alter (set_future f) e es) e = f.
Proof.
  unfold uring_extra, future_of. rewrite lookup_alter_eq.
  destruct (es !! e) as [[? [[]|]]|]; intros ?; by simplify_eq/=.
Qed.

(** Starting an operation hands the kernel its request, with the event that will
    resume [this]. *)
Lemma uring_start_run args fd k t this e w a r x :
  registry_of t UringRegistry_hash w = Some a -> w_registries w !! a = Some r ->
  uring_extra (w_events w) e = Some x ->
  State_get_field Registered (ur_state_ x) = false ->
  let x' := mkUringExtra args (default (ur_fd_ x) fd) (return_ x) (ur_state_ x) in
  exists w' u, uring_start args fd k t this e w = (Done tt, w') /\
    w_registries w' !! a = Some (mkUringRegistry u (ur_registered_events_ r ++ [e])) /\
    submitted u = submitted (io_uring_ r) ++ flushed (io_uring_ r)
                  ++ [mkSqe (sqe_of x') (Some e)] /\
    future_of (w_events w') e = Some this /\
    uring_extra (w_events w') e = Some (set_uring_state (State_set_field Registered true) x') /\
    driver_ w' = driver_ w /\ w_heap w' = w_heap w /\ w_handles_ w' = w_handles_ w /\
    in_place_worker_ w' = in_place_worker_ w.
Proof.
  intros Ha Hr Hx Hreg x'. destruct (uring_extra_bind e (Some this) _ x Hx) as [Hx1 Hf1].
  set (es1 := alter (set_future (Some this)) e (w_events w)) in *.
  set (es2 := put_extra e x' es1).
  assert (uring_extra es2 e = Some x') as Hx2 by (by eapply uring_extra_put_eq).
  destruct (uring_register_submits k e r es2 x' Hx2) as (u & es' & Hrun & Hsub & _ & Hfut & _ & Hx').
  change (ur_state_ x') with (ur_state_ x) in Hrun, Hx'. rewrite Hreg in Hrun, Hx'.
  eexists _, u. split_and!.
  - unfold uring_start. rewrite (bind_done _ _ _ tt (set_events es1 w)) by done.
    rewrite (bind_done _ _ _ x (set_events es1 w)) by (by apply uring_io_extra_run).
    rewrite (bind_done _ _ _ tt (set_events es2 w)) by done.
    unfold Driver_Register, Driver_call. mred.
    change (registry_of t UringRegistry_hash (set_events es2 w))
      with (registry_of t UringRegistry_hash w). rewrite Ha. unfold on_registry.
    cbn [w_registries w_events set_events]. rewrite Hr, Hrun. cbn [deref_expected]. reflexivity.
  - cbn [w_registries set_events set_registries]. apply lookup_insert_eq.
  - done.
  - cbn [w_events set_events set_registries]. rewrite Hfut. unfold es2, put_extra.
    by rewrite future_of_set_extra.
  - done.
  - done.
  - done.
  - done.
  - done.
Qed.

Lemma uring_finish_run e w x :
  uring_finish e x w = (Done (return_ x),
    set_events (put_extra e (set_uring_state (State_set_field Completed false) x) (w_events w)) w).
Proof. reflexivity. Qed.

(** The state an event is in between two operations. *)
Definition idle (x : UringExtra) : Prop :=
  State_get_field Registered (ur_state_ x) = false /\
  State_get_field Completed (ur_state_ x) = false.

(** The flags of an idle extra through a registration and a completion. *)
Lemma completed_extra_flags res x :
  (0 <= ur_state_ x < 4)%Z ->
  let y := completed_extra res (set_uring_state (State_set_field Registered true) x) in
  State_get_field Completed (ur_state_ y) = true /\
  idle (set_uring_state (State_set_field Completed false) y).
Proof.
  intros Hs. destruct x as [args fd ret_ st]. cbn [ur_state_] in Hs. cbn zeta.
  assert (st = 0 \/ st = 1 \/ st = 2 \/ st = 3)%Z as [->|[->|[->| ->]]] by lia; by repeat split.
Qed.

(** The first poll of a read on an idle event hands the kernel one read of the range on
    the event's descriptor, bound to the future. *)
Lemma uring_read_starts buf len k t this e w a r x :
  registry_of t UringRegistry_hash w = Some a -> w_registries w !! a = Some r ->
  uring_extra (w_events w) e = Some x -> idle x ->
  let x' := mkUringExtra (UringRead buf (to_uint32 len) 0) (ur_fd_ x) (return_ x) (ur_state_ x) in
  exists w' u, uring_read_poll buf len k t this e w = (Done Pending, w') /\
    w_registries w' !! a = Some (mkUringRegistry u (ur_registered_events_ r ++ [e])) /\
    submitted u = submitted (io_uring_ r) ++ flushed (io_uring_ r)
                  ++ [mkSqe (prep_read (ur_fd_ x) buf (to_uint32 len) 0) (Some e)] /\
    future_of (w_events w') e = Some this /\
    uring_extra (w_events w') e = Some (set_uring_state (State_set_field Registered true) x') /\
    driver_ w' = driver_ w /\ w_heap w' = w_heap w /\ w_handles_ w' = w_handles_ w /\
    in_place_worker_ w' = in_place_worker_ w.
Proof.
  intros Ha Hr Hx [Hreg Hcomp] x'.
  destruct (uring_start_run (args_ x') None k t this e w a r x Ha Hr Hx Hreg)
    as (w' & u & Hrun & Hrest). exists w', u. split; [|exact Hrest].
  unfold uring_read_poll. rewrite (bind_done _ _ _ _ _ (uring_io_extra_run _ _ _ Hx)), Hcomp.
  cbn [negb]. by rewrite (bind_done _ _ _ _ _ Hrun).
Qed.

(** What the caller of a read gets when the kernel completes it with [res]. *)
Definition read_result (res : Z) : Result Z :=
  if (0 <=? res)%Z then Value res else Unexpected (mkError (- res) "").

(** The poll after the completion returns the result and leaves the event idle. *)
Lemma uring_read_ends buf len k t this e w x res :
  (0 <= ur_state_ x < 4)%Z ->
  uring_extra (w_events w) e =
    Some (completed_extra res (set_uring_state (State_set_field Registered true) x)) ->
  exists es x', uring_read_poll buf len k t this e w =
      (Done (Ready (read_result res)), set_events es w) /\
    uring_extra es e = Some x' /\ idle x'.
Proof.
  intros Hst Hx. destruct (completed_extra_flags res x Hst) as [Hc Hidle].
  set (y := completed_extra _ _) in *. eexists _, (set_uring_state (State_set_field Completed false) y).
  split_and!; [| |exact Hidle].
  - unfold uring_read_poll. rewrite (bind_done _ _ _ _ _ (uring_io_extra_run _ _ _ Hx)), Hc.
    cbn [negb]. rewrite (bind_done _ _ _ _ _ (uring_finish_run _ _ _)).
    change (return_ y) with res. unfold read_result. by destruct (0 <=? res)%Z.
  - by eapply uring_extra_put_eq.
Qed.
End Spec.
