(* ===== verification/BlockOnUring.v ===== *)
(** [block_on(stream.read(...))] over io_uring, from the call to its return: the coroutines
    of [BlockOn.v] with the future object of [TcpStream::read], the driver, the io_uring
    registry and the ring. *)
From stdpp Require Import base gmap list sets.
From Stdlib Require Import ZArith Lia.
From S2P Require Import Prelude Errors Events Futures Core Driver DriverSpec Worker WorkerSpec BlockOn BlockOnSpec Epoll Uring UringSpec Net Tcp TcpUring.

Section Read.
Context {U K : Type} `{UringLaws U K}.
#[local] Abbreviation V := (Result Z).
Implicit Types (w : World (UringRegistry U) V) (k : K).
Variables (t : tid) (cw cb cu : hid) (fw fb fu fo : fid) (done : V).

(** The range of the buffer, the stream's event, and the ring at the two polls. *)
Variables (buf : nat) (len : Z) (e : eid) (k1 k2 : K).
#[local] Abbreviation first_poll := (uring_read_poll buf len k1 t fo e).
#[local] Abbreviation next_poll := (uring_read_poll buf len k2 t fo e).
#[local] Abbreviation destroy := (alter (set_future None) e).

(** [runtime->block_on(stream.read(begin, end))]. *)
Definition block_on_uring_read : nat -> list (nat -> K) -> M (World (UringRegistry U) V) (option V) :=
  block_on t cw cb cu fw fb fu fo done false id destroy first_poll next_poll.

Hypothesis Hfid : NoDup [fw; fb; fu; fo].
Hypothesis Hhid : NoDup [cw; cb; cu].
#[local] Abbreviation waiting := (waiting_heap cw cb cu fb fu fo false None).
#[local] Abbreviation wait := (fun k u => io_uring_wait_cqe_timeout k (timespec_of MAX_TIMEOUT) u).

(** Thread [t] has the registry [r], at [a], and no other one. *)
Definition polls_uring (a : nat) w (r : UringRegistry U) : Prop :=
  local_registries_ (driver_ w) !! t = Some [(UringRegistry_hash, a)] /\ w_registries w !! a = Some r.

(** Waits that time out, from the ring [u] to the ring [u']. *)
Inductive times_out (a : nat) : list (nat -> K) -> U -> U -> Prop :=
  | times_out_nil u : times_out a [] u u
  | times_out_cons env envs rc p u u1 u2 :
      wait (env a) u = (rc, p, u1) -> (rc < 0)%Z -> (- rc = ETIME \/ - rc = EBUSY)%Z ->
      times_out a envs u1 u2 -> times_out a (env :: envs) u u2.

(** The runtime while the coroutine waits for the operation with the extra [x]. *)
Record in_flight (a : nat) (h : Heap V) (x : UringExtra) w (u : U) : Prop := {
  fl_polls : exists regs, polls_uring a w (mkUringRegistry u regs) /\ e ∈ regs;
  fl_extra : uring_extra (w_events w) e = Some x;
  fl_bound : future_of (w_events w) e = Some fo;
  fl_heap : w_heap w = waiting h;
  fl_queue : w_handles_ w = [];
  fl_running : running w;
}.

(** A wait that times out leaves the coroutine waiting. *)
Lemma in_flight_timeout a h x w u env rc p u1 :
  in_flight a h x w u -> wait (env a) u = (rc, p, u1) -> (rc < 0)%Z ->
  (- rc = ETIME \/ - rc = EBUSY)%Z ->
  exists w', Driver_poll env t w = (Done tt, w') /\ in_flight a h x w' u1.
Proof.
  intros [(regs & [Hl Hr] & He) Hx Hf Hw Hq Hk] Hwait Hneg Hrc.
  assert (select (env a) MAX_TIMEOUT (mkUringRegistry u regs, w_events w, []) =
    (Done (Value tt), (mkUringRegistry u1 regs, w_events w, []))) as Hs.
  { cbn [select UringRegistry_ops]. unfold Uring_select. mred. cbn [io_uring_]. rewrite Hwait.
    rewrite (proj2 (Z.ltb_lt rc 0) Hneg). cbn [andb].
    assert (((- rc =? ETIME) || (- rc =? EBUSY))%Z = true) as -> by (apply orb_true_iff; rewrite !Z.eqb_eq; auto).
    done. }
  destruct (single_poll env t UringRegistry_hash a w _ _ _ _ Hl Hr Hs) as
    (w' & xs & Hrun & Hxs & Hq' & Hes & Hregs & Hdrv); [apply NoDup_nil_2|done|by intros ? ?%elem_of_nil|].
  apply Forall2_nil_inv_l in Hxs as ->. cbn in Hes.
  pose proof (Driver_poll_rest env t w) as (Hh&Hi&_). rewrite Hrun in Hh, Hi. cbn in Hh, Hi.
  exists w'. split; [done|]. constructor; rewrite ?Hes, ?Hh; try done.
  - exists regs. split; [|done]. split; [by rewrite Hdrv|]. rewrite Hregs. apply lookup_insert_eq.
  - unfold fifo in Hq'. rewrite Hq, app_nil_r in Hq'. apply (f_equal (@rev _)) in Hq'.
    by rewrite rev_involutive in Hq'.
  - unfold running. by rewrite Hi.
Qed.

Lemma in_flight_idles a h x envs w u u' :
  in_flight a h x w u -> times_out a envs u u' ->
  exists w', idles t envs w w' /\ in_flight a h x w' u'.
Proof.
  intros Hw Ht. revert w Hw. induction Ht as [u|env envs rc p u u1 u2 Hwait Hneg Hrc _ IH]; intros w Hw.
  - exists w. split; [constructor|done].
  - destruct (in_flight_timeout a h x w u env rc p u1 Hw Hwait Hneg Hrc) as (w1 & Hrun & Hw1).
    destruct (IH w1 Hw1) as (w2 & Hi & Hw2). exists w2. split; [|done].
    econstructor; [apply Hw|done|done].
Qed.

(** The completion of the operation queues the coroutine. *)
Lemma in_flight_completes a h x w u env rc u1 res :
  in_flight a h x w u -> wait (env a) u = (rc, true, u1) -> (0 <= rc)%Z ->
  io_uring_cqes u1 = [mkCqe (Some e) res] ->
  exists w', Driver_poll env t w = (Done tt, w') /\
    w_handles_ w' = [(Some cu, Some fo)] /\ w_heap w' = waiting h /\ running w' /\
    uring_extra (w_events w') e = Some (completed_extra res x).
Proof.
  intros [(regs & [Hl Hr] & He) Hx Hf Hw Hq Hk] Hwait Hrc Hcq.
  set (es' := put_extra e (completed_extra res x) (w_events w)).
  assert (select (env a) MAX_TIMEOUT (mkUringRegistry u regs, w_events w, []) =
    (Done (Value tt), (mkUringRegistry (io_uring_cq_advance 1 u1) (erase_first e regs), es', [e]))) as Hs.
  { cbn [select UringRegistry_ops]. unfold Uring_select. mred. cbn [io_uring_]. rewrite Hwait.
    rewrite (proj2 (Z.ltb_ge rc 0) Hrc), Hcq. cbn [andb Uring_select_loop cqe_data cqe_res ur_registered_events_]. mred.
    rewrite Hx. rewrite decide_True by done. done. }
  assert (entry_of (w_heap w) (w_events w) e = Some (Some cu, Some fo)) as Hent.
  { rewrite (entry_of_for _ _ _ fo (object cu false None)); [done| |done].
    rewrite Hw. cbn. apply lookup_insert_eq. }
  destruct (single_poll env t UringRegistry_hash a w _ _ _ _ Hl Hr Hs) as
    (w' & xs & Hrun & Hxs & Hq' & Hes & Hregs & Hdrv).
  { apply NoDup_singleton. }
  { intros e'. apply future_of_set_extra. }
  { intros e' ->%list_elem_of_singleton. by rewrite Hent. }
  apply Forall2_cons_inv_l in Hxs as (y & ys & Hy & Hys & ->). apply Forall2_nil_inv_l in Hys as ->.
  rewrite Hent in Hy. injection Hy as <-.
  pose proof (Driver_poll_rest env t w) as (Hh&Hi&_). rewrite Hrun in Hh, Hi. cbn in Hh, Hi.
  exists w'. split_and!; [done| |by rewrite Hh|unfold running; by rewrite Hi|].
  - unfold fifo in Hq'. rewrite Hq in Hq'. apply (f_equal (@rev _)) in Hq'. by rewrite rev_involutive in Hq'.
  - rewrite Hes. cbn. unfold unbind. apply uring_extra_bind. by eapply uring_extra_put_eq.
Qed.

(** C21.  [block_on(stream.read(...))] over io_uring, from the call to its return.  The call
    hands the kernel exactly one read of the range on the stream's descriptor; it does
    not return while the waits for completions time out; in the turn after the
    completion it returns the number of bytes, or the kernel's error.  After the call
    every frame and future it made is gone, the stream's event is bound to no future and
    idle again, and the worker is ready for the next call. *)
Theorem block_on_uring_read_returns fuel a w r x
    (Hl : local_registries_ (driver_ w) !! t = Some [(UringRegistry_hash, a)])
    (Hr : w_registries w !! a = Some r)
    (Hx : uring_extra (w_events w) e = Some x) (Hidle : idle x) (Hst : (0 <= ur_state_ x < 4)%Z)
    (Hh : fresh_heap cw cb cu fw fb fu fo (w_heap w)) (Hq : w_handles_ w = []) (Hk : running w) :
  exists w1 u, first_poll (first_state cw cb cu fb fu fo false id w) = (Done Pending, w1) /\
    w_registries w1 !! a = Some (mkUringRegistry u (ur_registered_events_ r ++ [e])) /\
    submitted u = submitted (io_uring_ r) ++ flushed (io_uring_ r)
        ++ [mkSqe (prep_read (ur_fd_ x) buf (to_uint32 len) 0) (Some e)] /\
    forall envs u', times_out a envs u u' ->
      (envs <> [] -> exists w', block_on_uring_read (S fuel) envs w = (Done None, w')) /\
      (forall env env' rest rc u'' res,
         wait (env a) u' = (rc, true, u'') -> (0 <= rc)%Z -> io_uring_cqes u'' = [mkCqe (Some e) res] ->
         exists w' x', block_on_uring_read (S fuel) (envs ++ env :: env' :: rest) w =
             (Done (Some (read_result res)), w') /\
           w_heap w' = w_heap w /\ w_handles_ w' = [] /\ running w' /\
           future_of (w_events w') e = None /\ uring_extra (w_events w') e = Some x' /\ idle x').
Proof.
  set (w0 := first_state cw cb cu fb fu fo false id w).
  assert (registry_of t UringRegistry_hash w0 = Some a) as Ha by (unfold registry_of; cbn; by rewrite Hl).
  destruct (uring_read_starts buf len k1 t fo e w0 a r x Ha Hr Hx Hidle) as
    (w1 & u & Hrun & Hreg1 & Hsub & Hf1 & Hx1 & Hd1 & Hh1 & Hq1 & Hi1).
  set (x1 := mkUringExtra (UringRead buf (to_uint32 len) 0) (ur_fd_ x) (return_ x) (ur_state_ x)) in *.
  exists w1, u. split_and!; [done..|].
  assert (suspends cw cb cu fw fb fu fo false id first_poll w w1) as Hs
    by (constructor; try done; by rewrite ?Hh1, ?Hq1; unfold running; rewrite ?Hi1).
  assert (in_flight a (w_heap w) (set_uring_state (State_set_field Registered true) x1) w1 u) as Hfl.
  { constructor; try done; try (by rewrite ?Hh1, ?Hq1; unfold running; rewrite ?Hi1).
    exists (ur_registered_events_ r ++ [e]). split; [|set_solver]. split; [by rewrite Hd1|done]. }
  intros envs u' Hto. destruct (in_flight_idles _ _ _ _ _ _ _ Hfl Hto) as (w2 & Hi & Hfl2). split.
  - intros Hne. exists w2. unfold block_on_uring_read.
    exact (block_on_waits t cw cb cu fw fb fu fo done false id destroy first_poll next_poll Hfid Hhid
      fuel envs w w1 w2 Hs Hne Hi).
  - intros env env' rest rc u'' res Hwait Hrc Hcq.
    destruct (in_flight_completes _ _ _ _ _ _ _ _ _ Hfl2 Hwait Hrc Hcq) as (w3 & Hrun3 & Hq3 & Hh3 & Hk3 & Hx3).
    destruct (uring_read_ends buf len k2 t fo e (set_handles [] w3) x1 res Hst Hx3) as (es & x' & Hfin & Hx' & Hid).
    exists (ended false destroy (w_heap w) (read_result res) (set_events es (set_handles [] w3))), x'.
    destruct (uring_extra_bind e None es x' Hx') as [Hx4 Hf4]. split_and!; try done.
    unfold block_on_uring_read. change (env :: env' :: rest) with ([env] ++ env' :: rest). rewrite app_assoc.
    apply (block_on_ends t cw cb cu fw fb fu fo done false id destroy first_poll next_poll Hfid Hhid
      fuel (envs ++ [env]) env' rest w w1 w3 (set_events es (set_handles [] w3))); try done.
    + by destruct envs.
    + eapply idles_snoc; [done|apply Hfl2|done].
Qed.
End Read.
