(* ===== verification/NetWitness.v ===== *)
(** The theorems on addresses, descriptors and transfers at concrete inputs. *)
From stdpp Require Import base gmap list sets strings relations.
From Stdlib Require Import ZArith Lia.
From S2P Require Import Prelude Errors Events Futures Core Driver Epoll Uring UringSpec RegistryWitness Net Tcp TcpSpec TcpFlow TcpUring Worker BlockOn BlockOnSpec BlockOnTcp BlockOnAccept BlockOnUring.

Lemma socket_addr_ports_witness :
  get_port (SocketAddr_new_v4 16777343 8080) = 8080%Z /\
  ntohs (wire_port (SocketAddr_new_v6 [] 8080)) = 36895%Z.
Proof.
  destruct (socket_addr_ports 16777343 [] 8080 ltac:(lia)) as (H1 & _ & _ & H4).
  split; [exact H1|]. rewrite H4. reflexivity.
Defined.

(** ** Descriptors: socket 1 opened on 7, moved into socket 2 *)

Definition moved_state : OwnerState := snd (owner_run (op_move 2 1)
  (snd (owner_run (op_open 1 7) (mkOwnerState ∅ ∅)))).

Lemma moved_state_reachable : rtc owner_step (mkOwnerState ∅ ∅) moved_state.
Proof.
  eapply rtc_l; [apply (owner_step_intro (op_open 1 7)); [|reflexivity]|].
  { split_and!; [done|done|set_solver]. }
  apply rtc_once, (owner_step_intro (op_move 2 1)); [|reflexivity].
  split; [done|by eexists].
Qed.

Lemma descriptors_have_one_owner_witness :
  fst (owner_run (op_destroy 2) moved_state) = Done tt /\ 7%Z ∈ os_open moved_state.
Proof.
  destruct (descriptors_have_one_owner moved_state moved_state_reachable) as (H1 & H2 & _).
  split; [apply H1; by eexists|]. apply H2. split; [done|]. by exists 2.
Defined.

Definition two_sockets : OwnerState := mkOwnerState {[1 := 7%Z; 2 := 8%Z]} {[7%Z; 8%Z]}.

Lemma move_assign_leaks_witness :
  exists s', Socket_move_assign 1 2 two_sockets = (Done tt, s') /\ 7%Z ∈ os_open s'.
Proof.
  destruct (move_assign_leaks two_sockets 1 2 7 8) as (s' & Hrun & Hopen & _); [|done..|].
  - split; cbn.
    + intros o1 o2 fd. rewrite !lookup_insert_Some, !lookup_singleton_Some. naive_solver lia.
    + intros fd. rewrite elem_of_union, !elem_of_singleton. split.
      * intros [-> | ->]; (split; [done|]); [by exists 1|by exists 2].
      * intros [_ (o & Ho)]. revert Ho. rewrite lookup_insert_Some, lookup_singleton_Some. naive_solver.
  - by exists s'.
Defined.

(** ** A worker thread 0 whose registry is at address 10 *)

Definition world {R : Type} (hash : nat) (r : R) (es : EventStore) : World R nat :=
  mkWorld (mkHeap ∅ ∅) es [] (mkWorker false []) ∅
    (mkDriver [] {[0 := [(hash, 10)]]}) {[10 := r]} ∅ 0 None.

#[local] Instance test_inet : InetText := {
  inet_pton4 s := if decide (s = "127.0.0.1") then Some 16777343%Z else None;
  inet_pton6 _ := None;
  inet_ntop4 _ := "127.0.0.1";
  inet_ntop6 _ := "::1";
}.

Definition stream : TcpStream := mkTcpStream 5 1.
Definition stream_store (state : Z) : EventStore :=
  {[ 1 := mkEvent None (Some (EEpoll (mkEpollExtra state InterestAll 5))) ]}.
Definition ep_world (state : Z) : World EpollRegistry nat :=
  world EpollRegistry_hash (mkEpollRegistry [] []) (stream_store state).

Lemma tcp_read_pending_armed_witness :
  exists op, armed 0 (snd (TcpStream_read_poll (0, 0)%Z (ep_env 0 0) 0 3 stream (ep_world 0)))
    1 3 op 5 InterestRead /\ op <> CtlDel.
Proof.
  destruct (tcp_read_pending_armed (0, 0)%Z (ep_env 0 0) 0 3 stream (ep_world 0)
    (snd (TcpStream_read_poll (0, 0)%Z (ep_env 0 0) 0 3 stream (ep_world 0)))
    (mkEpollExtra 0 InterestAll 5)) as (op & Harm & _ & Hop); [reflexivity|reflexivity|].
  exists op. split; [exact Harm|exact Hop].
Defined.

Lemma tcp_write_pending_armed_witness :
  exists op, armed 0 (snd (TcpStream_write_poll (0, 0)%Z (ep_env 0 0) 0 3 stream (ep_world 1)))
    1 3 op 5 InterestWrite /\ op <> CtlDel.
Proof.
  destruct (tcp_write_pending_armed (0, 0)%Z (ep_env 0 0) 0 3 stream (ep_world 1)
    (snd (TcpStream_write_poll (0, 0)%Z (ep_env 0 0) 0 3 stream (ep_world 1)))
    (mkEpollExtra 1 InterestAll 5)) as (op & Harm & _ & Hop); [reflexivity|reflexivity|].
  exists op. split; [exact Harm|exact Hop].
Defined.

Lemma tcp_ready_outcomes_witness :
  fst (TcpStream_read_poll (4, 0)%Z (ep_env 0 0) 0 3 stream (ep_world 5)) = Done (Ready (Value 4%Z)) /\
  fst (TcpStream_write_poll (-1, EAGAIN)%Z (ep_env 0 0) 0 3 stream (ep_world 9)) =
    Done (Ready (Unexpected (mkError 11 ""))).
Proof.
  destruct (tcp_ready_outcomes 4 0 (ep_env 0 0) 0 3 stream (ep_world 5)
    (mkEpollExtra 5 InterestAll 5) eq_refl) as (H1 & _).
  destruct (tcp_ready_outcomes 4 0 (ep_env 0 0) 0 3 stream (ep_world 9)
    (mkEpollExtra 9 InterestAll 5) eq_refl) as (_ & _ & _ & H4).
  rewrite H1, H4; [split; reflexivity|reflexivity|reflexivity|lia].
Defined.

(** The future 3, awaited by the coroutine 4, reads from the stream. *)
Definition reading_future : FutureObj nat := mkFuture false None None None (Some 4) None false.
Definition reading_world : World EpollRegistry nat :=
  set_heap (mkHeap {[3 := reading_future]} ∅) (ep_world 0).

Lemma tcp_read_end_to_end_witness :
  exists w1 w2 w3,
    TcpStream_read_poll (0, 0)%Z (ep_env 0 0) 0 3 stream reading_world = (Done Pending, w1) /\
    Driver_poll (fun _ => ep_env 0 1) 0 w1 = (Done tt, w2) /\
    (Some 4, Some 3) ∈ w_handles_ w2 /\
    TcpStream_read_poll (7, 0)%Z (ep_env 0 0) 0 3 stream w2 = (Done (Ready (Value 7%Z)), w3).
Proof.
  destruct (tcp_read_end_to_end (0, 0)%Z (ep_env 0 0) (fun _ => ep_env 0 1) (7, 0)%Z (ep_env 0 0) 0 10
    reading_world (mkEpollRegistry [] []) 3 reading_future stream (mkEpollExtra 0 InterestAll 5))
    as (w1 & w2 & xs & H1 & H2 & Hq & Hin & Hread).
  - split; reflexivity.
  - reflexivity.
  - left; reflexivity.
  - discriminate.
  - reflexivity.
  - split; [discriminate|cbn; lia|apply NoDup_singleton|].
    intros e He%list_elem_of_singleton Hne. done.
  - intros e He%elem_of_nil. done.
  - destruct (Hread EPOLLIN) as [w3 H3]; [by left|reflexivity|discriminate|].
    exists w1, w2, w3. split_and!; [exact H1|exact H2| |exact H3].
    change (entry_for 3 reading_future ∈ w_handles_ w2). apply list_elem_of_In. rewrite in_rev. unfold fifo in Hq. rewrite Hq. apply list_elem_of_In.
    apply elem_of_app. right. apply Hin. by left.
Defined.

Lemma accept_swaps_port_witness :
  exists addr w', TcpListener_accept_poll (6, 0)%Z (mkSockaddrIn AF_INET (htons 8080) 16777343)
      (ep_env 0 0) 0 3 (mkTcpListener 5 1) 2 (ep_world 5) =
      (Done (Ready (Value (mkTcpStream 6 2, addr))), w') /\ get_port addr = 36895%Z.
Proof.
  destruct (accept_swaps_port 6 0 16777343 8080 (ep_env 0 0) 0 3 (mkTcpListener 5 1) 2 (ep_world 5)
    (mkEpollExtra 5 InterestAll 5)) as (addr & w' & Hrun & _ & Hport);
    [reflexivity|reflexivity|reflexivity|lia|lia|reflexivity|].
  exists addr, w'. split; [exact Hrun|]. rewrite Hport. reflexivity.
Defined.

(** ** [block_on(stream.read(...))]: coroutines 21, 22, 23, futures 31, 32, 33, 34 *)

Definition with_results {R} (hash : nat) (r : R) (es : EventStore) : World R (Result Z) :=
  mkWorld (mkHeap ∅ ∅) es [] (mkWorker false []) ∅
    (mkDriver [] {[0 := [(hash, 10)]]}) {[10 := r]} ∅ 0 None.

(** Over epoll, with the stream's event new: the first wait reports nothing, the second
    one that there is input, and [read(2)] gives 7 bytes. *)
Lemma block_on_read_returns_witness :
  exists w', block_on_read 0 21 22 23 31 32 33 34 (Value 0%Z) stream (0, 0)%Z (7, 0)%Z (ep_env 0 0) (ep_env 0 0)
      3 [fun _ => ep_env 0 0; fun _ => ep_env 0 1; fun _ => ep_env 0 0]
      (with_results EpollRegistry_hash (mkEpollRegistry [] []) (stream_store 0)) =
      (Done (Some (Value 7%Z)), w') /\ w_heap w' = mkHeap ∅ ∅ /\ future_of (w_events w') 1 = None.
Proof.
  destruct (block_on_read_returns 0 21 22 23 31 32 33 34 (Value 0%Z) stream (0, 0)%Z (7, 0)%Z
    (ep_env 0 0) (ep_env 0 0) ltac:(repeat constructor; set_solver) ltac:(repeat constructor; set_solver)
    2 10 (with_results EpollRegistry_hash (mkEpollRegistry [] []) (stream_store 0)) (mkEpollRegistry [] [])
    (mkEpollExtra 0 InterestAll 5) [fun _ => ep_env 0 0] (fun _ => ep_env 0 1) (fun _ => ep_env 0 0) [] EPOLLIN)
    as [Hwait _].
  - split; reflexivity.
  - reflexivity.
  - discriminate.
  - split; done.
  - reflexivity.
  - reflexivity.
  - repeat constructor; cbn; discriminate.
  - split; reflexivity.
  - reflexivity.
  - left. discriminate.
  - destruct Hwait as [_ (w' & Hrun & Hh & _ & Hf & _)]; [left; reflexivity|].
    exists w'. split_and!; [exact Hrun|exact Hh|exact Hf].
Defined.

(** Over io_uring: the first wait times out, the second one gives the completion of the
    read with 12 bytes. *)
Lemma block_on_uring_read_returns_witness :
  exists w', block_on_uring_read 0 21 22 23 31 32 33 34 (Value 0%Z) 9 16 1 (0%Z, []) (0%Z, [])
      3 [fun _ => ((-62)%Z, []); fun _ => (0%Z, [mkCqe (Some 1) 12]); fun _ => (0%Z, [])]
      (with_results UringRegistry_hash (mkUringRegistry (ur_ring 3) []) (ur_store 0)) =
      (Done (Some (Value 12%Z)), w') /\ w_heap w' = mkHeap ∅ ∅ /\ future_of (w_events w') 1 = None.
Proof.
  destruct (block_on_uring_read_returns 0 21 22 23 31 32 33 34 (Value 0%Z) 9 16 1 (0%Z, []) (0%Z, [])
    ltac:(repeat constructor; set_solver) ltac:(repeat constructor; set_solver) 2 10
    (with_results UringRegistry_hash (mkUringRegistry (ur_ring 3) []) (ur_store 0))
    (mkUringRegistry (ur_ring 3) []) (ur_read 0)) as (w1 & u & Hrun & Hreg & Hsub & Hrest).
  - reflexivity.
  - reflexivity.
  - reflexivity.
  - split; reflexivity.
  - cbn. lia.
  - split; done.
  - reflexivity.
  - reflexivity.
  - assert (tr_cq u = []) as Hcq.
    { assert (option_map (fun r => tr_cq (io_uring_ r)) (w_registries (snd (Done (Pending (T := Result Z)), w1)) !! 10) = Some []) as Hc
        by (rewrite <- Hrun; vm_compute; reflexivity).
      cbn in Hc. rewrite Hreg in Hc. cbn in Hc. injection Hc as Hc. exact Hc. }
    destruct (Hrest [fun _ => ((-62)%Z, [])] _ ltac:(eapply times_out_cons;
      [reflexivity|cbn; lia|left; reflexivity|constructor])) as [_ Hend].
    destruct (Hend (fun _ => (0%Z, [mkCqe (Some 1) 12])) (fun _ => (0%Z, [])) [] 0%Z _ 12%Z eq_refl)
      as (w' & x' & Hret & Hh & _ & _ & Hf & _); [lia|cbn; rewrite Hcq; reflexivity|].
    exists w'. split_and!; [exact Hret|exact Hh|exact Hf].
Defined.

(** The listener's event is new; after one wait without a report the kernel reports a
    connection, which [accept4(2)] gives the descriptor 6. *)
Definition listener_world : World EpollRegistry (Result (TcpStream * SocketAddr)) :=
  mkWorld (mkHeap ∅ ∅) {[ 1 := mkEvent None (Some (EEpoll (EpollExtra_new InterestRead 5))) ]} []
    (mkWorker false []) ∅ (mkDriver [] {[0 := [(EpollRegistry_hash, 10)]]}) {[10 := mkEpollRegistry [] []]} ∅ 0 None.

Lemma block_on_accept_returns_witness :
  exists w', block_on_accept 0 21 22 23 31 32 33 34 (Unexpected (mkError 0 "")) (mkTcpListener 5 1) 2
      (0, 0)%Z (6, 0)%Z (mkSockaddrIn AF_INET 0 0) (mkSockaddrIn AF_INET 8080 16777343) (ep_env 0 0) (ep_env 0 0)
      3 [fun _ => ep_env 0 0; fun _ => ep_env 0 1; fun _ => ep_env 0 0] listener_world =
      (Done (Some (Value (mkTcpStream 6 2, SocketAddr_new_v4 16777343 8080))), w') /\ w_heap w' = mkHeap ∅ ∅.
Proof.
  destruct (block_on_accept_returns 0 21 22 23 31 32 33 34 (Unexpected (mkError 0 "")) (mkTcpListener 5 1) 2
    (0, 0)%Z (6, 0)%Z (mkSockaddrIn AF_INET 0 0) (mkSockaddrIn AF_INET 8080 16777343) (ep_env 0 0) (ep_env 0 0)
    ltac:(repeat constructor; set_solver) ltac:(repeat constructor; set_solver) ltac:(discriminate)
    2 10 listener_world (mkEpollRegistry [] []) (EpollExtra_new InterestRead 5)
    [fun _ => ep_env 0 0] (fun _ => ep_env 0 1) (fun _ => ep_env 0 0) [] EPOLLIN) as [Hwait _].
  - split; reflexivity.
  - reflexivity.
  - left. reflexivity.
  - discriminate.
  - split; done.
  - reflexivity.
  - reflexivity.
  - repeat constructor; cbn; discriminate.
  - split; reflexivity.
  - reflexivity.
  - discriminate.
  - destruct Hwait as [_ (w' & x' & Hrun & Hh & _)]; [discriminate|].
    exists w'. split; [exact Hrun|exact Hh].
Defined.
