(* ===== verification/Http.v ===== *)
(** The HTTP server of [examples/http_server.cc], a client of every layer of the
    library: it reads requests through a [BufferReader] over the connection and
    answers with [write_all].

    A string is a [string]; what goes through a stream is its bytes.  Loops take
    fuel and give [None] when it runs out. *)
From stdpp Require Import base gmap list strings pretty.
From Stdlib Require Import ZArith Ascii.
From S2P Require Import Prelude Errors Events BufferIO.

(** ** Strings *)

Definition bytes_of (s : string) : list Z :=
  (fun a => Z.of_nat (nat_of_ascii a)) <$> String.list_ascii_of_string s.
Definition string_of (l : list Z) : string :=
  String.string_of_list_ascii ((fun z => ascii_of_nat (Z.to_nat z)) <$> l).

(** A line feed, and a carriage return and a line feed. *)
Definition LF : Z := 10.
Definition CRLF : string := string_of [13; 10]%Z.

(** [std::string::npos] and arithmetic of [size_t]. *)
Definition to_size (z : Z) : Z := wrap_u 64 z.
Definition npos : Z := to_size (-1).

(** [s.substr(pos, count)]. *)
Definition substr {S} (s : string) (pos count : Z) : M S string :=
  let size := Z.of_nat (String.length s) in
  if (size <? pos)%Z then throw OutOfRange
  else ret (String.substring (Z.to_nat pos) (Z.to_nat (Z.min count (size - pos))) s).

(** [s.find(c)]. *)
Fixpoint find_char (c : ascii) (s : string) : option nat :=
  match s with
  | EmptyString => None
  | String a s' => if decide (a = c) then Some 0 else S <$> find_char c s'
  end.
Definition str_find (c : ascii) (s : string) : Z :=
  match find_char c s with Some i => Z.of_nat i | None => npos end.

(** [s.ends_with(c)]. *)
Fixpoint ends_with (c : ascii) (s : string) : bool :=
  match s with
  | EmptyString => false
  | String a EmptyString => bool_decide (a = c)
  | String _ s' => ends_with c s'
  end.

(** [std::from_chars] to an [int]: [None] leaves the variable alone. *)
Fixpoint digits (s : string) (acc : option Z) : option Z :=
  match s with
  | EmptyString => acc
  | String a s' =>
      match Ascii.is_nat a with
      | Some d => digits s' (Some (default 0 acc * 10 + Z.of_nat d)%Z)
      | None => acc
      end
  end.
Definition from_chars (s : string) : option Z :=
  let value := match s with
               | String "-" s' => Z.opp <$> digits s' None
               | _ => digits s None
               end in
  v ← value; if ((- 2 ^ 31 <=? v) && (v <? 2 ^ 31))%Z then Some v else None.

(** ** The request *)

Inductive Method : Type :=
| Get | Head | Post | Put | Delete | Connect | Options | Trace | Patch.

(** [std::to_underlying(method)]. *)
Definition Method_underlying (m : Method) : Z :=
  match m with
  | Get => 0 | Head => 1 | Post => 2 | Put => 3 | Delete => 4 | Connect => 5
  | Options => 6 | Trace => 7 | Patch => 8
  end.

(** [method_] has no initialiser: [None] is its indeterminate value. *)
Record RequestLine : Type := mkRequestLine {
  method_ : option Method;
  url_ : string;
  version_ : string;
}.

(** The constructor: [stream >> method >> url_ >> version_] takes words. *)
Definition RequestLine_new (line : string) : RequestLine :=
  let words := String.words line in
  let method := default "" (words !! 0) in
  let url := default "" (words !! 1) in
  let version := default "" (words !! 2) in
  let url := if ends_with "/" url then url +:+ "index.html" else url in
  let url := "." +:+ url in
  let m := None in
  let m := if decide (method = "GET") then Some Get else m in
  let m := if decide (method = "HEAD") then Some Head else m in
  let m := if decide (method = "POST") then Some Post else m in
  let m := if decide (method = "PUT") then Some Put else m in
  let m := if decide (method = "DELETE") then Some Delete else m in
  let m := if decide (method = "CONNECT") then Some Connect else m in
  let m := if decide (method = "OPTIONS") then Some Options else m in
  let m := if decide (method = "TRACE") then Some Trace else m in
  let m := if decide (method = "PATCH") then Some Patch else m in
  mkRequestLine m url version.

Definition RequestLine_to_string {S} (l : RequestLine) : M S string :=
  let! m := deref (method_ l) in
  ret (pretty (Method_underlying m) +:+ " " +:+ url_ l +:+ " " +:+ version_ l).

Record Request : Type := mkRequest {
  request_line_ : RequestLine;
  headers_ : gmap string string;
  body_ : list Z;
}.

Record StatusLine : Type := mkStatusLine {
  sl_version_ : string;
  code_ : Z;
  reason_ : string;
}.

Definition StatusLine_to_string (l : StatusLine) : string :=
  sl_version_ l +:+ " " +:+ pretty (code_ l) +:+ " " +:+ reason_ l +:+ CRLF.

(** [headers_.emplace(k, v)]: an earlier entry stays. *)
Definition emplace (k v : string) (m : gmap string string) : gmap string string :=
  match m !! k with Some _ => m | None => <[k := v]> m end.

(** ** Computations with fuel *)

Definition obind {S A B} (m : M S (option A)) (k : A -> M S (option B)) : M S (option B) :=
  let! o := m in match o with Some a => k a | None => ret None end.

Notation "'let?' x ':=' m 'in' k" := (obind m (fun x => k))
  (at level 10, x name, m at level 100, k at level 200) : xyco_scope.

(** [*co_await m]. *)
Definition star {S A} (m : M S (option (Result A))) : M S (option A) :=
  let? r := m in let! a := deref_expected r in ret (Some a).

(** ** [Server::receive_request] *)
Section Receive.
Context {R : Type} `{Readable R} (stream_shutdown : Shutdown -> M R (Result unit)).
(** The exception [std::string::resize] to a size throws, if it does: the size is
    past [max_size()] or there is no memory. *)
Context (resize_error : Z -> option exn).

(** [*co_await read_line(reader)]. *)
Definition read_line (fuel : nat) : M (R * BufferReader) (option string) :=
  let? bytes := star (BufferReadExt_read_line fuel) in ret (Some (string_of bytes)).

(** The loop over the header lines. *)
Fixpoint read_headers (fuel : nat) (headers : gmap string string)
    : M (R * BufferReader) (option (gmap string string)) :=
  match fuel with
  | O => ret None
  | S fuel' =>
      let? line := read_line fuel in
      if decide (line = CRLF) then ret (Some headers)
      else
        let! key := substr line 0 (str_find ":" line) in
        let! value := substr line (to_size (str_find ":" line + 2))
                        (to_size (Z.of_nat (String.length line) - 2)) in
        read_headers fuel' (emplace key value headers)
  end.

(** [content_length], from the header if there is one. *)
Definition content_length (headers : gmap string string) : Z :=
  match headers !! "Content-Length" with
  | Some s => default 0%Z (from_chars s)
  | None => 0%Z
  end.

(** The loop that reads the body from the connection itself. *)
Fixpoint read_body (fuel : nat) (rest : nat) (body : list Z)
    : M (R * BufferReader) (option (list Z)) :=
  if decide (rest = 0) then ret (Some body)
  else match fuel with
       | O => ret None
       | S fuel =>
           let! res := zoom fst (fun r s => (r, s.2)) (reader_read rest) in
           let! bytes := deref_expected res in
           read_body fuel (rest - length bytes) (body ++ bytes)
       end.

(** The request that is given to [execute_request], or [None] when the peer sent
    nothing and the connection was shut down. *)
Definition receive_request (fuel : nat) : M (R * BufferReader) (option (option Request)) :=
  let? line := read_line fuel in
  if decide (line = "") then
    let! res := zoom fst (fun r s => (r, s.2)) (stream_shutdown ShutAll) in
    deref_expected res ;;;
    ret (Some None)
  else
    let! line := substr line 0 (to_size (Z.of_nat (String.length line) - 2)) in
    let request_line := RequestLine_new line in
    let? headers := read_headers fuel ∅ in
    let size := to_size (content_length headers) in
    match resize_error size with
    | Some e => throw e
    | None =>
        let? body := read_body fuel (Z.to_nat size) [] in
        ret (Some (Some (mkRequest request_line headers body)))
    end.
End Receive.

(** ** [Server::execute_request] *)
Section Execute.
Context {W F : Type} `{Writable W} `{Readable F}.
(** [File::open] and [File::size]. *)
Context (file_open : string -> Result F) (file_size : F -> Result Z).

(** [*co_await write_all(server_stream, s)]. *)
Definition send (fuel : nat) (bytes : list Z) : M W (option unit) :=
  star (WriteExt_write_all fuel bytes).

(** The loop that copies the file to the connection, line by line. *)
Fixpoint copy_lines (fuel : nat) : M (W * (F * BufferReader)) (option unit) :=
  match fuel with
  | O => ret None
  | S fuel' =>
      let? line := zoom snd (fun f s => (s.1, f)) (star (BufferReadExt_read_line fuel)) in
      let? _u := zoom fst (fun w s => (w, s.2)) (send fuel line) in
      if decide (line = []) then ret (Some tt) else copy_lines fuel'
  end.

(** The three writes after the status line of an error. *)
Definition send_error_body (fuel : nat) (body : string) : M W (option unit) :=
  let? _u := send fuel (bytes_of ("Content-Length: " +:+ pretty (Z.of_nat (String.length body)) +:+ CRLF)) in
  let? _u := send fuel (bytes_of CRLF) in
  send fuel (bytes_of body).

Definition execute_request (fuel : nat) (request : Request) : M W (option unit) :=
  let version := version_ (request_line_ request) in
  let! method := deref (method_ (request_line_ request)) in
  match method with
  | Get =>
      let open_file_result := file_open (url_ (request_line_ request)) in
      let status_line :=
        if has_value open_file_result then mkStatusLine version 200 "OK"
        else mkStatusLine version 404 "ERROR" in
      let? _u := send fuel (bytes_of (StatusLine_to_string status_line)) in
      match open_file_result with
      | Unexpected _ =>
          send_error_body fuel ("<P>Your browser sent a bad request." +:+ CRLF)
      | Value file =>
          let! size := deref_expected (file_size file) in
          let? _u := send fuel (bytes_of ("Content-Length: " +:+ pretty size +:+ CRLF)) in
          let? _u := send fuel (bytes_of CRLF) in
          fun w => let '(o, (w', _)) := copy_lines fuel (w, (file, BufferReader_new)) in (o, w')
      end
  | _ =>
      let status_line := mkStatusLine version 500 "Internal Server Error" in
      let? _u := send fuel (bytes_of (StatusLine_to_string status_line)) in
      send_error_body fuel ("<P>Unsupported method." +:+ CRLF)
  end.
End Execute.
