(* ===== verification/HttpSpec.v ===== *)
(** What the HTTP server of [examples/http_server.cc] answers. *)
From stdpp Require Import base gmap list strings pretty.
From Stdlib Require Import ZArith Ascii Lia.
From S2P Require Import Prelude Errors Events BufferIO BufferIOSpec Http.

#[local] Opaque DEFAULT_BUFFER_SIZE.

(** ** Lists of lines *)

(** What the loop over the lines sends behind the bytes [c]: nothing if they end
    with a line feed, the byte behind them in the buffer otherwise. *)
Definition trailer (stray : Z) (c : list Z) : list Z :=
  match last c with
  | Some x => if (x =? LF)%Z then [] else [stray]
  | None => []
  end.

Lemma trailer_split stray l1 l2 : trailer stray (l1 ++ (LF :: l2)) = trailer stray l2.
Proof.
  unfold trailer. rewrite last_app_cons. destruct l2 as [|x l2]; [done|].
  by rewrite last_cons_cons.
Qed.

Lemma trailer_unended stray (c : list Z) : c <> [] -> LF ∉ c -> trailer stray c = [stray].
Proof.
  intros Hne Hn. unfold trailer. destruct (last c) as [x|] eqn:Hl.
  - rewrite (proj2 (Z.eqb_neq x LF)); [done|]. intros ->. by apply Hn, last_Some_elem_of.
  - by apply last_None in Hl.
Qed.

(** ** The first read *)

(** The buffer after a read of [c] into the empty one. *)
Definition filled (c : list Z) : BufferReader :=
  mkBufferReader (c ++ replicate (DEFAULT_BUFFER_SIZE - length c) 0%Z) 0 (length c).

Lemma read_line_fill {F} `{StreamReader F} fuel (f : F) c f' :
  reader_read DEFAULT_BUFFER_SIZE f = (Done (Value c), f') -> c <> [] ->
  length c <= DEFAULT_BUFFER_SIZE ->
  wf_reader (filled c) /\ buffered (filled c) = c /\
  BufferReadExt_read_line (S fuel) (f, BufferReader_new) =
    BufferReadExt_read_line (S fuel) (f', filled c).
Proof.
  intros Hread Hne Hlen. set (b := filled c).
  assert (wf_reader b) as Hwf.
  { constructor; cbn; [rewrite length_app, length_replicate|..]; lia. }
  assert (0 < length c) by (destruct c; cbn; [done|lia]).
  split_and!; [done| |].
  { unfold buffered. cbn. rewrite drop_0, Nat.sub_0_r. by apply take_app_length. }
  assert (BufferReader_fill_buffer (f, BufferReader_new) = (Done (Value (0, length c)), (f', b))) as Hf.
  { unfold BufferReader_fill_buffer, get_reader, set_reader. mred. cbn [snd BufferReader_new pos_ cap_].
    rewrite decide_True by done. cbn [fst buffer_ BufferReader_new]. rewrite length_replicate, Hread.
    cbn [fst snd]. by rewrite drop_replicate. }
  assert (BufferReader_fill_buffer (f', b) = (Done (Value (0, length c)), (f', b))) as Hf'.
  { apply (fill_buffered b f' Hwf). cbn. lia. }
  unfold BufferReadExt_read_line, BufferReadExt_read_until. cbn [BufferReadExt_read_until_loop].
  by rewrite (bind_done _ _ _ _ _ Hf), (bind_done _ _ _ _ _ Hf').
Qed.

(** ** Writing *)

Section Execute.
Context {W F : Type} `{StreamWriter W} `{StreamReader F}.
Context (file_open : string -> Result F) (file_size : F -> Result Z).
Hypothesis Hprog : makes_progress (W := W).
Implicit Types (w : W).

Lemma send_run fuel bytes w :
  length bytes <= fuel -> exists w', send fuel bytes w = (Done (Some tt), w') /\
    sink w' = sink w ++ bytes.
Proof.
  intros Hf. destruct (write_all_run fuel bytes w Hprog Hf) as (w' & Hrun & Hs).
  exists w'. split; [|done]. unfold send, star, obind. by rewrite (bind_done _ _ _ _ _ Hrun).
Qed.

Lemma obind_send {A} fuel bytes (k : unit -> M W (option A)) w :
  length bytes <= fuel -> exists w', obind (send fuel bytes) k w = k tt w' /\
    sink w' = sink w ++ bytes.
Proof.
  intros Hf. destruct (send_run fuel bytes w Hf) as (w' & Hrun & Hs). exists w'.
  split; [|done]. unfold obind. by rewrite (bind_done _ _ _ _ _ Hrun).
Qed.

(** One turn of the loop: a line comes from the file and goes to the peer. *)
Lemma copy_lines_turn fuel w f b line f' b' :
  BufferReadExt_read_line (S fuel) (f, b) = (Done (Some (Value line)), (f', b')) ->
  length line <= S fuel ->
  exists w', sink w' = sink w ++ line /\
    copy_lines (S fuel) (w, (f, b)) =
      if decide (line = []) then (Done (Some tt), (w', (f', b')))
      else copy_lines fuel (w', (f', b')).
Proof.
  intros Hread Hlen. destruct (send_run (S fuel) line w Hlen) as (w' & Hsend & Hs).
  exists w'. split; [done|]. cbn [copy_lines]. unfold star, obind. mred.
  cbn [fst snd]. rewrite Hread. cbn [deref_expected fst snd].
  mred. cbn [fst snd]. rewrite Hsend.
  cbn [fst snd]. by case_decide.
Qed.

(** With the whole rest of the file buffered. *)
Lemma copy_lines_buffered stray n fuel w f b :
  wf_reader b -> stream f = [] ->
  cap_ b < DEFAULT_BUFFER_SIZE -> buffer_ b !! cap_ b = Some stray ->
  length (buffered b) <= n -> S n < fuel ->
  exists w' s', copy_lines fuel (w, (f, b)) = (Done (Some tt), (w', s')) /\
    sink w' = sink w ++ buffered b ++ trailer stray (buffered b).
Proof.
  revert fuel w b f. induction n as [n IH] using lt_wf_ind.
  intros fuel w b f Hwf Hend Hcap Hstray Hlen Hfuel.
  destruct fuel as [|[|fuel]]; [lia|lia|]. pose proof (length_buffered b Hwf) as Hlb.
  destruct (decide (buffered b = [])) as [Hb|Hb].
  { destruct (read_until_eof (S fuel) LF [] b f Hwf Hb Hend) as (f' & b' & Hrun & _).
    destruct (copy_lines_turn (S fuel) w f b [] f' b') as (w' & Hs & Hc); [done|cbn; lia|].
    rewrite Hb. exists w', (f', b'). split; [|done]. rewrite Hc. by rewrite decide_True. }
  assert (0 < length (buffered b)) by (destruct (buffered b); cbn; [done|lia]).
  assert (BufferReader_fill_buffer (f, b) = (Done (Value (pos_ b, cap_ b)), (f, b))) as Hfill
    by (apply fill_buffered; [done|lia]).
  destruct (decide (LF ∈ buffered b)) as [Hin|Hnin].
  - destruct (proj1 (find_index_spec LF (buffered b)) Hin) as (l1 & l2 & Hsplit & Hn1 & _).
    assert (length (buffered b) = length l1 + S (length l2)) as Hl by (by rewrite Hsplit, length_app).
    destruct (read_until_found (S fuel) LF l1 l2 b f f b Hfill Hwf Hsplit Hn1)
      as (b' & Hrun & Hwf' & Hb' & Hbuf & Hc').
    destruct (copy_lines_turn (S fuel) w f b (l1 ++ [LF]) f b') as (w1 & Hs1 & Hc1);
      [done|rewrite length_app; cbn; lia|].
    rewrite decide_False in Hc1 by (intros E; by apply app_nil in E as [_ ?]).
    destruct (IH (length l2) ltac:(lia) (S fuel) w1 b' f) as (w2 & s2 & Hrun2 & Hs2);
      [done|done|by rewrite Hc'|by rewrite Hbuf, Hc'|by rewrite Hb'|lia|].
    exists w2, s2. rewrite Hc1, Hrun2. split; [done|].
    rewrite Hs2, Hs1, Hb', Hsplit, trailer_split. by rewrite <- !(assoc (++)).
  - pose proof (read_until_stray fuel LF b f f b Hfill Hwf ltac:(lia) Hnin Hend) as Hrun.
    rewrite decide_True in Hrun by done.
    destruct Hrun as (stray' & f' & b' & Hstray' & Hrun & Hend' & Hwf' & Hb').
    rewrite Hstray in Hstray'. injection Hstray' as <-.
    destruct (copy_lines_turn (S fuel) w f b (buffered b ++ [stray]) f' b') as (w1 & Hs1 & Hc1);
      [done|rewrite length_app; cbn; lia|].
    rewrite decide_False in Hc1 by (intros E; by apply app_nil in E as [_ ?]).
    destruct (read_until_eof fuel LF [] b' f' Hwf' Hb' Hend') as (f2 & b2 & Hrun2 & _).
    destruct (copy_lines_turn fuel w1 f' b' [] f2 b2) as (w2 & Hs2 & Hc2); [done|cbn; lia|].
    exists w2, (f2, b2). rewrite Hc1, Hc2, decide_True by done. split; [done|].
    by rewrite Hs2, Hs1, app_nil_r, trailer_unended.
Qed.

(** A read that fills the empty buffer. *)
Lemma copy_lines_fill fuel w f c f' :
  reader_read DEFAULT_BUFFER_SIZE f = (Done (Value c), f') -> c <> [] ->
  length c <= DEFAULT_BUFFER_SIZE ->
  copy_lines (S fuel) (w, (f, BufferReader_new)) = copy_lines (S fuel) (w, (f', filled c)).
Proof.
  intros Hread Hne Hlen. destruct (read_line_fill fuel f c f' Hread Hne Hlen) as (_ & _ & Hline).
  cbn [copy_lines]. unfold star, obind. mred. cbn [fst snd]. by rewrite Hline.
Qed.

(** The head of a response: status line, length, empty line. *)
Definition response_head (version : string) (code : Z) (reason : string) (n : Z) : list Z :=
  bytes_of (StatusLine_to_string (mkStatusLine version code reason)) ++
  bytes_of ("Content-Length: " +:+ pretty n +:+ CRLF) ++ bytes_of CRLF.

Definition not_found_body : string := "<P>Your browser sent a bad request." +:+ CRLF.
Definition unsupported_body : string := "<P>Unsupported method." +:+ CRLF.

(** The bytes of an answer that is not a file. *)
Definition error_response (version : string) (code : Z) (reason body : string) : list Z :=
  response_head version code reason (Z.of_nat (String.length body)) ++ bytes_of body.

Lemma send_error_run fuel version code reason body w :
  length (error_response version code reason body) <= fuel ->
  exists w', (let? _u := send fuel (bytes_of (StatusLine_to_string (mkStatusLine version code reason))) in
              send_error_body fuel body) w = (Done (Some tt), w') /\
    sink w' = sink w ++ error_response version code reason body.
Proof.
  unfold error_response, response_head. rewrite !length_app. intros Hf.
  destruct (obind_send fuel (bytes_of (StatusLine_to_string (mkStatusLine version code reason)))
    (fun _ => send_error_body fuel body) w) as (w1 & -> & Hs1); [lia|].
  unfold send_error_body.
  destruct (obind_send fuel (bytes_of ("Content-Length: " +:+ pretty (Z.of_nat (String.length body)) +:+ CRLF))
    (fun _ => let? _u := send fuel (bytes_of CRLF) in send fuel (bytes_of body)) w1)
    as (w2 & -> & Hs2); [lia|].
  destruct (obind_send fuel (bytes_of CRLF) (fun _ => send fuel (bytes_of body)) w2)
    as (w3 & -> & Hs3); [lia|].
  destruct (send_run fuel (bytes_of body) w3) as (w4 & -> & Hs4); [lia|].
  exists w4. split; [done|]. rewrite Hs4, Hs3, Hs2, Hs1. by rewrite <- !(assoc (++)).
Qed.

(** A request for a file that cannot be opened is answered with status 404,
    one with another method than [GET] with status 500; both answers are complete
    HTTP responses whose [Content-Length] is the length of their body. *)
Theorem http_error_answers fuel request w method :
  method_ (request_line_ request) = Some method ->
  let version := version_ (request_line_ request) in
  (forall e, method = Get -> file_open (url_ (request_line_ request)) = Unexpected e ->
     length (error_response version 404 "ERROR" not_found_body) <= fuel ->
     exists w', execute_request file_open file_size fuel request w = (Done (Some tt), w') /\
       sink w' = sink w ++ error_response version 404 "ERROR" not_found_body) /\
  (method <> Get ->
     length (error_response version 500 "Internal Server Error" unsupported_body) <= fuel ->
     exists w', execute_request file_open file_size fuel request w = (Done (Some tt), w') /\
       sink w' = sink w ++ error_response version 500 "Internal Server Error" unsupported_body) /\
  length (bytes_of not_found_body) = String.length not_found_body /\
  length (bytes_of unsupported_body) = String.length unsupported_body.
Proof.
  intros Hm version. split_and!; [| |reflexivity|reflexivity].
  - intros e -> Hopen Hfuel. unfold execute_request. rewrite Hm. cbn [deref]. unfold bind at 1.
    unfold ret at 1. rewrite Hopen. cbn [has_value]. by apply send_error_run.
  - intros Hne Hfuel. unfold execute_request. rewrite Hm. cbn [deref]. unfold bind at 1.
    unfold ret at 1. destruct method; [done|by apply send_error_run..].
Qed.

(** A [GET] of a file that comes in one read smaller than the buffer is
    answered with status 200, the file's size as [Content-Length] and the file's
    bytes; if the file does not end with a line feed, one zero byte follows that
    the [Content-Length] does not count. *)
Theorem http_get_serves_file fuel request f f' c n w :
  method_ (request_line_ request) = Some Get ->
  file_open (url_ (request_line_ request)) = Value f -> file_size f = Value n ->
  reader_read DEFAULT_BUFFER_SIZE f = (Done (Value c), f') -> stream f' = [] ->
  length c < DEFAULT_BUFFER_SIZE ->
  let head := response_head (version_ (request_line_ request)) 200 "OK" n in
  length (head ++ c) + 2 <= fuel ->
  exists w', execute_request file_open file_size fuel request w = (Done (Some tt), w') /\
    sink w' = sink w ++ head ++ c ++ trailer 0 c.
Proof.
  intros Hm Hopen Hsize Hread Hend Hlen head Hfuel. unfold head, response_head in *.
  rewrite !length_app in Hfuel. unfold execute_request. rewrite Hm. cbn [deref].
  unfold bind at 1. unfold ret at 1. rewrite Hopen, Hsize. cbn [has_value deref_expected].
  match goal with |- context [obind (send fuel ?l) ?k w] =>
    destruct (obind_send fuel l k w) as (w1 & -> & Hs1); [lia|] end.
  unfold bind at 1. unfold ret at 1.
  match goal with |- context [obind (send fuel ?l) ?k w1] =>
    destruct (obind_send fuel l k w1) as (w2 & -> & Hs2); [lia|] end.
  match goal with |- context [obind (send fuel ?l) ?k w2] =>
    destruct (obind_send fuel l k w2) as (w3 & -> & Hs3); [lia|] end.
  destruct fuel as [|fuel]; [lia|].
  assert (exists w4 s4, copy_lines (S fuel) (w3, (f, BufferReader_new)) = (Done (Some tt), (w4, s4)) /\
    sink w4 = sink w3 ++ c ++ trailer 0 c) as (w4 & s4 & Hcopy & Hs4).
  { destruct (decide (c = [])) as [->|Hne].
    - destruct (read_takes DEFAULT_BUFFER_SIZE f) as (c' & f2 & Hr & _ & Hst & Hnil);
        [apply buffer_size_bounds|]. rewrite Hread in Hr. injection Hr as <- <-.
      cbn in Hlen. apply (copy_lines_buffered 0 0); [apply wf_reader_new|by apply Hnil|cbn; lia| |rewrite (length_buffered _ wf_reader_new); cbn; lia|lia].
      cbn. apply lookup_replicate_2. lia.
    - destruct (read_line_fill fuel f c f' Hread Hne) as (Hwf & Hb & _); [lia|].
      rewrite (copy_lines_fill fuel w3 f c f' Hread Hne) by lia. set (b := filled c) in *.
      destruct (copy_lines_buffered 0 (length c) (S fuel) w3 f' b Hwf Hend) as (w4 & s4 & Hrun & Hs);
        [cbn; lia| |by rewrite Hb|lia|exists w4, s4; by rewrite Hrun, Hs, Hb].
      cbn. rewrite lookup_app_r, Nat.sub_diag by done. apply lookup_replicate_2. lia. }
  rewrite Hcopy. exists w4. split; [done|]. rewrite Hs4, Hs3, Hs2, Hs1.
  by rewrite <- !(assoc (++)).
Qed.
End Execute.
