(* ===== verification/HttpRequest.v ===== *)
(** How the HTTP server of [examples/http_server.cc] reads a request. *)
From stdpp Require Import base gmap list strings pretty.
From Stdlib Require Import ZArith Ascii Lia.
From S2P Require Import Prelude Errors Events BufferIO BufferIOSpec Http HttpSpec.

#[local] Opaque DEFAULT_BUFFER_SIZE.

(** ** Strings *)

Lemma string_of_bytes_of s : string_of (bytes_of s) = s.
Proof.
  unfold string_of, bytes_of. rewrite <- list_fmap_compose.
  rewrite <- (String.string_of_list_ascii_of_string s) at 2. f_equal.
  rewrite <- (list_fmap_id (String.list_ascii_of_string s)) at 2. apply list_fmap_ext.
  intros i a _. unfold compose. by rewrite Nat2Z.id, ascii_nat_embedding.
Qed.

(** The equations of [+:+]. *)
Lemma app_nil_String (s : string) : "" +:+ s = s.
Proof. done. Qed.
Lemma app_String a (s1 s2 : string) : String a s1 +:+ s2 = String a (s1 +:+ s2).
Proof. done. Qed.

Lemma app_assoc_String (s1 s2 s3 : string) : s1 +:+ s2 +:+ s3 = (s1 +:+ s2) +:+ s3.
Proof. induction s1 as [|a s1 IH]; [done|]. rewrite !app_String. by f_equal. Qed.

Lemma bytes_of_app s1 s2 : bytes_of (s1 +:+ s2) = bytes_of s1 ++ bytes_of s2.
Proof. unfold bytes_of. induction s1 as [|a s1 IH]; [done|]. rewrite app_String. cbn. f_equal. apply IH. Qed.

Lemma length_bytes_of s : length (bytes_of s) = String.length s.
Proof. unfold bytes_of. rewrite length_fmap. induction s; cbn; congruence. Qed.

Lemma length_append s1 s2 : String.length (s1 +:+ s2) = String.length s1 + String.length s2.
Proof. induction s1 as [|a s1 IH]; [done|]. rewrite ?app_String. cbn. by f_equal. Qed.

Lemma substring_full s : String.substring 0 (String.length s) s = s.
Proof. induction s as [|a s IH]; [done|]. rewrite ?app_String. cbn. by f_equal. Qed.

Lemma substring_prefix s1 s2 : String.substring 0 (String.length s1) (s1 +:+ s2) = s1.
Proof. induction s1 as [|a s1 IH]; [by destruct s2|]. rewrite app_String. cbn. by f_equal. Qed.

Lemma substring_suffix s1 s2 n :
  String.substring (String.length s1) n (s1 +:+ s2) = String.substring 0 n s2.
Proof. induction s1 as [|a s1 IH]; [done|]. rewrite app_String. cbn. apply IH. Qed.

Lemma find_char_app c s1 s2 :
  find_char c s1 = None -> find_char c (s1 +:+ String c s2) = Some (String.length s1).
Proof.
  induction s1 as [|a s1 IH]; rewrite ?app_String; cbn; [intros _; rewrite app_nil_String; cbn; by rewrite decide_True|]. case_decide; [done|].
  intros Hn. destruct (find_char c s1); [done|]. by rewrite IH.
Qed.

(** [substr] with arguments that are in range. *)
Lemma substr_run {S} (s : string) (pos count : nat) (st : S) :
  pos + count <= String.length s ->
  substr s (Z.of_nat pos) (Z.of_nat count) st = (Done (String.substring pos count s), st).
Proof.
  intros Hle. unfold substr. rewrite (proj2 (Z.ltb_ge _ _)) by lia. unfold ret. do 3 f_equal; lia.
Qed.

Lemma to_size_small n : (0 <= n < 2 ^ 64)%Z -> to_size n = n.
Proof. apply wrap_u_id. Qed.

Lemma from_chars_range s v : from_chars s = Some v -> (- 2 ^ 31 <= v < 2 ^ 31)%Z.
Proof.
  unfold from_chars. intros (v' & _ & Hv)%bind_Some. destruct (_ && _) eqn:E; [|done].
  injection Hv as <-. lia.
Qed.

Lemma content_length_range hs n :
  content_length hs = Z.of_nat n -> (0 <= Z.of_nat n < 2 ^ 64)%Z.
Proof.
  intros Hn. assert (content_length hs < 2 ^ 64)%Z; [|lia].
  unfold content_length. destruct (hs !! _) as [s|]; [|done].
  destruct (from_chars s) eqn:E; [|done]. apply from_chars_range in E. cbn. lia.
Qed.

(** ** Lines *)

(** A line of the head of a request, without its end. *)
Definition line_ok (l : string) : Prop := LF ∉ bytes_of l.

(** The head line [k: v]. *)
Definition header_line (h : string * string) : string := h.1 +:+ ": " +:+ h.2.
Definition header_ok (h : string * string) : Prop :=
  line_ok (header_line h) /\ find_char ":" h.1 = None.

(** What the server makes of the header lines: a value keeps the end of its line,
    and the first of two equal keys wins. *)
Definition add_header (m : gmap string string) (h : string * string) : gmap string string :=
  emplace h.1 (h.2 +:+ CRLF) m.

Definition head_bytes (line : string) (hs : list (string * string)) : list Z :=
  bytes_of (line +:+ CRLF) ++ concat ((fun h => bytes_of (header_line h +:+ CRLF)) <$> hs)
  ++ bytes_of CRLF.

Lemma bytes_of_line l : bytes_of (l +:+ CRLF) = (bytes_of l ++ [13%Z]) ++ [LF].
Proof. rewrite bytes_of_app, <- (assoc (++)). done. Qed.

Section Receive.
Context {R : Type} `{StreamReader R} (stream_shutdown : Shutdown -> M R (Result unit)).
Context (resize_error : Z -> option exn).
Implicit Types (b : BufferReader) (r : R).

Lemma read_line_run fuel l rest b r :
  wf_reader b -> line_ok l -> buffered b = bytes_of (l +:+ CRLF) ++ rest ->
  exists b', read_line (S fuel) (r, b) = (Done (Some (l +:+ CRLF)), (r, b')) /\
    wf_reader b' /\ buffered b' = rest.
Proof.
  intros Hwf Hl Hb. rewrite bytes_of_line, <- (assoc (++)) in Hb.
  pose proof (length_buffered b Hwf) as Hlb. rewrite Hb, !length_app in Hlb. cbn in Hlb.
  destruct (read_until_found fuel LF (bytes_of l ++ [13%Z]) rest b r r b)
    as (b' & Hrun & Hwf' & Hb' & _); [apply fill_buffered; [done|lia]|done|done| |].
  { intros Hin. apply elem_of_app in Hin as [Hin|Hin]; [done|].
    by apply list_elem_of_singleton in Hin. }
  exists b'. split; [|done]. unfold read_line, star, obind, BufferReadExt_read_line.
  change 10%Z with LF. mred. rewrite Hrun. cbn [deref_expected]. mred. unfold ret.
  by rewrite <- bytes_of_line, string_of_bytes_of.
Qed.

(** A header line and the entry it makes. *)
Lemma header_fields {S} h (st : S) :
  header_ok h -> (Z.of_nat (String.length (header_line h +:+ CRLF)) < 2 ^ 64)%Z ->
  let line := header_line h +:+ CRLF in
  line <> CRLF /\
  substr line 0 (str_find ":" line) st = (Done h.1, st) /\
  substr line (to_size (str_find ":" line + 2)) (to_size (Z.of_nat (String.length line) - 2)) st =
    (Done (h.2 +:+ CRLF), st).
Proof.
  destruct h as [k v]. intros [_ Hk] Hlen line. cbn [fst snd] in *.
  assert (line = k +:+ String ":" (String " " (v +:+ CRLF))) as Hline.
  { unfold line, header_line. cbn [fst snd]. by rewrite <- !app_assoc_String. }
  assert (String.length line = String.length k + 2 + String.length (v +:+ CRLF)) as Hl.
  { rewrite Hline, length_append. cbn. lia. }
  fold line in Hlen. assert (2 <= String.length line) by lia.
  assert (str_find ":" line = Z.of_nat (String.length k)) as Hfind.
  { unfold str_find. by rewrite Hline, find_char_app. }
  rewrite Hfind. split_and!.
  - intros E. rewrite Hline in E. apply (f_equal (find_char ":")) in E.
    by rewrite find_char_app in E.
  - rewrite (substr_run line 0 (String.length k)) by lia. by rewrite Hline, substring_prefix.
  - replace (Z.of_nat (String.length k) + 2)%Z with (Z.of_nat (String.length k + 2)) by lia.
    rewrite !to_size_small by lia. unfold substr. rewrite (proj2 (Z.ltb_ge _ _)) by lia.
    unfold ret. do 2 f_equal. rewrite Z.min_r by lia.
    replace (Z.to_nat (Z.of_nat (String.length line) - Z.of_nat (String.length k + 2)))
      with (String.length (v +:+ CRLF)) by lia.
    rewrite Nat2Z.id, Hline.
    replace (k +:+ String ":" (String " " (v +:+ CRLF))) with ((k +:+ ": ") +:+ (v +:+ CRLF))
      by (by rewrite <- app_assoc_String).
    replace (String.length k + 2) with (String.length (k +:+ ": ")) by (by rewrite length_append).
    by rewrite substring_suffix, substring_full.
Qed.

Lemma read_headers_run fuel hs m rest b r :
  wf_reader b -> Forall header_ok hs -> length hs < fuel ->
  buffered b = concat ((fun h => bytes_of (header_line h +:+ CRLF)) <$> hs) ++ bytes_of CRLF ++ rest ->
  exists b', read_headers fuel m (r, b) = (Done (Some (foldl add_header m hs)), (r, b')) /\
    wf_reader b' /\ buffered b' = rest.
Proof.
  revert fuel m b. induction hs as [|h hs IH]; intros fuel m b Hwf Hok Hfuel Hb;
    (destruct fuel as [|fuel]; [cbn in Hfuel; lia|]); cbn [read_headers].
  - destruct (read_line_run fuel "" rest b r Hwf) as (b' & Hrun & Hrest); [apply not_elem_of_nil|done|].
    exists b'. split; [|done]. unfold obind. rewrite (bind_done _ _ _ _ _ Hrun).
    by rewrite decide_True.
  - apply Forall_cons in Hok as [Hh Hok]. cbn in Hfuel. rewrite fmap_cons in Hb.
    cbn [concat] in Hb. rewrite <- (assoc (++)) in Hb.
    destruct (read_line_run fuel (header_line h) _ b r Hwf (proj1 Hh) Hb) as (b1 & Hrun & Hwf1 & Hb1).
    destruct (header_fields h (r, b1) Hh) as (Hne & Hkey & Hval).
    { apply (f_equal length) in Hb. rewrite length_app, length_bytes_of, length_buffered in Hb by done.
      pose proof buffer_size_bounds as [_ Hbound]. destruct Hwf.
      change (2 ^ 64)%Z with 18446744073709551616%Z. lia. }
    unfold obind. rewrite (bind_done _ _ _ _ _ Hrun), decide_False by done.
    rewrite (bind_done _ _ _ _ _ Hkey), (bind_done _ _ _ _ _ Hval).
    destruct (IH fuel (add_header m h) b1 Hwf1 Hok ltac:(lia) Hb1) as (b' & Hrun' & Hrest).
    by exists b'.
Qed.

(** The loop over the body reads exactly its bytes from the connection. *)
Lemma read_body_run fuel acc body rest r b :
  stream r = body ++ rest -> length body <= fuel ->
  exists r', read_body fuel (length body) acc (r, b) = (Done (Some (acc ++ body)), (r', b)) /\
    stream r' = rest.
Proof.
  revert acc body r. induction fuel as [|fuel IH]; intros acc body r Hs Hf.
  { destruct body; [|cbn in Hf; lia]. exists r. by rewrite app_nil_r. }
  cbn [read_body]. case_decide as Hd.
  { apply nil_length_inv in Hd as ->. exists r. by rewrite app_nil_r. }
  destruct (read_takes (length body) r) as (c & r1 & Hread & Hlen & Hsplit & Hnil); [lia|].
  assert (c <> []) as Hc.
  { intros E. apply Hnil in E. rewrite E in Hs. by destruct body. }
  assert (exists body', body = c ++ body') as (body' & ->).
  { rewrite Hs in Hsplit. apply app_eq_inv in Hsplit as [(k & -> & _)|(k & -> & ->)]; [by exists k|].
    exists []. rewrite length_app in Hlen. destruct k; [by rewrite !app_nil_r|cbn in Hlen; lia]. }
  rewrite Hs, <- (assoc (++)) in Hsplit. apply app_inv_head in Hsplit.
  assert (0 < length c) by (destruct c; cbn; [done|lia]). rewrite length_app in Hf.
  destruct (IH (acc ++ c) body' r1) as (r' & Hrun & Hr'); [done|lia|]. exists r'. split; [|done].
  mred. cbn [fst snd]. rewrite Hread. cbn [deref_expected fst snd]. mred.
  rewrite length_app, (comm Nat.add), Nat.add_sub, Hrun. by rewrite <- (assoc (++)).
Qed.

(** A connection that ends before the body does keeps the loop spinning. *)
Lemma read_body_spins fuel acc n r b :
  length (stream r) < n -> exists r', read_body fuel n acc (r, b) = (Done None, (r', b)).
Proof.
  revert acc n r. induction fuel as [|fuel IH]; intros acc n r Hn; cbn [read_body];
    rewrite decide_False by lia; [by exists r|].
  destruct (read_takes n r) as (c & r1 & Hread & Hlen & Hsplit & _); [lia|].
  rewrite Hsplit, length_app in Hn.
  destruct (IH (acc ++ c) (n - length c) r1) as (r' & Hrun); [lia|]. exists r'.
  mred. cbn [fst snd]. rewrite Hread. cbn [deref_expected fst snd]. mred. by rewrite Hrun.
Qed.

(** The head of a request that comes in one read. *)
Lemma receive_head fuel line hs extra r r1 :
  reader_read DEFAULT_BUFFER_SIZE r = (Done (Value (head_bytes line hs ++ extra)), r1) ->
  line_ok line -> Forall header_ok hs -> length hs < fuel ->
  exists b1, buffered b1 = extra /\
    receive_request stream_shutdown resize_error fuel (r, BufferReader_new) =
      (let headers := foldl add_header ∅ hs in
       let size := to_size (content_length headers) in
       match resize_error size with
       | Some e => throw e
       | None =>
           let? body := read_body fuel (Z.to_nat size) [] in
           ret (Some (Some (mkRequest (RequestLine_new line) headers body)))
       end) (r1, b1).
Proof.
  intros Hread Hline Hhs Hfuel. destruct fuel as [|fuel]; [lia|].
  destruct (read_takes DEFAULT_BUFFER_SIZE r) as (c & r' & Hr & Hlen & _);
    [apply buffer_size_bounds|]. rewrite Hread in Hr. injection Hr as <- <-.
  destruct (read_line_fill fuel r _ r1 Hread) as (Hwf & Hb & Hfill); [|done|set (b := filled _) in *].
  { unfold head_bytes. rewrite bytes_of_line. by destruct (bytes_of line). }
  unfold head_bytes in Hb. rewrite <- !(assoc (++)) in Hb.
  destruct (read_line_run fuel line _ b r1 Hwf Hline Hb) as (b1 & Hrun1 & Hwf1 & Hb1).
  destruct (read_headers_run (S fuel) hs ∅ extra b1 r1 Hwf1 Hhs Hfuel Hb1) as (b2 & Hrun2 & Hwf2 & Hb2).
  exists b2. split; [done|]. unfold receive_request, obind at 1.
  assert (read_line (S fuel) (r, BufferReader_new) = (Done (Some (line +:+ CRLF)), (r1, b1))) as Hrun.
  { rewrite <- Hrun1. unfold read_line, star, obind. mred. by rewrite Hfill. }
  rewrite (bind_done _ _ _ _ _ Hrun), decide_False by (by destruct line).
  apply (f_equal length) in Hb. rewrite length_app, length_bytes_of, length_append in Hb.
  rewrite length_buffered in Hb by done. pose proof buffer_size_bounds as [_ Hbound].
  change (String.length CRLF) with 2 in Hb.
  assert (to_size (Z.of_nat (String.length (line +:+ CRLF)) - 2) = Z.of_nat (String.length line)) as ->.
  { rewrite length_append. change (String.length CRLF) with 2. rewrite to_size_small; [lia|].
    change (2 ^ 64)%Z with 18446744073709551616%Z. destruct Hwf. lia. }
  rewrite (bind_done _ _ _ _ _ (substr_run (line +:+ CRLF) 0 (String.length line) (r1, b1)
    ltac:(rewrite length_append; lia))).
  rewrite substring_prefix. unfold obind at 1. by rewrite (bind_done _ _ _ _ _ Hrun2).
Qed.

(** A request whose head arrives in one read is received as it was sent: the
    request line is parsed, every header line is an entry (the first of two equal
    keys wins; the value keeps its line end) and the body is the next
    [Content-Length] bytes of the connection.  Bytes that arrived behind the head
    in the same read stay in the buffer: they are not part of the body. *)
Theorem http_receives_request fuel line hs extra body rest r r1 :
  reader_read DEFAULT_BUFFER_SIZE r = (Done (Value (head_bytes line hs ++ extra)), r1) ->
  line_ok line -> Forall header_ok hs ->
  content_length (foldl add_header ∅ hs) = Z.of_nat (length body) ->
  resize_error (Z.of_nat (length body)) = None ->
  stream r1 = body ++ rest -> length hs < fuel -> length body <= fuel ->
  exists r' b', receive_request stream_shutdown resize_error fuel (r, BufferReader_new) =
      (Done (Some (Some (mkRequest (RequestLine_new line) (foldl add_header ∅ hs) body))), (r', b')) /\
    buffered b' = extra /\ stream r' = rest.
Proof.
  intros Hread Hline Hhs Hcl Hres Hs Hf1 Hf2.
  destruct (receive_head fuel line hs extra r r1 Hread Hline Hhs Hf1) as (b & Hb & ->).
  destruct (read_body_run fuel [] body rest r1 b Hs Hf2) as (r' & Hrun & Hr').
  exists r', b. split; [|done]. cbn zeta.
  rewrite Hcl, to_size_small by (by eapply content_length_range). rewrite Hres, Nat2Z.id.
  unfold obind. by rewrite (bind_done _ _ _ _ _ Hrun).
Qed.

(** A request whose body is shorter on the connection than its
    [Content-Length] says is never received: the loop over the body reads the end
    of the stream again and again.  So a body that came in the same read as the
    head hangs the connection. *)
Theorem http_short_body_hangs fuel line hs extra n r r1 :
  reader_read DEFAULT_BUFFER_SIZE r = (Done (Value (head_bytes line hs ++ extra)), r1) ->
  line_ok line -> Forall header_ok hs ->
  content_length (foldl add_header ∅ hs) = Z.of_nat n ->
  resize_error (Z.of_nat n) = None -> length (stream r1) < n -> length hs < fuel ->
  exists s', receive_request stream_shutdown resize_error fuel (r, BufferReader_new) =
    (Done None, s').
Proof.
  intros Hread Hline Hhs Hcl Hres Hs Hf.
  destruct (receive_head fuel line hs extra r r1 Hread Hline Hhs Hf) as (b & _ & ->).
  destruct (read_body_spins fuel [] n r1 b Hs) as (r' & Hrun).
  exists (r', b). cbn zeta.
  rewrite Hcl, to_size_small by (by eapply content_length_range). rewrite Hres, Nat2Z.id.
  unfold obind. by rewrite (bind_done _ _ _ _ _ Hrun).
Qed.
End Receive.
