(* ===== verification/HttpSession.v ===== *)
(** A connection of the HTTP server from its first byte to the last: [receive_request],
    which spawns [execute_request] on the stream it has read from. *)
From stdpp Require Import base gmap list strings pretty.
From Stdlib Require Import ZArith Ascii Lia.
From S2P Require Import Prelude Errors Events BufferIO BufferIOSpec Http HttpSpec HttpRequest.

#[local] Opaque DEFAULT_BUFFER_SIZE.

Section Session.
(** The two directions of the connection, and the files. *)
Context {R W F : Type} `{StreamReader R} `{StreamWriter W} `{StreamReader F}.
Context (stream_shutdown : Shutdown -> M R (Result unit)) (resize_error : Z -> option exn).
Context (file_open : string -> Result F) (file_size : F -> Result Z).

(** The coroutine of [receive_request] and the one it spawns, which runs when it has
    ended; [None] when the fuel is used up. *)
Definition http_session (fuel : nat) : M (R * BufferReader * W) (option unit) :=
  let? request := zoom fst (fun r s => (r, s.2)) (receive_request stream_shutdown resize_error fuel) in
  match request with
  | None => ret (Some tt)
  | Some request => zoom snd (fun w s => (s.1, w)) (execute_request file_open file_size fuel request)
  end.

(** ** What a request is to be answered with *)
Inductive answers (request : Request) : list Z -> Prop :=
  | answer_file f f' c n :
      method_ (request_line_ request) = Some Get ->
      file_open (url_ (request_line_ request)) = Value f -> file_size f = Value n ->
      reader_read DEFAULT_BUFFER_SIZE f = (Done (Value c), f') -> stream f' = [] ->
      length c < DEFAULT_BUFFER_SIZE ->
      answers request (response_head (version_ (request_line_ request)) 200 "OK" n ++ c ++ trailer 0 c)
  | answer_not_found e :
      method_ (request_line_ request) = Some Get ->
      file_open (url_ (request_line_ request)) = Unexpected e ->
      answers request (error_response (version_ (request_line_ request)) 404 "ERROR" not_found_body)
  | answer_unsupported m :
      method_ (request_line_ request) = Some m -> m <> Get ->
      answers request (error_response (version_ (request_line_ request)) 500 "Internal Server Error"
        unsupported_body).

(** [write] takes at least one byte. *)
Hypothesis Hprogress : makes_progress (W := W).

Lemma execute_answers fuel request reply (w : W) :
  answers request reply -> length reply + 2 <= fuel ->
  exists w', execute_request file_open file_size fuel request w = (Done (Some tt), w') /\
    sink w' = sink w ++ reply.
Proof.
  intros [f f' c n Hm Ho Hs Hr He Hl|e Hm Ho|m Hm Hne] Hf.
  - apply (http_get_serves_file file_open file_size Hprogress fuel request f f' c n w); try done.
    rewrite !length_app in *. lia.
  - apply (http_error_answers file_open file_size Hprogress fuel request w Get Hm) with (e := e); [done..|lia].
  - apply (http_error_answers file_open file_size Hprogress fuel request w m Hm); [done|lia].
Qed.

(** C38.  A connection of the HTTP server: a request with a known method, whose head comes
    in one read, with any well-formed headers, and whose body of [Content-Length] bytes
    comes in later reads, however cut, is answered once.  [GET] of a file that can be
    opened, that is shorter than the buffer and comes in one read is answered with 200,
    the file and, when it does not end with a line feed, one stray byte; [GET] of a file
    that cannot be opened with 404; another method with 500.  Bytes that came with the
    head ([extra]) are left in the buffer of the reader and lost: a body is not looked for
    in them; from the connection exactly the body is read. *)
Theorem http_session_answers fuel line hs extra body rest (r r1 : R) (w : W) reply
    (Hread : reader_read DEFAULT_BUFFER_SIZE r = (Done (Value (head_bytes line hs ++ extra)), r1))
    (Hline : line_ok line) (Hhs : Forall header_ok hs)
    (Hcl : content_length (foldl add_header ∅ hs) = Z.of_nat (length body))
    (Hres : resize_error (Z.of_nat (length body)) = None)
    (Hbody : stream r1 = body ++ rest)
    (Hreply : answers (mkRequest (RequestLine_new line) (foldl add_header ∅ hs) body) reply)
    (Hfuel : length hs < fuel /\ length body <= fuel /\ length reply + 2 <= fuel) :
  exists r' b' w', http_session fuel (r, BufferReader_new, w) = (Done (Some tt), (r', b', w')) /\
    sink w' = sink w ++ reply /\ stream r' = rest /\ buffered b' = extra.
Proof.
  destruct Hfuel as (Hf1 & Hf2 & Hf3).
  destruct (http_receives_request stream_shutdown resize_error fuel line hs extra body rest r r1)
    as (r' & b' & Hrec & Hb & Hr); [done..|].
  destruct (execute_answers fuel _ reply w Hreply Hf3) as (w' & Hexec & Hs).
  exists r', b', w'. split_and!; [|done..]. unfold http_session, obind, zoom. mred. cbn [fst snd].
  rewrite Hrec. cbn [fst snd]. by rewrite Hexec.
Qed.
End Session.
