(* ===== verification/TcpSocket.v ===== *)
(** Opening TCP sockets: the operations of [src/net/epoll/listener.cc] and
    [src/net/io_uring/listener.cc] that wrap system calls, and the owners of the
    descriptors they make.

    An object is a name in [OwnerState].  The kernel is a parameter: its answer to
    a call, [(return value, errno)], may depend on everything before it.  A
    [BlockingTask] makes its call while the coroutine is suspended, so that a
    coroutine's calls come in its program order. *)
From stdpp Require Import base gmap list sets strings.
From Stdlib Require Import ZArith Lia.
From S2P Require Import Prelude Errors Events Net.

Definition SOCK_STREAM : Z := 1.
Definition SOCK_NONBLOCK : Z := 2048.
Definition SOL_SOCKET : Z := 1.
Definition SO_REUSEADDR : Z := 2.
Definition SO_ERROR : Z := 4.
Definition SO_REUSEPORT : Z := 15.
Definition max_pending_connection : Z := 128.

(** The calls; the last three are submitted to the ring. *)
Inductive NetCall : Type :=
| sys_socket (domain type : Z)
| sys_bind (fd : Z) (addr : SocketAddr) (len : Z)
| sys_listen (fd backlog : Z)
| sys_connect (fd : Z) (addr : SocketAddr) (len : Z)
| sys_setsockopt (fd level optname optval : Z)
| sys_getsockopt (fd level optname : Z)
| sys_shutdown (fd how : Z)
| sys_accept4 (fd flags : Z)
| ring_connect (fd : Z) (addr : SocketAddr) (len : Z)
| ring_shutdown (fd how : Z)
| ring_accept (fd flags : Z).

(** The objects, the open descriptors and the calls made so far. *)
Record NetState : Type := mkNetState {
  ns_owner : OwnerState;
  ns_calls : list NetCall;
}.

Section Sockets.
Context (answer : NetState -> NetCall -> Z * Z).
Implicit Types (this sock lis stream : nat) (addr : SocketAddr).

Definition on_owner {A} : M OwnerState A -> M NetState A :=
  zoom ns_owner (fun o s => mkNetState o (ns_calls s)).

(** Makes a call. *)
Definition syscall (c : NetCall) : M NetState (Z * Z) :=
  fun s => (Done (answer s c), mkNetState (ns_owner s) (ns_calls s ++ [c])).

(** [utils::into_sys_result(call)]. *)
Definition sys (c : NetCall) : M NetState (Result Z) :=
  let! r := syscall c in ret (into_sys_result r.2 r.1).

(** [socket_.into_c_fd()]. *)
Definition into_c_fd this : M NetState Z :=
  let! s := get in deref (os_fd_ (ns_owner s) !! this).

(** [socket] opens the descriptor it returns. *)
Definition sys_open (domain type : Z) : M NetState (Result Z) :=
  let! r := sys (sys_socket domain type) in
  match r with
  | Value fd =>
      on_owner (modify (fun o => mkOwnerState (os_fd_ o) ({[fd]} ∪ os_open o))) ;;; ret r
  | Unexpected _ => ret r
  end.

(** [socket(...)], then [TcpSocket(file_descriptor)]: the result holds [this]. *)
Definition TcpSocket_of this (domain type : Z) : M NetState (Result unit) :=
  let! r := sys_open domain type in
  match r with
  | Value fd => on_owner (Socket_new this fd) ;;; ret (Value tt)
  | Unexpected e => ret (Unexpected e)
  end.

(** *** Epoll *)

Definition TcpSocket_new_v4 this : M NetState (Result unit) :=
  TcpSocket_of this AF_INET (Z.lor SOCK_STREAM SOCK_NONBLOCK).
Definition TcpSocket_new_v6 this : M NetState (Result unit) :=
  TcpSocket_of this AF_INET6 (Z.lor SOCK_STREAM SOCK_NONBLOCK).

Definition TcpSocket_bind this addr : M NetState (Result unit) :=
  let! fd := into_c_fd this in
  let! bind_result := sys (sys_bind fd addr sizeof_sockaddr) in
  ret (transform (fun _ => tt) bind_result).

(** The listener [lis] takes the descriptor; the one with descriptor [-1] that
    [ASYNC_TRY] makes and drops owns nothing. *)
Definition TcpSocket_listen this (backlog : Z) lis : M NetState (Result unit) :=
  let! fd := into_c_fd this in
  let! listen_result := sys (sys_listen fd backlog) in
  ASYNC_TRY listen_result (fun _ => on_owner (Socket_move_ctor lis this) ;;; ret (Value tt)).

Definition TcpSocket_set_reuseaddr this (reuseaddr : bool) : M NetState (Result unit) :=
  let optval := Z.b2z reuseaddr in
  let! fd := into_c_fd this in
  let! result := sys (sys_setsockopt fd SOL_SOCKET SO_REUSEADDR optval) in
  ret (transform (fun _ => tt) result).

Definition TcpSocket_set_reuseport this (reuseport : bool) : M NetState (Result unit) :=
  let optval := Z.b2z reuseport in
  let! fd := into_c_fd this in
  let! result := sys (sys_setsockopt fd SOL_SOCKET SO_REUSEPORT optval) in
  ret (transform (fun _ => tt) result).

(** The branch of the connecting future's [poll] that is taken once its event has
    the flag [Error] or [Writable]; [writable] and [readable] are the event's flags.
    [getsockopt] stores its value in [ret], which is the answer here.  The stream is
    made with the two flags. *)
Definition TcpSocket_connect_ready this stream (strerror : Z -> string) (writable readable : bool)
    : M NetState (Result (bool * bool)) :=
  let! fd := into_c_fd this in
  let! ret_value := syscall (sys_getsockopt fd SOL_SOCKET SO_ERROR) in
  if negb (ret_value.1 =? 0)%Z then
    ret (Unexpected (mkError ret_value.1 (strerror ret_value.1)))
  else
    on_owner (Socket_move_ctor stream this) ;;; ret (Value (writable, readable)).

(** [TcpSocket::connect]; [flags] are those of the event when the future is polled
    for the last time. *)
Definition TcpSocket_connect this addr stream (strerror : Z -> string) (flags : bool * bool)
    : M NetState (Result (bool * bool)) :=
  let! fd := into_c_fd this in
  let! connect_result := sys (sys_connect fd addr sizeof_sockaddr) in
  match connect_result with
  | Value _ => on_owner (Socket_move_ctor stream this) ;;; ret (Value (true, false))
  | Unexpected e =>
      let err := errno_ e in
      if negb (err =? EINPROGRESS)%Z && negb (err =? EAGAIN)%Z then
        ret (Unexpected (mkError err ""))
      else TcpSocket_connect_ready this stream strerror flags.1 flags.2
  end.

(** [TcpStream::connect]: [sock] is the socket inside the result, which is destroyed
    when the coroutine ends. *)
Definition TcpStream_connect sock stream addr (strerror : Z -> string) (flags : bool * bool)
    : M NetState (Result (bool * bool)) :=
  let! socket := if SocketAddr_is_v4 addr then TcpSocket_new_v4 sock else TcpSocket_new_v6 sock in
  match socket with
  | Unexpected e => ret (Unexpected e)
  | Value _ =>
      let! result := TcpSocket_connect sock addr stream strerror flags in
      on_owner (Socket_dtor sock) ;;;
      ret result
  end.

(** [TcpStream::flush]. *)
Definition TcpStream_flush this : M NetState (Result unit) := ret (Value tt).

(** [TcpStream::shutdown]. *)
Definition TcpStream_shutdown this (shutdown : Shutdown) : M NetState (Result unit) :=
  let! fd := into_c_fd this in
  let! result := sys (sys_shutdown fd (Shutdown_underlying shutdown)) in
  ASYNC_TRY (transform (fun _ => tt) result) (fun _ => ret (Value tt)).

(** [TcpListener::bind]: [res] is the socket inside [socket_result], [sock] is
    [tcp_socket]; both are destroyed when the coroutine ends. *)
Definition TcpListener_bind (new_v4 : nat -> M NetState (Result unit)) (res sock lis : nat) addr
    : M NetState (Result unit) :=
  let! socket_result := new_v4 res in
  match socket_result with
  | Unexpected e => ret (Unexpected e)
  | Value _ =>
      on_owner (Socket_move_ctor sock res) ;;;
      let! bind_result := TcpSocket_bind sock addr in
      let! result :=
        match bind_result with
        | Unexpected e => ret (Unexpected e)
        | Value _ => TcpSocket_listen sock max_pending_connection lis
        end in
      on_owner (Socket_dtor sock) ;;;
      on_owner (Socket_dtor res) ;;;
      ret result
  end.
Definition EpollListener_bind := TcpListener_bind TcpSocket_new_v4.

(** A descriptor that a call on a listener opened. *)
Definition open_accepted (fd : Z) : M NetState unit :=
  on_owner (modify (fun o => mkOwnerState (os_fd_ o) ({[fd]} ∪ os_open o))).

(** [TcpListener::accept] on the listener [lis].  [polls] has the polls of its future that
    find the event registered and reported: [true] for the flag [Error], [false] for
    [Readable].  [accept4] is tried, and with [EAGAIN] the future waits for the next
    report.  [sock] is the local [socket], [stream] the stream of the result; [None] when
    the future still waits. *)
Fixpoint TcpListener_accept (polls : list bool) (lis sock stream : nat)
    : M NetState (option (Result unit)) :=
  match polls with
  | [] => ret None
  | true :: _ => ret (Some (Unexpected (mkError 1 "epoll state error")))
  | false :: polls =>
      let! fd := into_c_fd lis in
      let! accept_result := sys (sys_accept4 fd SOCK_NONBLOCK) in
      match accept_result with
      | Unexpected err =>
          if (errno_ err =? EAGAIN)%Z then TcpListener_accept polls lis sock stream
          else ret (Some (Unexpected err))
      | Value fd =>
          open_accepted fd ;;;
          on_owner (Socket_new sock fd) ;;;
          on_owner (Socket_move_ctor stream sock) ;;;
          on_owner (Socket_dtor sock) ;;;
          ret (Some (Value tt))
      end
  end.

(** *** io_uring *)

(** [TcpListener::accept]: one operation is submitted, its completion has the new
    descriptor. *)
Definition UringListener_accept (lis sock stream : nat) : M NetState (Result unit) :=
  let! fd := into_c_fd lis in
  let! r := syscall (ring_accept fd 0) in
  let return_ := r.1 in
  if (return_ <? 0)%Z then ret (Unexpected (mkError (- return_) ""))
  else
    open_accepted return_ ;;;
    on_owner (Socket_new sock return_) ;;;
    on_owner (Socket_move_ctor stream sock) ;;;
    on_owner (Socket_dtor sock) ;;;
    ret (Value tt).

Definition UringSocket_new_v4 this : M NetState (Result unit) :=
  TcpSocket_of this AF_INET SOCK_STREAM.
Definition UringSocket_new_v6 this : M NetState (Result unit) :=
  TcpSocket_of this AF_INET6 SOCK_STREAM.
Definition UringSocket_bind := TcpSocket_bind.
Definition UringSocket_listen := TcpSocket_listen.
Definition UringSocket_set_reuseaddr := TcpSocket_set_reuseaddr.
Definition UringSocket_set_reuseport := TcpSocket_set_reuseport.
Definition UringListener_bind := TcpListener_bind UringSocket_new_v4.

(** [TcpSocket::connect]: the future's first poll submits the operation, its second
    one returns the completion's result ([uring_connect_poll] is that future). *)
Definition UringSocket_connect this addr stream : M NetState (Result unit) :=
  let! fd := into_c_fd this in
  let! r := syscall (ring_connect fd addr sizeof_sockaddr) in
  let return_ := r.1 in
  if (return_ <? 0)%Z then ret (Unexpected (mkError (- return_) ""))
  else on_owner (Socket_move_ctor stream this) ;;; ret (Value tt).

Definition UringStream_connect sock stream addr : M NetState (Result unit) :=
  let! socket := if SocketAddr_is_v4 addr then UringSocket_new_v4 sock else UringSocket_new_v6 sock in
  match socket with
  | Unexpected e => ret (Unexpected e)
  | Value _ =>
      let! result := UringSocket_connect sock addr stream in
      on_owner (Socket_dtor sock) ;;;
      ret result
  end.

Definition UringStream_flush this : M NetState (Result unit) := ret (Value tt).

Definition UringStream_shutdown this (shutdown : Shutdown) : M NetState (Result unit) :=
  let! fd := into_c_fd this in
  let! r := syscall (ring_shutdown fd (Shutdown_underlying shutdown)) in
  let return_ := r.1 in
  if (return_ <? 0)%Z then ret (Unexpected (mkError (- return_) "")) else ret (Value tt).
End Sockets.
