(* ===== verification/TcpSocketSpec.v ===== *)
(** What opening TCP sockets does with descriptors: the functions of
    [TcpSocket.v] give the descriptor they open to their result or close it. *)
From stdpp Require Import base gmap list sets strings.
From Stdlib Require Import ZArith Lia.
From S2P Require Import Prelude Errors Events Net TcpSocket.

(** [socket(2)]: the descriptor it returns was not open. *)
Definition fresh_descriptors (answer : NetState -> NetCall -> Z * Z) : Prop :=
  forall s domain type, (answer s (sys_socket domain type)).1 <> (-1)%Z ->
    (answer s (sys_socket domain type)).1 ∉ os_open (ns_owner s).

(** [o] owns the new descriptor [fd], and nothing else changed. *)
Definition opened (s s' : NetState) (o : nat) (fd : Z) : Prop :=
  fd ∉ os_open (ns_owner s) /\
  ns_owner s' = mkOwnerState (<[o := fd]> (os_fd_ (ns_owner s))) ({[fd]} ∪ os_open (ns_owner s)).

(** The last call failed with the error [e]. *)
Definition failed (answer : NetState -> NetCall -> Z * Z) (s' : NetState) (e : Error) : Prop :=
  exists s1 c, ns_calls s' = ns_calls s1 ++ [c] /\ (answer s1 c).1 = (-1)%Z /\
    e = mkError (answer s1 c).2 "".

(** ** Destructors *)

Lemma dtor_moved o s :
  os_fd_ s !! o = Some (-1)%Z ->
  Socket_dtor o s = (Done tt, mkOwnerState (delete o (os_fd_ s)) (os_open s)).
Proof. intros Ho. unfold Socket_dtor. mred. by rewrite Ho, decide_True. Qed.

Lemma dtor_open o fd s :
  os_fd_ s !! o = Some fd -> fd <> (-1)%Z -> fd ∈ os_open s ->
  Socket_dtor o s = (Done tt, mkOwnerState (delete o (os_fd_ s)) (os_open s ∖ {[fd]})).
Proof.
  intros Ho Hne Hin. unfold Socket_dtor, close. mred. rewrite Ho.
  rewrite decide_False, decide_True by done. done.
Qed.

Lemma opened_inv s s' o fd :
  owner_inv (ns_owner s) -> os_fd_ (ns_owner s) !! o = None -> fd <> (-1)%Z ->
  opened s s' o fd -> owner_inv (ns_owner s').
Proof.
  intros Hinv Ho Hne [Hfresh ->].
  by destruct (owner_run_inv (op_open o fd) (ns_owner s) Hinv) as (s1 & [= <-] & Hs1).
Qed.

(** A descriptor that is opened and closed leaves the open ones as they were. *)
Lemma open_close (fd : Z) (X : gset Z) : fd ∉ X -> ({[fd]} ∪ X) ∖ {[fd]} = X.
Proof. set_solver. Qed.

Section Sockets.
Context (answer : NetState -> NetCall -> Z * Z).
Implicit Types (s : NetState) (addr : SocketAddr).
Hypothesis Hfresh : fresh_descriptors answer.

Lemma sys_run c s :
  sys answer c s = (Done (into_sys_result (answer s c).2 (answer s c).1),
    mkNetState (ns_owner s) (ns_calls s ++ [c])).
Proof. done. Qed.

Lemma syscall_run c s :
  syscall answer c s = (Done (answer s c), mkNetState (ns_owner s) (ns_calls s ++ [c])).
Proof. done. Qed.

Lemma sys_cases c s :
  let s' := mkNetState (ns_owner s) (ns_calls s ++ [c]) in
  (exists n, sys answer c s = (Done (Value n), s') /\ n = (answer s c).1 /\ n <> (-1)%Z) \/
  (exists e, sys answer c s = (Done (Unexpected e), s') /\ failed answer s' e).
Proof.
  cbn zeta. rewrite sys_run. destruct (into_sys_result _ _) as [n|e] eqn:Hr.
  - left. exists n. by apply into_sys_result_value in Hr as [-> ?].
  - right. exists e. split; [done|]. apply into_sys_result_error in Hr as [-> ?].
    by exists s, c.
Qed.

Lemma into_c_fd_run o fd s :
  os_fd_ (ns_owner s) !! o = Some fd -> into_c_fd o s = (Done fd, s).
Proof. intros Ho. unfold into_c_fd. mred. by rewrite Ho. Qed.

(** A new socket, or the error of [socket]. *)
Lemma new_socket_run o domain type s :
  let s1 := mkNetState (ns_owner s) (ns_calls s ++ [sys_socket domain type]) in
  (exists fd, TcpSocket_of answer o domain type s =
      (Done (Value tt), mkNetState (mkOwnerState (<[o := fd]> (os_fd_ (ns_owner s)))
         ({[fd]} ∪ os_open (ns_owner s))) (ns_calls s1)) /\
    fd <> (-1)%Z /\ fd ∉ os_open (ns_owner s)) \/
  (exists e, TcpSocket_of answer o domain type s = (Done (Unexpected e), s1) /\
    failed answer s1 e).
Proof.
  cbn zeta. destruct (sys_cases (sys_socket domain type) s) as [(fd & Hr & Hfd & Hne)|(e & Hr & He)];
    unfold TcpSocket_of, sys_open.
  - left. exists fd. mred. rewrite Hr.
    split_and!; [done|done|]. subst fd. by apply Hfresh.
  - right. exists e. mred. by rewrite Hr.
Qed.

Lemma bind_run o fd addr s :
  os_fd_ (ns_owner s) !! o = Some fd ->
  let s' := mkNetState (ns_owner s) (ns_calls s ++ [sys_bind fd addr sizeof_sockaddr]) in
  TcpSocket_bind answer o addr s = (Done (Value tt), s') \/
  (exists e, TcpSocket_bind answer o addr s = (Done (Unexpected e), s') /\ failed answer s' e).
Proof.
  intros Ho. unfold TcpSocket_bind. rewrite (bind_done _ _ _ _ _ (into_c_fd_run _ _ _ Ho)).
  destruct (sys_cases (sys_bind fd addr sizeof_sockaddr) s) as [(n & Hr & _)|(e & Hr & He)];
    cbn zeta; rewrite (bind_done _ _ _ _ _ Hr); [by left|right; by exists e].
Qed.

Lemma listen_run o lis fd backlog s :
  os_fd_ (ns_owner s) !! o = Some fd ->
  let calls := ns_calls s ++ [sys_listen fd backlog] in
  TcpSocket_listen answer o backlog lis s = (Done (Value tt),
    mkNetState (mkOwnerState (<[o := (-1)%Z]> (<[lis := fd]> (os_fd_ (ns_owner s))))
      (os_open (ns_owner s))) calls) \/
  (exists e, let s' := mkNetState (ns_owner s) calls in
    TcpSocket_listen answer o backlog lis s = (Done (Unexpected e), s') /\ failed answer s' e).
Proof.
  intros Ho. unfold TcpSocket_listen. rewrite (bind_done _ _ _ _ _ (into_c_fd_run _ _ _ Ho)).
  destruct (sys_cases (sys_listen fd backlog) s) as [(n & Hr & _)|(e & Hr & He)];
    cbn zeta; rewrite (bind_done _ _ _ _ _ Hr); [left|right; by exists e].
  unfold on_owner, Socket_move_ctor. mred. cbn. by rewrite Ho.
Qed.

(** The end of a scope that owns a socket, with the descriptor still in it or moved
    into [lis]. *)
Lemma scope_end_unused sock fd m X calls :
  m !! sock = None -> fd <> (-1)%Z -> fd ∉ X ->
  on_owner (Socket_dtor sock) (mkNetState (mkOwnerState (<[sock := fd]> m) ({[fd]} ∪ X)) calls) =
    (Done tt, mkNetState (mkOwnerState m X) calls).
Proof.
  intros Hm Hne Hfd. unfold on_owner, zoom. cbn [ns_owner ns_calls].
  rewrite (dtor_open _ fd); [|cbn; apply lookup_insert_eq|done|cbn; set_solver]. cbn.
  by rewrite delete_insert_id, open_close by done.
Qed.

Lemma scope_end_moved sock m X calls :
  m !! sock = None ->
  on_owner (Socket_dtor sock) (mkNetState (mkOwnerState (<[sock := (-1)%Z]> m) X) calls) =
    (Done tt, mkNetState (mkOwnerState m X) calls).
Proof.
  intros Hm. unfold on_owner, zoom. cbn [ns_owner ns_calls].
  rewrite dtor_moved by (cbn; apply lookup_insert_eq). cbn. by rewrite delete_insert_id by done.
Qed.

(** Moving a socket from an object to a new one. *)
Lemma move_run this other fd m X calls :
  this <> other ->
  on_owner (Socket_move_ctor this other) (mkNetState (mkOwnerState (<[other := fd]> m) X) calls) =
    (Done tt, mkNetState (mkOwnerState (<[other := (-1)%Z]> (<[this := fd]> m)) X) calls).
Proof.
  intros Hne. unfold on_owner, Socket_move_ctor. mred. cbn. rewrite lookup_insert_eq. do 3 f_equal.
  rewrite (insert_insert_ne m) by done. by rewrite insert_insert_eq.
Qed.

(** The end of [TcpListener::bind], where [res] has been moved into [sock]. *)
Definition end_of_bind {A} (res sock : nat) (result : A) : M NetState A :=
  on_owner (Socket_dtor sock) ;;; on_owner (Socket_dtor res) ;;; ret result.

Lemma end_of_bind_unused {A} res sock fd m X calls (result : A) :
  m !! res = None -> m !! sock = None -> res <> sock -> fd <> (-1)%Z -> fd ∉ X ->
  end_of_bind res sock result
    (mkNetState (mkOwnerState (<[res := (-1)%Z]> (<[sock := fd]> m)) ({[fd]} ∪ X)) calls) =
    (Done result, mkNetState (mkOwnerState m X) calls).
Proof.
  intros Hres Hsock Hne Hfd HX. unfold end_of_bind. rewrite (insert_insert_ne m) by done.
  rewrite (bind_done _ _ _ tt (mkNetState (mkOwnerState (<[res := (-1)%Z]> m) X) calls)).
  - by rewrite (bind_done _ _ _ _ _ (scope_end_moved res m X calls Hres)).
  - apply scope_end_unused; [by rewrite lookup_insert_ne|done..].
Qed.

Lemma end_of_bind_moved {A} res sock lis fd m X calls (result : A) :
  NoDup [res; sock; lis] -> m !! res = None -> m !! sock = None ->
  end_of_bind res sock result (mkNetState (mkOwnerState
    (<[sock := (-1)%Z]> (<[lis := fd]> (<[res := (-1)%Z]> (<[sock := fd]> m)))) X) calls) =
    (Done result, mkNetState (mkOwnerState (<[lis := fd]> m) X) calls).
Proof.
  intros Hnd Hres Hsock. assert (res <> sock /\ res <> lis /\ sock <> lis) as (Hrs & Hrl & Hsl).
  { apply NoDup_cons in Hnd as [H1 [H2 _]%NoDup_cons]. set_solver. }
  unfold end_of_bind.
  rewrite (insert_insert_ne m res sock), (insert_insert_ne _ lis sock), insert_insert_eq by done.
  rewrite (insert_insert_ne m lis res) by done.
  rewrite (bind_done _ _ _ tt (mkNetState (mkOwnerState (<[res := (-1)%Z]> (<[lis := fd]> m)) X) calls)).
  - rewrite (bind_done _ _ _ _ _ (scope_end_moved res (<[lis := fd]> m) _ _
      (eq_trans (lookup_insert_ne m lis res fd (not_eq_sym Hrl)) Hres))). done.
  - apply scope_end_moved. by rewrite !lookup_insert_ne.
Qed.

(** The whole of [TcpListener::bind]. *)
Lemma listener_bind_run type res sock lis addr s :
  NoDup [res; sock; lis] ->
  Forall (fun o => os_fd_ (ns_owner s) !! o = None) [res; sock; lis] ->
  let new_v4 o := TcpSocket_of answer o AF_INET type in
  exists r s', TcpListener_bind answer new_v4 res sock lis addr s = (Done r, s') /\
    match r with
    | Value _ => exists fd, fd <> (-1)%Z /\ opened s s' lis fd /\
        ns_calls s' = ns_calls s ++ [sys_socket AF_INET type; sys_bind fd addr sizeof_sockaddr;
                                     sys_listen fd max_pending_connection]
    | Unexpected e => ns_owner s' = ns_owner s /\ failed answer s' e
    end.
Proof.
  intros Hnd Hnone new_v4. unfold TcpListener_bind.
  assert (res <> sock) as Hrs by (apply NoDup_cons in Hnd as [H1 _]; set_solver).
  rewrite !Forall_cons in Hnone. destruct Hnone as (Hres & Hsock & Hlis & _).
  destruct s as [[m X] calls]. cbn [ns_owner ns_calls os_fd_ os_open] in *.
  destruct (new_socket_run res AF_INET type (mkNetState (mkOwnerState m X) calls))
    as [(fd & Hr & Hne & Hfd)|(e & Hr & He)]; unfold new_v4; rewrite (bind_done _ _ _ _ _ Hr);
    [|by eexists _, _].
  cbn [ns_owner ns_calls os_fd_ os_open] in *.
  rewrite (bind_done _ _ _ _ _ (move_run sock res fd m _ _ (not_eq_sym Hrs))).
  set (s1 := mkNetState _ _).
  assert (os_fd_ (ns_owner s1) !! sock = Some fd) as Hs1.
  { cbn. by rewrite lookup_insert_ne, lookup_insert_eq by done. }
  destruct (bind_run sock fd addr s1 Hs1) as [Hb|(e & Hb & He)]; rewrite (bind_done _ _ _ _ _ Hb).
  2:{ eexists _, _. split; [by apply end_of_bind_unused|]. done. }
  cbn [ns_owner ns_calls] in *.
  destruct (listen_run sock lis fd max_pending_connection
    (mkNetState (ns_owner s1) (ns_calls s1 ++ [sys_bind fd addr sizeof_sockaddr])) Hs1)
    as [Hl|(e & Hl & He)]; rewrite (bind_done _ _ _ _ _ Hl); eexists _, _.
  - split; [by apply end_of_bind_moved|]. exists fd. cbn. by rewrite <- !(assoc (++)).
  - split; [by apply end_of_bind_unused|]. done.
Qed.

(** C33.  [TcpListener::bind], over epoll and over io_uring, makes the calls [socket],
    [bind] and [listen] on one descriptor and gives it to the listener; when one of
    the calls fails, its error is the result, no later call is made and the
    descriptor is closed.  Nothing leaks and every descriptor keeps one owner. *)
Theorem listener_bind_never_leaks res sock lis addr s :
  owner_inv (ns_owner s) -> NoDup [res; sock; lis] ->
  Forall (fun o => os_fd_ (ns_owner s) !! o = None) [res; sock; lis] ->
  let bound type r s' :=
    owner_inv (ns_owner s') /\
    match r with
    | Value _ => exists fd, fd <> (-1)%Z /\ opened s s' lis fd /\
        ns_calls s' = ns_calls s ++ [sys_socket AF_INET type; sys_bind fd addr sizeof_sockaddr;
                                     sys_listen fd 128]
    | Unexpected e => ns_owner s' = ns_owner s /\ failed answer s' e
    end in
  (exists r s', EpollListener_bind answer res sock lis addr s = (Done r, s') /\
     bound (Z.lor SOCK_STREAM SOCK_NONBLOCK) r s') /\
  (exists r s', UringListener_bind answer res sock lis addr s = (Done r, s') /\
     bound SOCK_STREAM r s').
Proof.
  intros Hinv Hnd Hnone bound. assert (os_fd_ (ns_owner s) !! lis = None) as Hlis.
  { rewrite !Forall_cons in Hnone. tauto. }
  split; [destruct (listener_bind_run (Z.lor SOCK_STREAM SOCK_NONBLOCK) res sock lis addr s Hnd Hnone)
      as (r & s' & Hrun & Hr)
    |destruct (listener_bind_run SOCK_STREAM res sock lis addr s Hnd Hnone) as (r & s' & Hrun & Hr)];
    (exists r, s'; split; [exact Hrun|]); (split; [|exact Hr]); destruct r as [[]|e].
  all: try (destruct Hr as (fd & Hne & Hop & _); by eapply opened_inv).
  all: destruct Hr as [-> _]; done.
Qed.

(** [TcpStream::connect] of both backends, given what [TcpSocket::connect] does: it
    moves the descriptor into the stream when it succeeds and leaves it alone
    otherwise. *)
Definition connect_spec {A} (sock stream : nat) (connect : M NetState (Result A))
    (P : Z -> list NetCall -> list NetCall -> Result A -> Prop) : Prop :=
  forall fd m X calls, exists r calls',
    connect (mkNetState (mkOwnerState (<[sock := fd]> m) X) calls) =
      (Done r, mkNetState (mkOwnerState
         (if has_value r then <[sock := (-1)%Z]> (<[stream := fd]> m) else <[sock := fd]> m) X) calls') /\
    P fd calls calls' r.

Lemma stream_connect_run {A} sock stream domain type (connect : M NetState (Result A)) P s :
  sock <> stream -> os_fd_ (ns_owner s) !! sock = None ->
  connect_spec sock stream connect P ->
  exists r s',
    (let! socket := TcpSocket_of answer sock domain type in
     match socket with
     | Unexpected e => ret (Unexpected e)
     | Value _ => let! result := connect in on_owner (Socket_dtor sock) ;;; ret result
     end) s = (Done r, s') /\
    ((exists e, r = Unexpected e /\ ns_owner s' = ns_owner s /\
        ns_calls s' = ns_calls s ++ [sys_socket domain type] /\ failed answer s' e) \/
     exists fd, fd <> (-1)%Z /\ P fd (ns_calls s ++ [sys_socket domain type]) (ns_calls s') r /\
       if has_value r then opened s s' stream fd else ns_owner s' = ns_owner s).
Proof.
  intros Hne Hsock Hconn. destruct s as [[m X] calls]. cbn [ns_owner ns_calls os_fd_ os_open] in *.
  destruct (new_socket_run sock domain type (mkNetState (mkOwnerState m X) calls))
    as [(fd & Hr & Hfd & Hnew)|(e & Hr & He)]; rewrite (bind_done _ _ _ _ _ Hr);
    [|eexists _, _; split; [reflexivity|left; by exists e]].
  cbn [ns_owner ns_calls os_fd_ os_open] in *.
  destruct (Hconn fd m ({[fd]} ∪ X) (calls ++ [sys_socket domain type])) as (r & calls' & Hc & HP).
  rewrite (bind_done _ _ _ _ _ Hc). destruct r as [a|e]; eexists _, _; cbn [has_value] in *.
  - assert (<[stream := fd]> m !! sock = None) as Hm by (by rewrite lookup_insert_ne).
    rewrite (bind_done _ _ _ _ _ (scope_end_moved sock _ _ _ Hm)). split; [done|]. right.
    by exists fd.
  - rewrite (bind_done _ _ _ _ _ (scope_end_unused sock fd m X calls' Hsock Hfd Hnew)).
    split; [done|]. right. by exists fd.
Qed.

(** The calls of a connection over epoll. *)
Inductive epoll_connected addr (flags : bool * bool) (fd : Z)
    : list NetCall -> list NetCall -> Result (bool * bool) -> Prop :=
| connected_at_once calls :
    epoll_connected addr flags fd calls (calls ++ [sys_connect fd addr sizeof_sockaddr])
      (Value (true, false))
| connect_refused calls e :
    e <> EINPROGRESS -> e <> EAGAIN ->
    epoll_connected addr flags fd calls (calls ++ [sys_connect fd addr sizeof_sockaddr])
      (Unexpected (mkError e ""))
| connected_later calls s c :
    c = sys_getsockopt fd SOL_SOCKET SO_ERROR -> (answer s c).1 = 0%Z ->
    epoll_connected addr flags fd calls (calls ++ [sys_connect fd addr sizeof_sockaddr; c]) (Value flags)
| connect_fails_later calls s c info :
    c = sys_getsockopt fd SOL_SOCKET SO_ERROR -> (answer s c).1 <> 0%Z ->
    epoll_connected addr flags fd calls (calls ++ [sys_connect fd addr sizeof_sockaddr; c])
      (Unexpected (mkError (answer s c).1 info)).

Lemma epoll_connect_spec sock stream addr strerror flags :
  sock <> stream ->
  connect_spec sock stream (TcpSocket_connect answer sock addr stream strerror flags)
    (epoll_connected addr flags).
Proof.
  intros Hne fd m X calls. unfold TcpSocket_connect.
  assert (forall c, into_c_fd sock (mkNetState (mkOwnerState (<[sock := fd]> m) X) c) =
    (Done fd, mkNetState (mkOwnerState (<[sock := fd]> m) X) c)) as Hfd.
  { intros c. apply into_c_fd_run, lookup_insert_eq. }
  rewrite (bind_done _ _ _ _ _ (Hfd _)).
  set (s0 := mkNetState _ calls). set (c := sys_connect fd addr sizeof_sockaddr).
  rewrite (bind_done _ _ _ _ _ (sys_run c s0)). unfold s0. cbn [ns_owner ns_calls].
  destruct (into_sys_result _ _) as [n|e] eqn:Hr.
  - rewrite (bind_done _ _ _ _ _ (move_run stream sock fd m X _ (not_eq_sym Hne))).
    eexists (Value _), _. split; [done|]. constructor.
  - apply into_sys_result_error in Hr as [-> _]. cbn [errno_].
    destruct (negb _ && negb _) eqn:He.
    + eexists (Unexpected _), _. split; [done|]. apply andb_prop in He as [H1 H2].
      constructor; [by apply Z.eqb_neq, negb_true_iff|by apply Z.eqb_neq, negb_true_iff].
    + unfold TcpSocket_connect_ready. rewrite (bind_done _ _ _ _ _ (Hfd _)).
      set (s1 := mkNetState _ (calls ++ [c])). set (c1 := sys_getsockopt _ _ _).
      rewrite (bind_done _ _ _ _ _ (syscall_run c1 s1)).
      assert (ns_calls s1 ++ [c1] = calls ++ [c; c1]) as -> by (cbn; by rewrite <- (assoc (++))).
      change (ns_owner s1) with (mkOwnerState (<[sock := fd]> m) X). destruct (Z.eqb_spec (answer s1 c1).1 0) as [Hz|Hz]; cbn [negb].
      * rewrite (bind_done _ _ _ _ _ (move_run stream sock fd m X _ (not_eq_sym Hne))).
        rewrite <- surjective_pairing. eexists (Value _), _. split; [done|]. by eapply connected_later.
      * eexists (Unexpected _), _. split; [done|]. by eapply connect_fails_later.
Qed.

(** The calls of a connection over io_uring. *)
Inductive uring_connected addr (fd : Z) : list NetCall -> list NetCall -> Result unit -> Prop :=
| ring_connected calls :
    uring_connected addr fd calls (calls ++ [ring_connect fd addr sizeof_sockaddr]) (Value tt)
| ring_connect_fails calls s c :
    c = ring_connect fd addr sizeof_sockaddr -> ((answer s c).1 < 0)%Z ->
    uring_connected addr fd calls (calls ++ [c]) (Unexpected (mkError (- (answer s c).1) "")).

Lemma uring_connect_spec sock stream addr :
  sock <> stream ->
  connect_spec sock stream (UringSocket_connect answer sock addr stream) (uring_connected addr).
Proof.
  intros Hne fd m X calls. unfold UringSocket_connect.
  rewrite (bind_done _ _ _ fd _ (into_c_fd_run _ _ _ (lookup_insert_eq m sock fd))).
  set (s0 := mkNetState _ calls). set (c := ring_connect _ _ _).
  rewrite (bind_done _ _ _ _ _ (syscall_run c s0)).
  change (ns_owner s0) with (mkOwnerState (<[sock := fd]> m) X). change (ns_calls s0) with calls.
  destruct (Z.ltb_spec (answer s0 c).1 0) as [Hz|Hz].
  - eexists (Unexpected _), _. split; [done|]. by constructor.
  - rewrite (bind_done _ _ _ _ _ (move_run stream sock fd m X _ (not_eq_sym Hne))).
    eexists (Value _), _. split; [done|]. constructor.
Qed.

(** C34.  [TcpStream::connect], over epoll and over io_uring: when it succeeds, the
    stream owns the new descriptor and the calls were [socket], [connect] and, if the
    connection was in progress, a query of [SO_ERROR] that gave no error; when it
    fails, the error is that of the call that failed and the descriptor is closed. *)
Theorem stream_connect_never_leaks sock stream addr strerror flags s :
  owner_inv (ns_owner s) -> sock <> stream ->
  os_fd_ (ns_owner s) !! sock = None -> os_fd_ (ns_owner s) !! stream = None ->
  let domain := if SocketAddr_is_v4 addr then AF_INET else AF_INET6 in
  let connected {A} type (P : Z -> list NetCall -> list NetCall -> Result A -> Prop) r s' :=
    owner_inv (ns_owner s') /\
    ((exists e, r = Unexpected e /\ ns_owner s' = ns_owner s /\
        ns_calls s' = ns_calls s ++ [sys_socket domain type] /\ failed answer s' e) \/
     exists fd, fd <> (-1)%Z /\ P fd (ns_calls s ++ [sys_socket domain type]) (ns_calls s') r /\
       if has_value r then opened s s' stream fd else ns_owner s' = ns_owner s) in
  (exists r s', TcpStream_connect answer sock stream addr strerror flags s = (Done r, s') /\
     connected (Z.lor SOCK_STREAM SOCK_NONBLOCK) (epoll_connected addr flags) r s') /\
  (exists r s', UringStream_connect answer sock stream addr s = (Done r, s') /\
     connected SOCK_STREAM (uring_connected addr) r s').
Proof.
  intros Hinv Hne Hsock Hstream domain connected.
  assert (forall A type (P : Z -> _ -> _ -> Result A -> Prop) r s',
    ((exists e, r = Unexpected e /\ ns_owner s' = ns_owner s /\
        ns_calls s' = ns_calls s ++ [sys_socket domain type] /\ failed answer s' e) \/
     exists fd, fd <> (-1)%Z /\ P fd (ns_calls s ++ [sys_socket domain type]) (ns_calls s') r /\
       if has_value r then opened s s' stream fd else ns_owner s' = ns_owner s) ->
    connected A type P r s') as Hfin.
  { intros A type P r s' Hr. split; [|done].
    destruct Hr as [(e & _ & -> & _)|(fd & Hfd & _ & Hr)]; [done|].
    destruct (has_value r); [by eapply opened_inv|by rewrite Hr]. }
  split.
  - destruct (stream_connect_run sock stream domain (Z.lor SOCK_STREAM SOCK_NONBLOCK) _ _ s Hne Hsock
      (epoll_connect_spec sock stream addr strerror flags Hne)) as (r & s' & Hrun & Hr).
    exists r, s'. split; [|by apply Hfin]. rewrite <- Hrun. unfold TcpStream_connect, domain.
    by destruct (SocketAddr_is_v4 addr).
  - destruct (stream_connect_run sock stream domain SOCK_STREAM _ _ s Hne Hsock
      (uring_connect_spec sock stream addr Hne)) as (r & s' & Hrun & Hr).
    exists r, s'. split; [|by apply Hfin]. rewrite <- Hrun. unfold UringStream_connect, domain.
    by destruct (SocketAddr_is_v4 addr).
Qed.

(** The kernel rejects an IPv6 address shorter than the smallest one it knows. *)
Definition rejects_short_addresses : Prop :=
  forall s fd addr len, SocketAddr_is_v4 addr = false -> (len < 24)%Z ->
    answer s (sys_connect fd addr len) = ((-1)%Z, EINVAL).

(** [TcpStream::connect] to an IPv6 address never succeeds: the length it passes
    is that of [sockaddr], which is shorter than an IPv6 address. *)
Theorem ipv6_connect_fails sock stream addr strerror flags s :
  rejects_short_addresses -> SocketAddr_is_v4 addr = false ->
  sock <> stream -> os_fd_ (ns_owner s) !! sock = None ->
  exists e s', TcpStream_connect answer sock stream addr strerror flags s = (Done (Unexpected e), s').
Proof.
  intros Hrej Hv6 Hne Hsock.
  assert (connect_spec sock stream (TcpSocket_connect answer sock addr stream strerror flags)
    (fun _ _ _ r => r = Unexpected (mkError EINVAL ""))) as Hconn.
  { intros fd m X calls. unfold TcpSocket_connect.
    rewrite (bind_done _ _ _ fd _ (into_c_fd_run _ _ _ (lookup_insert_eq m sock fd))).
    rewrite (bind_done _ _ _ _ _ (sys_run _ _)), (Hrej _ _ _ _ Hv6) by done.
    by eexists (Unexpected _), _. }
  destruct (stream_connect_run sock stream AF_INET6 (Z.lor SOCK_STREAM SOCK_NONBLOCK) _ _ s Hne Hsock
    Hconn) as (r & s' & Hrun & Hr). unfold TcpStream_connect. rewrite Hv6.
  destruct Hr as [(e & -> & _)|(fd & _ & -> & _)]; by eexists _, _.
Qed.
End Sockets.
