(* ===== verification/Accept.v ===== *)
(** A TCP server that accepts connections and spawns a coroutine for each: who owns the
    descriptors.  [TcpListener::accept] of both backends, the loop of
    [Server::init_server] of [examples/http_server.cc]. *)
From stdpp Require Import base gmap list sets strings relations.
From Stdlib Require Import ZArith Lia.
From S2P Require Import Prelude Errors Events Net TcpSocket TcpSocketSpec.

(** The objects of a turn of the server's loop: the [socket] local to [accept], the
    stream in its result, [server_stream], the parameter of [receive_request]. *)
Record TurnObjects : Type := mkTurnObjects {
  to_socket : nat; to_result : nat; to_local : nat; to_param : nat;
}.

Section Server.
Context (answer : NetState -> NetCall -> Z * Z).
Implicit Types (s : NetState).

(** A turn of the loop of [init_server]: [accept] gives the result, its stream is moved
    into [server_stream], into the parameter and into the frame of the coroutine, at
    [frame]; the result of [accept] is dereferenced whatever it is. *)
Definition server_turn (polls : list bool) (lis : nat) (o : TurnObjects) (frame : nat) : M NetState bool :=
  let! r := TcpListener_accept answer polls lis (to_socket o) (to_result o) in
  match r with
  | None => ret false
  | Some result =>
      deref_expected result ;;;
      on_owner (Socket_move_ctor (to_local o) (to_result o)) ;;;
      on_owner (Socket_dtor (to_result o)) ;;;
      on_owner (Socket_move_ctor (to_param o) (to_local o)) ;;;
      on_owner (Socket_move_ctor frame (to_param o)) ;;;
      on_owner (Socket_dtor (to_param o)) ;;;
      on_owner (Socket_dtor (to_local o)) ;;;
      ret true
  end.

(** [receive_request] when the connection ends before a request: the stream is shut down
    and destroyed with the frame of the coroutine; a failed [shutdown] is dereferenced. *)
Definition receive_request_quits (frame : nat) : M NetState unit :=
  let! result := TcpStream_shutdown answer frame ShutAll in
  deref_expected result ;;;
  on_owner (Socket_dtor frame).

(** The end of [receive_request] after a request: the stream is moved into the parameter
    of [execute_request], at [arg], and on into the frame of its coroutine, at [exec]; the
    parameter goes, and the frame of [receive_request] with what is left of the stream. *)
Definition receive_request_spawns (arg exec frame : nat) : M NetState unit :=
  on_owner (Socket_move_ctor arg frame) ;;;
  on_owner (Socket_move_ctor exec arg) ;;;
  on_owner (Socket_dtor arg) ;;;
  on_owner (Socket_dtor frame).

(** The end of [execute_request]: its frame goes, with the stream. *)
Definition execute_request_returns (exec : nat) : M NetState unit := on_owner (Socket_dtor exec).

(** A descriptor that [accept] gives was not open. *)
Definition accept_opens : Prop :=
  (forall s fd flags, (answer s (sys_accept4 fd flags)).1 <> (-1)%Z ->
     (answer s (sys_accept4 fd flags)).1 ∉ os_open (ns_owner s)) /\
  (forall s fd flags, (0 <= (answer s (ring_accept fd flags)).1)%Z ->
     (answer s (ring_accept fd flags)).1 ∉ os_open (ns_owner s)).
Hypothesis Hfresh : accept_opens.

(** ** Ownership *)

Lemma accepted_run {A} (r : A) fd sock stream m X calls :
  m !! sock = None -> m !! stream = None -> sock <> stream -> fd <> (-1)%Z ->
  (open_accepted fd ;;; on_owner (Socket_new sock fd) ;;;
   on_owner (Socket_move_ctor stream sock) ;;; on_owner (Socket_dtor sock) ;;; ret r)
    (mkNetState (mkOwnerState m X) calls) =
    (Done r, mkNetState (mkOwnerState (<[stream := fd]> m) ({[fd]} ∪ X)) calls).
Proof.
  intros Hs Ht Hne Hfd. unfold open_accepted.
  rewrite (bind_done _ _ _ tt (mkNetState (mkOwnerState m ({[fd]} ∪ X)) calls)) by done.
  rewrite (bind_done _ _ _ tt (mkNetState (mkOwnerState (<[sock := fd]> m) ({[fd]} ∪ X)) calls)) by done.
  unfold bind at 1. rewrite move_run by done. unfold bind at 1. rewrite scope_end_moved; [done|].
  by rewrite lookup_insert_ne.
Qed.

(** Why an [accept] over epoll fails. *)
Definition accept_failed (s : NetState) (e : Error) : Prop :=
  (failed answer s e /\ errno_ e <> EAGAIN) \/ e = mkError 1 "epoll state error".

(** [accept] over epoll: the result's stream owns the new descriptor, or nothing was
    opened. *)
Lemma accept_run polls lis sock stream fd s :
  os_fd_ (ns_owner s) !! lis = Some fd ->
  os_fd_ (ns_owner s) !! sock = None -> os_fd_ (ns_owner s) !! stream = None -> sock <> stream ->
  exists r s', TcpListener_accept answer polls lis sock stream s = (Done r, s') /\
    match r with
    | None => ns_owner s' = ns_owner s
    | Some (Value _) => exists fd', fd' <> (-1)%Z /\ opened s s' stream fd'
    | Some (Unexpected e) => ns_owner s' = ns_owner s /\ accept_failed s' e
    end.
Proof.
  intros Hl Hs Ht Hne. revert s Hl Hs Ht. induction polls as [|[] polls IH]; intros s Hl Hs Ht; [by exists None, s| |].
  { eexists (Some (Unexpected _)), s. split; [done|]. split; [done|]. by right. }
  cbn [TcpListener_accept]. rewrite (bind_done _ _ _ _ _ (into_c_fd_run _ _ _ Hl)).
  destruct (sys_cases answer (sys_accept4 fd SOCK_NONBLOCK) s) as [(n & Hr & Hn & Hn1)|(e & Hr & He)];
    cbn zeta in *; rewrite (bind_done _ _ _ _ _ Hr).
  - exists (Some (Value tt)). destruct s as [[m X] calls]. cbn in *.
    eexists. split; [by apply accepted_run|].
    exists n. split; [done|]. split; [|done]. cbn. subst n.
    by apply (proj1 Hfresh (mkNetState (mkOwnerState m X) calls)).
  - destruct (errno_ e =? EAGAIN)%Z eqn:Ee.
    + destruct (IH (mkNetState (ns_owner s) (ns_calls s ++ [sys_accept4 fd SOCK_NONBLOCK])) Hl Hs Ht)
        as (r & s' & Hrun & Hr'). exists r, s'. split; [done|]. destruct r as [[|]|]; done.
    + exists (Some (Unexpected e)). eexists. split; [done|]. split; [done|].
      left. split; [done|]. by apply Z.eqb_neq in Ee.
Qed.

(** [accept] over io_uring. *)
Lemma uring_accept_run lis sock stream fd s :
  os_fd_ (ns_owner s) !! lis = Some fd ->
  os_fd_ (ns_owner s) !! sock = None -> os_fd_ (ns_owner s) !! stream = None -> sock <> stream ->
  exists r s', UringListener_accept answer lis sock stream s = (Done r, s') /\
    match r with
    | Value _ => exists fd', (0 <= fd')%Z /\ opened s s' stream fd'
    | Unexpected e => ns_owner s' = ns_owner s /\ (0 < errno_ e)%Z
    end.
Proof.
  intros Hl Hs Ht Hne. unfold UringListener_accept. rewrite (bind_done _ _ _ _ _ (into_c_fd_run _ _ _ Hl)).
  rewrite (bind_done _ _ _ _ _ (syscall_run _ _ _)). set (n := (answer s (ring_accept fd 0)).1).
  destruct (Z.ltb_spec n 0) as [Hlt|Hge].
  - exists (Unexpected (mkError (- n) "")). eexists. split; [done|]. cbn. split; [done|lia].
  - exists (Value tt). destruct s as [[m X] calls]. cbn in *.
    eexists. split; [apply accepted_run; try done; lia|].
    exists n. split; [done|]. split; [|done]. cbn.
    by apply (proj2 Hfresh (mkNetState (mkOwnerState m X) calls)).
Qed.

Definition turn_objects (o : TurnObjects) : list nat :=
  [to_socket o; to_result o; to_local o; to_param o].

(** The moves of a turn give the descriptor to the frame of the coroutine. *)
Lemma hand_over_run (o : TurnObjects) frame fd m X calls :
  NoDup (frame :: turn_objects o) -> Forall (fun x => m !! x = None) (frame :: turn_objects o) ->
  (on_owner (Socket_move_ctor (to_local o) (to_result o)) ;;;
   on_owner (Socket_dtor (to_result o)) ;;;
   on_owner (Socket_move_ctor (to_param o) (to_local o)) ;;;
   on_owner (Socket_move_ctor frame (to_param o)) ;;;
   on_owner (Socket_dtor (to_param o)) ;;;
   on_owner (Socket_dtor (to_local o)) ;;;
   ret true) (mkNetState (mkOwnerState (<[to_result o := fd]> m) X) calls) =
    (Done true, mkNetState (mkOwnerState (<[frame := fd]> m) X) calls).
Proof.
  unfold turn_objects. destruct o as [sock res loc par]. cbn. intros Hnd Hnone.
  rewrite !NoDup_cons in Hnd. destruct Hnd as (Hf & Hs & Hr & Hl & _).
  rewrite !Forall_cons in Hnone. destruct Hnone as (Nf & Ns & Nr & Nl & Np & _).
  assert (frame <> res /\ frame <> loc /\ frame <> par /\ res <> loc /\ res <> par /\ loc <> par)
    as (?&?&?&?&?&?) by set_solver.
  unfold bind at 1. rewrite move_run by done.
  unfold bind at 1. rewrite scope_end_moved by (by rewrite lookup_insert_ne).
  unfold bind at 1. rewrite move_run by done. rewrite (insert_insert_ne m loc par) by done.
  unfold bind at 1. rewrite move_run by (by rewrite ?lookup_insert_ne).
  unfold bind at 1. rewrite scope_end_moved by (by rewrite !lookup_insert_ne).
  rewrite (insert_insert_ne m frame loc) by done.
  unfold bind at 1. rewrite scope_end_moved by (by rewrite lookup_insert_ne). done.
Qed.

Lemma server_turn_run polls lis o frame fd s :
  NoDup (frame :: turn_objects o) ->
  Forall (fun x => os_fd_ (ns_owner s) !! x = None) (frame :: turn_objects o) ->
  os_fd_ (ns_owner s) !! lis = Some fd ->
  exists s',
    (server_turn polls lis o frame s = (Done true, s') /\
       exists fd', fd' <> (-1)%Z /\ opened s s' frame fd') \/
    (server_turn polls lis o frame s = (Done false, s') /\ ns_owner s' = ns_owner s) \/
    (server_turn polls lis o frame s = (Undef, s') /\
       exists e, accept_failed s' e).
Proof.
  intros Hnd Hnone Hl. pose proof Hnone as Hnone'.
  unfold turn_objects in Hnone'. rewrite !Forall_cons in Hnone'. destruct Hnone' as (_ & Ns & Nr & _).
  assert (to_socket o <> to_result o) as Hne by (unfold turn_objects in Hnd; rewrite !NoDup_cons in Hnd; set_solver).
  destruct (accept_run polls lis (to_socket o) (to_result o) fd s Hl Ns Nr Hne) as (r & s1 & Hrun & Hr).
  unfold server_turn. rewrite (bind_done _ _ _ _ _ Hrun). destruct r as [[[]|e]|].
  - destruct Hr as (fd' & Hfd & Hop & Ho). destruct s1 as [own calls]. cbn in Ho. subst own.
    eexists. left. split.
    + rewrite (bind_done _ _ _ tt (mkNetState (mkOwnerState (<[to_result o := fd']> (os_fd_ (ns_owner s)))
        ({[fd']} ∪ os_open (ns_owner s))) calls)) by done. by apply hand_over_run.
    + by exists fd'.
  - exists s1. right. right. destruct Hr as (_ & Hf). split; [done|by exists e].
  - exists s1. right. by left.
Qed.

(** ** The server *)

(** The state of the kernel and the objects, and the frames of the coroutines of
    [receive_request] and of [execute_request] that run. *)
Record ServerState : Type := mkServerState {
  ss_net : NetState; ss_receiving : list nat; ss_executing : list nat;
}.
Definition ss_live (s : ServerState) : list nat := ss_receiving s ++ ss_executing s.

Variables (lis : nat) (o : TurnObjects).
Hypothesis Hnames : NoDup (lis :: turn_objects o).

(** An object that is none of the server's. *)
Definition unused (net : NetState) (x : nat) : Prop := os_fd_ (ns_owner net) !! x = None.

Inductive server_step : ServerState -> ServerState -> Prop :=
  | serve polls frame net net' recv exec :
      frame ∉ turn_objects o -> unused net frame ->
      server_turn polls lis o frame net = (Done true, net') ->
      server_step (mkServerState net recv exec) (mkServerState net' (frame :: recv) exec)
  | keep_waiting polls frame net net' recv exec :
      frame ∉ turn_objects o -> unused net frame ->
      server_turn polls lis o frame net = (Done false, net') ->
      server_step (mkServerState net recv exec) (mkServerState net' recv exec)
  | quit frame net net' recv1 recv2 exec :
      receive_request_quits frame net = (Done tt, net') ->
      server_step (mkServerState net (recv1 ++ frame :: recv2) exec) (mkServerState net' (recv1 ++ recv2) exec)
  | spawn_execute arg frame' frame net net' recv1 recv2 exec :
      frame' ∉ turn_objects o -> unused net frame' -> unused net arg -> arg <> frame' ->
      receive_request_spawns arg frame' frame net = (Done tt, net') ->
      server_step (mkServerState net (recv1 ++ frame :: recv2) exec)
        (mkServerState net' (recv1 ++ recv2) (frame' :: exec))
  | finish frame net net' recv exec1 exec2 :
      execute_request_returns frame net = (Done tt, net') ->
      server_step (mkServerState net recv (exec1 ++ frame :: exec2)) (mkServerState net' recv (exec1 ++ exec2)).

(** The server has its listener and no session. *)
Definition server_start (fd : Z) : ServerState :=
  mkServerState (mkNetState (mkOwnerState {[lis := fd]} {[fd]}) []) [] [].
Definition server_reachable (fd : Z) (s : ServerState) : Prop := rtc server_step (server_start fd) s.

Record server_inv (s : ServerState) : Prop := {
  si_owner : owner_inv (ns_owner (ss_net s));
  si_nodup : NoDup (lis :: ss_live s);
  si_owned : forall x fd, os_fd_ (ns_owner (ss_net s)) !! x = Some fd -> fd <> (-1)%Z;
  si_objects : forall x, is_Some (os_fd_ (ns_owner (ss_net s)) !! x) <-> x ∈ lis :: ss_live s;
  si_names : forall x, x ∈ ss_live s -> x ∉ turn_objects o;
}.

Lemma live_owned (s : ServerState) x :
  server_inv s -> x ∈ ss_live s -> is_Some (os_fd_ (ns_owner (ss_net s)) !! x).
Proof. intros Hinv Hx. apply (si_objects s Hinv). by right. Qed.

Lemma server_inv_start fd : fd <> (-1)%Z -> server_inv (server_start fd).
Proof.
  intros Hfd. constructor; cbn.
  - split; cbn.
    + by intros o1 o2 x [<- _]%lookup_singleton_Some [<- _]%lookup_singleton_Some _.
    + intros x. rewrite elem_of_singleton. split.
      * intros ->. split; [done|]. exists lis. apply lookup_singleton_eq.
      * by intros [_ (y & [_ ->]%lookup_singleton_Some)].
  - apply NoDup_singleton.
  - by intros x y [_ <-]%lookup_singleton_Some.
  - intros x. rewrite lookup_singleton_is_Some, list_elem_of_singleton. naive_solver.
  - by intros x ?%not_elem_of_nil.
Qed.

Lemma server_turn_ready (s : ServerState) frame :
  server_inv s -> frame ∉ turn_objects o -> unused (ss_net s) frame ->
  NoDup (frame :: turn_objects o) /\
  Forall (fun x => os_fd_ (ns_owner (ss_net s)) !! x = None) (frame :: turn_objects o) /\
  exists fd, os_fd_ (ns_owner (ss_net s)) !! lis = Some fd.
Proof.
  intros [_ _ _ Hobj Hn] Hf Hnone. cbn in Hobj, Hn. apply NoDup_cons in Hnames as [Hlis Hto].
  split_and!; [by apply NoDup_cons| |].
  - apply Forall_cons. split; [done|]. apply Forall_forall. intros x Hx.
    apply eq_None_not_Some. rewrite Hobj. intros [->|Hin]%elem_of_cons; [done|]. by apply (Hn x Hin).
  - apply Hobj. by left.
Qed.

(** The end of the object [x]: the others stay, its descriptor is closed. *)
Lemma server_inv_close net recv exec x fd recv' exec' calls :
  server_inv (mkServerState net recv exec) -> os_fd_ (ns_owner net) !! x = Some fd ->
  recv ++ exec ≡ₚ x :: recv' ++ exec' ->
  server_inv (mkServerState (mkNetState (mkOwnerState (delete x (os_fd_ (ns_owner net)))
    (os_open (ns_owner net) ∖ {[fd]})) calls) recv' exec').
Proof.
  intros [Ho Hnl Hown Hobj Hn] Hfd Hp. unfold ss_live in *. cbn in *. rewrite Hp in Hnl.
  rewrite !NoDup_cons, not_elem_of_cons in Hnl. destruct Hnl as ([Hlx Hlr] & Hx & Hnd).
  constructor; cbn.
  - by apply (owner_inv_dtor _ x fd).
  - by apply NoDup_cons.
  - intros y z [_ Hy]%lookup_delete_Some. by eapply Hown.
  - intros y. rewrite lookup_delete_is_Some, Hobj, !elem_of_cons, Hp, elem_of_cons. naive_solver.
  - intros y Hy. apply Hn. rewrite Hp. by right.
Qed.

(** The stream moves to another frame. *)
Lemma spawns_run arg exec frame fd m X calls :
  m !! frame = Some fd -> m !! arg = None -> m !! exec = None -> arg <> exec ->
  receive_request_spawns arg exec frame (mkNetState (mkOwnerState m X) calls) =
    (Done tt, mkNetState (mkOwnerState (<[exec := fd]> (delete frame m)) X) calls).
Proof.
  intros Hf Ha He Hne. assert (arg <> frame /\ exec <> frame) as [Haf Hef] by (split; intros ->; congruence).
  rewrite <- (insert_delete_id m frame fd Hf) at 1. set (m0 := delete frame m).
  assert (m0 !! arg = None /\ m0 !! exec = None /\ m0 !! frame = None) as (Ha0 & He0 & Hf0).
  { unfold m0. rewrite !lookup_delete_ne, lookup_delete_eq by done. done. }
  unfold receive_request_spawns, bind at 1. rewrite move_run by done.
  rewrite insert_insert_ne by done. unfold bind at 1. rewrite move_run by done.
  unfold bind at 1. rewrite scope_end_moved by (by rewrite !lookup_insert_ne).
  rewrite insert_insert_ne by done. rewrite scope_end_moved by (by rewrite lookup_insert_ne). done.
Qed.

Lemma server_inv_spawn net recv1 recv2 exec frame frame' fd calls :
  server_inv (mkServerState net (recv1 ++ frame :: recv2) exec) -> frame' ∉ turn_objects o ->
  unused net frame' -> os_fd_ (ns_owner net) !! frame = Some fd ->
  server_inv (mkServerState (mkNetState (mkOwnerState (<[frame' := fd]> (delete frame (os_fd_ (ns_owner net))))
    (os_open (ns_owner net))) calls) (recv1 ++ recv2) (frame' :: exec)).
Proof.
  intros [[Huniq Hopen] Hnl Hown Hobj Hn] Ht Hu Hfd. unfold ss_live, unused in *. cbn in *.
  assert (frame' ∉ lis :: (recv1 ++ frame :: recv2) ++ exec) as Hnew by (rewrite <- Hobj, Hu; by intros [? ?]).
  assert ((recv1 ++ frame :: recv2) ++ exec ≡ₚ frame :: (recv1 ++ recv2) ++ exec) as Hp by solve_Permutation.
  assert ((recv1 ++ recv2) ++ frame' :: exec ≡ₚ frame' :: (recv1 ++ recv2) ++ exec) as Hp' by solve_Permutation.
  rewrite Hp in Hnl, Hnew. rewrite !NoDup_cons, not_elem_of_cons in Hnl. rewrite !not_elem_of_cons in Hnew.
  destruct Hnl as ([Hlf Hlr] & Hfr & Hnd). destruct Hnew as (Hnl & Hnf & Hnr).
  assert (forall y z, <[frame' := fd]> (delete frame (os_fd_ (ns_owner net))) !! y = Some z ->
    exists y', os_fd_ (ns_owner net) !! y' = Some z /\ (y = frame' /\ y' = frame \/ y = y' /\ y <> frame)) as Hback.
  { intros y z [[<- <-]|[? [? Hy]%lookup_delete_Some]]%lookup_insert_Some; [by exists frame; auto|].
    exists y. split; [done|]. right. by split; [|apply not_eq_sym]. }
  constructor; cbn.
  - split; cbn.
    + intros y1 y2 z (y1' & H1 & E1)%Hback (y2' & H2 & E2)%Hback Hz.
      assert (y1' = y2') by (by eapply Huniq). subst y2'.
      destruct E1 as [[-> ->]|[-> ?]], E2 as [[-> ?]|[-> ?]]; congruence.
    + intros z. rewrite Hopen. split; intros [Hz (y & Hy)]; (split; [done|]).
      * destruct (decide (y = frame)) as [->|].
        -- exists frame'. rewrite lookup_insert_eq. congruence.
        -- exists y. rewrite lookup_insert_ne by congruence. by rewrite lookup_delete_ne.
      * apply Hback in Hy as (y' & Hy & _). by exists y'.
  - rewrite Hp', !NoDup_cons, not_elem_of_cons. done.
  - intros y z (y' & Hy & _)%Hback. by eapply Hown.
  - intros y. rewrite lookup_insert_is_Some, lookup_delete_is_Some, Hobj, !elem_of_cons, Hp, Hp', !elem_of_cons.
    split; [naive_solver|]. intros [->|[->|Hy]]; [right|by left|right]; (split; [congruence|]); (split; [congruence|]); tauto.
  - intros y. rewrite Hp', elem_of_cons. intros [->|Hy]; [done|]. apply Hn. rewrite Hp. by right.
Qed.

Lemma shutdown_quits frame fd net :
  owner_inv (ns_owner net) -> os_fd_ (ns_owner net) !! frame = Some fd ->
  exists s', (receive_request_quits frame net = (Done tt, s') /\
      ns_owner s' = mkOwnerState (delete frame (os_fd_ (ns_owner net))) (os_open (ns_owner net) ∖ {[fd]})) \/
    (receive_request_quits frame net = (Undef, s') /\ exists e, failed answer s' e).
Proof.
  intros Ho Hfd. unfold receive_request_quits, TcpStream_shutdown.
  destruct (sys_cases answer (sys_shutdown fd (Shutdown_underlying ShutAll)) net) as [(n & Hr & _)|(e & Hr & He)];
    cbn zeta in *; eexists.
  - left. mred. rewrite (into_c_fd_run _ _ _ Hfd), Hr. cbn. unfold on_owner, zoom. cbn [ns_owner].
    rewrite (owner_dtor_run _ _ fd Ho Hfd). done.
  - right. mred. rewrite (into_c_fd_run _ _ _ Hfd), Hr. cbn. split; [done|]. by exists e.
Qed.

Lemma server_inv_step (s s' : ServerState) : server_inv s -> server_step s s' -> server_inv s'.
Proof.
  intros Hinv Hst. destruct Hst as [polls frame net net' recv exec Hf Hnone Hrun
    |polls frame net net' recv exec Hf Hnone Hrun|frame net net' recv1 recv2 exec Hrun
    |arg frame' frame net net' recv1 recv2 exec Hf Hnone Harg Hne Hrun|frame net net' recv exec1 exec2 Hrun].
  - destruct (server_turn_ready _ frame Hinv Hf Hnone) as (Hnd & Hall & fd & Hl).
    destruct (server_turn_run polls lis o frame fd net Hnd Hall Hl) as (s1 & [[E (fd' & Hne & Hop)]|[[E _]|[E _]]]);
      rewrite E in Hrun; simplify_eq. destruct Hinv as [Ho Hnl Hown Hobj Hn]. unfold ss_live, unused in *. cbn in *.
    assert (frame ∉ lis :: recv ++ exec) as Hfr by (rewrite <- Hobj, Hnone; by intros [? ?]).
    constructor; cbn.
    + by eapply (opened_inv net).
    + apply NoDup_cons in Hnl as [? ?]. rewrite !NoDup_cons. set_solver.
    + destruct Hop as [_ ->]. cbn. intros x y [[_ <-]|[_ Hx]]%lookup_insert_Some; [done|by eapply Hown].
    + destruct Hop as [_ ->]. cbn. intros x. rewrite lookup_insert_is_Some, Hobj. set_solver.
    + intros x [->|Hx]%elem_of_cons; [done|by apply Hn].
  - destruct (server_turn_ready _ frame Hinv Hf Hnone) as (Hnd & Hall & fd & Hl).
    destruct (server_turn_run polls lis o frame fd net Hnd Hall Hl) as (s1 & [[E _]|[[E Hsame]|[E _]]]);
      rewrite E in Hrun; simplify_eq. destruct Hinv as [Ho Hnl Hown Hobj Hn]. cbn in *.
    constructor; cbn; rewrite ?Hsame; done.
  - destruct (live_owned _ frame Hinv) as [fd Hfd]; [unfold ss_live; cbn; set_solver|]. cbn in Hfd.
    destruct (shutdown_quits frame fd net (si_owner _ Hinv) Hfd) as (s1 & [[E Hs]|[E _]]);
      rewrite E in Hrun; simplify_eq. destruct net' as [own calls]. cbn in Hs. subst own.
    eapply (server_inv_close net _ _ frame fd); [done|done|by solve_Permutation].
  - destruct (live_owned _ frame Hinv) as [fd Hfd]; [unfold ss_live; cbn; set_solver|]. cbn in Hfd.
    destruct net as [[m X] calls]. rewrite (spawns_run arg frame' frame fd) in Hrun by done.
    injection Hrun as <-. by apply (server_inv_spawn (mkNetState (mkOwnerState m X) calls)).
  - destruct (live_owned _ frame Hinv) as [fd Hfd]; [unfold ss_live; cbn; set_solver|]. cbn in Hfd.
    unfold execute_request_returns, on_owner, zoom in Hrun.
    rewrite (owner_dtor_run (ns_owner net) _ fd (si_owner _ Hinv) Hfd) in Hrun. injection Hrun as <-.
    eapply (server_inv_close net _ _ frame fd); [done|done|by solve_Permutation].
Qed.

(** C35.  The server's loop and its sessions leak no connection: however connections come,
    wait and end, an open descriptor of a socket is the listener's or belongs to exactly
    one coroutine, of [receive_request] or of [execute_request].  [receive_request] ends by
    shutting the stream down and closing its descriptor, or by handing it, open, to
    [execute_request], whose end closes it; each closes no other.  A turn of the loop serves
    the next connection or goes on waiting, unless [accept4] fails with an error other than
    [EAGAIN] or the event has the flag [Error]: that result the loop dereferences, as
    [receive_request] does with a failed [shutdown].  The descriptors of files and of the
    registries and coroutines that end by an exception are left out. *)
Theorem server_leaks_nothing fd (s : ServerState)
    (Hfd : fd <> (-1)%Z) (Hs : server_reachable fd s) :
  let net := ns_owner (ss_net s) in
  NoDup (lis :: ss_live s) /\
  (forall x, x ∈ os_open net <-> exists y, y ∈ lis :: ss_live s /\ os_fd_ net !! y = Some x) /\
  (forall x y1 y2, os_fd_ net !! y1 = Some x -> os_fd_ net !! y2 = Some x -> y1 = y2) /\
  (forall frame, frame ∈ ss_receiving s -> exists x, os_fd_ net !! frame = Some x /\
     (exists s', (receive_request_quits frame (ss_net s) = (Done tt, s') /\
          os_open (ns_owner s') = os_open net ∖ {[x]}) \/
        (receive_request_quits frame (ss_net s) = (Undef, s') /\ exists e, failed answer s' e)) /\
     (forall arg exec, unused (ss_net s) arg -> unused (ss_net s) exec -> arg <> exec -> exists s',
        receive_request_spawns arg exec frame (ss_net s) = (Done tt, s') /\
        os_open (ns_owner s') = os_open net /\ os_fd_ (ns_owner s') !! exec = Some x /\
        os_fd_ (ns_owner s') !! frame = None)) /\
  (forall exec, exec ∈ ss_executing s -> exists x s', os_fd_ net !! exec = Some x /\
     execute_request_returns exec (ss_net s) = (Done tt, s') /\ os_open (ns_owner s') = os_open net ∖ {[x]}) /\
  (forall polls frame, frame ∉ turn_objects o -> unused (ss_net s) frame -> exists s',
     server_turn polls lis o frame (ss_net s) = (Done true, s') \/
     server_turn polls lis o frame (ss_net s) = (Done false, s') \/
     (server_turn polls lis o frame (ss_net s) = (Undef, s') /\ exists e, accept_failed s' e)).
Proof.
  assert (server_inv s) as Hinv
    by (eapply rtc_invariant; [exact server_inv_step|by apply server_inv_start|exact Hs]).
  pose proof Hinv as [[Huniq Hopen] Hnd Hown Hobj Hn]. intros net. split_and!.
  - done.
  - intros x. unfold net. rewrite Hopen. split.
    + intros [_ (y & Hy)]. exists y. split; [|done]. apply Hobj. by eexists.
    + intros (y & _ & Hy). split; [by eapply Hown|by eexists].
  - intros x y1 y2 H1 H2. eapply Huniq; [done..|]. by eapply Hown.
  - intros frame Hf. destruct (live_owned s frame Hinv) as [x Hx]; [unfold ss_live; set_solver|].
    exists x. split_and!; [done| |].
    + destruct (shutdown_quits frame x _ (si_owner s Hinv) Hx) as (s' & [[E Ho]|E]); exists s'; [left|by right].
      split; [done|]. by rewrite Ho.
    + intros arg exec Ha He Hne. unfold unused, net in *. destruct (ss_net s) as [[m X] calls]. cbn in *.
      rewrite (spawns_run arg exec frame x) by done. eexists. split; [done|]. cbn.
      rewrite lookup_insert_eq, lookup_insert_ne, lookup_delete_eq by congruence. done.
  - intros exec He. destruct (live_owned s exec Hinv) as [x Hx]; [unfold ss_live; set_solver|].
    exists x. eexists. split; [done|]. unfold execute_request_returns, on_owner, zoom.
    by rewrite (owner_dtor_run _ _ x (si_owner s Hinv) Hx).
  - intros polls frame Hf Hnone.
    destruct (server_turn_ready s frame Hinv Hf Hnone) as (Hnd' & Hall & fd0 & Hl).
    destruct (server_turn_run polls lis o frame fd0 _ Hnd' Hall Hl) as (s1 & H). exists s1. naive_solver.
Qed.
End Server.
