(* ===== verification/Apps.v ===== *)
(** The programs on top of the library: [Server::init_server] of
    [examples/http_server.cc] and [src/main.cc]. *)
From stdpp Require Import base gmap list sets strings.
From Stdlib Require Import ZArith Lia.
From S2P Require Import Prelude Errors Events BufferIO Net TcpSocket TcpSocketSpec.

(** ** The HTTP server *)

Definition LISTEN_BACKLOG : Z := 5000.

Section Servers.
Context (answer : NetState -> NetCall -> Z * Z) `{InetText}.

(** [*result]. *)
Definition unwrap {S A} (m : M S (Result A)) : M S A := let! r := m in deref_expected r.

(** [init_server] up to its loop: [sock] is [tcp_socket], [lis] the listener. *)
Definition init_server_listen (sock lis : nat) (port : Z) : M NetState unit :=
  unwrap (TcpSocket_new_v4 answer sock) ;;;
  unwrap (TcpSocket_set_reuseaddr answer sock true) ;;;
  unwrap (TcpSocket_bind answer sock (SocketAddr_new_v4 (Ipv4Addr_new None) port)) ;;;
  unwrap (TcpSocket_listen answer sock LISTEN_BACKLOG lis).

(** The loop of [init_server], run on the connections that are accepted: each one is
    spawned.  The loop does not end; it waits for the next connection. *)
Fixpoint init_server_loop {T} (accepts : list (Result (T * SocketAddr))) : M (list T) unit :=
  match accepts with
  | [] => ret tt
  | accepted :: accepts =>
      let! p := deref_expected accepted in
      modify (fun spawned => spawned ++ [p.1]) ;;;
      init_server_loop accepts
  end.

(** ** [main.cc] *)

Definition SERVER_IP : string := "127.0.0.1".
Definition SERVER_PORT : Z := 8080.

(** [start_server] up to its loop; [false] when [bind] fails and the coroutine
    returns. *)
Definition start_server_listen (sock lis : nat) : M NetState bool :=
  unwrap (TcpSocket_new_v4 answer sock) ;;;
  unwrap (TcpSocket_set_reuseaddr answer sock true) ;;;
  let! bind_result :=
    TcpSocket_bind answer sock (SocketAddr_new_v4 (Ipv4Addr_new None) SERVER_PORT) in
  if negb (has_value bind_result) then ret false
  else unwrap (TcpSocket_listen answer sock 3 lis) ;;; ret true.

(** Dereferencing a result that may be an error. *)
Lemma unwrap_value {S A} (m : M S (Result A)) s a s' :
  m s = (Done (Value a), s') -> unwrap m s = (Done a, s').
Proof. intros Hm. unfold unwrap. by rewrite (bind_done _ _ _ _ _ Hm). Qed.

Lemma unwrap_error {S A} (m : M S (Result A)) s e s' :
  m s = (Done (Unexpected e), s') -> unwrap m s = (Undef, s').
Proof. intros Hm. unfold unwrap. by rewrite (bind_done _ _ _ _ _ Hm). Qed.

Lemma reuseaddr_run o fd b s :
  os_fd_ (ns_owner s) !! o = Some fd ->
  let s' := mkNetState (ns_owner s)
    (ns_calls s ++ [sys_setsockopt fd SOL_SOCKET SO_REUSEADDR (Z.b2z b)]) in
  TcpSocket_set_reuseaddr answer o b s = (Done (Value tt), s') \/
  (exists e, TcpSocket_set_reuseaddr answer o b s = (Done (Unexpected e), s') /\
     failed answer s' e).
Proof.
  intros Ho. unfold TcpSocket_set_reuseaddr.
  rewrite (bind_done _ _ _ _ _ (into_c_fd_run _ _ _ Ho)).
  destruct (sys_cases answer (sys_setsockopt fd SOL_SOCKET SO_REUSEADDR (Z.b2z b)) s)
    as [(n & Hr & _)|(e & Hr & He)];
    cbn zeta; rewrite (bind_done _ _ _ _ _ Hr); [by left|right; by exists e].
Qed.

(** The HTTP server starts listening on its port with one descriptor, address
    reuse set and a backlog of 5000, or it runs into undefined behaviour: an error of
    any of the four calls is dereferenced. *)
Theorem server_startup sock lis port s :
  fresh_descriptors answer -> sock <> lis ->
  os_fd_ (ns_owner s) !! sock = None -> os_fd_ (ns_owner s) !! lis = None ->
  let addr := SocketAddr_new_v4 (htonl INADDR_ANY) port in
  (exists fd s', init_server_listen sock lis port s = (Done tt, s') /\
     fd ∉ os_open (ns_owner s) /\
     ns_owner s' = mkOwnerState (<[lis := fd]> (<[sock := (-1)%Z]> (os_fd_ (ns_owner s))))
                     ({[fd]} ∪ os_open (ns_owner s)) /\
     ns_calls s' = ns_calls s ++
       [sys_socket AF_INET (Z.lor SOCK_STREAM SOCK_NONBLOCK);
        sys_setsockopt fd SOL_SOCKET SO_REUSEADDR 1; sys_bind fd addr sizeof_sockaddr;
        sys_listen fd 5000]) \/
  (exists e s', init_server_listen sock lis port s = (Undef, s') /\ failed answer s' e).
Proof.
  intros Hfresh Hne Hsock Hlis addr. unfold init_server_listen, TcpSocket_new_v4.
  destruct (new_socket_run answer Hfresh sock AF_INET (Z.lor SOCK_STREAM SOCK_NONBLOCK) s)
    as [(fd & Hr & Hfd & Hnew)|(e & Hr & He)].
  2:{ right. exists e. eexists. split; [exact (bind_undef _ _ _ _ (unwrap_error _ _ _ _ Hr))|done]. }
  rewrite (bind_done _ _ _ _ _ (unwrap_value _ _ _ _ Hr)). set (s1 := mkNetState _ _).
  assert (forall c, os_fd_ (ns_owner (mkNetState (ns_owner s1) c)) !! sock = Some fd) as Hfdo.
  { intros c. cbn. apply lookup_insert_eq. }
  destruct (reuseaddr_run sock fd true s1 (Hfdo [])) as [Hr1|(e & Hr1 & He)].
  2:{ right. exists e. eexists. split; [exact (bind_undef _ _ _ _ (unwrap_error _ _ _ _ Hr1))|done]. }
  rewrite (bind_done _ _ _ _ _ (unwrap_value _ _ _ _ Hr1)). fold addr.
  destruct (bind_run answer sock fd addr _ (Hfdo (ns_calls s1 ++ [sys_setsockopt fd SOL_SOCKET SO_REUSEADDR 1])))
    as [Hr2|(e & Hr2 & He)].
  2:{ right. exists e. eexists. split; [exact (bind_undef _ _ _ _ (unwrap_error _ _ _ _ Hr2))|done]. }
  rewrite (bind_done _ _ _ _ _ (unwrap_value _ _ _ _ Hr2)). cbn [ns_owner ns_calls].
  match goal with |- context [mkNetState (ns_owner s1) ?c] =>
    destruct (listen_run answer sock lis fd LISTEN_BACKLOG _ (Hfdo c)) as [Hr3|(e & Hr3 & He)] end.
  - left. eexists fd, _. split; [by apply unwrap_value|]. cbn. split_and!; [done| |by rewrite <- !(assoc (++))].
    f_equal. rewrite (insert_insert_ne _ lis sock) by done. rewrite insert_insert_eq.
    by rewrite insert_insert_ne.
  - right. exists e. eexists. split; [by apply (unwrap_error _ _ _ _ Hr3)|done].
Qed.
End Servers.

Definition greeting : list Z := [97; 98; 99]%Z.

(** The loop of [start_server]: every connection is sent the greeting, in one write. *)
Fixpoint start_server_loop {C} `{Writable C} (accepts : list (Result (C * SocketAddr)))
    : M (list C) unit :=
  match accepts with
  | [] => ret tt
  | accepted :: accepts =>
      let! p := deref_expected accepted in
      let '(r, connection) := writer_write greeting p.1 in
      match r with
      | Done result =>
          deref_expected result ;;;
          modify (fun served => served ++ [connection]) ;;;
          start_server_loop accepts
      | Thrown e => throw e
      | Undef => undef
      end
  end.

Section Client.
Context {C : Type} `{Readable C}.
(** The results of the attempts to connect and the readings of the system clock, in
    microseconds: the first one is [start]. *)
Context (attempt : nat -> Result C) (now : nat -> Z).

Definition max_buf_size : nat := 10.
Definition seconds (n : Z) : Z := (n * 1000000)%Z.

(** The loop of [start_client], after [i] turns with the last result [r]; it sleeps
    for a second in each turn. *)
Fixpoint connect_loop (fuel : nat) (i : nat) (r : Result C) : option (nat * Result C) :=
  match fuel with
  | O => None
  | S fuel =>
      if negb (has_value r) && (now (S i) - now 0%nat <=? seconds 2)%Z
      then connect_loop fuel (S i) (attempt (S i)) else Some (i, r)
  end.

(** [start_client]: what it has read into its buffer of ten zeros. *)
Definition start_client (fuel : nat) : option (outcome (list Z)) :=
  '(_, connect_result) ← connect_loop fuel 0 (attempt 0);
  match connect_result with
  | Unexpected _ => Some Undef
  | Value connection =>
      Some (fst ((let! r := reader_read max_buf_size in
                  let! bytes := deref_expected r in
                  ret (bytes ++ replicate (max_buf_size - length bytes) 0%Z)) connection))
  end.

(** [sleep_for] sleeps for a second at least and the clock does not go back. *)
Definition clock_runs : Prop :=
  (now 0 <= now 1)%Z /\ forall i, 1 <= i -> (now i + seconds 1 <= now (S i))%Z.

Lemma clock_after i : clock_runs -> (now 0%nat + seconds (Z.of_nat i) <= now (S i))%Z.
Proof.
  intros [H1 Hstep]. induction i as [|i IH]; [unfold seconds; lia|].
  specialize (Hstep (S i) ltac:(lia)). unfold seconds in *. lia.
Qed.

Lemma connect_loop_stops fuel i :
  clock_runs -> i <= 3 -> 4 <= fuel + i ->
  exists i', connect_loop fuel i (attempt i) = Some (i', attempt i') /\ i <= i' <= 3 /\
    (forall k, i <= k < i' -> has_value (attempt k) = false).
Proof.
  intros Hc. revert i. induction fuel as [|fuel IH]; intros i Hi Hf; [lia|]. cbn.
  destruct (has_value (attempt i)) eqn:Hr; cbn [negb andb].
  { exists i. split_and!; [done|lia|lia|lia]. }
  pose proof (clock_after i Hc). destruct (Z.leb_spec (now (S i) - now 0) (seconds 2)) as [Hle|Hgt].
  2:{ exists i. split_and!; [done|lia|lia|lia]. }
  unfold seconds in *. destruct (IH (S i)) as (i' & -> & Hi' & Hk); [lia|lia|].
  exists i'. split_and!; [done|lia|lia|]. intros k Hik.
  destruct (decide (k = i)) as [->|]; [done|]. apply Hk. lia.
Qed.

(** The client of [main.cc] tries to connect four times at most, and it
    returns.  It uses the connection of the first attempt that succeeds; if every
    attempt fails, it dereferences the error. *)
Theorem client_terminates :
  clock_runs -> exists i, i <= 3 /\
    connect_loop 4 0 (attempt 0) = Some (i, attempt i) /\
    (forall k, k < i -> has_value (attempt k) = false) /\
    start_client 4 = Some (match attempt i with
                           | Unexpected _ => Undef
                           | Value c => fst (bind (reader_read max_buf_size) (fun r =>
                               let! bytes := deref_expected r in
                               ret (bytes ++ replicate (max_buf_size - length bytes) 0%Z)) c)
                           end) /\
    ((forall k, k <= 3 -> has_value (attempt k) = false) -> start_client 4 = Some Undef).
Proof.
  intros Hc. destruct (connect_loop_stops 4 0 Hc) as (i & Hrun & Hi & Hk); [lia|lia|].
  exists i. unfold start_client. rewrite Hrun. cbn [mbind option_bind].
  split_and!; [lia|done|intros k ?; apply Hk; lia|by destruct (attempt i)|].
  intros Hall. specialize (Hall i ltac:(lia)). by destruct (attempt i).
Qed.
End Client.
