(* ===== verification/Mains.v ===== *)
(** The two programs: [main] of [src/main.cc] and [main] and [Server] of
    [examples/http_server.cc].  A runtime of theirs has registries of two classes. *)
From stdpp Require Import base gmap list sets.
From Stdlib Require Import ZArith Lia.
From S2P Require Import Prelude Errors Events Futures Core Driver DriverSpec Worker Build BlockOn BlockOnSpec Blocking Epoll Tcp.

(** The registries of the programs, over epoll. *)
Definition ProgramRegistry : Type := (BlockingRegistryImpl + EpollRegistry)%type.

(** [.registry<xyco::task::BlockingRegistry>(n)] and [.registry<xyco::io::IoRegistry>(n)],
    both [GlobalRegistry]; [epoll_create] is given the second argument and succeeds. *)
Definition blocking_registry (n : nat) : Initializer ProgramRegistry :=
  mkInitializer BlockingRegistry_hash true (inl (BlockingRegistryImpl_new n)).
Definition io_registry (entries : nat) : Initializer ProgramRegistry :=
  mkInitializer EpollRegistry_hash true (inr (mkEpollRegistry [] [])).

(** The builder of [main.cc], and the one of [http_server.cc]. *)
Definition main_builder : Builder ProgramRegistry :=
  Builder_registry (io_registry 4)
    (Builder_registry (blocking_registry 2) (Builder_worker_threads 2 Builder_new_multi_thread)).
Definition http_builder : Builder ProgramRegistry :=
  Builder_registry (io_registry 4)
    (Builder_registry (blocking_registry 1) (Builder_worker_threads 1 Builder_new_multi_thread)).

(** The frame and the future of a coroutine that is called. *)
Record Call : Type := mkCall { call_frame : hid; call_future : fid }.

Section Mains.
Context {V : Type}.
Implicit Types (w : World ProgramRegistry V).
Variable poll : fid -> option hid -> M (World ProgramRegistry V) (Poll V).
Variable resume_coroutine : hid -> M (World ProgramRegistry V) unit.

(** [*builder.build()]. *)
Definition build_runtime (b : Builder ProgramRegistry) (t : tid) (ts : list tid) (a : nat)
    : M (World ProgramRegistry V) unit :=
  let! result := Builder_build b t ts a in deref_expected result.

(** [runtime->spawn(coroutine())]: the coroutine and the wrapper of [spawn]. *)
Definition call_and_spawn (coroutine wrapper : Call) : M (World ProgramRegistry V) unit :=
  co_call true (call_frame coroutine) (call_future coroutine) ;;;
  RuntimeCore_spawn_impl (call_frame wrapper) (call_future wrapper).

(** [runtime->block_on(coroutine())]: the coroutine, the lambda of [block_on] and the
    wrapper; [envs] is what the registries read in each turn. *)
Definition call_and_block_on (fuel : nat) (t : tid) (coroutine lambda wrapper : Call)
    (envs : list (nat -> unit * EpollEnv)) : M (World ProgramRegistry V) (option unit) :=
  co_call true (call_frame coroutine) (call_future coroutine) ;;;
  co_call true (call_frame lambda) (call_future lambda) ;;;
  Runtime_block_on poll resume_coroutine fuel envs t (call_frame wrapper) (call_future wrapper)
    (fun _ => Some tt).

(** The loop of [main] over its clients; [false] when a call has not returned. *)
Fixpoint main_clients (fuel : nat) (t : tid)
    (clients : list (Call * Call * Call * list (nat -> unit * EpollEnv)))
    : M (World ProgramRegistry V) bool :=
  match clients with
  | [] => ret true
  | (coroutine, lambda, wrapper, envs) :: clients =>
      let! r := call_and_block_on fuel t coroutine lambda wrapper envs in
      match r with Some _ => main_clients fuel t clients | None => ret false end
  end.

(** [main] of [main.cc]: [clients] has the three calls of [start_client]. *)
Definition main (fuel : nat) (t : tid) (ts : list tid) (a : nat) (server wrapper : Call)
    (clients : list (Call * Call * Call * list (nat -> unit * EpollEnv)))
    : M (World ProgramRegistry V) bool :=
  build_runtime main_builder t ts a ;;;
  call_and_spawn server wrapper ;;;
  main_clients fuel t (take 3 clients).

(** [Server] and [Server::run]; the port is converted to [int]. *)
Record Server : Type := mkServer { server_port_ : Z }.
Definition Server_new (port : Z) : Server := mkServer (to_uint16 port).
Definition Server_run (fuel : nat) (t : tid) (init_server : Server -> Call) (lambda wrapper : Call)
    (envs : list (nat -> unit * EpollEnv)) (s : Server) : M (World ProgramRegistry V) (option unit) :=
  call_and_block_on fuel t (init_server s) lambda wrapper envs.

(** [main] of [http_server.cc]. *)
Definition http_main (fuel : nat) (t : tid) (ts : list tid) (a : nat) (init_server : Server -> Call)
    (lambda wrapper : Call) (envs : list (nat -> unit * EpollEnv)) : M (World ProgramRegistry V) (option unit) :=
  build_runtime http_builder t ts a ;;;
  Server_run fuel t init_server lambda wrapper envs (Server_new 8080).

(** ** The start of the programs *)

(** All threads [us] have the pool of [n] blocking workers and the epoll registry, the
    same ones. *)
Definition shares_registries (us : list tid) (n : nat) w : Prop :=
  exists rb rio, rb <> rio /\
    w_registries w !! rb = Some (inl (BlockingRegistryImpl_new n)) /\
    w_registries w !! rio = Some (inr (mkEpollRegistry [] [])) /\
    forall u, u ∈ us -> registry_of u BlockingRegistry_hash w = Some rb /\
      registry_of u EpollRegistry_hash w = Some rio.

Lemma build_runtime_run b n t ts a w :
  b_registry_initializers_ b = [blocking_registry n; io_registry 4] ->
  NoDup (t :: ts) ->
  (forall h, h = BlockingRegistry_hash \/ h = EpollRegistry_hash ->
     per_runtime_registry_ w !! (h, core_addr w) = None) ->
  exists w', build_runtime b t ts a w = (Done tt, w') /\
    shares_registries (t :: worker_threads_of b ts) n w' /\
    w_handles_ w' = [] /\ in_place_worker_ w' = mkWorker false [] /\ w_heap w' = w_heap w /\
    (forall u, workers_ w' !! u =
       if decide (u ∈ worker_threads_of b ts) then Some (mkWorker false []) else None).
Proof.
  intros Hl Hts Hnew. assert (NoDup (init_hash <$> b_registry_initializers_ b)) as Hnd.
  { rewrite Hl. cbn. repeat constructor; set_solver. }
  destruct (build_run b t ts a w Hnd Hts) as (w' & Hrun & Hnt & Hb & Hq & Hi & Hh & Hw).
  { rewrite Hl. intros i Hin _. apply Hnew. apply elem_of_cons in Hin as [->|Hin]; [by left|].
    apply list_elem_of_singleton in Hin as ->. by right. }
  exists w'. unfold build_runtime. rewrite (bind_done _ _ _ _ _ Hrun). split_and!; try done.
  rewrite Hl in *. set (us := t :: _) in *. assert (t ∈ us) as Ht by (by left).
  exists (a + 0), (a + 1). split; [lia|]. split; [apply (bt_registry _ _ _ _ Hb 0 0 (blocking_registry n)); [cbn; lia|done]|].
  split; [apply (bt_registry _ _ _ _ Hb 0 1 (io_registry 4)); [cbn; lia|done]|].
  intros u [p Hp]%list_elem_of_lookup. unfold registry_of. by rewrite (bt_local _ _ _ _ Hb p u Hp).
Qed.

(** C39.  The programs start: [main] of [main.cc] reaches its clients with the server
    spawned, as the only entry of the queue, and with the main thread and both worker
    threads sharing one epoll registry and one pool of two blocking workers; [main] of
    the HTTP server enters [block_on] with an empty queue, on a runtime whose two threads
    share an epoll registry and a pool of one worker. *)
Theorem programs_start fuel t ts a w
    (Hts : NoDup (t :: ts))
    (Hnew : forall h, h = BlockingRegistry_hash \/ h = EpollRegistry_hash ->
       per_runtime_registry_ w !! (h, core_addr w) = None) :
  (forall server wrapper clients, exists w',
     main fuel t ts a server wrapper clients w = main_clients fuel t (take 3 clients) w' /\
     shares_registries (t :: take 2 ts) 2 w' /\
     w_handles_ w' = [(Some (call_frame wrapper), None)] /\
     running w' /\ (forall u, u ∈ take 2 ts -> workers_ w' !! u = Some (mkWorker false []))) /\
  (forall init_server lambda wrapper envs, exists w',
     http_main fuel t ts a init_server lambda wrapper envs w =
       call_and_block_on fuel t (init_server (mkServer 8080)) lambda wrapper envs w' /\
     shares_registries (t :: take 1 ts) 1 w' /\
     w_handles_ w' = [] /\ running w' /\ w_heap w' = w_heap w).
Proof.
  split.
  - intros server wrapper clients.
    destruct (build_runtime_run main_builder 2 t ts a w eq_refl Hts Hnew)
      as (w1 & Hrun & Hsh & Hq & Hi & Hh & Hw).
    unfold main. rewrite (bind_done _ _ _ _ _ Hrun). unfold call_and_spawn, bind at 1, bind at 1.
    rewrite co_call_run, spawn_impl_run. eexists. split; [done|]. split_and!; [done|cbn; by rewrite Hq|done|].
    intros u Hu. cbn. by rewrite Hw, decide_True.
  - intros init_server lambda wrapper envs.
    destruct (build_runtime_run http_builder 1 t ts a w eq_refl Hts Hnew)
      as (w1 & Hrun & Hsh & Hq & Hi & Hh & Hw).
    exists w1. unfold http_main. rewrite (bind_done _ _ _ _ _ Hrun). by split_and!.
Qed.
End Mains.
