(* ===== verification/FileOps.v ===== *)
(** Files: the operations of [FileBase] ([include/xyco/fs/file_common.ccm]), of
    [File] over epoll ([include/xyco/fs/epoll/file.ccm], [src/fs/epoll/file.cc]) and
    over io_uring ([src/fs/io_uring/file.cc], the same text), and the functions of
    [src/fs/utils.cc].

    Each operation is a closure that runs in the blocking pool, or one operation of
    the ring.  The system calls and the functions of [std::filesystem] are the
    operations of [FileSystem]. *)
From stdpp Require Import base list strings.
From Stdlib Require Import ZArith Lia.
From S2P Require Import Prelude Errors Events Files.

#[local] Open Scope Z_scope.

(** ** Data *)

Record timespec : Type := mkTimespec { tv_sec : Z; tv_nsec : Z }.

(** The fields of [struct statx] and [struct stat64] the code uses. *)
Record statx_t : Type := mkStatx {
  stx_mask : Z; stx_blksize : Z; stx_nlink : Z; stx_uid : Z; stx_gid : Z; stx_mode : Z;
  stx_ino : Z; stx_size : Z; stx_blocks : Z;
  stx_atime : timespec; stx_btime : timespec; stx_ctime : timespec; stx_mtime : timespec;
  stx_rdev_major : Z; stx_rdev_minor : Z; stx_dev_major : Z; stx_dev_minor : Z;
}.
Record stat64_t : Type := mkStat {
  st_dev : Z; st_ino : Z; st_nlink : Z; st_mode : Z; st_uid : Z; st_gid : Z; st_rdev : Z;
  st_size : Z; st_blksize : Z; st_blocks : Z;
  st_atim : timespec; st_mtim : timespec; st_ctim : timespec;
}.
Record StatxExtraFields : Type := mkStatxExtraFields { stx_mask_ : Z; stx_btime_ : timespec }.

(** [std::error_code]; the value [0] is no error. *)
Record error_code : Type := mkErrorCode { ec_value : Z; ec_message : string }.

(** [std::filesystem::file_status]. *)
Record file_status : Type := mkFileStatus { fst_type : Z; fst_perms : Z }.

(** [makedev] of [sys/sysmacros.h]. *)
Definition makedev (major minor : Z) : Z :=
  Z.lor (Z.lor (Z.shiftl (Z.land major 4095) 8) (Z.shiftl (Z.land major 4294963200) 32))
        (Z.lor (Z.land minor 255) (Z.shiftl (Z.land minor 4294967040) 12)).

Definition AT_EMPTY_PATH : Z := 4096.
Definition AT_STATX_SYNC_AS_STAT : Z := 0.
Definition STATX_ALL : Z := 4095.
Definition STATX_BTIME : Z := 2048.
Definition SEEK_SET : Z := 0.

(** ** The system

    A system call returns a value and leaves [errno]; a read also stores bytes. *)
Class FileSystem (S : Type) : Type := {
  sys_statx : Z -> Z -> Z -> S -> Z * Z * statx_t;
  sys_fsync : Z -> S -> Z * Z * S;
  sys_lseek : Z -> Z -> Z -> S -> Z * Z * S;
  sys_read : Z -> nat -> S -> Z * Z * list Z * S;
  sys_write : Z -> list Z -> S -> Z * Z * S;
  ring_read_at : Z -> nat -> Z -> S -> Z * list Z * S;
  ring_write_at : Z -> list Z -> Z -> S -> Z * S;
  fs_file_size : string -> S -> Z * error_code;
  fs_is_symlink : string -> S -> option bool;
  fs_symlink_status : string -> S -> file_status * error_code;
  fs_status : string -> S -> file_status * error_code;
  fs_permissions : string -> Z -> Z -> S -> error_code * S;
  fs_resize_file : string -> Z -> S -> error_code * S;
  fs_rename : string -> string -> S -> error_code * S;
  fs_remove : string -> S -> bool * error_code * S;
  fs_copy_file : string -> string -> Z -> S -> bool * error_code * S;
}.

(** [!error_code ? Result(value) : std::unexpected(...)]. *)
Definition from_error_code {A} (ec : error_code) (value : A) : Result A :=
  if ec_value ec =? 0 then Value value
  else Unexpected (mkError (ec_value ec) (ec_message ec)).

Section Operations.
Context {S : Type} `{FileSystem S}.
Implicit Types (self : File).

(** [get_file_attr]. *)
Definition get_file_attr (file_descriptor : Z) : M S (Result (stat64_t * StatxExtraFields)) :=
  let! s := get in
  let '(r, errno, stx) :=
    sys_statx file_descriptor (Z.lor AT_EMPTY_PATH AT_STATX_SYNC_AS_STAT) STATX_ALL s in
  ASYNC_TRY (into_sys_result errno r) (fun _ =>
    let stat := mkStat
      (makedev (stx_dev_major stx) (stx_dev_minor stx)) (stx_ino stx) (stx_nlink stx)
      (stx_mode stx) (stx_uid stx) (stx_gid stx)
      (makedev (stx_rdev_major stx) (stx_rdev_minor stx)) (wrap_s 64 (stx_size stx))
      (stx_blksize stx) (wrap_s 64 (stx_blocks stx))
      (stx_atime stx) (stx_mtime stx) (stx_ctime stx) in
    ret (Value (stat, mkStatxExtraFields (stx_mask stx) (stx_btime stx)))).

Definition File_modified self : M S (Result timespec) :=
  let! r := get_file_attr (f_fd_ self) in
  ret (transform (fun p : stat64_t * StatxExtraFields => st_mtim p.1) r).

Definition File_accessed self : M S (Result timespec) :=
  let! r := get_file_attr (f_fd_ self) in
  ret (transform (fun p : stat64_t * StatxExtraFields => st_atim p.1) r).

Definition File_created self : M S (Result timespec) :=
  let! result := get_file_attr (f_fd_ self) in
  match result with
  | Value (_, ext) =>
      if negb (Z.land (stx_mask_ ext) STATX_BTIME =? 0) then ret (Value (stx_btime_ ext))
      else ret (Unexpected (mkError (ErrorKind_underlying Uncategorized)
                               "creation time is not available for the filesystem"))
  | Unexpected _ =>
      ret (Unexpected (mkError (ErrorKind_underlying Unsupported)
                           "creation time is not available on this platform currently"))
  end.

Definition File_size self : M S (Result Z) :=
  let! s := get in
  let '(len, ec) := fs_file_size (f_path_ self) s in
  ret (from_error_code ec len).

(** [is_symlink] without an [error_code] throws. *)
Definition File_status self : M S (Result file_status) :=
  let! s := get in
  match fs_is_symlink (f_path_ self) s with
  | None => throw FilesystemError
  | Some symlink =>
      let '(status, ec) :=
        if symlink then fs_symlink_status (f_path_ self) s else fs_status (f_path_ self) s in
      ret (from_error_code ec status)
  end.

Definition File_set_permissions self (prms opts : Z) : M S (Result unit) :=
  fun s => let '(ec, s') := fs_permissions (f_path_ self) prms opts s in
           (Done (from_error_code ec tt), s').

Definition File_flush self : M S (Result unit) :=
  fun s => let '(r, errno, s') := sys_fsync (f_fd_ self) s in
           (Done (transform (fun _ => tt) (into_sys_result errno r)), s').

(** [File::File]. *)
Definition File_new (file_descriptor : Z) (path : string) : File := mkFile file_descriptor path.

(** [FileBase::resize] and [FileBase::seek]. *)
Definition File_resize self (size : Z) : M S (Result unit) :=
  fun s => let '(ec, s') := fs_resize_file (f_path_ self) size s in
           (Done (from_error_code ec tt), s').

Definition File_seek self (offset whence : Z) : M S (Result Z) :=
  fun s => let '(return_offset, errno, s') := sys_lseek (f_fd_ self) offset whence s in
           if return_offset =? -1 then (Done (into_sys_result errno (-1)), s')
           else (Done (Value return_offset), s').

(** [File::read] and [File::write] over epoll; the bytes that were read are those at
    the beginning of the range.  [into_sys_result] takes an [int]. *)
Definition File_read self (n : nat) : M S (Result (list Z)) :=
  fun s => let '(r, errno, bytes, s') := sys_read (f_fd_ self) n s in
           (Done (transform (fun k => take (Z.to_nat k) bytes) (into_sys_result errno (to_int32 r))), s').
Definition File_write self (bytes : list Z) : M S (Result nat) :=
  fun s => let '(r, errno, s') := sys_write (f_fd_ self) bytes s in
           (Done (transform Z.to_nat (into_sys_result errno (to_int32 r))), s').

(** The same over io_uring: the operation's offset is the default one, [0]
    ([uring_read_poll] is the future). *)
Definition UringFile_read self (n : nat) : M S (Result (list Z)) :=
  fun s => let '(return_, bytes, s') := ring_read_at (f_fd_ self) n 0 s in
           (Done (if 0 <=? return_ then Value (take (Z.to_nat return_) bytes)
                  else Unexpected (mkError (- return_) "")), s').
Definition UringFile_write self (bytes : list Z) : M S (Result nat) :=
  fun s => let '(return_, s') := ring_write_at (f_fd_ self) bytes 0 s in
           (Done (if 0 <=? return_ then Value (Z.to_nat return_)
                  else Unexpected (mkError (- return_) "")), s').

(** The functions of [src/fs/io_uring/file.cc]. *)
Definition uring_get_file_attr := get_file_attr.
Definition UringFile_modified := File_modified.
Definition UringFile_accessed := File_accessed.
Definition UringFile_created := File_created.
Definition UringFile_size := File_size.
Definition UringFile_status := File_status.
Definition UringFile_set_permissions := File_set_permissions.
Definition UringFile_flush := File_flush.
Definition UringFile_new := File_new.

(** [src/fs/utils.cc]. *)
Definition rename (old_path new_path : string) : M S (Result unit) :=
  fun s => let '(ec, s') := fs_rename old_path new_path s in (Done (from_error_code ec tt), s').

Definition remove (path : string) : M S (Result bool) :=
  fun s => let '(existed, ec, s') := fs_remove path s in (Done (from_error_code ec existed), s').

Definition copy_file (from_path to_path : string) (options : Z) : M S (Result bool) :=
  fun s => let '(r, ec, s') := fs_copy_file from_path to_path options s in
           (Done (from_error_code ec r), s').
End Operations.
Definition UringOptions_open := OpenOptions_open.
