(* ===== verification/FileOpsSpec.v ===== *)
(** What the operations on files do, for a kernel whose calls on a regular file
    behave as POSIX says. *)
From stdpp Require Import base list strings.
From Stdlib Require Import ZArith Lia.
From S2P Require Import Prelude Errors Events BufferIO BufferIOSpec Files FileOps.

#[local] Opaque DEFAULT_BUFFER_SIZE.

(** ** Device numbers *)

(** [gnu_dev_major] and [gnu_dev_minor] of [sys/sysmacros.h]. *)
Definition dev_major (dev : Z) : Z :=
  Z.lor (Z.land (Z.shiftr dev 8) 4095) (Z.land (Z.shiftr dev 32) 4294963200).
Definition dev_minor (dev : Z) : Z :=
  Z.lor (Z.land dev 255) (Z.land (Z.shiftr dev 12) 4294967040).

(** A mask of the bits from [lo] to [hi]. *)
Lemma testbit_mask lo hi n : (0 <= lo <= hi)%Z -> (0 <= n)%Z ->
  Z.testbit (Z.ones hi - Z.ones lo) n = (lo <=? n)%Z && (n <? hi)%Z.
Proof.
  intros Hlo Hn. replace (Z.ones hi - Z.ones lo)%Z with (Z.shiftl (Z.ones (hi - lo)) lo).
  - destruct (Z.leb_spec lo n); cbn [andb].
    + rewrite Z.shiftl_spec, Z.testbit_ones_nonneg by lia.
      destruct (Z.ltb_spec (n - lo) (hi - lo)), (Z.ltb_spec n hi); done || lia.
    + rewrite Z.shiftl_spec by lia. apply Z.testbit_neg_r. lia.
  - rewrite Z.shiftl_mul_pow2, !Z.ones_equiv by lia.
    replace (2 ^ hi)%Z with (2 ^ (hi - lo) * 2 ^ lo)%Z; [lia|].
    rewrite <- Z.pow_add_r by lia. f_equal. lia.
Qed.

Lemma bits_above (x w n : Z) : (0 <= x < 2 ^ w)%Z -> (0 <= w <= n)%Z -> Z.testbit x n = false.
Proof.
  intros Hx Hn. destruct (decide (x = 0)%Z) as [->|]; [apply Z.bits_0|].
  apply Z.bits_above_log2; [lia|]. apply Z.lt_le_trans with w; [|lia].
  apply Z.log2_lt_pow2; lia.
Qed.

(** A field of bits, moved up or down. *)
Lemma testbit_field x lo hi k n : (0 <= lo <= hi)%Z -> (0 <= k)%Z -> (0 <= n)%Z ->
  Z.testbit (Z.shiftl (Z.land x (Z.ones hi - Z.ones lo)) k) n =
    (lo + k <=? n)%Z && (n <? hi + k)%Z && Z.testbit x (n - k).
Proof.
  intros Hlo Hk Hn. rewrite Z.shiftl_spec by done. destruct (Z.leb_spec k n).
  - rewrite Z.land_spec, testbit_mask, (andb_comm (Z.testbit x _)) by lia. f_equal. f_equal.
    + destruct (Z.leb_spec lo (n - k)), (Z.leb_spec (lo + k) n); done || lia.
    + destruct (Z.ltb_spec (n - k) hi), (Z.ltb_spec n (hi + k)); done || lia.
  - rewrite !(Z.testbit_neg_r _ (n - k)) by lia. by rewrite andb_false_r.
Qed.

Lemma testbit_extract x lo hi k n : (0 <= lo <= hi)%Z -> (0 <= k)%Z -> (0 <= n)%Z ->
  Z.testbit (Z.land (Z.shiftr x k) (Z.ones hi - Z.ones lo)) n =
    (lo <=? n)%Z && (n <? hi)%Z && Z.testbit x (n + k).
Proof.
  intros. rewrite Z.land_spec, testbit_mask, Z.shiftr_spec by lia. apply andb_comm.
Qed.

Lemma testbit_makedev major minor n : (0 <= n)%Z ->
  Z.testbit (makedev major minor) n =
    ((8 <=? n)%Z && (n <? 20)%Z && Z.testbit major (n - 8)) ||
    ((44 <=? n)%Z && (n <? 64)%Z && Z.testbit major (n - 32)) ||
    (((0 <=? n)%Z && (n <? 8)%Z && Z.testbit minor (n - 0)) ||
     ((20 <=? n)%Z && (n <? 44)%Z && Z.testbit minor (n - 12))).
Proof.
  intros Hn. unfold makedev. rewrite !Z.lor_spec.
  rewrite <- (Z.shiftl_0_r (Z.land minor 255)).
  change 4095%Z with (Z.ones 12 - Z.ones 0)%Z. change 4294963200%Z with (Z.ones 32 - Z.ones 12)%Z.
  change 255%Z with (Z.ones 8 - Z.ones 0)%Z. change 4294967040%Z with (Z.ones 32 - Z.ones 8)%Z.
  by rewrite !testbit_field by lia.
Qed.

(** Decides the guards of a boolean formula over comparisons. *)
Ltac bool_lia := repeat match goal with
  | |- context [(?a <=? ?b)%Z] => destruct (Z.leb_spec a b); try lia
  | |- context [(?a <? ?b)%Z] => destruct (Z.ltb_spec a b); try lia
  end; rewrite ?andb_false_r, ?orb_false_r; cbn [andb orb].

Lemma makedev_major major minor :
  (0 <= major < 2 ^ 32)%Z -> dev_major (makedev major minor) = major.
Proof.
  intros Hm. apply Z.bits_inj'. intros n Hn. unfold dev_major. rewrite Z.lor_spec.
  change 4095%Z with (Z.ones 12 - Z.ones 0)%Z. change 4294963200%Z with (Z.ones 32 - Z.ones 12)%Z.
  rewrite !testbit_extract, !testbit_makedev by lia.
  destruct (Z.leb_spec 32 n) as [H32|H32]; [rewrite (bits_above major 32 n) by lia|]; bool_lia.
  all: try done; f_equal; lia.
Qed.

Lemma makedev_minor major minor :
  (0 <= minor < 2 ^ 32)%Z -> dev_minor (makedev major minor) = minor.
Proof.
  intros Hm. apply Z.bits_inj'. intros n Hn. unfold dev_minor. rewrite Z.lor_spec.
  rewrite <- (Z.shiftr_0_r (makedev major minor)) at 1.
  change 255%Z with (Z.ones 8 - Z.ones 0)%Z. change 4294967040%Z with (Z.ones 32 - Z.ones 8)%Z.
  rewrite !testbit_extract, !testbit_makedev by lia.
  destruct (Z.leb_spec 32 n) as [H32|H32]; [rewrite (bits_above minor 32 n) by lia|]; bool_lia.
  all: try done; f_equal; lia.
Qed.

(** ** Attributes *)
Section Attributes.
Context {S : Type} `{FileSystem S}.

(** The times of a file are those [statx] reports and leave the file alone; the
    creation time is an error if the file system has none; the device numbers can be
    taken apart again.  When [statx] fails, [modified] and [accessed] return its
    error, [created] an error of its own. *)
Theorem file_attributes (f : File) (s : S) :
  let '(r, errno, stx) :=
    sys_statx (f_fd_ f) (Z.lor AT_EMPTY_PATH AT_STATX_SYNC_AS_STAT) STATX_ALL s in
  if (r =? -1)%Z then
    let e := Unexpected (mkError errno "") in
    get_file_attr (f_fd_ f) s = (Done e, s) /\
    File_modified f s = (Done (Unexpected (mkError errno "")), s) /\
    File_accessed f s = (Done (Unexpected (mkError errno "")), s) /\
    exists info, File_created f s = (Done (Unexpected (mkError (-1) info)), s)
  else
    File_modified f s = (Done (Value (stx_mtime stx)), s) /\
    File_accessed f s = (Done (Value (stx_atime stx)), s) /\
    (if Z.testbit (stx_mask stx) 11 then File_created f s = (Done (Value (stx_btime stx)), s)
     else exists info, File_created f s = (Done (Unexpected (mkError (-2) info)), s)) /\
    exists stat ext, get_file_attr (f_fd_ f) s = (Done (Value (stat, ext)), s) /\
      ((0 <= stx_dev_major stx < 2 ^ 32)%Z -> dev_major (st_dev stat) = stx_dev_major stx) /\
      ((0 <= stx_dev_minor stx < 2 ^ 32)%Z -> dev_minor (st_dev stat) = stx_dev_minor stx) /\
      ((0 <= stx_size stx < 2 ^ 63)%Z -> st_size stat = stx_size stx).
Proof.
  destruct (sys_statx _ _ _ s) as [[r errno] stx] eqn:Hs.
  unfold File_modified, File_accessed, File_created, get_file_attr, ASYNC_TRY, into_sys_result.
  mred. rewrite Hs. destruct (r =? -1)%Z.
  - split_and!; [done..|by eexists].
  - split_and!; [done|done| |].
    + cbn [stx_mask_]. change STATX_BTIME with (2 ^ 11)%Z.
      destruct (Z.testbit (stx_mask stx) 11) eqn:Hb.
      * destruct (Z.eqb_spec (Z.land (stx_mask stx) (2 ^ 11)) 0) as [E|]; [|done].
        apply (f_equal (fun z => Z.testbit z 11)) in E.
        by rewrite Z.land_spec, Z.pow2_bits_true, Hb in E by lia.
      * rewrite (proj2 (Z.eqb_eq (Z.land (stx_mask stx) (2 ^ 11)) 0)); [by eexists|].
        apply Z.bits_inj'. intros n Hn. rewrite Z.land_spec, Z.bits_0, Z.pow2_bits_eqb by lia.
        destruct (Z.eqb_spec 11 n) as [<-|]; [by rewrite Hb|apply andb_false_r].
    + eexists _, _. split; [done|]. cbn [st_dev st_size]. split_and!; intros Hr.
      * by apply makedev_major.
      * by apply makedev_minor.
      * apply wrap_s_id; lia.
Qed.
End Attributes.

(** ** Reading and writing *)

(** The bytes [b] written at position [off] of [c]; a hole is filled with zeros. *)
Definition write_at (off : nat) (b c : list Z) : list Z :=
  match b with
  | [] => c
  | _ => take off (c ++ replicate (off - length c) 0%Z) ++ b ++ drop (off + length b) c
  end.

(** A descriptor that is open on a regular file: its content and the file
    position.  A read or a write may be short, but takes a byte at least if there is
    one. *)
Class RegularFile (S : Type) `{FileSystem S} (fd : Z) : Type := {
  rf_content : S -> list Z;
  rf_offset : S -> nat;
  rf_read : forall n s, exists bytes errno s',
    sys_read fd n s = (Z.of_nat (length bytes), errno, bytes, s') /\
    length bytes <= n /\ (Z.of_nat (length bytes) < 2 ^ 31)%Z /\
    bytes = take (length bytes) (drop (rf_offset s) (rf_content s)) /\
    (0 < n -> bytes = [] -> drop (rf_offset s) (rf_content s) = []) /\
    rf_content s' = rf_content s /\ rf_offset s' = rf_offset s + length bytes;
  rf_write : forall bytes s, exists k errno s',
    sys_write fd bytes s = (Z.of_nat k, errno, s') /\
    k <= length bytes /\ (Z.of_nat k < 2 ^ 31)%Z /\ (bytes <> [] -> 0 < k) /\
    rf_content s' = write_at (rf_offset s) (take k bytes) (rf_content s) /\
    rf_offset s' = rf_offset s + k;
  rf_seek : forall o s, exists errno s',
    sys_lseek fd (Z.of_nat o) SEEK_SET s = (Z.of_nat o, errno, s') /\
    rf_content s' = rf_content s /\ rf_offset s' = o;
}.

Lemma into_int_value errno k :
  (Z.of_nat k < 2 ^ 31)%Z -> into_sys_result errno (to_int32 (Z.of_nat k)) = Value (Z.of_nat k).
Proof.
  intros Hk. rewrite wrap_s_id by lia. apply into_sys_result_value. split; [done|lia].
Qed.

Section Regular.
Context {S : Type} `{FileSystem S} (f : File) `{!RegularFile S (f_fd_ f)}.
Implicit Types (s : S).

#[local] Instance file_readable : Readable S := File_read f.
#[local] Instance file_writable : Writable S := File_write f.

Lemma file_read_run n s : exists bytes s',
  File_read f n s = (Done (Value bytes), s') /\ length bytes <= n /\
  bytes = take (length bytes) (drop (rf_offset s) (rf_content s)) /\
  (0 < n -> bytes = [] -> drop (rf_offset s) (rf_content s) = []) /\
  rf_content s' = rf_content s /\ rf_offset s' = rf_offset s + length bytes.
Proof.
  destruct (rf_read n s) as (bytes & errno & s' & Hr & Hle & H31 & Hrest).
  exists bytes, s'. split; [|done]. unfold File_read. rewrite Hr, into_int_value by done. cbn.
  by rewrite Nat2Z.id, firstn_all.
Qed.

Lemma file_write_run bytes s : exists k s',
  File_write f bytes s = (Done (Value k), s') /\ k <= length bytes /\ (bytes <> [] -> 0 < k) /\
  rf_content s' = write_at (rf_offset s) (take k bytes) (rf_content s) /\
  rf_offset s' = rf_offset s + k.
Proof.
  destruct (rf_write bytes s) as (k & errno & s' & Hr & Hle & H31 & Hrest).
  exists k, s'. split; [|done]. unfold File_write. rewrite Hr, into_int_value by done. cbn.
  by rewrite Nat2Z.id.
Qed.

(** A file is a byte stream: what is behind the position can be read, what is before
    it was written. *)
#[local] Program Instance file_stream : StreamReader S := {
  stream s := drop (rf_offset s) (rf_content s);
}.
Next Obligation.
  intros n s Hn. destruct (file_read_run n s) as (bytes & s' & Hr & Hle & Hb & Hnil & Hc & Ho).
  exists bytes, s'. split_and!; [done|done| |by apply Hnil].
  rewrite Hc, Ho, <- drop_drop. rewrite Hb at 1. by rewrite take_drop.
Qed.

Definition written s : list Z :=
  take (rf_offset s) (rf_content s ++ replicate (rf_offset s - length (rf_content s)) 0%Z).

Lemma written_write_at off b c :
  take (off + length b) (write_at off b c ++ replicate (off + length b - length (write_at off b c)) 0%Z) =
  take off (c ++ replicate (off - length c) 0%Z) ++ b.
Proof.
  destruct b as [|x b]; [by rewrite app_nil_r, Nat.add_0_r|]. set (b' := x :: b).
  assert (length (take off (c ++ replicate (off - length c) 0%Z)) = off) as Hl.
  { rewrite length_take, length_app, length_replicate. lia. }
  unfold write_at, b'. fold b'. rewrite (assoc (++)), <- (assoc (++)).
  rewrite take_app_length'; [done|]. by rewrite length_app, Hl.
Qed.

#[local] Program Instance file_sink : StreamWriter S := {
  sink := written;
}.
Next Obligation.
  intros bytes s. destruct (file_write_run bytes s) as (k & s' & Hr & Hle & _ & Hc & Ho).
  exists (Value k), s'. split; [done|]. split; [done|]. unfold written. rewrite Hc, Ho.
  rewrite <- (written_write_at (rf_offset s) (take k bytes) (rf_content s)).
  rewrite length_take, Nat.min_l by done. done.
Qed.

Lemma file_makes_progress : makes_progress (W := S).
Proof.
  intros bytes s Hb. destruct (file_write_run bytes s) as (k & s' & Hr & _ & Hk & _).
  exists k, s'. auto.
Qed.

(** What is behind the position stays as it was in [c0]. *)
Definition tail_kept (c0 : list Z) s : Prop :=
  rf_offset s <= length (rf_content s) /\
  drop (rf_offset s) (rf_content s) = drop (rf_offset s) c0.

Lemma tail_kept_write c0 bytes s :
  tail_kept c0 s -> tail_kept c0 (snd (File_write f bytes s)).
Proof.
  intros [Hle Hd]. destruct (file_write_run bytes s) as (k & s' & -> & Hk & _ & Hc & Ho).
  unfold tail_kept. cbn. rewrite Hc, Ho. set (b := take k bytes).
  assert (length b = k) as Hb by (unfold b; rewrite length_take; lia).
  assert (drop (rf_offset s + k) (rf_content s) = drop (rf_offset s + k) c0) as Htail.
  { by rewrite <- !drop_drop, Hd. }
  destruct b as [|x b'] eqn:Eb; cbn [write_at].
  { cbn in Hb. subst k. by rewrite Nat.add_0_r. }
  replace (rf_offset s - length (rf_content s)) with 0 by lia. cbn [replicate]. rewrite app_nil_r.
  assert (length (take (rf_offset s) (rf_content s) ++ x :: b') = rf_offset s + k) as Hl.
  { rewrite length_app, length_take, Hb. lia. }
  rewrite (assoc (++)), Hb. split; [rewrite length_app, Hl; lia|].
  by rewrite drop_app_length'.
Qed.

Lemma file_seek_run o s : exists s',
  File_seek f (Z.of_nat o) SEEK_SET s = (Done (Value (Z.of_nat o)), s') /\
  rf_content s' = rf_content s /\ rf_offset s' = o.
Proof.
  destruct (rf_seek o s) as (errno & s' & Hr & Hrest). exists s'. split; [|done].
  unfold File_seek. rewrite Hr. by rewrite (proj2 (Z.eqb_neq _ _)) by lia.
Qed.

(** C36.  What is written to a regular file of the epoll backend is read back: after
    [write_all] with the position at the start of the file and a [seek] to it,
    [read_to_end] gives the written bytes followed by what the file had behind them,
    however the kernel cuts the reads and writes, as long as they do not fail. *)
Theorem file_roundtrip fuel bytes s :
  rf_offset s = 0 -> length bytes <= fuel -> length (rf_content s) < fuel + length bytes ->
  exists s1 s2 s3 b3,
    WriteExt_write_all fuel bytes s = (Done (Some (Value tt)), s1) /\
    File_seek f 0 SEEK_SET s1 = (Done (Value 0%Z), s2) /\
    BufferReadExt_read_to_end (fuel + length bytes + 1) (s2, BufferReader_new) =
      (Done (Some (Value (bytes ++ drop (length bytes) (rf_content s)))), (s3, b3)).
Proof.
  intros Hoff Hf1 Hf2.
  destruct (write_all_run fuel bytes s file_makes_progress Hf1) as (s1 & Hrun & Hsink).
  assert (tail_kept (rf_content s) s1) as [Hle Htail].
  { pose proof (write_all_preserves (tail_kept (rf_content s)) fuel bytes s) as Hp.
    rewrite Hrun in Hp. apply Hp; [intros; by apply tail_kept_write|]. unfold tail_kept.
    rewrite Hoff. split; [lia|done]. }
  cbn in Hsink. unfold written in Hsink. rewrite Hoff, take_0, app_nil_l in Hsink.
  rewrite take_app_le in Hsink by done.
  assert (rf_offset s1 = length bytes) as Ho.
  { apply (f_equal length) in Hsink. rewrite length_take in Hsink. lia. }
  destruct (file_seek_run 0 s1) as (s2 & Hseek & Hc2 & Ho2).
  assert (stream s2 = bytes ++ drop (length bytes) (rf_content s)) as Hst.
  { cbn. rewrite Ho2, Hc2, drop_0, <- (take_drop (rf_offset s1) (rf_content s1)).
    by rewrite Hsink, Htail, Ho. }
  destruct (read_to_end_run (fuel + length bytes + 1) BufferReader_new s2 wf_reader_new)
    as (s3 & b3 & Hread & _).
  { rewrite Hst, !length_app, length_drop. rewrite (length_buffered _ wf_reader_new). cbn. lia. }
  exists s1, s2, s3, b3. split_and!; [done|done|]. rewrite Hread, Hst. do 4 f_equal.
Qed.
End Regular.

(** ** Reading over io_uring *)

(** A regular file under the ring's positioned reads. *)
Class RingFile (S : Type) `{FileSystem S} (fd : Z) : Type := {
  rg_content : S -> list Z;
  rg_read : forall n o s, exists bytes s',
    ring_read_at fd n (Z.of_nat o) s = (Z.of_nat (length bytes), bytes, s') /\
    length bytes <= n /\ bytes = take (length bytes) (drop o (rg_content s)) /\
    (0 < n -> bytes = [] -> drop o (rg_content s) = []) /\
    rg_content s' = rg_content s;
}.

Section Ring.
Context {S : Type} `{FileSystem S} (f : File) `{!RingFile S (f_fd_ f)}.
Implicit Types (s : S) (b : BufferReader).

#[local] Instance ring_readable : Readable S := UringFile_read f.

Lemma ring_file_read_run n s : exists bytes s',
  UringFile_read f n s = (Done (Value bytes), s') /\ length bytes <= n /\
  bytes = take (length bytes) (rg_content s) /\ (0 < n -> bytes = [] -> rg_content s = []) /\
  rg_content s' = rg_content s.
Proof.
  destruct (rg_read n 0 s) as (bytes & s' & Hr & Hle & Hb & Hnil & Hc).
  rewrite drop_0 in Hb, Hnil. exists bytes, s'. split; [|done].
  unfold UringFile_read. change 0%Z with (Z.of_nat 0) at 1. rewrite Hr.
  rewrite (proj2 (Z.leb_le _ _)) by lia. by rewrite Nat2Z.id, firstn_all.
Qed.

(** Every turn of [read_to_end] reads the beginning of the file again. *)
Lemma ring_read_to_end_turn fuel content s b :
  wf_reader b -> buffered b = [] -> rg_content s <> [] ->
  exists content' s' b',
    BufferReadExt_read_to_end_loop (1 + fuel) content (s, b) =
      BufferReadExt_read_to_end_loop fuel content' (s', b') /\
    wf_reader b' /\ buffered b' = [] /\ rg_content s' = rg_content s.
Proof.
  intros Hwf Hb Hne. pose proof (length_buffered b Hwf) as Hlb. rewrite Hb in Hlb. cbn in Hlb.
  pose proof Hwf as [Hs Hp Hc].
  destruct (ring_file_read_run (length (buffer_ b)) s) as (bytes & s' & Hr & Hle & Hbytes & Hnil & Hc').
  assert (bytes <> []) as Hbne.
  { intros E. apply Hne, Hnil; [|done]. rewrite Hs. apply buffer_size_bounds. }
  assert (0 < length bytes) by (destruct bytes; cbn; [done|lia]).
  set (b1 := mkBufferReader (bytes ++ drop (length bytes) (buffer_ b)) 0 (length bytes)).
  assert (wf_reader b1) as Hwf1.
  { constructor; cbn; [|lia|lia]. rewrite length_app, length_drop. lia. }
  assert (BufferReader_fill_buffer (s, b) = (Done (Value (0, length bytes)), (s', b1))) as Hf.
  { unfold BufferReader_fill_buffer, get_reader, set_reader. mred. cbn [fst snd].
    rewrite decide_True by lia. cbn [fst]. unfold reader_read, ring_readable. by rewrite Hr. }
  cbn [Nat.add BufferReadExt_read_to_end_loop]. rewrite (bind_done _ _ _ _ _ Hf).
  cbn [deref_expected]. unfold bind at 1. unfold ret at 1. rewrite decide_False by lia.
  rewrite (bind_done _ _ _ b1 (s', b1)) by done.
  rewrite (bind_done _ _ _ _ _ (copy_buffered b1 s' Hwf1)).
  destruct (consume_run (length bytes - 0) b1 s' Hwf1) as (b2 & Hcons & Hwf2 & _ & Hb2); [lia|].
  rewrite (bind_done _ _ _ _ _ Hcons). exists (content ++ buffered b1), s', b2.
  split_and!; [done|done| |done]. rewrite Hb2. apply drop_ge.
  rewrite (length_buffered b1 Hwf1). cbn. lia.
Qed.

(** C37.  Over io_uring [read_to_end] of a file that is not empty never returns: the
    reads have offset zero, so each one gives the beginning of the file again. *)
Theorem uring_read_to_end_spins fuel s :
  rg_content s <> [] ->
  exists s' b', BufferReadExt_read_to_end fuel (s, BufferReader_new) = (Done None, (s', b')).
Proof.
  intros Hne. assert (forall content s b, wf_reader b -> buffered b = [] -> rg_content s <> [] ->
    exists s' b', BufferReadExt_read_to_end_loop fuel content (s, b) = (Done None, (s', b'))) as Hgo.
  { clear s Hne. induction fuel as [|fuel IH]; intros content s b Hwf Hb Hne; [by eexists _, _|].
    destruct (ring_read_to_end_turn fuel content s b Hwf Hb Hne)
      as (c' & s' & b' & Hrun & Hwf' & Hb' & Hc).
    change (Datatypes.S fuel) with (1 + fuel). rewrite Hrun. apply IH; [done|done|by rewrite Hc]. }
  apply Hgo; [apply wf_reader_new| |done].
  apply nil_length_inv. by rewrite (length_buffered _ wf_reader_new).
Qed.
End Ring.
