(* ===== verification/Lifecycle.v ===== *)
(** The life of a runtime: construction, the threads of its workers, destruction
    ([RuntimeCore::RuntimeCore], [RuntimeCore::~RuntimeCore], [Worker::Worker],
    [Worker::~Worker], [Worker::run_in_place] of [src/runtime/core.cc]), and the
    thread-local context ([RuntimeCtxImpl], [src/runtime/runtime_ctx.cc]). *)
From stdpp Require Import base gmap list sets relations.
From Stdlib Require Import ZArith Lia.
From S2P Require Import Prelude Errors Events Futures Core Driver Worker.

Module Lifecycle.

(** ** The threads *)

(** Where the thread of a worker is: not created; in [init_in_thread] before its
    critical section, in the condition variable, about to notify; at the test of
    [run_in_place]'s loop, inside [run_loop_once]; ended. *)
Inductive ThreadPc : Type :=
| NotCreated | Starting | Waiting | Notifying | AtTest | InTurn | Exited.

#[global] Instance ThreadPc_eq_dec : EqDecision ThreadPc.
Proof. solve_decision. Defined.

(** Where the owner of the runtime is: in the constructor's loop, before its [k]th
    turn; using the runtime; in the destructor's loop over [workers_] with [ts] to
    suspend; destroying [workers_] with [ts] to join; after the destructor. *)
Inductive OwnerPc : Type :=
| Constructing (k : nat)
| Using
| Suspending (ts : list nat)
| Joining (ts : list nat)
| Destroyed.

Record LifeState : Type := mkLifeState {
  l_owner : OwnerPc;
  l_pc : list ThreadPc;
  l_suspend_flag_ : list bool;
  l_init_worker_num_ : nat;
}.

Definition life_start (worker_num_ : nat) : LifeState :=
  mkLifeState (Constructing 0) (replicate worker_num_ NotCreated)
    (replicate worker_num_ false) 0.

Definition set_pc (t : nat) (p : ThreadPc) (s : LifeState) : LifeState :=
  mkLifeState (l_owner s) (<[t := p]> (l_pc s)) (l_suspend_flag_ s) (l_init_worker_num_ s).
Definition set_owner (o : OwnerPc) (s : LifeState) : LifeState :=
  mkLifeState o (l_pc s) (l_suspend_flag_ s) (l_init_worker_num_ s).
Definition set_flag (t : nat) (b : bool) (s : LifeState) : LifeState :=
  mkLifeState (l_owner s) (l_pc s) (<[t := b]> (l_suspend_flag_ s)) (l_init_worker_num_ s).
Definition count_one (s : LifeState) : LifeState :=
  mkLifeState (l_owner s) (l_pc s) (l_suspend_flag_ s) (S (l_init_worker_num_ s)).
Definition notify_all (s : LifeState) : LifeState :=
  mkLifeState (l_owner s)
    ((fun p => match p with Waiting => AtTest | p => p end) <$> l_pc s)
    (l_suspend_flag_ s) (l_init_worker_num_ s).

(** The owner: the constructor's loop and the constructor of each worker, then the
    destructor's loop and the destructors of the workers.  The map [workers_] is
    visited in an order of its own, the same in both loops or not. *)
Inductive owner_step : LifeState -> LifeState -> Prop :=
| construct_worker s k :
    l_owner s = Constructing k -> l_pc s !! k = Some NotCreated ->
    owner_step s (set_owner (Constructing (S k)) (set_pc k Starting s))
| constructed s :
    l_owner s = Constructing (length (l_pc s)) -> owner_step s (set_owner Using s)
| destroy s ts :
    l_owner s = Using -> ts ≡ₚ seq 0 (length (l_pc s)) ->
    owner_step s (set_owner (Suspending ts) s)
| suspend_worker s t ts :
    l_owner s = Suspending (t :: ts) ->
    owner_step s (set_owner (Suspending ts) (set_flag t true s))
| suspended s ts :
    l_owner s = Suspending [] -> ts ≡ₚ seq 0 (length (l_pc s)) ->
    owner_step s (set_owner (Joining ts) s)
| join_worker s t ts :
    l_owner s = Joining (t :: ts) -> l_pc s !! t = Some Exited ->
    owner_step s (set_owner (Joining ts) s)
| joined s :
    l_owner s = Joining [] -> owner_step s (set_owner Destroyed s).

(** The thread of a worker: [init_in_thread], then [run_in_place].  [spurious] is
    whether [wait] may return without a notification. *)
Inductive thread_step (spurious : bool) : LifeState -> LifeState -> Prop :=
| init_last s t :
    l_pc s !! t = Some Starting -> S (l_init_worker_num_ s) = length (l_pc s) ->
    thread_step spurious s (count_one (set_pc t Notifying s))
| init_wait s t :
    l_pc s !! t = Some Starting -> S (l_init_worker_num_ s) <> length (l_pc s) ->
    thread_step spurious s (count_one (set_pc t Waiting s))
| init_notify s t :
    l_pc s !! t = Some Notifying -> thread_step spurious s (notify_all (set_pc t AtTest s))
| init_spurious s t :
    spurious = true -> l_pc s !! t = Some Waiting -> thread_step spurious s (set_pc t AtTest s)
| enter_turn s t :
    l_pc s !! t = Some AtTest -> l_suspend_flag_ s !! t = Some false ->
    thread_step spurious s (set_pc t InTurn s)
| leave_turn s t :
    l_pc s !! t = Some InTurn -> thread_step spurious s (set_pc t AtTest s)
| exit_thread s t :
    l_pc s !! t = Some AtTest -> l_suspend_flag_ s !! t = Some true ->
    thread_step spurious s (set_flag t false (set_pc t Exited s)).

Inductive life_step (spurious : bool) : LifeState -> LifeState -> Prop :=
| owner_moves s s' : owner_step s s' -> life_step spurious s s'
| thread_moves s s' : thread_step spurious s s' -> life_step spurious s s'.

Definition life_reachable (spurious : bool) (n : nat) (s : LifeState) : Prop :=
  rtc (life_step spurious) (life_start n) s.

(** ** The invariant *)

(** Workers that are not counted in [init_worker_num_]. *)
Definition uncounted (p : ThreadPc) : nat :=
  match p with NotCreated | Starting => 1 | _ => 0 end.

(** The barrier: every worker is counted once, and while all are counted and one
    waits, one has yet to notify. *)
Record life_count (n : nat) (s : LifeState) : Prop := {
  lc_len : length (l_pc s) = n;
  lc_count : l_init_worker_num_ s + sum_list_with uncounted (l_pc s) = n;
  lc_notify : Waiting ∈ l_pc s -> l_init_worker_num_ s = n -> Notifying ∈ l_pc s;
}.

(** What the owner's position says about the worker [t]: its thread is still to be
    created, it has still to be suspended, it has been joined. *)
Definition to_create (o : OwnerPc) (t : nat) : Prop :=
  match o with Constructing k => k <= t | _ => False end.
Definition to_suspend (o : OwnerPc) (n : nat) : list nat :=
  match o with
  | Constructing _ | Using => seq 0 n
  | Suspending ts => ts
  | Joining _ | Destroyed => []
  end.
Definition is_joined (o : OwnerPc) (t : nat) : Prop :=
  match o with Joining ts => t ∉ ts | Destroyed => True | _ => False end.

Record life_own (n : nat) (s : LifeState) : Prop := {
  lo_len : length (l_pc s) = n;
  lo_flags : length (l_suspend_flag_ s) = n;
  lo_built : forall k, l_owner s = Constructing k -> k <= n;
  lo_created : forall t, t < n -> l_pc s !! t = Some NotCreated <-> to_create (l_owner s) t;
  lo_exited : forall t, l_pc s !! t = Some Exited -> t ∉ to_suspend (l_owner s) n;
  lo_suspended : forall t p, l_pc s !! t = Some p -> p <> Exited ->
    t ∉ to_suspend (l_owner s) n -> l_suspend_flag_ s !! t = Some true;
  lo_running : forall t, t ∈ to_suspend (l_owner s) n -> l_suspend_flag_ s !! t = Some false;
  lo_nodup : NoDup (to_suspend (l_owner s) n);
  lo_joined : forall t, t < n -> is_joined (l_owner s) t -> l_pc s !! t = Some Exited;
  lo_joining : forall ts t, l_owner s = Joining ts -> t ∈ ts -> t < n;
}.

(** Threads that neither come to life nor end leave [life_own] alone. *)
Definition same_threads (l l' : list ThreadPc) : Prop :=
  length l' = length l /\
  forall t p p', l !! t = Some p -> l' !! t = Some p' ->
    (p = Exited <-> p' = Exited) /\ (p = NotCreated <-> p' = NotCreated).

Lemma same_threads_lookup l l' t p :
  same_threads l l' -> l' !! t = Some p -> exists q, l !! t = Some q /\
    (q = Exited <-> p = Exited) /\ (q = NotCreated <-> p = NotCreated).
Proof.
  intros [Hlen Hs] Hp. destruct (lookup_lt_is_Some_2 l t) as [q Hq].
  { rewrite <- Hlen. by eapply lookup_lt_Some. }
  exists q. split; [done|]. by eapply Hs.
Qed.

Lemma same_threads_sym l l' : same_threads l l' -> same_threads l' l.
Proof. intros [Hlen Hs]. split; [done|]. intros t p p' Hp Hp'. destruct (Hs t p' p Hp' Hp). tauto. Qed.

Lemma life_own_move n o l l' fl k k' :
  same_threads l l' -> life_own n (mkLifeState o l fl k) -> life_own n (mkLifeState o l' fl k').
Proof.
  intros Hs [Hlen Hfl Hbu Hcr Hex Hsu Hru Hnd Hjo Hjs]. cbn in *.
  pose proof (same_threads_sym _ _ Hs) as Hs'. constructor; cbn; try done.
  - by rewrite (proj1 Hs).
  - intros t Ht. rewrite <- Hcr by done. split; intros Hp.
    + destruct (same_threads_lookup _ _ _ _ Hs Hp) as (q & Hq & _ & Hn). naive_solver.
    + destruct (same_threads_lookup _ _ _ _ Hs' Hp) as (q & Hq & _ & Hn). naive_solver.
  - intros t Hp. apply Hex. destruct (same_threads_lookup _ _ _ _ Hs Hp) as (q & Hq & He & _).
    naive_solver.
  - intros t p Hp Hne. destruct (same_threads_lookup _ _ _ _ Hs Hp) as (q & Hq & He & _).
    apply (Hsu t q Hq). naive_solver.
  - intros t Ht Hj. specialize (Hjo t Ht Hj).
    destruct (same_threads_lookup _ _ _ _ Hs' Hjo) as (q & Hq & He & _). naive_solver.
Qed.

Lemma same_threads_insert l t p q :
  l !! t = Some p -> p <> Exited -> q <> Exited -> p <> NotCreated -> q <> NotCreated ->
  same_threads l (<[t := q]> l).
Proof.
  intros Hp Ha Hb Hc Hd. split; [apply length_insert|]. intros t' p1 p2 H1.
  intros [(-> & -> & _)|(Hne & H2)]%list_lookup_insert_Some; [naive_solver|].
  by rewrite H1 in H2; injection H2 as <-.
Qed.

Lemma same_threads_trans l1 l2 l3 :
  same_threads l1 l2 -> same_threads l2 l3 -> same_threads l1 l3.
Proof.
  intros H12 [Hl Hs]. split; [by rewrite Hl, (proj1 H12)|]. intros t p p' Hp Hp'.
  destruct (same_threads_lookup l2 l3 t p' (conj Hl Hs) Hp') as (q & Hq & E1 & E2).
  destruct (proj2 H12 t p q Hp Hq). tauto.
Qed.

Lemma same_threads_notify l :
  same_threads l ((fun p => match p with Waiting => AtTest | p => p end) <$> l).
Proof.
  split; [apply length_fmap|]. intros t p p' Hp. rewrite list_lookup_fmap, Hp. cbn.
  intros [= <-]. by destruct p.
Qed.

Lemma life_own_start n : life_own n (life_start n).
Proof.
  constructor; cbn; try done.
  - apply length_replicate.
  - apply length_replicate.
  - intros k [= <-]. lia.
  - intros t Ht. split; [intros; lia|intros _; by apply lookup_replicate_2].
  - intros t [? _]%lookup_replicate. done.
  - intros t p [-> Hlt]%lookup_replicate _ Hn. exfalso. apply Hn, elem_of_seq. lia.
  - intros t Ht%elem_of_seq. apply lookup_replicate_2. lia.
  - apply NoDup_seq.
Qed.

(** The steps of the owner. *)
Lemma life_own_construct n s k :
  life_own n s -> l_owner s = Constructing k -> l_pc s !! k = Some NotCreated ->
  life_own n (set_owner (Constructing (S k)) (set_pc k Starting s)).
Proof.
  intros [Hlen Hfl Hbu Hcr Hex Hsu Hru Hnd Hjo Hjs] Ho Hk. rewrite Ho in *. cbn in *.
  assert (k < n) as Hkn by (rewrite <- Hlen; by eapply lookup_lt_Some).
  constructor; cbn; try done.
  - by rewrite length_insert.
  - intros k' [= <-]. lia.
  - intros t Ht. split.
    + intros [(_ & ? & _)|(Hne & Hp)]%list_lookup_insert_Some; [done|]. apply Hcr in Hp; [|done]. lia.
    + intros Hle. rewrite list_lookup_insert_ne by lia. apply Hcr; [done|lia].
  - intros t [(_ & ? & _)|(Hne & Hp)]%list_lookup_insert_Some; [done|by apply Hex].
  - intros t p [(<- & _ & _)|(Hne & Hp)]%list_lookup_insert_Some Hp' Hn; [|by eapply Hsu].
    exfalso. apply Hn, elem_of_seq. lia.
Qed.

Lemma life_own_owner n s o :
  life_own n s ->
  (forall k, o = Constructing k -> k <= n) ->
  (forall t, t < n -> to_create o t <-> to_create (l_owner s) t) ->
  (forall t, t ∈ to_suspend o n <-> t ∈ to_suspend (l_owner s) n) -> NoDup (to_suspend o n) ->
  (forall t, t < n -> is_joined o t -> l_pc s !! t = Some Exited) ->
  (forall ts t, o = Joining ts -> t ∈ ts -> t < n) ->
  life_own n (set_owner o s).
Proof.
  intros [Hlen Hfl Hbu Hcr Hex Hsu Hru Hnd Hjo Hjs] Hb Hc Hs Hn Hj Ht.
  constructor; cbn; try done.
  - intros t Hlt. rewrite Hc by done. by apply Hcr.
  - intros t Hp. rewrite Hs. by apply Hex.
  - intros t p Hp Hne. rewrite Hs. by eapply Hsu.
  - intros t. rewrite Hs. apply Hru.
Qed.

Lemma life_own_suspend n s t ts :
  life_own n s -> l_owner s = Suspending (t :: ts) ->
  life_own n (set_owner (Suspending ts) (set_flag t true s)).
Proof.
  intros [Hlen Hfl Hbu Hcr Hex Hsu Hru Hnd Hjo Hjs] Ho. rewrite Ho in *. cbn in *.
  apply NoDup_cons in Hnd as [Hni Hnd].
  assert (t < length (l_suspend_flag_ s)) as Ht.
  { eapply lookup_lt_Some, Hru. by left. }
  constructor; cbn; try done.
  - by rewrite length_insert.
  - intros t' Hp Hin. apply (Hex t' Hp). by right.
  - intros t' p Hp Hne Hn. destruct (decide (t' = t)) as [->|].
    + by apply list_lookup_insert_eq.
    + rewrite list_lookup_insert_ne by done. apply (Hsu t' p Hp Hne).
      by intros [?|?]%elem_of_cons.
  - intros t' Hin. rewrite list_lookup_insert_ne by (by intros ->). apply Hru. by right.
Qed.

Lemma life_own_exit n s t :
  life_own n s -> l_pc s !! t = Some AtTest -> l_suspend_flag_ s !! t = Some true ->
  life_own n (set_flag t false (set_pc t Exited s)).
Proof.
  intros [Hlen Hfl Hbu Hcr Hex Hsu Hru Hnd Hjo Hjs] Ht Hflag.
  assert (t ∉ to_suspend (l_owner s) n) as Hni.
  { intros Hin. apply Hru in Hin. congruence. }
  pose proof (lookup_lt_Some _ _ _ Ht) as Hlt. constructor; cbn; try done.
  - by rewrite length_insert.
  - by rewrite length_insert.
  - intros t' Ht'. rewrite <- Hcr by done. destruct (decide (t' = t)) as [->|].
    + rewrite list_lookup_insert_eq, Ht by done. done.
    + by rewrite list_lookup_insert_ne.
  - intros t' [(-> & _)|(_ & Hp)]%list_lookup_insert_Some; [done|by apply Hex].
  - intros t' p [(_ & -> & _)|(Hne & Hp)]%list_lookup_insert_Some Hpe Hn; [done|].
    rewrite list_lookup_insert_ne by done. by eapply Hsu.
  - intros t' Hin. rewrite list_lookup_insert_ne; [by apply Hru|]. by intros ->.
  - intros t' Ht' Hj. apply list_lookup_insert_Some.
    destruct (decide (t = t')) as [->|]; [by left|right; split; [done|by apply Hjo]].
Qed.

Lemma life_own_step spurious n s s' : life_own n s -> life_step spurious s s' -> life_own n s'.
Proof.
  intros Hinv Hstep. pose proof Hinv as [Hlen Hfl Hbu Hcr Hex Hsu Hru Hnd Hjo Hjs].
  assert (forall t p q k, l_pc s !! t = Some p -> p <> Exited -> q <> Exited -> p <> NotCreated ->
    q <> NotCreated -> life_own n (mkLifeState (l_owner s) (<[t := q]> (l_pc s)) (l_suspend_flag_ s) k))
    as Hmove.
  { intros t p q k Hp ????. destruct s. eapply life_own_move, Hinv. by eapply same_threads_insert. }
  destruct Hstep as [_ _ [s k Ho Hk|s Ho|s ts Ho Hts|s t ts Ho|s ts Ho Hts|s t ts Ho Ht|s Ho]
    |_ _ [s t Ht Hl|s t Ht Hl|s t Ht|s t _ Ht|s t Ht Hf|s t Ht|s t Ht Hf]]; try by eapply Hmove.
  - by apply life_own_construct.
  - apply life_own_owner; rewrite ?Ho in *; cbn in *; try done.
    intros t Ht. split; [done|lia].
  - apply life_own_owner; rewrite ?Ho in *; cbn in *; try done.
    + intros t. by rewrite Hts, Hlen.
    + rewrite Hts. apply NoDup_seq.
  - by apply life_own_suspend.
  - apply life_own_owner; rewrite ?Ho in *; cbn in *; try done.
    + intros t Ht Hn. exfalso. apply Hn. rewrite Hts. apply elem_of_seq. lia.
    + intros ts' t [= <-]. rewrite Hts, elem_of_seq. lia.
  - apply life_own_owner; rewrite ?Ho in *; cbn in *; try done.
    + intros t' Ht' Hn. destruct (decide (t' = t)) as [->|]; [done|].
      apply Hjo; [done|]. by intros [?|?]%elem_of_cons.
    + intros ts' t' [= <-] Hin. eapply Hjs; [done|by right].
  - apply life_own_owner; rewrite ?Ho in *; cbn in *; try done.
    intros t Ht _. apply Hjo; [done|]. apply not_elem_of_nil.
  - destruct s as [o l fl k]. eapply (life_own_move n o l _ fl k), Hinv.
    eapply same_threads_trans, same_threads_notify. by eapply same_threads_insert.
  - by apply life_own_exit.
Qed.

Lemma life_count_start n : life_count n (life_start n).
Proof.
  constructor; cbn; [apply length_replicate| |].
  - induction n as [|n IH]; cbn; [done|]. by rewrite IH.
  - intros [? _]%elem_of_replicate. done.
Qed.

(** A move of a worker inside the barrier or behind it. *)
Lemma life_count_insert n o l fl k k' t p q :
  life_count n (mkLifeState o l fl k) -> l !! t = Some p -> p <> Notifying -> q <> Waiting ->
  k' + uncounted q = k + uncounted p -> k' = k \/ q = Notifying ->
  life_count n (mkLifeState o (<[t := q]> l) fl k').
Proof.
  intros [Hlen Hcnt Hnot] Hp Hpn Hqw Hk Hq. cbn in *.
  pose proof (sum_list_insert uncounted l t p q Hp). pose proof (lookup_lt_Some _ _ _ Hp).
  constructor; cbn; [by rewrite length_insert|lia|]. intros Hw Hn.
  destruct Hq as [->| ->]; [|by eapply list_elem_of_lookup_2, list_lookup_insert_eq].
  apply list_elem_of_lookup in Hw as [t' [(-> & E & _)|(Hne & Hw)]%list_lookup_insert_Some]; [congruence|].
  assert (Notifying ∈ l) as [t1 H1]%list_elem_of_lookup.
  { apply Hnot; [by eapply list_elem_of_lookup_2|done]. }
  eapply (list_elem_of_lookup_2 _ t1). rewrite list_lookup_insert_ne; [done|]. intros ->. congruence.
Qed.

Lemma life_count_step spurious n s s' :
  life_count n s -> life_step spurious s s' -> life_count n s'.
Proof.
  intros Hinv Hstep. pose proof Hinv as [Hlen Hcnt Hnot].
  destruct Hstep as [_ _ [s k Ho Hk|s Ho|s ts Ho Hts|s t ts Ho|s ts Ho Hts|s t ts Ho Ht|s Ho]
    |_ _ [s t Ht Hl|s t Ht Hl|s t Ht|s t _ Ht|s t Ht Hf|s t Ht|s t Ht Hf]];
    destruct s as [o l fl c]; cbn in *; unfold set_owner, set_pc, set_flag, count_one; cbn;
    try (constructor; by cbn).
  - eapply (life_count_insert n _ l _ c) in Hk as [? ? ?];
      [constructor; cbn; eassumption|exact Hinv|done|done|done|by left].
  - eapply life_count_insert; [exact Hinv|done|done|done|cbn; lia|by right].
  - pose proof (sum_list_insert uncounted l t _ Waiting Ht) as Hs. cbn in Hs.
    constructor; cbn; [by rewrite length_insert|lia|]. intros _ Hn. lia.
  - pose proof (sum_list_insert uncounted l t _ AtTest Ht) as Hs. cbn in Hs.
    constructor; cbn; [by rewrite length_fmap, length_insert| |].
    + assert (forall l', sum_list_with uncounted
        ((fun p => match p with Waiting => AtTest | p => p end) <$> l') = sum_list_with uncounted l') as ->;
        [|lia]. induction l' as [|[] l' IH]; cbn; by rewrite ?IH.
    + intros (p & Hp & _)%list_elem_of_fmap. by destruct p.
  - eapply life_count_insert; [exact Hinv|done|done|done|done|by left].
  - eapply life_count_insert; [exact Hinv|done|done|done|done|by left].
  - eapply life_count_insert; [exact Hinv|done|done|done|done|by left].
  - eapply (life_count_insert n _ l _ c) in Ht as [? ? ?];
      [constructor; cbn; eassumption|exact Hinv|done|done|done|by left].
Qed.

Lemma life_invariants spurious n s :
  life_reachable spurious n s -> life_own n s /\ life_count n s.
Proof.
  intros Hs. split.
  - eapply rtc_invariant; [exact (life_own_step spurious n)|apply life_own_start|done].
  - eapply rtc_invariant; [exact (life_count_step spurious n)|apply life_count_start|done].
Qed.

(** ** Theorems *)

(** C19.  The destructor of a runtime waits for its workers: when the runtime has been
    destroyed every worker thread has ended, and while a worker is in its loop or in
    the barrier the runtime is still there. *)
Theorem destructor_waits_for_workers spurious n s t :
  life_reachable spurious n s -> l_owner s = Destroyed -> t < n -> l_pc s !! t = Some Exited.
Proof.
  intros [Hown _]%life_invariants Ho Ht. apply (lo_joined n s Hown t Ht). by rewrite Ho.
Qed.

(** How much a worker has left to do once it is to be suspended. *)
Definition thread_work (p : ThreadPc) : nat :=
  match p with
  | NotCreated => 7 | Starting => 6 | Notifying => 5 | Waiting => 4
  | InTurn => 3 | AtTest => 2 | Exited => 0
  end.
Definition owner_work (o : OwnerPc) : nat :=
  match o with Joining ts => S (length ts) | _ => 0 end.
Definition life_work (s : LifeState) : nat :=
  sum_list_with thread_work (l_pc s) + owner_work (l_owner s).

Definition is_joining (o : OwnerPc) : bool :=
  match o with Joining _ | Destroyed => true | _ => false end.

Lemma joining_step spurious n s s' :
  life_own n s -> is_joining (l_owner s) = true -> life_step spurious s s' ->
  is_joining (l_owner s') = true /\ life_work s' < life_work s.
Proof.
  intros Hinv Hj Hstep.
  destruct Hstep as [_ _ [s k Ho Hk|s Ho|s ts Ho Hts|s t ts Ho|s ts Ho Hts|s t ts Ho Ht|s Ho]
    |_ _ [s t Ht Hl|s t Ht Hl|s t Ht|s t _ Ht|s t Ht Hf|s t Ht|s t Ht Hf]]; rewrite ?Ho in Hj; try done.
  1,2: by unfold life_work; rewrite Ho; cbn; split; [done|lia].
  5:{ assert (l_suspend_flag_ s !! t = Some true); [|congruence].
      apply (lo_suspended n s Hinv t AtTest Ht); [done|].
      destruct (l_owner s); cbn in *; done || apply not_elem_of_nil. }
  all: unfold life_work; cbn; split; [done|].
  1: pose proof (sum_list_insert thread_work (l_pc s) t _ Notifying Ht) as Hs.
  2: pose proof (sum_list_insert thread_work (l_pc s) t _ Waiting Ht) as Hs.
  3: pose proof (sum_list_fmap_le thread_work (fun p => match p with Waiting => AtTest | p => p end)
       (<[t := AtTest]> (l_pc s)) ltac:(by intros []; cbn; lia)).
  3,4,5: pose proof (sum_list_insert thread_work (l_pc s) t _ AtTest Ht) as Hs.
  6: pose proof (sum_list_insert thread_work (l_pc s) t _ Exited Ht) as Hs.
  all: cbn in *; lia.
Qed.

(** A worker in the barrier can move, or another one can. *)
Lemma starting_moves s t :
  l_pc s !! t = Some Starting -> exists s', life_step false s s'.
Proof.
  intros Ht. destruct (decide (S (l_init_worker_num_ s) = length (l_pc s))).
  - eexists. by eapply thread_moves, init_last.
  - eexists. by eapply thread_moves, init_wait.
Qed.

Lemma joining_progress n s :
  life_own n s -> life_count n s -> is_joining (l_owner s) = true -> l_owner s <> Destroyed ->
  exists s', life_step false s s'.
Proof.
  intros Hown [Hlen Hcnt Hnot] Hj Hd. destruct (l_owner s) as [k| |ts|ts|] eqn:Ho; try done.
  destruct ts as [|t ts]; [eexists; by eapply owner_moves, joined|].
  assert (t < n) as Ht by (eapply (lo_joining n s Hown); [done|by left]).
  destruct (lookup_lt_is_Some_2 (l_pc s) t) as [p Hp]; [lia|].
  destruct p; try (eexists; first [by eapply thread_moves, leave_turn|by eapply thread_moves, init_notify|by eapply owner_moves, join_worker]).
  - apply (lo_created n s Hown) in Hp; [|done]. by rewrite Ho in Hp.
  - by eapply starting_moves.
  - destruct (decide (l_init_worker_num_ s = n)) as [Hn|Hn].
    + assert (Notifying ∈ l_pc s) as [t' Ht']%list_elem_of_lookup.
      { apply Hnot; [by eapply list_elem_of_lookup_2|done]. }
      eexists. by eapply thread_moves, init_notify.
    + assert (exists t', l_pc s !! t' = Some Starting) as [t' Ht'].
      { apply list_elem_of_lookup.
        assert (Starting ∈ l_pc s \/ NotCreated ∈ l_pc s) as [?|[t' Ht']%list_elem_of_lookup]; [|done|].
        - assert (0 < sum_list_with uncounted (l_pc s)) as Hpos by lia. revert Hpos. clear.
          induction (l_pc s) as [|[] l IH]; cbn; intros; [lia|right; by left|left; by left|..];
            destruct IH; rewrite ?elem_of_cons; auto.
        - apply (lo_created n s Hown) in Ht'; [by rewrite Ho in Ht'|]. rewrite <- Hlen.
          by eapply lookup_lt_Some. }
      by eapply starting_moves.
  - eexists. eapply thread_moves, (exit_thread _ s t); [done|]. apply (lo_suspended n s Hown t AtTest Hp); [done|].
    rewrite Ho. apply not_elem_of_nil.
Qed.

(** C18.  The destructor returns.  Once it has suspended the workers, every run of the
    owner and the worker threads is finite, provided only that each turn of a worker's
    loop ends, and until the runtime is destroyed some thread can move, without any
    spurious wake-up. *)
Theorem shutdown_terminates spurious n s :
  life_reachable spurious n s -> is_joining (l_owner s) = true ->
  (forall k s', nsteps (life_step spurious) k s s' -> k <= life_work s) /\
  (forall s', rtc (life_step spurious) s s' ->
     l_owner s' = Destroyed \/ exists s'', life_step false s' s'').
Proof.
  intros Hs Hj. pose proof (life_invariants _ _ _ Hs) as [Hown _]. split.
  - intros k s' Hk. revert Hown Hj. clear Hs.
    induction Hk as [s|k s s1 s' Hstep Hk IH]; intros Hown Hj; [lia|].
    destruct (joining_step spurious n s s1 Hown Hj Hstep) as [Hj1 Hlt].
    specialize (IH (life_own_step spurious n s s1 Hown Hstep) Hj1). lia.
  - intros s' Hrun. assert (is_joining (l_owner s') = true) as Hj'.
    { revert Hown Hj. clear Hs. induction Hrun as [|s s1 s' Hstep Hrun IH]; intros Hown Hj; [done|].
      destruct (joining_step spurious n s s1 Hown Hj Hstep) as [Hj1 _].
      apply IH; [by eapply life_own_step|done]. }
    assert (life_reachable spurious n s') as Hs' by (by eapply rtc_trans).
    apply life_invariants in Hs' as [Hown' Hcnt'].
    destruct (l_owner s') eqn:Ho; try (by left); right; eapply joining_progress; by rewrite ?Ho.
Qed.
End Lifecycle.

(** ** The context of a thread *)
Module Context.

(** The runtimes of the process by address, and [RuntimeCtxImpl::core_] of each
    thread, null until it is set. *)
Record Process (R V : Type) : Type := mkProcess {
  p_core_ : gmap tid nat;
  p_runtimes : gmap nat (World R V);
}.
Arguments mkProcess {R V}.
Arguments p_core_ {R V}.
Arguments p_runtimes {R V}.

Section Context.
Context {R V Env : Type} `{Registry R Env}.
Implicit Types (p : Process R V) (t : tid) (core : nat).

Definition RuntimeCtxImpl_is_in_ctx t p : bool := bool_decide (is_Some (p_core_ p !! t)).

Definition RuntimeCtxImpl_set_ctx t core : M (Process R V) unit :=
  modify (fun p => mkProcess (<[t := core]> (p_core_ p)) (p_runtimes p)).

Definition RuntimeCtxImpl_get_ctx t : M (Process R V) (option nat) :=
  let! p := get in ret (p_core_ p !! t).

(** [core->...]: undefined for a null pointer and for a runtime that is gone. *)
Definition on_core {A} (core : option nat) (m : M (World R V) A) : M (Process R V) A :=
  let! a := deref core in
  let! p := get in
  let! w := deref (p_runtimes p !! a) in
  let '(o, w') := m w in
  fun _ => (o, mkProcess (p_core_ p) (<[a := w']> (p_runtimes p))).

(** [RuntimeCtx], called on thread [t]. *)
Definition RuntimeCtx_get_ctx t : M (Process R V) (option nat) := RuntimeCtxImpl_get_ctx t.

Definition RuntimeCtx_register_future t (f : fid) : M (Process R V) unit :=
  let! core := RuntimeCtxImpl_get_ctx t in on_core core (RuntimeCore_register_future f).

(** [RuntimeCore::driver]. *)
Definition RuntimeCore_driver : M (World R V) (Driver R) := let! w := get in ret (driver_ w).
Definition RuntimeCtx_driver t : M (Process R V) (Driver R) :=
  let! core := RuntimeCtxImpl_get_ctx t in on_core core RuntimeCore_driver.

Definition RuntimeCtx_wake t (events : list eid) : M (Process R V) (list eid) :=
  let! core := RuntimeCtxImpl_get_ctx t in on_core core (RuntimeCore_wake events).

Definition RuntimeCtx_wake_local t (events : list eid) : M (Process R V) (list eid) :=
  let! core := RuntimeCtxImpl_get_ctx t in on_core core (RuntimeCore_wake_local t events).

(** [Worker::init_in_thread] up to the barrier, which is [life_step]'s. *)
Definition Worker_init_in_thread t core (a : nat) : M (Process R V) unit :=
  RuntimeCtxImpl_set_ctx t core ;;;
  on_core (Some core) (Driver_add_thread t a).

(** A thread that is in no runtime, or in one that is gone, has no context to use; any
    other one acts on its own runtime and on no other. *)
Theorem context_is_isolated {A} t (m : M (World R V) A) p :
  let run := let! core := RuntimeCtxImpl_get_ctx t in on_core core m in
  match p_core_ p !! t with
  | None => run p = (Undef, p)
  | Some core =>
      match p_runtimes p !! core with
      | None => run p = (Undef, p)
      | Some w => exists p', run p = (fst (m w), p') /\ p_core_ p' = p_core_ p /\
          p_runtimes p' !! core = Some (snd (m w)) /\
          forall core', core' <> core -> p_runtimes p' !! core' = p_runtimes p !! core'
      end
  end.
Proof.
  cbn zeta. unfold RuntimeCtxImpl_get_ctx, on_core. mred.
  destruct (p_core_ p !! t) as [core|]; [|done].
  destruct (p_runtimes p !! core) as [w|]; [|done]. destruct (m w) as [o w'].
  eexists. split; [done|]. cbn. split_and!; [done|apply lookup_insert_eq|].
  intros core' Hne. by rewrite lookup_insert_ne.
Qed.
End Context.
End Context.
