(* ===== verification/AppWitness.v ===== *)
(** Concrete systems for the theorems on sockets, files, the HTTP server, the life of
    a runtime and the shared registries. *)
From stdpp Require Import base gmap list sets strings relations.
From Stdlib Require Import ZArith Lia.
From S2P Require Import Prelude Errors Events Wheel WheelSpec WheelEquiv Futures Core Driver EpollRace Epoll BufferIO BufferIOSpec IOWitness Net Files Http HttpSpec HttpRequest HttpSession TcpSocket TcpSocketSpec Accept Apps Worker Mains FileOps FileOpsSpec Lifecycle.

(** ** Sockets *)

Definition no_sockets : NetState := mkNetState (mkOwnerState ∅ ∅) [].

Lemma no_sockets_inv : owner_inv (ns_owner no_sockets).
Proof. split; cbn; [by intros ? ? ? ?|]. intros fd. split; [set_solver|]. by intros [_ [? ?]]. Qed.

(** A kernel with the one descriptor 3, over which connections take time and port 1 is
    refused. *)
Definition small_kernel (s : NetState) (c : NetCall) : Z * Z :=
  match c with
  | sys_socket _ _ => if decide (3%Z ∈ os_open (ns_owner s)) then (-1, 24)%Z else (3, 0)%Z
  | sys_connect _ a _ => if (get_port a =? 1)%Z then (-1, 111)%Z else (-1, EINPROGRESS)%Z
  | _ => (0, 0)%Z
  end.

Lemma small_kernel_fresh : fresh_descriptors small_kernel.
Proof. intros s domain type. cbn. by case_decide. Qed.

Definition local_addr : SocketAddr := SocketAddr_new_v4 0 8080.

Lemma listener_bind_never_leaks_witness :
  exists r s', EpollListener_bind small_kernel 0 1 2 local_addr no_sockets = (Done r, s') /\
    owner_inv (ns_owner s').
Proof.
  destruct (listener_bind_never_leaks small_kernel small_kernel_fresh 0 1 2 local_addr no_sockets
    no_sockets_inv ltac:(repeat constructor; set_solver) ltac:(repeat constructor))
    as [(r & s' & Hrun & Hinv & _) _].
  exists r, s'. split; [exact Hrun|exact Hinv].
Defined.

Example bind_succeeds : exists s',
  EpollListener_bind small_kernel 0 1 2 local_addr no_sockets = (Done (Value tt), s') /\
  os_fd_ (ns_owner s') !! 2 = Some 3%Z.
Proof. eexists. split; reflexivity. Qed.

Lemma stream_connect_never_leaks_witness :
  exists r s', TcpStream_connect small_kernel 0 1 local_addr (fun _ => "") (true, true) no_sockets =
      (Done r, s') /\ owner_inv (ns_owner s').
Proof.
  destruct (stream_connect_never_leaks small_kernel small_kernel_fresh 0 1 local_addr (fun _ => "")
    (true, true) no_sockets no_sockets_inv ltac:(done) ltac:(done) ltac:(done))
    as [(r & s' & Hrun & Hinv & _) _].
  exists r, s'. split; [exact Hrun|exact Hinv].
Defined.

Example connect_later : exists s',
  TcpStream_connect small_kernel 0 1 local_addr (fun _ => "") (true, true) no_sockets =
    (Done (Value (true, true)), s') /\ length (ns_calls s') = 3.
Proof. eexists. split; reflexivity. Qed.

(** ** The client *)

Definition second_attempt (i : nat) : Result (list Z) :=
  match i with 1 => Value greeting | _ => Unexpected (mkError 111 "") end.

Lemma client_terminates_witness :
  exists i, i <= 3 /\ connect_loop second_attempt (fun i => seconds (Z.of_nat i)) 4 0 (second_attempt 0) =
    Some (i, second_attempt i).
Proof.
  destruct (client_terminates second_attempt (fun i => seconds (Z.of_nat i))) as (i & Hi & Hrun & _).
  { split; [unfold seconds; lia|]. intros i Hi. unfold seconds. lia. }
  exists i. split; [exact Hi|exact Hrun].
Defined.

Example client_reads_greeting :
  start_client second_attempt (fun i => seconds (Z.of_nat i)) 4 =
    Some (Done [97; 98; 99; 0; 0; 0; 0; 0; 0; 0]%Z).
Proof. reflexivity. Qed.

(** ** The life of a runtime *)

Definition joining_one : Lifecycle.LifeState :=
  Lifecycle.mkLifeState (Lifecycle.Joining [0]) [Lifecycle.AtTest] [true] 1.
Definition destroyed_one : Lifecycle.LifeState :=
  Lifecycle.mkLifeState Lifecycle.Destroyed [Lifecycle.Exited] [false] 1.

Lemma joining_one_reachable : Lifecycle.life_reachable false 1 joining_one.
Proof.
  eapply rtc_l; [by apply Lifecycle.owner_moves, (Lifecycle.construct_worker _ 0)|]. cbn.
  eapply rtc_l; [by apply Lifecycle.owner_moves, Lifecycle.constructed|]. cbn.
  eapply rtc_l; [by apply Lifecycle.thread_moves, (Lifecycle.init_last _ _ 0)|]. cbn.
  eapply rtc_l; [by apply Lifecycle.thread_moves, (Lifecycle.init_notify _ _ 0)|]. cbn.
  eapply rtc_l; [by apply Lifecycle.owner_moves, (Lifecycle.destroy _ [0])|]. cbn.
  eapply rtc_l; [by apply Lifecycle.owner_moves, (Lifecycle.suspend_worker _ 0 [])|]. cbn.
  eapply rtc_l; [by apply Lifecycle.owner_moves, (Lifecycle.suspended _ [0])|]. apply rtc_refl.
Qed.

Lemma destroyed_one_reachable : Lifecycle.life_reachable false 1 destroyed_one.
Proof.
  eapply rtc_trans; [exact joining_one_reachable|].
  eapply rtc_l; [by apply Lifecycle.thread_moves, (Lifecycle.exit_thread _ _ 0)|]. cbn.
  eapply rtc_l; [by apply Lifecycle.owner_moves, (Lifecycle.join_worker _ 0 [])|]. cbn.
  eapply rtc_l; [by apply Lifecycle.owner_moves, Lifecycle.joined|]. apply rtc_refl.
Qed.

Lemma destructor_waits_for_workers_witness :
  Lifecycle.l_pc destroyed_one !! 0 = Some Lifecycle.Exited.
Proof.
  exact (Lifecycle.destructor_waits_for_workers false 1 destroyed_one 0 destroyed_one_reachable
    eq_refl ltac:(lia)).
Defined.

Lemma shutdown_terminates_witness :
  (forall k s', nsteps (Lifecycle.life_step false) k joining_one s' -> k <= 4) /\
  exists s', Lifecycle.life_step false joining_one s'.
Proof.
  destruct (Lifecycle.shutdown_terminates false 1 joining_one joining_one_reachable eq_refl)
    as [Hbound Hmove].
  split; [exact Hbound|]. destruct (Hmove joining_one (rtc_refl _ _)) as [Ho|Hs]; [discriminate Ho|exact Hs].
Defined.

(** ** Shared registries *)

Lemma epoll_select_always_finds_witness :
  exists s, EpollRace.rs_fetched s = [7] /\ 7 ∈ EpollRace.rs_registered_events_ s.
Proof.
  pose (s := EpollRace.mkRaceState [7] [] [] [7] [] false).
  assert (rtc (EpollRace.epoll_race_step false) EpollRace.race_start s) as Hs.
  { eapply rtc_l; [apply (EpollRace.race_push _ _ 7)|]. cbn.
    eapply rtc_l; [apply (EpollRace.race_ctl _ _ 7); cbn; by left|]. cbn.
    eapply rtc_l; [by apply (EpollRace.race_wait _ _ [7] [])|]. apply rtc_refl. }
  destruct (EpollRace.epoll_select_always_finds s Hs) as (_ & Hin & _).
  exists s. split; [reflexivity|]. apply Hin. by left.
Defined.

(** ** Timers *)

Definition timers : EventStore :=
  let timer ms := mkEvent None (Some (ETime (mkTimeExtra (ms * ticks_per_ms)%Z))) in
  <[1 := timer 5%Z]> (<[2 := timer 70%Z]> ∅).

Definition timer_calls : list timer_op :=
  [op_insert 1; op_poll 3000; op_insert 2; op_poll 7000; op_poll 6500; op_poll 77000].

Example timers_of_list :
  fst (list_calls timers timer_calls ([], 0%Z)) = [[]; []; []; [1]; []; [2]].
Proof. vm_compute. reflexivity. Qed.


(** ** A file *)

(** The content and the position of one file; reads and writes take two bytes at
    most, the ring's reads three. *)
Definition OneFile : Type := list Z * nat.
Definition no_error : error_code := mkErrorCode 0 "".

#[global] Instance one_file : FileSystem OneFile := {
  sys_statx _ _ _ s := (0, 0, mkStatx 4095 0 0 0 0 0 0 (Z.of_nat (length s.1)) 0
    (mkTimespec 0 0) (mkTimespec 0 0) (mkTimespec 0 0) (mkTimespec 0 0) 0 0 8 1)%Z;
  sys_fsync _ s := (0%Z, 0%Z, s);
  sys_lseek _ o _ s := (o, 0%Z, (s.1, Z.to_nat o));
  sys_read _ n s :=
    let bytes := take (Nat.min n 2) (drop s.2 s.1) in
    (Z.of_nat (length bytes), 0%Z, bytes, (s.1, s.2 + length bytes));
  sys_write _ bytes s :=
    let k := Nat.min (length bytes) 2 in
    (Z.of_nat k, 0%Z, (write_at s.2 (take k bytes) s.1, s.2 + k));
  ring_read_at _ n o s :=
    let bytes := take (Nat.min n 3) (drop (Z.to_nat o) s.1) in
    (Z.of_nat (length bytes), bytes, s);
  ring_write_at _ bytes o s :=
    (Z.of_nat (length bytes), (write_at (Z.to_nat o) bytes s.1, s.2));
  fs_file_size _ s := (Z.of_nat (length s.1), no_error);
  fs_is_symlink _ _ := Some false;
  fs_symlink_status _ _ := (mkFileStatus 0 0, no_error);
  fs_status _ _ := (mkFileStatus 0 0, no_error);
  fs_permissions _ _ _ s := (no_error, s);
  fs_resize_file _ n s := (no_error, (take (Z.to_nat n) s.1, s.2));
  fs_rename _ _ s := (no_error, s);
  fs_remove _ s := (true, no_error, s);
  fs_copy_file _ _ _ s := (true, no_error, s);
}.

Lemma short_read (n k : nat) (l : list Z) :
  let bytes := take (Nat.min n k) l in
  length bytes <= n /\ length bytes <= k /\ bytes = take (length bytes) l /\
  (0 < k -> 0 < n -> bytes = [] -> l = []).
Proof.
  cbn zeta. rewrite length_take. split_and!; [lia|lia| |].
  - destruct (decide (Nat.min n k <= length l)); [by rewrite (Nat.min_l (Nat.min n k))|].
    rewrite (Nat.min_r (Nat.min n k)) by lia. by rewrite !take_ge by lia.
  - intros Hk Hn E. apply (f_equal length) in E. rewrite length_take in E. cbn in E.
    apply nil_length_inv. lia.
Qed.

#[global] Program Instance one_regular (fd : Z) : RegularFile OneFile fd := {
  rf_content := fst;
  rf_offset := snd;
}.
Next Obligation.
  intros fd n s. destruct (short_read n 2 (drop s.2 s.1)) as (H1 & H2 & H3 & H4).
  eexists _, _, _. split; [reflexivity|]. cbn [fst snd]. split_and!; [done|lia|done| |done|done].
  intros Hn. apply H4; [lia|done].
Qed.
Next Obligation.
  intros fd bytes s. exists (Nat.min (length bytes) 2). eexists _, _. split; [reflexivity|].
  cbn [fst snd]. split_and!; [lia|lia| |done|done]. destruct bytes; [done|cbn; lia].
Qed.
Next Obligation.
  intros fd o s. eexists _, _. split; [reflexivity|]. cbn. by rewrite Nat2Z.id.
Qed.

#[global] Program Instance one_ring (fd : Z) : RingFile OneFile fd := { rg_content := fst }.
Next Obligation.
  intros fd n o s. destruct (short_read n 3 (drop o s.1)) as (H1 & H2 & H3 & H4).
  eexists _, _. cbn [ring_read_at one_file]. rewrite Nat2Z.id.
  split; [reflexivity|]. split_and!; [done|done| |done]. intros Hn. apply H4; [lia|done].
Qed.

Definition the_file : File := mkFile 3 "a.txt".

Lemma file_roundtrip_witness :
  exists s1 s2 s3 b3,
    @WriteExt_write_all OneFile (file_writable the_file) 9 [1; 2; 3; 4; 5]%Z ([8; 8; 8; 8; 8; 9]%Z, 0) =
      (Done (Some (Value tt)), s1) /\
    File_seek the_file 0 SEEK_SET s1 = (Done (Value 0%Z), s2) /\
    @BufferReadExt_read_to_end OneFile (file_readable the_file) 15 (s2, BufferReader_new) =
      (Done (Some (Value [1; 2; 3; 4; 5; 9]%Z)), (s3, b3)).
Proof.
  exact (file_roundtrip the_file 9 [1; 2; 3; 4; 5]%Z ([8; 8; 8; 8; 8; 9]%Z, 0) eq_refl
    ltac:(cbn; lia) ltac:(cbn; lia)).
Defined.

Lemma uring_read_to_end_spins_witness :
  exists s' b', @BufferReadExt_read_to_end OneFile (ring_readable the_file) 20
    ([1; 2]%Z, 0, BufferReader_new) = (Done None, (s', b')).
Proof. apply (uring_read_to_end_spins the_file 20 ([1; 2]%Z, 0)). cbn. discriminate. Defined.

(** ** The HTTP server *)

Lemma slow_progress : makes_progress (W := list Z).
Proof.
  intros bytes w Hb. exists (Nat.min 2 (length bytes)). eexists. split; [|reflexivity].
  destruct bytes; [done|cbn; lia].
Qed.

Definition get_request : Request := mkRequest (RequestLine_new "GET /a.txt HTTP/1.1") ∅ [].
Definition put_request : Request := mkRequest (RequestLine_new "PUT /a.txt HTTP/1.1") ∅ [].

(** One file, [./a.txt], with the text [hi] and no line end. *)
Definition hi_file (path : string) : Result (list Z) :=
  if decide (path = "./a.txt") then Value [104; 105]%Z else Unexpected (mkError 2 "").
Definition hi_size (f : list Z) : Result Z := Value (Z.of_nat (length f)).

Lemma http_error_answers_witness :
  exists w', execute_request hi_file hi_size 200 put_request [] = (Done (Some tt), w') /\
    w' = error_response "HTTP/1.1" 500 "Internal Server Error" unsupported_body.
Proof.
  destruct (http_error_answers hi_file hi_size slow_progress 200 put_request [] Put eq_refl)
    as (_ & Hput & _).
  apply Hput; [discriminate|]. apply Nat.leb_le. vm_compute. reflexivity.
Defined.

Lemma http_get_serves_file_witness :
  exists w', execute_request hi_file hi_size 200 get_request [] = (Done (Some tt), w') /\
    w' = response_head "HTTP/1.1" 200 "OK" 2 ++ [104; 105]%Z ++ [0%Z].
Proof.
  destruct (http_get_serves_file hi_file hi_size slow_progress 200 get_request [104; 105]%Z []
    [104; 105]%Z 2 []) as (w' & Hrun & Hs); try reflexivity.
  - apply Nat.ltb_lt. vm_compute. reflexivity.
  - apply Nat.leb_le. vm_compute. reflexivity.
  - exists w'. split; [exact Hrun|]. etrans; [exact Hs|]. vm_compute. reflexivity.
Defined.

(** A connection: the bytes of the head, which come in one read, and those behind
    them. *)
Definition head_then_body (n : nat) : M (list Z * list Z) (Result (list Z)) :=
  fun s => match s.1 with
           | [] => (Done (Value (take n s.2)), ([], drop n s.2))
           | _ => (Done (Value (take n s.1)), (drop n s.1, s.2))
           end.
#[global] Instance conn_readable : Readable (list Z * list Z) := head_then_body.
#[global] Program Instance conn_stream : StreamReader (list Z * list Z) := {
  stream s := s.1 ++ s.2;
}.
Next Obligation.
  intros n [l1 l2] Hn. unfold reader_read, conn_readable, head_then_body. destruct l1 as [|x l1].
  - eexists _, _. split; [reflexivity|]. cbn. rewrite length_take, take_drop. split_and!; [lia|done|].
    intros E. destruct l2; [done|]. by destruct n; [lia|].
  - eexists _, _. split; [reflexivity|]. cbn [fst snd]. rewrite length_take.
    split_and!; [lia|by rewrite (assoc (++)), take_drop|]. by destruct n; [lia|].
Qed.

Definition post_line : string := "POST /form HTTP/1.1".
Definition post_headers : list (string * string) := [("Host", "h"); ("Content-Length", "3")].
Definition conn_shutdown (_ : Shutdown) : M (list Z * list Z) (Result unit) := ret (Value tt).

Lemma post_head_ok : line_ok post_line /\ Forall header_ok post_headers.
Proof.
  assert (forall s, forallb (fun z => negb (z =? LF)%Z) (bytes_of s) = true -> line_ok s) as Hok.
  { intros s Hs Hin. rewrite forallb_forall in Hs. apply list_elem_of_In in Hin.
    specialize (Hs _ Hin). cbn in Hs. done. }
  split; [apply Hok; reflexivity|].
  repeat constructor; cbn; apply Hok; reflexivity.
Qed.

Lemma http_receives_request_witness :
  exists r' b', receive_request conn_shutdown (fun _ => None) 9
      ((head_bytes post_line post_headers, [97; 98; 99; 100]%Z), BufferReader_new) =
    (Done (Some (Some (mkRequest (RequestLine_new post_line)
       (foldl add_header ∅ post_headers) [97; 98; 99]%Z))), (r', b')) /\
    buffered b' = [] /\ stream r' = [100%Z].
Proof.
  apply (http_receives_request conn_shutdown (fun _ => None) 9 post_line post_headers [] [97; 98; 99]%Z
    [100%Z] _ ([], [97; 98; 99; 100]%Z)); try reflexivity.
  - apply post_head_ok.
  - apply post_head_ok.
  - apply Nat.ltb_lt. reflexivity.
  - apply Nat.leb_le. reflexivity.
Defined.

Lemma http_short_body_hangs_witness :
  exists s', receive_request conn_shutdown (fun _ => None) 50
      ((head_bytes post_line post_headers ++ [97; 98; 99]%Z, []), BufferReader_new) =
    (Done None, s').
Proof.
  apply (http_short_body_hangs conn_shutdown (fun _ => None) 50 post_line post_headers [97; 98; 99]%Z 3 _
    ([], [])); try reflexivity.
  - apply post_head_ok.
  - apply post_head_ok.
  - cbn. lia.
  - apply Nat.ltb_lt. reflexivity.
Defined.

Definition get_line : string := "GET /a.txt HTTP/1.1".

(** A [GET] with one header and no body. *)
Lemma http_session_answers_witness :
  exists r' b' w', http_session conn_shutdown (fun _ => None) hi_file hi_size 300
      ((head_bytes get_line [("Host", "h")], [] : list Z), BufferReader_new, [] : list Z) =
    (Done (Some tt), (r', b', w')) /\
    w' = response_head "HTTP/1.1" 200 "OK" 2 ++ [104; 105; 0]%Z.
Proof.
  assert (line_ok get_line /\ Forall header_ok [("Host", "h")]) as [H1 H2].
  { assert (forall s, forallb (fun z => negb (z =? LF)%Z) (bytes_of s) = true -> line_ok s) as Hok.
    { intros s Hs Hin. rewrite forallb_forall in Hs. apply list_elem_of_In in Hin.
      specialize (Hs _ Hin). cbn in Hs. done. }
    split; [apply Hok; reflexivity|]. repeat constructor; cbn; apply Hok; reflexivity. }
  destruct (http_session_answers conn_shutdown (fun _ => None) hi_file hi_size slow_progress 300 get_line
    [("Host", "h")] [] [] [] (head_bytes get_line [("Host", "h")], []) ([], []) []
    (response_head "HTTP/1.1" 200 "OK" 2 ++ [104; 105]%Z ++ trailer 0 [104; 105]%Z))
    as (r' & b' & w' & Hrun & Hs & _); try reflexivity; [exact H1|exact H2| | |].
  - apply (answer_file hi_file hi_size (mkRequest (RequestLine_new get_line) (foldl add_header ∅ [("Host", "h")]) [])
      [104; 105]%Z [] [104; 105]%Z 2); try reflexivity.
    apply Nat.ltb_lt. vm_compute. reflexivity.
  - split_and!; apply Nat.leb_le; vm_compute; reflexivity.
  - exists r', b', w'. split; [exact Hrun|exact Hs].
Defined.

(** ** The server's loop *)

(** A kernel with one connection, descriptor 4, at a time. *)
Definition one_connection (s : NetState) (c : NetCall) : Z * Z :=
  match c with
  | sys_accept4 _ _ => if decide (4%Z ∈ os_open (ns_owner s)) then (-1, EAGAIN)%Z else (4, 0)%Z
  | ring_accept _ _ => if decide (4%Z ∈ os_open (ns_owner s)) then (- EAGAIN, 0)%Z else (4, 0)%Z
  | _ => (0, 0)%Z
  end.

Lemma one_connection_opens : accept_opens one_connection.
Proof.
  split; intros s fd flags; cbn; case_decide; [done|done| |done]. unfold EAGAIN. cbn. lia.
Qed.

(** The listener is object 0 with descriptor 3; the first session has its stream in
    object 9. *)
Definition loop_objects : TurnObjects := mkTurnObjects 1 2 5 6.

Lemma server_leaks_nothing_witness :
  exists s, server_reachable one_connection 0 loop_objects 3 s /\ ss_live s = [9] /\
    (forall x, x ∈ os_open (ns_owner (ss_net s)) <->
       exists y, y ∈ [0; 9] /\ os_fd_ (ns_owner (ss_net s)) !! y = Some x).
Proof.
  destruct (server_turn_run one_connection one_connection_opens [false] 0 loop_objects 9 3
    (ss_net (server_start 0 3))) as (s' & [[Hrun _]|[[Hrun _]|[Hrun _]]]);
    [repeat constructor; set_solver|repeat constructor|reflexivity| | |].
  2,3: exfalso; revert Hrun; vm_compute; discriminate.
  assert (server_reachable one_connection 0 loop_objects 3 (mkServerState s' [9] [])) as Hr.
  { apply rtc_once. eapply (serve _ _ _ [false]); [|reflexivity|exact Hrun].
    intros Hin. unfold turn_objects in Hin. cbn in Hin. set_solver. }
  exists (mkServerState s' [9] []). split; [exact Hr|]. split; [reflexivity|].
  exact (proj1 (proj2 (server_leaks_nothing one_connection one_connection_opens 0 loop_objects
    ltac:(repeat constructor; set_solver) 3 (mkServerState s' [9] []) ltac:(done) Hr))).
Defined.

(** ** The programs *)

Definition empty_memory : World ProgramRegistry nat :=
  mkWorld (mkHeap ∅ ∅) ∅ [] (mkWorker false []) ∅ (mkDriver [] ∅) ∅ ∅ 1 None.

Lemma programs_start_witness :
  exists w', main (fun _ _ => ret Pending) (fun _ => ret tt) 5 0 [1; 2] 100 (mkCall 1 1) (mkCall 2 2) [] empty_memory =
      (Done true, w') /\
    shares_registries [0; 1; 2] 2 w' /\ w_handles_ w' = [(Some 2, None)].
Proof.
  destruct (programs_start (fun _ _ => ret Pending) (fun _ => ret tt) 5 0 [1; 2] 100 empty_memory) as [Hmain _].
  - repeat constructor; set_solver.
  - done.
  - destruct (Hmain (mkCall 1 1) (mkCall 2 2) []) as (w' & Hrun & Hsh & Hq & _).
    exists w'. split; [exact Hrun|]. split; [exact Hsh|exact Hq].
Defined.
